(* ===== verification/_CoqProject ===== *)
-Q . S2P
Prelude.v
Bytes.v
Numerals.v
SocketAddr.v
BTreeMap.v
Externals.v
VectorClock.v
Memtable.v
Wal.v
Snapshot.v
Engine.v
EngineDurability.v
EngineRace.v
EngineFlush.v
EngineLinear.v
ConsistentHash.v
Quorum.v
Proto.v
Coordinator.v
Detector.v
Service.v
Cluster.v
Server.v
GossipNet.v
Rpc.v
Cli.v
System.v
SystemSteps.v
SystemOps.v
SystemSim.v
SystemReads.v
SystemQuorum.v
UnitTests.v
Bench.v
StorageTests.v
RingTests.v
