(* ===== verification/Prelude.v ===== *)
(** * A verification library for rkv

    rkv is a replicated key-value store: every process (src/src/bin/server.rs) holds a
    storage engine, a view of a consistent hash ring, a gossip service that keeps the
    view up to date, and a coordinator that reads and writes keys on several processes.
    This library models the program as executable Rocq definitions, one file per
    component, and proves what the components promise, alone and together.

    ** The files

    Shared:
    - Prelude: outcomes of fallible code, machine integers, automation, generic lemmas.
    - Bytes, Numerals, BTreeMap: what the sources use of the Rust standard library:
      UTF-8, lines, splitting and trimming, integers as bytes; decimal numerals;
      ordered maps.
    - Externals: the crates crc32fast, sha2, serde_json and bincode as classes of
      operations with laws, and one concrete instance of each for the examples.

    Storage (src/src/storage):
    - VectorClock and Memtable (memtable.rs): clocks, versioned values, the table.
    - Wal (wal.rs): the log as the bytes of its file. Snapshot (snapshot.rs): the
      snapshot directory as a map from file names to bytes.
    - Engine (engine.rs): the operations one at a time, on an engine and a [disk], the
      part of the state that survives a crash. EngineDurability: crash safety of these
      operations. EngineRace: the same operations cut at their lock regions and
      interleaved by an arbitrary schedule. EngineFlush: crash safety of these schedules,
      flushes included. EngineLinear: their refinement of an atomic map.

    Distribution:
    - ConsistentHash (ring/consistent_hash.rs), Quorum (replication/quorum.rs), Proto
      (the message types of grpc/rkv.rs and the conversions of coordinator.rs).
    - Coordinator (replication/coordinator.rs): coordinated put, get and delete, with
      the outcome of every call to a peer as an input.
    - Detector (gossip/detector.rs): peer table, merging, timeouts, gossip rounds.
    - Service (grpc/service.rs): the ten request handlers on the state of a node.
    - Cluster: puts, deletes and gets of a client at one node as single events, whose
      calls run the handlers of the other nodes over a network that loses requests and
      replies.
    - Server (bin/server.rs): arguments, seed list, construction of a node, and [main].
      SocketAddr: the parser of the standard library that reads its listen address.
    - GossipNet: the gossip services of many processes, started and restarted, with
      messages delayed, lost, duplicated and reordered.
    - Rpc (the stubs of grpc/rkv.rs): the client and server structs with their settings,
      client paths, service traits and server dispatch; prost and tonic are classes with
      laws.
    - Cli (bin/cli.rs): the requests and the printed lines of every command.

    The running program:
    - System: all processes of all machines as a transition system. A process starts,
      crashes and starts again on its disk; a client's request is accepted, does its
      local half, waits for its calls, and returns; every call is served late, once or
      never and answered, lost or timed out; a bulk request is taken item by item; the
      background tasks and the gossip of every process take their steps in between. Its
      events are the operations of Server, Service, Coordinator, Detector and Engine.
    - SystemSteps: what an event does to one operation, as a step relation. SystemOps:
      what acknowledgements mean, and that operations return. SystemReads: where the
      values that are read come from. SystemQuorum: when a get must see an acknowledged
      put or a tombstone. SystemSim: the simulations by which Cluster and GossipNet are
      views of System.

    Tests: UnitTests (shared), StorageTests and RingTests: the unit tests of the
    repository as programs over the model. Bench: the benchmark of the table
    (benches/storage_bench.rs), whose loops do the work that they are named after.

    ** Conventions

    An operation is a function from the state and its arguments to the new state and
    the result; names and order of effects are those of the code. A struct is a record
    [t] in a module of its name. [Result] is [result], [Option] is [option], a panic is
    the value [Panic] of [outcome]. A [String] is a [string] of its UTF-8 bytes, a
    [Vec<u8>] a [list byte]; fixed-width integers are [Z] (clock counters [N]) with the
    wrap-around of release builds written out ([wrap_u32], [wrap_u64], [wrap_i64]).
    A [HashMap] is a [gmap]; where its iteration order could matter the operation takes
    the listing, and a lemma shows that every order gives the same result.

    What the program gets from outside is an argument: [now] and [at_] are readings of
    the clock, one per reading of the code; [write_outcome] says how much of a write
    reached the file; the outcome of every remote call, the choice of gossip targets
    ([Rng]) and every delivery are inputs. Third-party code is a class parameter; its
    [...Laws] class states the documented behaviour that a theorem uses. Loops are
    structural recursions or folds over the listing they visit, so no fuel is needed
    and every operation is total.

    ** What is shown

    - Storage. A history of writes, flushes, reaping and crashes is read and scanned as a
      plain map ([engine_refines_plain_map]); crashes inside a log append and between the
      steps of a flush are atomic. Under concurrent use the engine in memory is an atomic
      map ([engine_is_linearizable]); on disk every interleaving is crash safe except for
      the keys written while a flush runs, as long as no two writes of one key overlap
      between log and table ([flushes_expose_only_overlapping_writes]). Counterexamples
      mark the border: a put during a flush, two puts of one key, an append behind a torn
      line, a torn snapshot.
    - The table implements the map of live values, scans are sorted prefixes of it, the
      size counter is exact modulo 2^64. Log and snapshots round-trip; cleanup keeps the
      newest; a snapshot with one byte changed is recognised.
    - Clocks. [dominates] decides the causal order and [merge] is its join.
    - Ring. The preference list is the distinct prefix of a clockwise walk; membership
      changes move only what they have to; the ring reflects the last change per node.
    - Replication. Acknowledged puts are stored by a write quorum, and reads whose
      answers overlap it see them or something newer, if wall clocks follow causality;
      what counts as an acknowledgement, and how conflicts, tombstones and failures are
      resolved, is characterised branch by branch. Acknowledged deletes leave
      tombstones at a write quorum, which other nodes nevertheless read as values.
    - Membership. Routing avoids dead nodes, merging keeps the newest version, silent
      peers die at the configured timeouts. Across a network: no address but those of
      the seed lists ever travels, so every peer eventually becomes unreachable or dead,
      and a node that has heard of its peers refuses every replicated put. A node in its
      own seed list leaves its own ring; a node without seeds refuses default quorums.
    - Stubs. Every client method reaches the handler of its name.
    - The running system. Every reachable system is well formed; every node answers
      reads and scans from the writes its machine stored, whenever it was last
      restarted, and can always be restarted; acknowledged puts are stored by a write
      quorum of machines; every operation returns; nothing is read that nobody asked to
      write; late requests overwrite newer values, but once the replicas of a put have
      settled on it, a get whose answers overlap its write quorum sees it
      ([settled_puts_are_read]), and finds a deleted key by its tombstones
      ([settled_deletes_are_found]). A put, delete or get whose calls are served at once is
      the atomic operation of Cluster, a bulk request whose items are taken at once is
      its handler, and the membership is that of GossipNet.
    - Tests. 29 of the 31 unit tests pass, for the clock readings, checksums and (in
      three cases) positions on the ring that their theorems name; the two statistical
      tests of the ring are reduced to the shares of keys that SHA-256 gives each node.

    ** What is not modelled

    The async runtime: a handler, or the part of one between two awaits, is a step, a
    background task its iterations. The operations of one engine are atomic in System.v;
    EngineLinear.v and EngineFlush.v say what is left of that when the steps of one
    engine interleave. Operating-system errors other than failed writes; the log output;
    listening to the network; argument parsing by clap; the measuring by criterion and
    the module files; the [GrpcMethod] extension that the stubs attach to a request and
    nothing reads. A coordinated request reads the ring twice; Coordinator.v takes one
    view for both, System.v reads it at two events. System.v starts processes that are
    not their own seeds ([event_ok]); what happens otherwise is in Server.v. *)

From stdpp Require Export base tactics decidable option list numbers gmap strings pretty sorting.
From Stdlib Require Export ZArith Lia.

#[export] Set Default Goal Selector "!".

(** ** Outcomes of fallible code *)

(** [std::io::ErrorKind], as far as the sources produce or observe it. *)
Inductive io_error :=
| NotFound
| UnexpectedEof
| InvalidData
| OtherIo.

(** Rust's [Result<A, E>]. *)
Inductive result (E A : Type) :=
| Ok (a : A)
| Err (e : E).
Arguments Ok {E A} a.
Arguments Err {E A} e.

(** A computation that may panic instead of returning. *)
Inductive outcome (A : Type) :=
| Return (a : A)
| Panic.
Arguments Return {A} a.
Arguments Panic {A}.

Definition result_bind {E A B} (r : result E A) (k : A -> result E B) : result E B :=
  match r with Ok a => k a | Err e => Err e end.

Definition result_map_err {E F A} (f : E -> F) (r : result E A) : result F A :=
  match r with Ok a => Ok a | Err e => Err (f e) end.

Definition outcome_bind {A B} (r : outcome A) (k : A -> outcome B) : outcome B :=
  match r with Return a => k a | Panic => Panic end.

(** [Option::unwrap], [Result::unwrap] and [assert!]. *)
Definition unwrap {A} (o : option A) : outcome A :=
  match o with Some a => Return a | None => Panic end.
Definition unwrap_ok {E A} (r : result E A) : outcome A :=
  match r with Ok a => Return a | Err _ => Panic end.
Definition assert (b : bool) : outcome unit := if b then Return tt else Panic.

Definition is_ok {E A} (r : result E A) : bool :=
  match r with Ok _ => true | Err _ => false end.

Declare Scope rkv_scope.
Delimit Scope rkv_scope with rkv.
Open Scope rkv_scope.

(** [e?] of the sources: continue on [Ok], return the error otherwise. *)
Notation "x <-? e ;; k" := (result_bind e (fun x => k))
  (at level 100, e at next level, right associativity) : rkv_scope.

(** Statements in sequence, any of which may panic. *)
Notation "'let!' x := e 'in' k" := (outcome_bind e (fun x => k))
  (at level 10, x binder, e at level 200, k at level 200) : rkv_scope.

#[export] Instance io_error_eq_dec : EqDecision io_error.
Proof. solve_decision. Defined.

#[export] Instance result_eq_dec {E A} `{EqDecision E, EqDecision A} :
  EqDecision (result E A).
Proof. solve_decision. Defined.

#[export] Instance outcome_eq_dec {A} `{EqDecision A} : EqDecision (outcome A).
Proof. solve_decision. Defined.

(** ** Machine integers

    A [u32], [u64] or [i64] is a [Z]; every operation that can leave the range
    wraps explicitly, as the release profile and the atomics do. *)

Definition wrap_u32 (z : Z) : Z := (z `mod` 2 ^ 32)%Z.
Definition wrap_u64 (z : Z) : Z := (z `mod` 2 ^ 64)%Z.
Definition wrap_i64 (z : Z) : Z := ((z + 2 ^ 63) `mod` 2 ^ 64 - 2 ^ 63)%Z.

Definition in_u32 (z : Z) : Prop := (0 <= z < 2 ^ 32)%Z.
Definition in_u64 (z : Z) : Prop := (0 <= z < 2 ^ 64)%Z.
Definition in_i64 (z : Z) : Prop := (- 2 ^ 63 <= z < 2 ^ 63)%Z.
Definition in_i32 (z : Z) : Prop := (- 2 ^ 31 <= z < 2 ^ 31)%Z.

#[export] Instance in_u32_dec z : Decision (in_u32 z).
Proof. unfold in_u32; apply _. Defined.
#[export] Instance in_u64_dec z : Decision (in_u64 z).
Proof. unfold in_u64; apply _. Defined.
#[export] Instance in_i64_dec z : Decision (in_i64 z).
Proof. unfold in_i64; apply _. Defined.
#[export] Instance in_i32_dec z : Decision (in_i32 z).
Proof. unfold in_i32; apply _. Defined.

Create HintDb rkv.

Lemma wrap_u32_range z : in_u32 (wrap_u32 z).
Proof. apply Z.mod_pos_bound; lia. Qed.
Lemma wrap_u64_range z : in_u64 (wrap_u64 z).
Proof. apply Z.mod_pos_bound; lia. Qed.
Lemma wrap_i64_range z : in_i64 (wrap_i64 z).
Proof.
  unfold in_i64, wrap_i64.
  pose proof (Z.mod_pos_bound (z + 2 ^ 63) (2 ^ 64)); lia.
Qed.
#[export] Hint Resolve wrap_u32_range wrap_u64_range wrap_i64_range : rkv.

Lemma wrap_u32_small z : in_u32 z -> wrap_u32 z = z.
Proof. apply Z.mod_small. Qed.
Lemma wrap_u64_small z : in_u64 z -> wrap_u64 z = z.
Proof. apply Z.mod_small. Qed.
Lemma wrap_i64_small z : in_i64 z -> wrap_i64 z = z.
Proof. unfold in_i64, wrap_i64; intros; rewrite Z.mod_small; lia. Qed.

(** Wrapping is a ring homomorphism: inner wraps can be dropped. *)
Lemma wrap_u64_add_l a b : wrap_u64 (wrap_u64 a + b) = wrap_u64 (a + b).
Proof. apply Z.add_mod_idemp_l; lia. Qed.
Lemma wrap_u64_add_r a b : wrap_u64 (a + wrap_u64 b) = wrap_u64 (a + b).
Proof. apply Z.add_mod_idemp_r; lia. Qed.
Lemma wrap_u64_sub_l a b : wrap_u64 (wrap_u64 a - b) = wrap_u64 (a - b).
Proof. apply Zminus_mod_idemp_l. Qed.
Lemma wrap_u64_sub_r a b : wrap_u64 (a - wrap_u64 b) = wrap_u64 (a - b).
Proof. apply Zminus_mod_idemp_r. Qed.
Lemma wrap_u64_idem a : wrap_u64 (wrap_u64 a) = wrap_u64 a.
Proof. apply wrap_u64_small, wrap_u64_range. Qed.
Create Rewrite HintDb rkv_wrap.
#[export] Hint Rewrite wrap_u64_add_l wrap_u64_add_r wrap_u64_sub_l wrap_u64_sub_r
  wrap_u64_idem : rkv_wrap.

(** ** Tactics of the development *)

(** Case analysis on every [if] and [match] on a boolean or option test. *)
Ltac cases := repeat case_match; simplify_eq/=.

(** Reflect a boolean comparison or conjunction in the context. *)
Ltac reflect_bool :=
  repeat match goal with
  | H : (_ && _)%bool = true |- _ => apply andb_true_iff in H as [? ?]
  | H : (_ && _)%bool = false |- _ => apply andb_false_iff in H
  | H : (_ || _)%bool = true |- _ => apply orb_true_iff in H
  | H : (_ || _)%bool = false |- _ => apply orb_false_iff in H as [? ?]
  | H : negb _ = true |- _ => apply negb_true_iff in H
  | H : negb _ = false |- _ => apply negb_false_iff in H
  | H : bool_decide _ = true |- _ => apply bool_decide_eq_true in H
  | H : bool_decide _ = false |- _ => apply bool_decide_eq_false in H
  | H : (_ <? _)%Z = true |- _ => apply Z.ltb_lt in H
  | H : (_ <? _)%Z = false |- _ => apply Z.ltb_ge in H
  | H : (_ <=? _)%Z = true |- _ => apply Z.leb_le in H
  | H : (_ <=? _)%Z = false |- _ => apply Z.leb_gt in H
  | H : (_ =? _)%Z = true |- _ => apply Z.eqb_eq in H
  | H : (_ =? _)%Z = false |- _ => apply Z.eqb_neq in H
  end.

(** Prove a decidable fact about concrete data by computing the decision. *)
Ltac decided := apply (bool_decide_unpack _); vm_compute; exact I.

(** ** Generic lemmas on lists and options *)

Lemma result_bind_ok {E A B} (r : result E A) (k : A -> result E B) b :
  result_bind r k = Ok b <-> exists a, r = Ok a /\ k a = Ok b.
Proof. destruct r; simpl; naive_solver. Qed.

Lemma list_filter_fmap {A B} (P : B -> Prop) `{!forall x, Decision (P x)} (f : A -> B) (l : list A) :
  filter P (f <$> l) = f <$> filter (fun x => P (f x)) l.
Proof.
  induction l as [|x l IH]; [done|]. rewrite fmap_cons, !filter_cons.
  case_decide; by rewrite ?fmap_cons, IH.
Qed.

Section TakeFilter.
Context {A : Type} (P : A -> Prop) `{!forall x, Decision (P x)}.

Lemma take_filter_prefix k (l : list A) : filter P (take k l) `prefix_of` take k (filter P l).
Proof.
  revert k; induction l as [|x l IH]; intros [|k]; cbn [take]; try apply prefix_nil.
  rewrite !filter_cons. case_decide; cbn [take]; [by apply prefix_cons|].
  etrans; [apply (IH k)|].
  replace (take k (filter P l)) with (take k (take (S k) (filter P l)))
    by (rewrite take_take; f_equal; lia).
  apply prefix_take.
Qed.

Lemma take_filter_all k (l : list A) : Forall P (take k l) -> take k (filter P l) = take k l.
Proof.
  revert k; induction l as [|x l IH]; intros [|k]; cbn [take]; try done.
  intros [Hx Hl]%Forall_cons. rewrite filter_cons, decide_True by done. cbn [take].
  by rewrite IH.
Qed.
End TakeFilter.

(** A list without duplicate images determines its elements by their images. *)
Lemma NoDup_fmap_elem_inj {A B} (f : A -> B) (l : list A) x y :
  NoDup (f <$> l) -> x ∈ l -> y ∈ l -> f x = f y -> x = y.
Proof.
  intros Hnd [i Hi]%list_elem_of_lookup [j Hj]%list_elem_of_lookup Hf.
  assert (i = j) as <-; [|congruence].
  eapply (NoDup_lookup (f <$> l)); [done|by rewrite list_lookup_fmap, Hi|].
  rewrite list_lookup_fmap, Hj. cbn. by rewrite Hf.
Qed.

(** A filter that every element passes. *)
Lemma list_filter_all {A} (P : A -> Prop) `{!forall x, Decision (P x)} (l : list A) :
  Forall P l -> filter P l = l.
Proof.
  induction 1 as [|x l Hx _ IH]; [done|]. by rewrite filter_cons, decide_True, IH.
Qed.

(** Filters that agree on the elements of a list agree on the list. *)
Lemma list_filter_iff_elem {A} (P Q : A -> Prop) `{!forall x, Decision (P x), !forall x, Decision (Q x)}
    (l : list A) : (forall x, x ∈ l -> P x <-> Q x) -> filter P l = filter Q l.
Proof.
  induction l as [|x l IH]; intros Hpq; [done|]. rewrite !filter_cons.
  rewrite IH by (intros y Hy; apply Hpq; by right).
  destruct (Hpq x) as [HPQ HQP]; [by left|].
  destruct (decide (P x)), (decide (Q x)); tauto || done.
Qed.

Lemma NoDup_fmap_filter {A B} (f : A -> B) (P : A -> Prop) `{!forall x, Decision (P x)} (l : list A) :
  NoDup (f <$> l) -> NoDup (f <$> filter P l).
Proof.
  induction l as [|x l IH]; [done|]. rewrite fmap_cons. intros [Hx Hnd]%NoDup_cons.
  rewrite filter_cons. case_decide; [|by apply IH]. rewrite fmap_cons. constructor; [|by apply IH].
  intros (y & Hy & [_ Hin]%list_elem_of_filter)%list_elem_of_fmap. apply Hx. rewrite Hy.
  by apply list_elem_of_fmap_2.
Qed.
