(* ===== verification/Bytes.v ===== *)
(** Bytes and text: the parts of the Rust standard library the sources rely on for
    [String], [Vec<u8>], [to_le_bytes], [from_le_bytes], [from_be_bytes],
    [str::from_utf8], [str::trim] and [BufRead::lines].

    A [String] is a Rocq [string] whose characters are its UTF-8 bytes, a [Vec<u8>]
    is a [list byte]. *)

From S2P Require Import Prelude.
From Stdlib Require Import Strings.Byte.
Open Scope Z_scope.

Abbreviation byte := Byte.byte.

#[export] Instance byte_eq_dec : EqDecision byte := Byte.byte_eq_dec.
#[export] Instance byte_countable : Countable byte :=
  inj_countable Byte.to_N Byte.of_N Byte.of_to_N.

(** ** Integers as bytes *)

Definition byte_of_Z (z : Z) : byte :=
  default Byte.x00 (Byte.of_N (Z.to_N (z `mod` 256))).
Definition Z_of_byte (b : byte) : Z := Z.of_N (Byte.to_N b).

(** The [n] low-order bytes of [z], least significant first; on a negative [z] these
    are the bytes of its two's complement ([i64::to_le_bytes]). *)
Fixpoint le_bytes (n : nat) (z : Z) : list byte :=
  match n with
  | O => []
  | S n => byte_of_Z z :: le_bytes n (z `div` 256)
  end.

Definition le_value (bs : list byte) : Z :=
  foldr (fun b acc => Z_of_byte b + 256 * acc) 0 bs.

(** [u64::from_be_bytes]. *)
Definition be_value (bs : list byte) : Z := le_value (reverse bs).

(** ** Strings *)

Definition bytes_of_string (s : string) : list byte := String.list_byte_of_string s.
Definition string_of_bytes (bs : list byte) : string := String.string_of_list_byte bs.

(** [str::len]: the number of UTF-8 bytes. *)
Definition str_len (s : string) : Z := Z.of_nat (String.length s).
Definition vec_len {A} (v : list A) : Z := Z.of_nat (length v).

(** ** UTF-8 *)

Definition is_cont (b : byte) : bool := (0x80 <=? Z_of_byte b) && (Z_of_byte b <=? 0xBF).
Definition cont_bits (b : byte) : Z := Z.land (Z_of_byte b) 0x3F.

Definition is_scalar (c : Z) : bool :=
  (c <? 0xD800) || ((0xE000 <=? c) && (c <=? 0x10FFFF)).

(** The code points of a byte sequence, [None] when it is not valid UTF-8: stray
    continuation bytes, overlong forms, surrogates and truncation are refused. *)
Fixpoint utf8_decode (bs : list byte) : option (list Z) :=
  match bs with
  | [] => Some []
  | b0 :: r0 =>
    let z0 := Z_of_byte b0 in
    if z0 <? 0x80 then cons z0 <$> utf8_decode r0
    else if (0xC2 <=? z0) && (z0 <=? 0xDF) then
      match r0 with
      | b1 :: r1 =>
        if is_cont b1 then
          cons (Z.shiftl (Z.land z0 0x1F) 6 + cont_bits b1) <$> utf8_decode r1
        else None
      | [] => None
      end
    else if (0xE0 <=? z0) && (z0 <=? 0xEF) then
      match r0 with
      | b1 :: b2 :: r2 =>
        let c := Z.shiftl (Z.land z0 0x0F) 12 + Z.shiftl (cont_bits b1) 6 + cont_bits b2 in
        if is_cont b1 && is_cont b2 && (0x800 <=? c) && is_scalar c
        then cons c <$> utf8_decode r2 else None
      | _ => None
      end
    else if (0xF0 <=? z0) && (z0 <=? 0xF4) then
      match r0 with
      | b1 :: b2 :: b3 :: r3 =>
        let c := Z.shiftl (Z.land z0 0x07) 18 + Z.shiftl (cont_bits b1) 12
                 + Z.shiftl (cont_bits b2) 6 + cont_bits b3 in
        if is_cont b1 && is_cont b2 && is_cont b3 && (0x10000 <=? c) && is_scalar c
        then cons c <$> utf8_decode r3 else None
      | _ => None
      end
    else None
  end.

Definition utf8_valid (bs : list byte) : bool :=
  match utf8_decode bs with Some _ => true | None => false end.

(** A [String]: its bytes are UTF-8. *)
Definition str_wf (s : string) : Prop := utf8_valid (bytes_of_string s) = true.
(** [Path::join] with a relative name. *)
Definition path_join (dir name : string) : string :=
  match last (bytes_of_string dir) with
  | None => name
  | Some b => if bool_decide (b = Byte.x2f) then dir +:+ name else dir +:+ "/" +:+ name
  end.

#[export] Instance str_wf_dec s : Decision (str_wf s).
Proof. unfold str_wf; apply _. Defined.

(** [char::is_whitespace]: the Unicode White_Space property. *)
Definition is_whitespace (c : Z) : bool :=
  ((0x9 <=? c) && (c <=? 0xD)) || (c =? 0x20) || (c =? 0x85) || (c =? 0xA0)
  || (c =? 0x1680) || ((0x2000 <=? c) && (c <=? 0x200A)) || (c =? 0x2028)
  || (c =? 0x2029) || (c =? 0x202F) || (c =? 0x205F) || (c =? 0x3000).

(** [line.trim().is_empty()] on a valid string given by its code points. *)
Definition is_blank (cs : list Z) : bool := forallb is_whitespace cs.

(** ** Splitting and trimming *)

(** [str::split] on an ASCII character: the pieces between its occurrences. *)
Fixpoint split_bytes (sep : byte) (bs : list byte) : list (list byte) :=
  match bs with
  | [] => [[]]
  | b :: bs =>
    if decide (b = sep) then [] :: split_bytes sep bs
    else match split_bytes sep bs with
         | piece :: rest => (b :: piece) :: rest
         | [] => [[b]]
         end
  end.

Definition str_split (sep : byte) (s : string) : list string :=
  string_of_bytes <$> split_bytes sep (bytes_of_string s).

(** The characters of a valid string, each as its bytes. *)
Fixpoint char_pieces (bs : list byte) : list (list byte) :=
  match bs with
  | [] => []
  | b0 :: r0 =>
    let z0 := Z_of_byte b0 in
    if z0 <? 0x80 then [b0] :: char_pieces r0
    else if z0 <? 0xE0 then
      match r0 with b1 :: r1 => [b0; b1] :: char_pieces r1 | _ => [bs] end
    else if z0 <? 0xF0 then
      match r0 with b1 :: b2 :: r2 => [b0; b1; b2] :: char_pieces r2 | _ => [bs] end
    else
      match r0 with
      | b1 :: b2 :: b3 :: r3 => [b0; b1; b2; b3] :: char_pieces r3
      | _ => [bs]
      end
  end.

Definition is_white_piece (p : list byte) : bool :=
  match utf8_decode p with Some [c] => is_whitespace c | _ => false end.

Fixpoint drop_white (ps : list (list byte)) : list (list byte) :=
  match ps with
  | [] => []
  | p :: ps' => if is_white_piece p then drop_white ps' else ps
  end.

(** [str::trim]. *)
Definition str_trim (s : string) : string :=
  let pieces := drop_white (char_pieces (bytes_of_string s)) in
  string_of_bytes (concat (reverse (drop_white (reverse pieces)))).

(** ** Lines *)

(** The pieces of a file that [read_line] returns one after the other: each ends after
    a line feed, the last one may lack it; an empty rest gives no piece. *)
Fixpoint raw_lines (bs : list byte) : list (list byte * bool) :=
  match bs with
  | [] => []
  | b :: bs' =>
    if decide (b = Byte.x0a) then ([], true) :: raw_lines bs'
    else match raw_lines bs' with
         | (l, nl) :: ls =>
           (* [b] belongs to the first piece of the rest *)
           (b :: l, nl) :: ls
         | [] => [([b], false)]
         end
  end.

(** [BufRead::lines] removes the line feed, and a carriage return before it. *)
Definition strip_cr (l : list byte) : list byte :=
  match last l with
  | Some Byte.x0d => take (length l - 1) l
  | _ => l
  end.

(** One item of the iterator: [None] is the [Err] of a piece that is not UTF-8. *)
Definition read_line_item (p : list byte * bool) : option (list byte) :=
  let '(l, nl) := p in
  if utf8_valid (if nl then l ++ [Byte.x0a] else l)
  then Some (if nl then strip_cr l else l) else None.

Definition lines (bs : list byte) : list (option (list byte)) :=
  read_line_item <$> raw_lines bs.

(** A line of the file: no line feed inside, read back as it was written. *)
Definition one_line (l : list byte) : Prop :=
  (Byte.x0a ∉ l) /\ last l <> Some Byte.x0d /\ utf8_valid l = true.

(** A file whose last piece is ended by its line feed. *)
Definition complete (bs : list byte) : Prop := bs = [] \/ last bs = Some Byte.x0a.
#[export] Instance complete_dec bs : Decision (complete bs).
Proof. unfold complete; apply _. Defined.

(** ** Facts *)

Lemma Z_of_byte_range b : 0 <= Z_of_byte b < 256.
Proof. unfold Z_of_byte; pose proof (Byte.to_N_bounded b); lia. Qed.

Lemma Z_of_byte_of_Z z : Z_of_byte (byte_of_Z z) = z `mod` 256.
Proof.
  unfold Z_of_byte, byte_of_Z.
  pose proof (Z.mod_pos_bound z 256).
  destruct (Byte.of_N (Z.to_N (z `mod` 256))) as [b|] eqn:E; simpl.
  - apply Byte.to_of_N in E; lia.
  - apply Byte.of_N_None_iff in E; lia.
Qed.

Lemma byte_of_Z_of_byte b : byte_of_Z (Z_of_byte b) = b.
Proof.
  pose proof (Z_of_byte_range b). unfold byte_of_Z.
  rewrite Z.mod_small by lia. unfold Z_of_byte.
  by rewrite N2Z.id, Byte.of_to_N.
Qed.

Lemma le_bytes_length n z : length (le_bytes n z) = n.
Proof. revert z; induction n; intros; simpl; auto. Qed.

Lemma le_value_bytes n z : le_value (le_bytes n z) = z `mod` 256 ^ Z.of_nat n.
Proof.
  revert z; induction n as [|n IH]; intros z; cbn [le_bytes le_value foldr].
  - by rewrite Z.mod_1_r.
  - fold (le_value (le_bytes n (z `div` 256))). rewrite IH, Z_of_byte_of_Z.
    rewrite Nat2Z.inj_succ, Z.pow_succ_r by lia.
    rewrite (Z.rem_mul_r z 256) by lia. lia.
Qed.

Lemma le_value_range bs : 0 <= le_value bs < 256 ^ Z.of_nat (length bs).
Proof.
  induction bs as [|b bs IH]; cbn [le_value foldr length]; [lia|].
  fold (le_value bs). pose proof (Z_of_byte_range b).
  rewrite Nat2Z.inj_succ, Z.pow_succ_r by lia. lia.
Qed.

Lemma be_value_range bs : 0 <= be_value bs < 256 ^ Z.of_nat (length bs).
Proof. unfold be_value. rewrite <-(length_reverse bs). apply le_value_range. Qed.

Lemma le_value_inj bs bs' :
  length bs = length bs' -> le_value bs = le_value bs' -> bs = bs'.
Proof.
  revert bs'; induction bs as [|b bs IH]; intros [|b' bs']; try done; cbn.
  intros [= Hl]. fold (le_value bs) (le_value bs'). intros Hv.
  pose proof (Z_of_byte_range b); pose proof (Z_of_byte_range b').
  assert (Z_of_byte b = Z_of_byte b') as Hb by lia.
  f_equal; [|apply IH; [done|lia]].
  by rewrite <-(byte_of_Z_of_byte b), Hb, byte_of_Z_of_byte.
Qed.

Lemma string_of_bytes_of_string s : string_of_bytes (bytes_of_string s) = s.
Proof. apply String.string_of_list_byte_of_string. Qed.
Lemma bytes_of_string_of_bytes bs : bytes_of_string (string_of_bytes bs) = bs.
Proof. apply String.list_byte_of_string_of_list_byte. Qed.
Lemma bytes_of_string_inj s s' : bytes_of_string s = bytes_of_string s' -> s = s'.
Proof.
  intros H. by rewrite <-(string_of_bytes_of_string s), H, string_of_bytes_of_string.
Qed.

Lemma bytes_of_string_app s1 s2 :
  bytes_of_string (s1 +:+ s2) = bytes_of_string s1 ++ bytes_of_string s2.
Proof. unfold bytes_of_string. induction s1 as [|a s1 IH]; [done|].
  exact (f_equal (cons (Ascii.byte_of_ascii a)) IH).
Qed.

(** *** Lines *)

Lemma raw_lines_cons_line l rest :
  Byte.x0a ∉ l -> raw_lines (l ++ Byte.x0a :: rest) = (l, true) :: raw_lines rest.
Proof.
  induction l as [|b l IH]; simpl; intros Hl; [done|].
  apply not_elem_of_cons in Hl as [Hb Hl].
  by rewrite decide_False, IH.
Qed.

Lemma raw_lines_torn l : Byte.x0a ∉ l -> l <> [] -> raw_lines l = [(l, false)].
Proof.
  induction l as [|b l IH]; simpl; intros Hl Hne; [done|].
  apply not_elem_of_cons in Hl as [Hb Hl]. rewrite decide_False by done.
  destruct l as [|b' l]; [done|]. by rewrite IH.
Qed.

Lemma complete_cons b bs : bs <> [] -> complete (b :: bs) -> complete bs.
Proof.
  intros Hne [?|H]; [done|]. right. destruct bs; [done|]. done.
Qed.

Lemma complete_app_line bs l : complete (bs ++ l ++ [Byte.x0a]).
Proof. right. by rewrite app_assoc, last_snoc. Qed.

Lemma complete_nil : complete [].
Proof. by left. Qed.
#[export] Hint Resolve complete_nil complete_app_line : rkv.

Lemma raw_lines_app a b :
  complete a -> raw_lines (a ++ b) = raw_lines a ++ raw_lines b.
Proof.
  induction a as [|x a IH]; intros Ha; [done|]. simpl.
  destruct (decide (a = [])) as [->|Hne].
  - destruct Ha as [?|[= ->]]; [done|]. done.
  - rewrite IH by eauto using complete_cons.
    destruct (decide (x = Byte.x0a)); [done|].
    destruct (raw_lines a) as [|[l nl] ls] eqn:E; [|done].
    destruct a as [|y a]; [done|]. simpl in E.
    destruct (decide (y = Byte.x0a)); [done|].
    by destruct (raw_lines a) as [|[]].
Qed.

Lemma strip_cr_id l : last l <> Some Byte.x0d -> strip_cr l = l.
Proof. unfold strip_cr; intros; repeat case_match; naive_solver. Qed.

(** ASCII text is valid UTF-8. *)
Lemma ascii_utf8 l : Forall (fun b => Z_of_byte b < 128) l ->
  utf8_decode l = Some (Z_of_byte <$> l).
Proof.
  induction 1 as [|b l Hb Hl IH]; [done|]. cbn [utf8_decode fmap list_fmap].
  destruct (Z.ltb_spec (Z_of_byte b) 128); [|lia]. by rewrite IH.
Qed.

Lemma utf8_decode_app_nl l :
  utf8_valid l = true -> utf8_valid (l ++ [Byte.x0a]) = true.
Proof.
  unfold utf8_valid.
  enough (forall n l, (length l <= n)%nat -> is_Some (utf8_decode l) ->
    is_Some (utf8_decode (l ++ [Byte.x0a]))) as H.
  { intros Hl. destruct (utf8_decode l) eqn:E; [|done].
    destruct (H (length l) l) as [? ->]; [done|by rewrite E|done]. }
  clear l. induction n as [|n IH]; intros l Hn Hl.
  { destruct l; simpl in *; [by eexists|lia]. }
  destruct l as [|b0 r0]; simpl in *; [by eexists|].
  repeat (case_match; simplify_eq/=;
    try (by destruct Hl as [? Hl]; discriminate Hl));
  apply fmap_is_Some in Hl; apply fmap_is_Some; apply IH; simpl in *; (lia || done).
Qed.

Lemma read_line_item_line l : one_line l -> read_line_item (l, true) = Some l.
Proof.
  intros (_ & Hcr & Hu). unfold read_line_item.
  by rewrite utf8_decode_app_nl, strip_cr_id.
Qed.

(** Appending one more line to a complete file adds exactly that item. *)
Lemma lines_app_line bs l :
  complete bs -> one_line l -> lines (bs ++ l ++ [Byte.x0a]) = lines bs ++ [Some l].
Proof.
  intros Hc Hl. unfold lines. rewrite raw_lines_app by done.
  rewrite raw_lines_cons_line by apply Hl.
  rewrite fmap_app. f_equal. cbn [raw_lines fmap list_fmap].
  by rewrite read_line_item_line.
Qed.

Lemma one_line_take l n : one_line l -> Byte.x0a ∉ take n l.
Proof.
  intros [Hl _] Hin. apply Hl. rewrite <-(take_drop n l). apply elem_of_app. by left.
Qed.

(** A torn tail is one more item, the piece without its line feed. *)
Lemma lines_app_torn bs t :
  complete bs -> Byte.x0a ∉ t -> t <> [] ->
  lines (bs ++ t) = lines bs ++ [read_line_item (t, false)].
Proof. intros. unfold lines. by rewrite raw_lines_app, (raw_lines_torn t), fmap_app. Qed.

(** A line written after a torn tail is glued to it. *)
Lemma lines_app_glued bs t l :
  complete bs -> Byte.x0a ∉ t -> one_line l ->
  lines (bs ++ t ++ l ++ [Byte.x0a]) = lines bs ++ [read_line_item (t ++ l, true)].
Proof.
  intros Hc Ht [Hl _]. unfold lines. rewrite raw_lines_app, (app_assoc t), raw_lines_cons_line; [|by intros [?|?]%elem_of_app|done].
  by rewrite fmap_app.
Qed.

(** *** Splitting *)

Lemma split_bytes_piece sep l : sep ∉ l -> split_bytes sep l = [l].
Proof.
  induction l as [|b l IH]; intros Hl; [done|]. apply not_elem_of_cons in Hl as [Hb Hl].
  cbn. by rewrite decide_False, IH by done.
Qed.

Lemma split_bytes_app sep l rest :
  sep ∉ l -> split_bytes sep (l ++ sep :: rest) = l :: split_bytes sep rest.
Proof.
  induction l as [|b l IH]; intros Hl; cbn.
  - by rewrite decide_True.
  - apply not_elem_of_cons in Hl as [Hb Hl]. by rewrite decide_False, IH by done.
Qed.

Lemma char_pieces_concat bs : concat (char_pieces bs) = bs.
Proof.
  enough (forall n bs, (length bs <= n)%nat -> concat (char_pieces bs) = bs) as Hn
    by by apply (Hn (length bs)).
  clear bs. induction n as [|n IH]; intros [|b0 r0] Hl; cbn in Hl |- *; [done|lia|done|].
  repeat case_match; simplify_eq/=; rewrite ?app_nil_r; try done;
    by rewrite IH by (cbn in *; lia).
Qed.

(** What [trim] leaves alone: text that neither starts nor ends with white space. *)
Lemma drop_white_id ps :
  from_option is_white_piece false (head ps) = false -> drop_white ps = ps.
Proof. destruct ps as [|p ps]; cbn; [done|]. by intros ->. Qed.

Lemma str_trim_id s :
  let ps := char_pieces (bytes_of_string s) in
  from_option is_white_piece false (head ps) = false ->
  from_option is_white_piece false (last ps) = false -> str_trim s = s.
Proof.
  intros ps Hh Hl. unfold str_trim. fold ps. rewrite (drop_white_id ps) by done.
  rewrite drop_white_id by by rewrite head_reverse.
  unfold ps. by rewrite reverse_involutive, char_pieces_concat, string_of_bytes_of_string.
Qed.
