(* ===== verification/Numerals.v ===== *)
(** Decimal numerals, as [format!] prints unsigned integers (stdpp's [pretty]): the
    number a numeral denotes, and the order of equally long numerals as strings.
    Snapshot.v names files with them, ConsistentHash.v names virtual nodes. *)

From S2P Require Import Prelude Bytes.
Open Scope Z_scope.

Lemma string_le_cons c d s t :
  String.le (String c s) (String d t)
  <-> (Ascii.N_of_ascii c < Ascii.N_of_ascii d)%N \/ (c = d /\ String.le s t).
Proof.
  unfold String.le, String.leb, Is_true. cbn. unfold Ascii.compare.
  destruct (N.compare_spec (Ascii.N_of_ascii c) (Ascii.N_of_ascii d)) as [E|L|G].
  - assert (c = d) as <- by (by rewrite <-(Ascii.ascii_N_embedding c), E, Ascii.ascii_N_embedding).
    split; [by right|]. intros [?|[_ ?]]; [lia|done].
  - split; [by left|done].
  - split; [done|]. intros [?|[-> _]]; lia.
Qed.

Section Numerals.
Open Scope N_scope.

Definition digit_value (c : Ascii.ascii) : N := Ascii.N_of_ascii c - 48.
Definition is_digit (c : Ascii.ascii) : Prop := 48 <= Ascii.N_of_ascii c < 58.

Fixpoint all_digits (s : string) : Prop :=
  match s with
  | EmptyString => True
  | String c s => is_digit c /\ all_digits s
  end.

(** The number a numeral denotes, continuing from the digits before it. *)
Fixpoint numeral (acc : N) (s : string) : N :=
  match s with
  | EmptyString => acc
  | String c s => numeral (10 * acc + digit_value c) s
  end.

Definition pow10 (s : string) : N := 10 ^ N.of_nat (String.length s).

Lemma numeral_acc acc s : numeral acc s = acc * pow10 s + numeral 0 s.
Proof.
  unfold pow10. revert acc; induction s as [|c s IH]; intros acc; cbn [numeral String.length]; [cbn; lia|].
  rewrite IH, (IH (10 * 0 + _)), Nat2N.inj_succ, N.pow_succ_r'. lia.
Qed.

Lemma numeral_lt s : all_digits s -> numeral 0 s < pow10 s.
Proof.
  unfold pow10. induction s as [|c s IH]; cbn [numeral String.length all_digits]; [cbn; lia|].
  intros [Hc Hs]. specialize (IH Hs). rewrite numeral_acc. unfold pow10, digit_value, is_digit in *.
  rewrite Nat2N.inj_succ, N.pow_succ_r'. nia.
Qed.

(** Equally long numerals sort like the numbers they denote. *)
Lemma numeral_order s t :
  all_digits s -> all_digits t -> String.length s = String.length t ->
  numeral 0 s <= numeral 0 t -> String.le s t.
Proof.
  revert t; induction s as [|c s IH]; intros [|d t]; cbn [all_digits String.length]; try done.
  intros [Hc Hs] [Hd Ht] [= Hl] Hn.
  cbn [numeral] in Hn. rewrite numeral_acc, (numeral_acc _ t) in Hn.
  pose proof (numeral_lt s Hs). pose proof (numeral_lt t Ht).
  assert (pow10 s = pow10 t) as Hp by (unfold pow10; by rewrite Hl).
  unfold is_digit, digit_value in *. apply string_le_cons.
  destruct (N.lt_trichotomy (Ascii.N_of_ascii c) (Ascii.N_of_ascii d)) as [L|[E|G]].
  - by left.
  - right. split.
    + by rewrite <-(Ascii.ascii_N_embedding c), E, Ascii.ascii_N_embedding.
    + apply IH; try done. nia.
  - exfalso. nia.
Qed.

Lemma pretty_go_numeral x acc :
  all_digits acc -> all_digits (pretty_N_go x acc)
  /\ numeral 0 (pretty_N_go x acc) = x * pow10 acc + numeral 0 acc
  /\ (0 < x -> pow10 (pretty_N_go x acc) <= 10 * x * pow10 acc).
Proof.
  revert acc; induction x as [x IH] using (well_founded_induction N.lt_wf_0); intros acc Hacc.
  destruct (decide (x = 0)) as [->|Hx].
  { rewrite pretty_N_go_0. split_and!; [done|lia|lia]. }
  rewrite pretty_N_go_step by lia.
  assert (x `mod` 10 < 10) as Hm by (apply N.mod_lt; lia).
  assert (is_digit (pretty_N_char (x `mod` 10)) /\ digit_value (pretty_N_char (x `mod` 10)) = x `mod` 10) as [Hd Hv].
  { revert Hm. generalize (x `mod` 10). intros y Hy.
    assert (y = 0 \/ y = 1 \/ y = 2 \/ y = 3 \/ y = 4 \/ y = 5 \/ y = 6 \/ y = 7 \/ y = 8 \/ y = 9) as Hc by lia.
    unfold is_digit, digit_value. destruct_or!; subst; cbn; lia. }
  assert (pow10 (String (pretty_N_char (x `mod` 10)) acc) = 10 * pow10 acc) as Hp.
  { unfold pow10. cbn [String.length]. by rewrite Nat2N.inj_succ, N.pow_succ_r'. }
  assert (x = 10 * (x `div` 10) + x `mod` 10) as Hdm by (apply N.div_mod'; lia).
  destruct (IH (x `div` 10)) with (acc := String (pretty_N_char (x `mod` 10)) acc) as (H1 & H2 & H3).
  { apply N.div_lt; lia. }
  { done. }
  split_and!; [done| |].
  - rewrite H2, Hp. cbn [numeral]. rewrite numeral_acc, Hv. nia.
  - intros _. destruct (decide (x `div` 10 = 0)) as [E|E].
    + rewrite E, pretty_N_go_0, Hp. nia.
    + rewrite Hp in H3. specialize (H3 ltac:(lia)). nia.
Qed.

Lemma pretty_numeral x :
  0 < x -> all_digits (pretty x) /\ numeral 0 (pretty x) = x /\ pow10 (pretty x) <= 10 * x.
Proof.
  intros Hx. destruct (pretty_go_numeral x "") as (H1 & H2 & H3); [done|].
  unfold pretty, pretty_N. rewrite decide_False by lia.
  change (pow10 "") with 1 in *. change (numeral 0 "") with 0 in *. rewrite H2 in *.
  split_and!; [done|lia|]. specialize (H3 Hx). lia.
Qed.
End Numerals.


Lemma pretty_digits (x : N) : all_digits (pretty x).
Proof. destruct (decide (x = 0)%N) as [->|]; [by cbn|]. apply pretty_numeral. lia. Qed.

(** A numeral after a separator that is not a digit can be read off the end. *)
Lemma app_separator_inj {A} (c : A) (l1 l2 d1 d2 : list A) :
  l1 ++ c :: d1 = l2 ++ c :: d2 -> c ∉ d1 -> c ∉ d2 -> l1 = l2 /\ d1 = d2.
Proof.
  revert l2; induction l1 as [|x l1 IH]; intros [|y l2]; cbn; intros E Hd1 Hd2.
  - by simplify_eq.
  - injection E as -> E. destruct Hd1. rewrite E. apply elem_of_app. right; by left.
  - injection E as <- E. destruct Hd2. rewrite <-E. apply elem_of_app. right; by left.
  - injection E as <- E. destruct (IH l2 E Hd1 Hd2) as [-> ->]. done.
Qed.

Lemma list_ascii_app s t :
  String.list_ascii_of_string (s +:+ t)
  = String.list_ascii_of_string s ++ String.list_ascii_of_string t.
Proof. induction s as [|c s IH]; [done|]. cbn. by rewrite <-IH. Qed.

Lemma list_ascii_inj s t :
  String.list_ascii_of_string s = String.list_ascii_of_string t -> s = t.
Proof.
  intros E. by rewrite <-(String.string_of_list_ascii_of_string s), E,
    String.string_of_list_ascii_of_string.
Qed.

Lemma digits_no_separator c s :
  all_digits s -> ~ is_digit c -> c ∉ String.list_ascii_of_string s.
Proof.
  intros Hs Hc. induction s as [|d s IH]; cbn; [apply not_elem_of_nil|].
  destruct Hs as [Hd Hs]. apply not_elem_of_cons. split; [by intros ->|by apply IH].
Qed.

(** [{:08}]: eight digits, zeros in front, as long as the number has no more. *)
Definition pad_8 (n : N) : string :=
  string_of_bytes (replicate (8 - String.length (pretty n)) Byte.x30) +:+ pretty n.

Lemma zeros_numeral k s :
  all_digits s ->
  let s' := string_of_bytes (replicate k Byte.x30) +:+ s in
  all_digits s' /\ numeral 0 s' = numeral 0 s /\ String.length s' = (k + String.length s)%nat.
Proof.
  intros Hs. induction k as [|k (IH1 & IH2 & IH3)]; [done|].
  split_and!; [split; [unfold is_digit; cbn; lia|exact IH1]|exact IH2|exact (f_equal S IH3)].
Qed.

Lemma pad_8_numeral n :
  (n < 10 ^ 8)%N ->
  all_digits (pad_8 n) /\ numeral 0 (pad_8 n) = n /\ String.length (pad_8 n) = 8%nat.
Proof.
  intros Hn. assert (all_digits (pretty n) /\ numeral 0 (pretty n) = n /\ (String.length (pretty n) <= 8)%nat)
    as (Hd & Hv & Hl).
  { destruct (decide (n = 0)%N) as [->|Hpos]; [split_and!; [done|done|apply Nat.leb_le; vm_compute; reflexivity]|].
    destruct (pretty_numeral n) as (? & ? & Hp); [lia|]. split_and!; [done..|].
    unfold pow10 in Hp. assert (10 ^ N.of_nat (String.length (pretty n)) < 10 ^ 9)%N as Hlt
      by (change (10 ^ 9)%N with (10 * 10 ^ 8)%N; lia).
    apply N.pow_lt_mono_r_iff in Hlt; lia. }
  destruct (zeros_numeral (8 - String.length (pretty n)) (pretty n) Hd) as (? & ? & Hlen).
  unfold pad_8. split_and!; [done|congruence|rewrite Hlen; lia].
Qed.

(** Such numerals sort like their numbers. *)
Lemma pad_8_le i j : (i < 10 ^ 8)%N -> (j < 10 ^ 8)%N -> String.le (pad_8 i) (pad_8 j) <-> (i <= j)%N.
Proof.
  intros Hi Hj. destruct (pad_8_numeral i Hi) as (Di & Vi & Li), (pad_8_numeral j Hj) as (Dj & Vj & Lj).
  split.
  - intros Hle. destruct (N.le_gt_cases i j) as [|Hlt]; [done|].
    assert (String.le (pad_8 j) (pad_8 i)) as Hge by (apply numeral_order; congruence || lia).
    assert (pad_8 i = pad_8 j) as E by by apply (anti_symm String.le). rewrite E in Vi. lia.
  - intros ?. apply numeral_order; congruence || lia.
Qed.

Lemma string_le_prefix p s t : String.le (p +:+ s) (p +:+ t) <-> String.le s t.
Proof.
  induction p as [|c p IH]; [done|]. change (String c p +:+ s) with (String c (p +:+ s)).
  change (String c p +:+ t) with (String c (p +:+ t)). rewrite string_le_cons, IH.
  split; [intros [?|[_ ?]]; [lia|done]|by right].
Qed.
