(* ===== verification/SocketAddr.v ===== *)
(** [SocketAddr::from_str] of Rust's standard library, by which the server reads its
    listen address: a literal IPv4 or IPv6 address with a port, never a host name. The
    parser keeps the structure of [core::net::parser]: every reader takes the rest of
    the text and gives its value with what it left, or fails without taking anything. *)

From S2P Require Import Prelude Bytes Numerals.
From Stdlib Require Import Strings.Ascii.
Open Scope N_scope.

(** An IPv4 address has four octets, an IPv6 address eight groups of 16 bits. *)
Inductive socket_addr :=
| V4 (octets : list N) (port : N)
| V6 (groups : list N) (scope : N) (port : N).

Definition reader (A : Type) : Type := string -> option (A * string).

Definition read_given_char (c : ascii) : reader unit := fun s =>
  match s with
  | String d s => if decide (c = d) then Some (tt, s) else None
  | EmptyString => None
  end.

(** [char::to_digit]. *)
Definition to_digit (radix : N) (c : ascii) : option N :=
  let n := N_of_ascii c in
  let d :=
    if (48 <=? n) && (n <=? 57) then Some (n - 48)
    else if (97 <=? n) && (n <=? 122) then Some (n - 87)
    else if (65 <=? n) && (n <=? 90) then Some (n - 55)
    else None in
  match d with Some d => if d <? radix then Some d else None | None => None end.

(** The digits of a number, at most [max_digits] of them, whose value stays within
    [bound], the largest value of the type. *)
Fixpoint read_digits (radix bound : N) (max_digits : option nat) (acc : N) (count : nat) (s : string)
  : option (N * nat * string) :=
  match s with
  | String c rest =>
    match to_digit radix c with
    | Some d =>
      let acc := radix * acc + d in
      if bound <? acc then None
      else if from_option (fun m => Nat.ltb m (S count)) false max_digits then None
      else read_digits radix bound max_digits acc (S count) rest
    | None => Some (acc, count, s)
    end
  | EmptyString => Some (acc, count, s)
  end.

Definition starts_with_zero (s : string) : bool :=
  match s with String c _ => bool_decide (c = "0"%char) | EmptyString => false end.

Definition read_number (radix bound : N) (max_digits : option nat) (allow_zero_prefix : bool) : reader N :=
  fun s =>
  match read_digits radix bound max_digits 0 0 s with
  | Some (n, count, rest) =>
    if Nat.eqb count 0 then None
    else if negb allow_zero_prefix && starts_with_zero s && Nat.ltb 1 count then None
    else Some (n, rest)
  | None => None
  end.

(** [inner] after a separator, which the first of a row has not. *)
Definition read_separator {A} (sep : ascii) (first : bool) (inner : reader A) : reader A := fun s =>
  if first then inner s else '(_, s) ← read_given_char sep s; inner s.

Definition read_octet (first : bool) : reader N :=
  read_separator "." first (read_number 10 255 (Some 3%nat) false).

Definition read_ipv4_addr : reader (list N) := fun s =>
  '(a, s) ← read_octet true s; '(b, s) ← read_octet false s;
  '(c, s) ← read_octet false s; '(d, s) ← read_octet false s; Some ([a; b; c; d], s).

(** Up to [limit] groups, the last two of which may be written as an IPv4 address; the
    flag tells whether they were. *)
Fixpoint read_groups (limit : nat) (first : bool) (s : string) : list N * bool * string :=
  match limit with
  | O => ([], false, s)
  | S limit =>
    let embedded :=
      if Nat.eqb limit 0 then None else read_separator ":" first read_ipv4_addr s in
    match embedded with
    | Some (octets, s) =>
      match octets with
      | [a; b; c; d] => ([256 * a + b; 256 * c + d], true, s)
      | _ => ([], true, s)
      end
    | None =>
      match read_separator ":" first (read_number 16 65535 (Some 4%nat) true) s with
      | Some (g, s) => let '(gs, v4, s) := read_groups limit false s in (g :: gs, v4, s)
      | None => ([], false, s)
      end
    end
  end.

Definition read_ipv6_addr : reader (list N) := fun s =>
  let '(head, head_ipv4, s) := read_groups 8 true s in
  if Nat.eqb (length head) 8 then Some (head, s)
  else if head_ipv4 then None
  else
    '(_, s) ← read_given_char ":" s; '(_, s) ← read_given_char ":" s;
    let '(tail, _, s) := read_groups (8 - (length head + 1)) true s in
    Some (head ++ replicate (8 - length head - length tail) 0 ++ tail, s).

Definition read_port : reader N := fun s =>
  '(_, s) ← read_given_char ":" s; read_number 10 65535 None true s.

Definition read_scope_id : reader N := fun s =>
  '(_, s) ← read_given_char "%" s; read_number 10 (2 ^ 32 - 1) None true s.

Definition read_socket_addr_v4 : reader socket_addr := fun s =>
  '(ip, s) ← read_ipv4_addr s; '(port, s) ← read_port s; Some (V4 ip port, s).

Definition read_socket_addr_v6 : reader socket_addr := fun s =>
  '(_, s) ← read_given_char "[" s;
  '(ip, s) ← read_ipv6_addr s;
  let '(scope, s) := default (0, s) (read_scope_id s) in
  '(_, s) ← read_given_char "]" s;
  '(port, s) ← read_port s; Some (V6 ip scope port, s).

(** [str::parse::<SocketAddr>]: all of the text must be read. *)
Definition parse_socket_addr (s : string) : option socket_addr :=
  '(addr, rest) ← match read_socket_addr_v4 s with Some x => Some x | None => read_socket_addr_v6 s end;
  if decide (rest = "") then Some addr else None.

(** ** Facts *)

(** The rest does not go on with a digit. *)
Definition no_digit (s : string) : Prop :=
  match s with String c _ => to_digit 10 c = None | EmptyString => True end.

Lemma to_digit_10 c : is_digit c -> to_digit 10 c = Some (digit_value c).
Proof.
  unfold is_digit, to_digit, digit_value. intros [? ?].
  destruct (N.leb_spec 48 (N_of_ascii c)), (N.leb_spec (N_of_ascii c) 57); try lia. cbn.
  by destruct (N.ltb_spec (N_of_ascii c - 48) 10); [|lia].
Qed.

Lemma numeral_ge acc s : all_digits s -> acc <= numeral acc s.
Proof.
  intros Hs. rewrite numeral_acc. pose proof (N.pow_nonzero 10 (N.of_nat (String.length s))).
  unfold pow10. nia.
Qed.

Lemma read_digits_numeral bound max s rest acc count :
  all_digits s -> no_digit rest -> numeral acc s <= bound ->
  from_option (fun m => (count + String.length s <= m)%nat) True max ->
  read_digits 10 bound max acc count (s +:+ rest)
  = Some (numeral acc s, (count + String.length s)%nat, rest).
Proof.
  revert acc count. induction s as [|c s IH]; intros acc count Hs Hr Hb Hm.
  - change ("" +:+ rest) with rest. cbn [numeral String.length]. rewrite Nat.add_0_r.
    destruct rest as [|d rest]; cbn; [done|]. cbn in Hr. by rewrite Hr.
  - destruct Hs as [Hc Hs]. change (String c s +:+ rest) with (String c (s +:+ rest)).
    cbn [read_digits numeral String.length] in *. rewrite to_digit_10 by done.
    pose proof (numeral_ge (10 * acc + digit_value c) s Hs).
    destruct (N.ltb_spec bound (10 * acc + digit_value c)); [lia|].
    assert (from_option (fun m => Nat.ltb m (S count)) false max = false) as ->.
    { destruct max as [m|]; [|done]. cbn in *. apply Nat.leb_gt. lia. }
    rewrite IH; [by rewrite Nat.add_succ_r|done|done|done|]. destruct max; cbn in *; [lia|done].
Qed.

(** The numeral of a number has no leading zero. *)
Lemma pretty_no_zero n rest : 0 < n -> starts_with_zero (pretty n +:+ rest) = false.
Proof.
  intros Hn. destruct (pretty_numeral n Hn) as (Hd & Hv & Hp).
  destruct (pretty n) as [|c s] eqn:E; [cbn in Hv; lia|].
  change (bool_decide (c = "0"%char) = false). apply bool_decide_eq_false. intros ->.
  destruct Hd as [_ Hs]. cbn [numeral] in Hv. change (10 * 0 + digit_value "0"%char) with 0 in Hv.
  pose proof (numeral_lt s Hs) as Hlt. unfold pow10 in *. cbn [String.length] in Hp.
  rewrite Nat2N.inj_succ, N.pow_succ_r' in Hp. lia.
Qed.

Lemma pretty_value n : numeral 0 (pretty n) = n /\ (1 <= String.length (pretty n))%nat.
Proof.
  destruct (decide (n = 0)) as [->|]; [by split|]. assert (0 < n) as Hn by lia.
  destruct (pretty_numeral n Hn) as (_ & Hv & _). split; [done|].
  destruct (pretty n); cbn in *; lia.
Qed.

(** A number in its usual form is read back. *)
Lemma read_number_pretty bound max zeros n rest :
  n <= bound -> no_digit rest -> from_option (fun m => n < 10 ^ N.of_nat m /\ (0 < m)%nat) True max ->
  read_number 10 bound max zeros (pretty n +:+ rest) = Some (n, rest).
Proof.
  intros Hb Hr Hm. unfold read_number. destruct (pretty_value n) as [Hv Hlen].
  rewrite read_digits_numeral; [|apply pretty_digits|done|by rewrite Hv|].
  - rewrite Hv. cbn [Nat.add].
    destruct (Nat.eqb_spec (String.length (pretty n)) 0); [lia|].
    assert (starts_with_zero (pretty n +:+ rest) && Nat.ltb 1 (String.length (pretty n)) = false) as Hz.
    { destruct (decide (n = 0)) as [->|]; [by rewrite andb_false_r|]. by rewrite pretty_no_zero by lia. }
    rewrite <-andb_assoc, Hz, andb_false_r. done.
  - destruct max as [m|]; [|done]. cbn in *. destruct Hm as [Hn Hm].
    destruct (decide (n = 0)) as [->|]; [change (String.length (pretty 0)) with 1%nat; lia|].
    destruct (pretty_numeral n) as (_ & _ & Hp); [lia|]. unfold pow10 in Hp.
    assert (10 ^ N.of_nat (String.length (pretty n)) < 10 ^ N.of_nat (S m)) as Hlt
      by (rewrite Nat2N.inj_succ, N.pow_succ_r'; lia).
    apply N.pow_lt_mono_r_iff in Hlt; lia.
Qed.

(** [Display]. *)
Definition ipv4_text (a b c d : N) : string :=
  pretty a +:+ "." +:+ pretty b +:+ "." +:+ pretty c +:+ "." +:+ pretty d.

Lemma str_app_assoc (a b c : string) : (a +:+ b) +:+ c = a +:+ (b +:+ c).
Proof. induction a as [|x a IH]; [done|]. change (String x ((a +:+ b) +:+ c) = String x (a +:+ (b +:+ c))). by rewrite IH. Qed.

Lemma str_app_nil (a : string) : a +:+ "" = a.
Proof. induction a as [|x a IH]; [done|]. change (String x (a +:+ "") = String x a). by rewrite IH. Qed.

Lemma read_first_octet n rest :
  n <= 255 -> no_digit rest -> read_octet true (pretty n +:+ rest) = Some (n, rest).
Proof.
  intros Hn Hr. unfold read_octet, read_separator.
  apply read_number_pretty; [done|done|]. cbn. split; [|lia]. change (10 ^ 3) with 1000. lia.
Qed.

Lemma read_next_octet n rest :
  n <= 255 -> no_digit rest -> read_octet false ("." +:+ (pretty n +:+ rest)) = Some (n, rest).
Proof. exact (read_first_octet n rest). Qed.

(** An address that is printed is parsed back. *)
Lemma parse_ipv4_text a b c d port :
  a <= 255 -> b <= 255 -> c <= 255 -> d <= 255 -> port <= 65535 ->
  parse_socket_addr (ipv4_text a b c d +:+ ":" +:+ pretty port) = Some (V4 [a; b; c; d] port).
Proof.
  intros Ha Hb Hc Hd Hp. unfold parse_socket_addr, read_socket_addr_v4, read_ipv4_addr, ipv4_text.
  rewrite !str_app_assoc.
  rewrite (read_first_octet a) by done. cbn [mbind option_bind].
  rewrite (read_next_octet b) by done. cbn [mbind option_bind].
  rewrite (read_next_octet c) by done. cbn [mbind option_bind].
  rewrite (read_next_octet d) by done. cbn [mbind option_bind].
  unfold read_port. change (read_given_char ":" (":" +:+ pretty port)) with (Some (tt, pretty port)).
  cbn [mbind option_bind].
  rewrite <-(str_app_nil (pretty port)) at 1. by rewrite read_number_pretty.
Qed.

(** A text that starts like a name is refused. *)
Lemma parse_name_refused c s :
  to_digit 10 c = None -> c <> "["%char -> parse_socket_addr (String c s) = None.
Proof.
  intros Hc Hb. unfold parse_socket_addr, read_socket_addr_v4, read_ipv4_addr, read_octet, read_separator,
    read_number. cbn [read_digits]. rewrite Hc. cbn.
  unfold read_socket_addr_v6, read_given_char. by rewrite decide_False.
Qed.
