(* ===== verification/BTreeMap.v ===== *)
(** [std::collections::BTreeMap]: a finite map whose iteration follows the order of
    its keys. The contents are a stdpp [gmap]; [iter] lists them in key order, and
    [range_from], [range] are the sub-iterations of [BTreeMap::range]. *)

From S2P Require Import Prelude Bytes.

Section BTreeMap.
Context {K : Type} `{Countable K} (R : relation K).
Context `{!RelDecision R, !PartialOrder R, !Total R} {V : Type}.
Implicit Types (m : gmap K V) (k lo hi : K).

(** The order of the entries is that of their keys. *)
Definition entry_le (p q : K * V) : Prop := R p.1 q.1.
#[global] Instance entry_le_dec : RelDecision entry_le.
Proof. intros p q; unfold entry_le; apply _. Defined.

Definition iter m : list (K * V) := merge_sort entry_le (map_to_list m).

(** [map.range(lo..)]. *)
Definition range_from lo m : list (K * V) := filter (fun p => R lo p.1) (iter m).

Definition in_range lo hi (p : K * V) : Prop := R lo p.1 /\ ~ R hi p.1.
#[global] Instance in_range_dec lo hi p : Decision (in_range lo hi p).
Proof. unfold in_range; apply _. Defined.

(** [map.range(lo..hi)]: the standard library panics when [lo > hi]. *)
Definition range lo hi m : outcome (list (K * V)) :=
  if decide (R lo hi)
  then Return (filter (in_range lo hi) (iter m))
  else Panic.

(** [map.retain(f)] on keys and values. *)
Definition retain (f : K -> V -> bool) m : gmap K V := filter (fun p => f p.1 p.2 = true) m.

(** Collecting pairs into a map, in their order: later pairs win. *)
Definition extend m (l : list (K * V)) : gmap K V := foldl (fun m p => <[p.1 := p.2]> m) m l.

#[local] Instance entry_le_total : Total entry_le.
Proof. intros p q; apply (total R). Qed.
#[local] Instance entry_le_trans : Transitive entry_le.
Proof. intros p q r; unfold entry_le; intros; by etrans. Qed.

Lemma iter_permutation m : iter m ≡ₚ map_to_list m.
Proof. apply merge_sort_Permutation. Qed.

Lemma elem_of_iter m k v : (k, v) ∈ iter m <-> m !! k = Some v.
Proof. by rewrite iter_permutation, elem_of_map_to_list. Qed.

Lemma NoDup_iter m : NoDup (iter m).*1.
Proof. rewrite iter_permutation. apply NoDup_fst_map_to_list. Qed.

Lemma iter_sorted m : StronglySorted entry_le (iter m).
Proof. apply StronglySorted_merge_sort; apply _. Qed.

Lemma iter_length m : length (iter m) = size m.
Proof. by rewrite iter_permutation, length_map_to_list. Qed.

Lemma iter_empty : iter ∅ = [].
Proof. apply Permutation_nil_r. by rewrite iter_permutation, map_to_list_empty. Qed.

Lemma iter_nil_inv m : iter m = [] -> m = ∅.
Proof. intros E. apply map_to_list_empty_iff, Permutation_nil_r. by rewrite <-iter_permutation, E. Qed.

(** The iteration is the only sorted listing of the entries. *)
Lemma iter_unique m l :
  StronglySorted entry_le l -> NoDup l.*1 ->
  (forall k v, (k, v) ∈ l <-> m !! k = Some v) -> l = iter m.
Proof.
  intros Hs Hnd Hl.
  eapply (StronglySorted_unique_strong entry_le); [|done|apply iter_sorted|].
  - intros [k1 v1] [k2 v2] H1 H2 R12 R21. simpl in *.
    assert (k1 = k2) as <- by (apply (anti_symm R); done).
    apply Hl in H1. apply elem_of_iter in H2. by simplify_eq.
  - apply NoDup_Permutation.
    + by apply NoDup_fmap_1 in Hnd.
    + eapply NoDup_fmap_1, NoDup_iter.
    + intros [k v]. by rewrite Hl, elem_of_iter.
Qed.

(** Removing entries from the map removes them from the iteration, in place. *)
Lemma iter_filter (P : K * V -> Prop) `{!forall p, Decision (P p)} m :
  iter (filter P m) = filter P (iter m).
Proof.
  symmetry. apply iter_unique.
  - pose proof (iter_sorted m) as Hs. induction Hs as [|p l Hs IH Hp]; [constructor|].
    rewrite filter_cons. case_decide; [|done]. constructor; [done|].
    apply Forall_forall. intros q [_ Hq]%list_elem_of_filter. by eapply Forall_forall in Hp.
  - pose proof (NoDup_iter m) as Hnd. induction (iter m) as [|p l IH]; [done|].
    rewrite filter_cons. cbn in Hnd. apply NoDup_cons in Hnd as [Hp Hnd].
    case_decide; [|auto]. cbn. constructor; [|auto].
    contradict Hp. apply list_elem_of_fmap in Hp as (q & -> & Hq).
    apply list_elem_of_fmap_2. by apply list_elem_of_filter in Hq as [_ ?].
  - intros k v. rewrite list_elem_of_filter, elem_of_iter, map_lookup_filter_Some. naive_solver.
Qed.

Lemma elem_of_range_from lo m k v :
  (k, v) ∈ range_from lo m <-> m !! k = Some v /\ R lo k.
Proof. unfold range_from. rewrite list_elem_of_filter, elem_of_iter. naive_solver. Qed.

Lemma lookup_retain f m k v :
  retain f m !! k = Some v <-> m !! k = Some v /\ f k v = true.
Proof. unfold retain. by rewrite map_lookup_filter_Some. Qed.

Lemma extend_app m l1 l2 : extend m (l1 ++ l2) = extend (extend m l1) l2.
Proof. apply foldl_app. Qed.

Lemma lookup_extend_notin m l k : k ∉ l.*1 -> extend m l !! k = m !! k.
Proof.
  revert m; induction l as [|[k' v'] l IH]; intros m Hk; [done|].
  cbn in *. apply not_elem_of_cons in Hk as [Hne Hk].
  rewrite IH by done. by rewrite lookup_insert_ne.
Qed.

(** A key among the pairs gets the last of its values, whatever the map held. *)
Lemma lookup_extend_in m m' l k : k ∈ l.*1 -> extend m l !! k = extend m' l !! k.
Proof.
  revert m m'; induction l as [|[k' v'] l IH]; intros m m'; cbn.
  { by intros ?%not_elem_of_nil. }
  intros Hk. fold (extend (<[k':=v']> m) l) (extend (<[k':=v']> m') l).
  destruct (decide (k ∈ l.*1)) as [Hin|Hnot]; [by apply IH|].
  apply elem_of_cons in Hk as [->|?]; [|done].
  by rewrite !lookup_extend_notin, !lookup_insert_eq.
Qed.

(** Extending the empty map with another map's entries rebuilds it. *)
Lemma extend_entries m l :
  l ≡ₚ map_to_list m -> extend ∅ l = m.
Proof.
  intros Hl.
  assert (NoDup l.*1) as Hnd by (rewrite Hl; apply NoDup_fst_map_to_list).
  assert (forall m0 k, extend m0 l !! k =
    match list_to_map (M:=gmap K V) l !! k with Some v => Some v | None => m0 !! k end) as Hx.
  { clear Hl. induction l as [|[k' v'] l IH]; intros m0 k; cbn.
    - by rewrite lookup_empty.
    - cbn in Hnd. apply NoDup_cons in Hnd as [Hk' Hnd]. fold (extend (<[k':=v']> m0) l).
      rewrite IH by done. destruct (decide (k' = k)) as [->|].
      + rewrite !lookup_insert_eq. by rewrite (proj1 (not_elem_of_list_to_map _ _) Hk').
      + by rewrite !lookup_insert_ne. }
  apply map_eq. intros k. rewrite Hx, lookup_empty.
  assert (list_to_map (M:=gmap K V) l = m) as ->; [|by destruct (m !! k)].
  rewrite <-(list_to_map_to_list m). by apply list_to_map_proper.
Qed.

End BTreeMap.

#[export] Hint Resolve iter_permutation NoDup_iter iter_sorted : rkv.

(** String keys follow the byte order of the strings. *)
Abbreviation str_iter := (iter String.le).
