(* ===== verification/Externals.v ===== *)
(** The third-party crates the sources call, as interfaces: crc32fast, sha2,
    serde_json and bincode are not part of the repository, so their functions are
    parameters of the model (operation classes) and what the code relies on is stated
    as laws (the [...Laws] classes).

    The second half gives one concrete instance of every interface, by which the
    witnesses of the theorems evaluate. It is not a model of those crates. *)

From S2P Require Import Prelude Bytes.
Open Scope Z_scope.

(** crc32fast: [Hasher::new], [update]s and [finalize] over the concatenated input. *)
Class Crc32 := crc32 : list byte -> Z.

(** A digest is a [u32], and a cyclic redundancy check detects every change of a single
    byte (more generally every burst of at most 32 bits). *)
Class Crc32Laws `{Crc32} := {
  crc32_u32 bs : in_u32 (crc32 bs);
  crc32_byte l b b' r : b <> b' -> crc32 (l ++ b :: r) <> crc32 (l ++ b' :: r)
}.

(** sha2: [Sha256::digest]. *)
Class Sha256 := sha256 : list byte -> list byte.

(** A digest has 32 bytes. *)
Class Sha256Laws `{Sha256} := sha256_length : forall bs, length (sha256 bs) = 32%nat.

(** serde_json for a type with derived [Serialize] and [Deserialize]: [to_string] and
    [from_str], on the UTF-8 bytes of the text. *)
Class Json (A : Type) := {
  to_json : A -> option (list byte);
  from_json : list byte -> option A
}.

(** What the write-ahead log relies on, for values [wf] that fit their Rust types:
    serialisation succeeds and is undone by parsing; the compact output of a record is
    one non-blank line (control characters are escaped); an object text cut short does
    not parse, nor does a non-empty initial part of one followed by another one. *)
Class JsonLaws (A : Type) (wf : A -> Prop) `{Json A} := {
  json_total a : wf a -> is_Some (to_json a);
  json_roundtrip a s : wf a -> to_json a = Some s -> from_json s = Some a;
  json_one_line a s : wf a -> to_json a = Some s -> one_line s;
  json_not_blank a s cs :
    wf a -> to_json a = Some s -> utf8_decode s = Some cs -> is_blank cs = false;
  json_cut a s n :
    wf a -> to_json a = Some s -> (n < length s)%nat -> from_json (take n s) = None;
  json_glued a b s t n :
    wf a -> wf b -> to_json a = Some s -> to_json b = Some t ->
    (0 < n)%nat -> from_json (take n s ++ t) = None
}.

(** bincode: [serialize] and [deserialize] of one type. *)
Class Bincode (A : Type) := {
  serialize : A -> option (list byte);
  deserialize : list byte -> option A
}.

Class BincodeLaws (A : Type) (wf : A -> Prop) `{Bincode A} := {
  bincode_total a : wf a -> is_Some (serialize a);
  bincode_roundtrip a bs : wf a -> serialize a = Some bs -> deserialize bs = Some a
}.

(** ** Concrete instances for the witnesses *)

Module Toy.

(** A polynomial sum. *)
Definition crc_step (acc : Z) (b : byte) : Z := acc * 31 + Z_of_byte b + 1.
#[export] Instance toy_crc32 : Crc32 := fun bs => wrap_u32 (foldl crc_step 7 bs).

Lemma crc_step_differs bs x y :
  ~ (2 ^ 32 | x - y) -> ~ (2 ^ 32 | foldl crc_step x bs - foldl crc_step y bs).
Proof.
  revert x y; induction bs as [|b bs IH]; intros x y Hxy; cbn [foldl]; [done|].
  apply IH. unfold crc_step. intros Hd. apply Hxy, (Z.gauss _ 31); [|done].
  by replace (31 * (x - y)) with (x * 31 + Z_of_byte b + 1 - (y * 31 + Z_of_byte b + 1)) by lia.
Qed.

#[export] Instance toy_crc32_laws : Crc32Laws.
Proof.
  split; [intros bs; apply wrap_u32_range|].
  intros l b b' r Hb. unfold crc32, toy_crc32, wrap_u32. rewrite !foldl_app. cbn [foldl].
  intros Heq%Z.cong_iff_0. apply Z.mod_divide in Heq; [|done]. revert Heq.
  apply crc_step_differs. unfold crc_step. intros [q Hq].
  pose proof (Z_of_byte_range b); pose proof (Z_of_byte_range b').
  apply Hb. rewrite <-(byte_of_Z_of_byte b), <-(byte_of_Z_of_byte b'). f_equal.
  assert (q = 0) as -> by lia. lia.
Qed.

#[export] Instance toy_sha256 : Sha256 :=
  fun bs => le_bytes 32 (foldl (fun acc b => (acc * 167 + Z_of_byte b + 1) * 2654435761) 99991 bs).
#[export] Instance toy_sha256_laws : Sha256Laws.
Proof. intros bs. unfold sha256, toy_sha256. by rewrite le_bytes_length. Qed.

(** Any countable type as one bracketed line of binary digits. *)
Fixpoint pos_bits (p : positive) : list byte :=
  match p with
  | xH => [Byte.x7d]
  | xO p => Byte.x30 :: pos_bits p
  | xI p => Byte.x31 :: pos_bits p
  end.

Fixpoint bits_pos (bs : list byte) : option positive :=
  match bs with
  | [Byte.x7d] => Some xH
  | Byte.x30 :: bs => xO <$> bits_pos bs
  | Byte.x31 :: bs => xI <$> bits_pos bs
  | _ => None
  end.

Section Codec.
Context (A : Type) `{Countable A}.

Definition enc (a : A) : list byte := Byte.x7b :: pos_bits (encode a).
Definition dec (bs : list byte) : option A :=
  match bs with
  | Byte.x7b :: bs => bits_pos bs ≫= decode
  | _ => None
  end.

Lemma bits_pos_bits p : bits_pos (pos_bits p) = Some p.
Proof. induction p as [p IH|p IH|]; cbn; [by rewrite IH|by rewrite IH|done]. Qed.

Lemma dec_enc a : dec (enc a) = Some a.
Proof. cbn. by rewrite bits_pos_bits, <-(decode_encode a). Qed.

Definition digit (b : byte) : Prop := b = Byte.x30 \/ b = Byte.x31 \/ b = Byte.x7d.

Lemma pos_bits_digits p : Forall digit (pos_bits p).
Proof. unfold digit. induction p; cbn; constructor; auto. Qed.

Lemma pos_bits_cut p n : (n < length (pos_bits p))%nat -> bits_pos (take n (pos_bits p)) = None.
Proof.
  revert n; induction p as [p IH|p IH|]; intros [|n] Hn; cbn in *; try done; try lia;
    by rewrite IH by lia.
Qed.

Lemma bits_pos_foreign l t : Byte.x7b ∈ t -> bits_pos (l ++ t) = None.
Proof.
  intros Ht. induction l as [|b l IH]; cbn [app].
  - induction t as [|b t IH]; [by apply not_elem_of_nil in Ht|].
    apply elem_of_cons in Ht as [<-|Ht]; [done|]. specialize (IH Ht).
    destruct b; try done; cbn; try (by rewrite IH). by destruct t; [apply not_elem_of_nil in Ht|].
  - destruct b; try done; cbn; try (by rewrite IH).
    by destruct l, t; try (apply not_elem_of_nil in Ht).
Qed.

Lemma enc_ascii a : Forall (fun b => Z_of_byte b < 128) (enc a).
Proof.
  constructor; [done|]. eapply Forall_impl; [apply pos_bits_digits|].
  intros b [->|[->| ->]]; done.
Qed.

Lemma last_digit p : last (pos_bits p) = Some Byte.x7d.
Proof. induction p as [p IH|p IH|]; cbn; try rewrite IH; try done; by destruct (pos_bits p). Qed.

Lemma enc_one_line a : one_line (enc a).
Proof.
  split_and!.
  - unfold enc. intros [?|Hin]%elem_of_cons; [done|].
    pose proof (pos_bits_digits (encode a)) as Hd. rewrite Forall_forall in Hd.
    by destruct (Hd _ Hin) as [?|[?|?]].
  - unfold enc. rewrite last_cons, last_digit. done.
  - unfold utf8_valid. by rewrite (ascii_utf8 _ (enc_ascii a)).
Qed.

#[export] Instance toy_json : Json A := {| to_json a := Some (enc a); from_json := dec |}.

#[export] Instance toy_json_laws wf : JsonLaws A wf.
Proof.
  split.
  - by eexists.
  - intros a s _ [= <-]. apply dec_enc.
  - intros a s _ [= <-]. apply enc_one_line.
  - intros a s cs _ [= <-]. rewrite (ascii_utf8 _ (enc_ascii a)). by intros [= <-].
  - intros a s [|n] _ [= <-] Hn; [done|]. cbn. rewrite pos_bits_cut; [done|]. cbn in *; lia.
  - intros a b s t [|n] _ _ [= <-] [= <-] Hn; [lia|]. cbn.
    rewrite bits_pos_foreign; [done|]. by left.
Qed.

#[export] Instance toy_bincode : Bincode A :=
  {| serialize a := Some (enc a); deserialize := dec |}.

#[export] Instance toy_bincode_laws wf : BincodeLaws A wf.
Proof. split; [by eexists|]. intros a bs _ [= <-]. apply dec_enc. Qed.

End Codec.
End Toy.
