(* ===== verification/VectorClock.v ===== *)
(** Vector clocks ([VectorClock] of src/src/storage/memtable.rs): the operations, the
    causal order they decide, and the lattice that [merge] computes.

    A clock is a [HashMap<String, u64>]. Its iteration order is unspecified, so the
    two operations that iterate take the listing they visit as an argument
    ([dominates_over], [merge_over]); the source's call is the instance on
    [map_to_list], and [dominates_any_order], [merge_any_order] show that every other
    order of the same entries gives the same result. *)

From S2P Require Import Prelude Bytes.
Open Scope N_scope.

(** u64 counters: [N], wrapped where the code adds. *)
Definition wrap_counter (n : N) : N := n `mod` 2 ^ 64.

Module VectorClock.

Record t := Clock { clocks : gmap string N }.

Definition new : t := Clock ∅.

(** [#[derive(Default)]]: what [unwrap_or_default] gives for a missing clock. *)
Definition default : t := Clock ∅.

Definition count_of (vc : t) (node : string) : N := option.default 0 (vc.(clocks) !! node).

(** [*self.clocks.entry(node_id).or_insert(0) += 1]. *)
Definition increment (self : t) (node_id : string) : t :=
  let counter := count_of self node_id in
  Clock (<[node_id := wrap_counter (counter + 1)]> self.(clocks)).

Definition merge_entry (acc : gmap string N) (e : string * N) : gmap string N :=
  let '(node, count) := e in
  let entry := option.default 0 (acc !! node) in
  <[node := N.max entry count]> acc.

Definition merge_over (self : t) (entries : list (string * N)) : t :=
  Clock (foldl merge_entry self.(clocks) entries).

Definition merge (self other : t) : t := merge_over self (map_to_list other.(clocks)).

(** First loop of [dominates]: [None] is its early [return false]. *)
Fixpoint covers_loop (self : t) (entries : list (string * N)) (dominated : bool)
  : option bool :=
  match entries with
  | [] => Some dominated
  | (node, count) :: rest =>
    let self_count := count_of self node in
    if self_count <? count then None
    else covers_loop self rest (if count <? self_count then true else dominated)
  end.

(** Second loop: entries of [self] that [other] does not have. *)
Fixpoint extra_loop (other : t) (entries : list (string * N)) (dominated : bool) : bool :=
  match entries with
  | [] => dominated
  | (node, count) :: rest =>
    extra_loop other rest
      (if (0 <? count) && bool_decide (other.(clocks) !! node = None)
       then true else dominated)
  end.

Definition dominates_over (self other : t) (es_other es_self : list (string * N)) : bool :=
  match covers_loop self es_other false with
  | None => false
  | Some dominated => extra_loop other es_self dominated
  end.

Definition dominates (self other : t) : bool :=
  dominates_over self other (map_to_list other.(clocks)) (map_to_list self.(clocks)).

#[global] Instance t_eq_dec : EqDecision t.
Proof. solve_decision. Defined.

Definition is_concurrent_with (self other : t) : bool :=
  negb (dominates self other) && negb (dominates other self)
  && bool_decide (self <> other).

End VectorClock.

#[export] Instance clock_countable : Countable VectorClock.t :=
  inj_countable' VectorClock.clocks VectorClock.Clock (fun '(VectorClock.Clock _) => eq_refl).

(** Every name is a [String] and every counter fits its type. *)
Definition clock_wf (vc : VectorClock.t) : Prop :=
  map_Forall (fun n c => str_wf n /\ c < 2 ^ 64) vc.(VectorClock.clocks).

#[export] Instance clock_wf_dec vc : Decision (clock_wf vc).
Proof. unfold clock_wf; apply _. Defined.

(** ** The causal order *)

Notation "vc .[ n ]" := (VectorClock.count_of vc n) (at level 1, format "vc .[ n ]") : rkv_scope.

Definition clock_le (a b : VectorClock.t) : Prop := forall n, a.[n] <= b.[n].
Definition clock_lt (a b : VectorClock.t) : Prop := clock_le a b /\ exists n, a.[n] < b.[n].

(** Two clocks are equivalent when they count the same events: a missing entry
    counts 0. This is coarser than the derived [PartialEq]. *)
#[export] Instance clock_equiv : Equiv VectorClock.t := fun a b => forall n, a.[n] = b.[n].

(** No explicit zero entries: the clocks that counting up from nothing produces. *)
Definition clock_canonical (vc : VectorClock.t) : Prop :=
  map_Forall (fun _ c => 0 < c) vc.(VectorClock.clocks).

Section Facts.
Import VectorClock.
Implicit Types (a b : VectorClock.t) (n : string).

#[export] Instance clock_equivalence : Equivalence (≡@{VectorClock.t}).
Proof. split; repeat intro; congruence. Qed.

#[export] Instance count_of_proper : Proper ((≡) ==> (=) ==> (=)) count_of.
Proof. intros a b Hab n ? <-. apply Hab. Qed.

#[export] Instance clock_le_preorder : PreOrder clock_le.
Proof. split; [intros a n; lia|intros a b c Hab Hbc n; specialize (Hab n); specialize (Hbc n); lia]. Qed.

#[export] Instance clock_le_proper : Proper ((≡) ==> (≡) ==> iff) clock_le.
Proof. intros a a' Ha b b' Hb; unfold clock_le. by setoid_rewrite Ha; setoid_rewrite Hb. Qed.

#[export] Instance clock_lt_proper : Proper ((≡) ==> (≡) ==> iff) clock_lt.
Proof.
  intros a a' Ha b b' Hb; unfold clock_lt. rewrite Ha, Hb.
  by setoid_rewrite Ha; setoid_rewrite Hb.
Qed.

Lemma clock_le_antisym a b : clock_le a b -> clock_le b a -> a ≡ b.
Proof. intros Hab Hba n. specialize (Hab n); specialize (Hba n); lia. Qed.

#[export] Instance clock_lt_strict : StrictOrder clock_lt.
Proof.
  split.
  - intros a [_ [n ?]]; lia.
  - intros a b c [Hab [n Hn]] [Hbc _]. split; [by etrans|].
    exists n. specialize (Hbc n). lia.
Qed.

Lemma clock_lt_not_le a b : clock_lt a b -> ~ clock_le b a.
Proof. intros [_ [n ?]] Hba; specialize (Hba n); lia. Qed.

Lemma clock_le_lt_or_equiv a b : clock_le a b -> clock_lt a b \/ a ≡ b.
Proof.
  intros Hab.
  destruct (decide (map_Exists (fun n c => a.[n] < c) b.(clocks))) as [Hex|Hno].
  - left. split; [done|]. destruct Hex as (n & c & Hl & Hlt).
    exists n. unfold count_of at 2. by rewrite Hl.
  - right. apply clock_le_antisym; [done|]. intros n.
    unfold count_of at 1. destruct (b.(clocks) !! n) as [c|] eqn:E; simpl; [|lia].
    destruct (N.le_gt_cases c a.[n]); [done|]. destruct Hno. by exists n, c.
Qed.

Lemma canonical_ext a b : clock_canonical a -> clock_canonical b -> a ≡ b -> a = b.
Proof.
  destruct a as [ma], b as [mb]. unfold clock_canonical; cbn. intros Ha Hb Hab.
  f_equal. apply map_eq. intros n. specialize (Hab n). unfold count_of in Hab; cbn in Hab.
  destruct (ma !! n) as [x|] eqn:Ea, (mb !! n) as [y|] eqn:Eb; cbn in Hab.
  - congruence.
  - specialize (Ha n x Ea); cbn in Ha; lia.
  - specialize (Hb n y Eb); cbn in Hb; lia.
  - done.
Qed.

(** *** [dominates] *)

Lemma covers_loop_spec a es d :
  covers_loop a es d =
  if decide (Forall (fun e => e.2 <= a.[e.1]) es)
  then Some (d || bool_decide (Exists (fun e => e.2 < a.[e.1]) es))
  else None.
Proof.
  revert d; induction es as [|[n c] es IH]; intros d; cbn [covers_loop].
  { rewrite decide_True by constructor. rewrite bool_decide_false by by intros ?%Exists_nil.
    by rewrite orb_false_r. }
  destruct (N.ltb_spec (a.[n]) c) as [Hlt|Hge].
  { rewrite decide_False; [done|]. intros H%Forall_cons; cbn in H; lia. }
  rewrite IH. destruct (decide (Forall _ es)) as [Hall|Hno].
  - rewrite decide_True by (by constructor). f_equal.
    destruct (N.ltb_spec c (a.[n])).
    + rewrite orb_true_l. rewrite bool_decide_true; [by rewrite orb_true_r|]. by left.
    + f_equal. apply bool_decide_ext. rewrite Exists_cons; cbn. split; [auto|].
      intros [?|?]; [lia|done].
  - rewrite decide_False; [done|]. by intros [_ ?]%Forall_cons.
Qed.

Lemma extra_loop_spec b es d :
  extra_loop b es d =
  d || bool_decide (Exists (fun e => 0 < e.2 /\ b.(clocks) !! e.1 = None) es).
Proof.
  revert d; induction es as [|[n c] es IH]; intros d; cbn [extra_loop].
  { rewrite bool_decide_false by by intros ?%Exists_nil. by rewrite orb_false_r. }
  rewrite IH. destruct (N.ltb_spec 0 c), (decide (b.(clocks) !! n = None)) as [Hn|Hn].
  - rewrite (bool_decide_true _ Hn), andb_true_l, orb_true_l.
    rewrite bool_decide_true; [by rewrite orb_true_r|]. by left.
  - rewrite (bool_decide_false _ Hn). cbn. f_equal. apply bool_decide_ext.
    rewrite Exists_cons; cbn. naive_solver.
  - cbn. f_equal. apply bool_decide_ext. rewrite Exists_cons; cbn. naive_solver lia.
  - cbn. f_equal. apply bool_decide_ext. rewrite Exists_cons; cbn. naive_solver.
Qed.

(** What the two loops compute over any listing of the two clocks. *)
Lemma dominates_over_spec a b eo es :
  eo ≡ₚ map_to_list b.(clocks) -> es ≡ₚ map_to_list a.(clocks) ->
  dominates_over a b eo es = true <-> clock_lt b a.
Proof.
  intros Ho Hs. unfold dominates_over. rewrite covers_loop_spec.
  assert (Forall (fun e => e.2 <= a.[e.1]) eo <-> clock_le b a) as Hle.
  { rewrite Ho, Forall_forall. split.
    - intros H n. unfold count_of at 1. destruct (b.(clocks) !! n) as [c|] eqn:E; cbn; [|lia].
      by apply (H (n, c)), elem_of_map_to_list.
    - intros H [n c] Hin%elem_of_map_to_list. specialize (H n). unfold count_of at 1 in H.
      by rewrite Hin in H. }
  destruct (decide _) as [Hall|Hno].
  2: { split; [done|]. intros [Hba _]. by destruct Hno; apply Hle. }
  rewrite extra_loop_spec, orb_false_l. unfold clock_lt. rewrite orb_true_iff, !bool_decide_eq_true.
  rewrite Ho, Hs, !Exists_exists. setoid_rewrite <-Hle.
  split.
  - intros [([n c] & Hin & Hlt)|([n c] & Hin & Hpos & Hnone)];
      (split; [done|]); apply elem_of_map_to_list in Hin; cbn in *; exists n.
    + unfold count_of at 1. by rewrite Hin.
    + unfold count_of. by rewrite Hnone, Hin.
  - intros [_ [n Hn]]. unfold count_of at 1 in Hn.
    destruct (b.(clocks) !! n) as [c|] eqn:E; cbn in Hn.
    + left. exists (n, c). by rewrite elem_of_map_to_list.
    + right. unfold count_of in Hn. destruct (a.(clocks) !! n) as [c|] eqn:E'; cbn in Hn; [|lia].
      exists (n, c). by rewrite elem_of_map_to_list.
Qed.

Lemma dominates_lt a b : dominates a b = true <-> clock_lt b a.
Proof. by apply dominates_over_spec. Qed.

Lemma dominates_false a b : dominates a b = false <-> ~ clock_lt b a.
Proof. rewrite <-dominates_lt. by destruct (dominates a b). Qed.

#[export] Instance dominates_proper : Proper ((≡) ==> (≡) ==> (=)) dominates.
Proof. intros a a' Ha b b' Hb. apply eq_bool_prop_intro. rewrite !Is_true_true, !dominates_lt. by rewrite Ha, Hb. Qed.

(** *** [merge] *)

Lemma count_of_insert m n c n' :
  (Clock (<[n := c]> m)).[n'] = if decide (n = n') then c else (Clock m).[n'].
Proof. unfold count_of; cbn. rewrite lookup_insert. by case_decide. Qed.

Lemma merge_over_clocks m es :
  NoDup es.*1 ->
  foldl merge_entry m es = union_with (fun x y => Some (N.max x y)) m (list_to_map es).
Proof.
  revert m; induction es as [|[n c] es IH]; intros m Hnd; cbn.
  { apply map_eq; intros k. rewrite lookup_union_with, lookup_empty. by destruct (m !! k). }
  cbn in Hnd. apply NoDup_cons in Hnd as [Hn Hnd]. rewrite IH by done.
  apply map_eq; intros k. rewrite !lookup_union_with. destruct (decide (n = k)) as [<-|Hne].
  - rewrite !lookup_insert_eq. rewrite (proj1 (not_elem_of_list_to_map _ _) Hn).
    destruct (m !! n); cbn; [done|]. f_equal; lia.
  - by rewrite !lookup_insert_ne.
Qed.

Lemma merge_over_eq a b es :
  es ≡ₚ map_to_list b.(clocks) ->
  merge_over a es = Clock (union_with (fun x y => Some (N.max x y)) a.(clocks) b.(clocks)).
Proof.
  intros Hes. unfold merge_over. f_equal.
  assert (NoDup es.*1) as Hnd by (rewrite Hes; apply NoDup_fst_map_to_list).
  rewrite merge_over_clocks by done. f_equal.
  rewrite <-(list_to_map_to_list b.(clocks)). by apply list_to_map_proper.
Qed.

Lemma merge_eq a b :
  merge a b = Clock (union_with (fun x y => Some (N.max x y)) a.(clocks) b.(clocks)).
Proof. by apply merge_over_eq. Qed.

Lemma merge_count a b n : (merge a b).[n] = N.max a.[n] b.[n].
Proof.
  rewrite merge_eq. unfold count_of; cbn. rewrite lookup_union_with.
  destruct (a.(clocks) !! n), (b.(clocks) !! n); cbn; lia.
Qed.

#[export] Instance merge_proper : Proper ((≡) ==> (≡) ==> (≡)) merge.
Proof. intros a a' Ha b b' Hb n. by rewrite !merge_count, Ha, Hb. Qed.

Lemma merge_wf a b : clock_wf a -> clock_wf b -> clock_wf (merge a b).
Proof.
  intros Ha Hb. rewrite merge_eq. intros n c. cbn. rewrite lookup_union_with.
  destruct (clocks a !! n) eqn:Ea, (clocks b !! n) eqn:Eb; cbn; intros [= <-];
    try apply Ha in Ea as []; try apply Hb in Eb as []; cbn in *; split; (done || lia).
Qed.

(** *** [increment] *)

Lemma increment_count a n n' :
  (increment a n).[n'] = if decide (n = n') then wrap_counter (a.[n] + 1) else a.[n'].
Proof. unfold increment. rewrite count_of_insert. by destruct a. Qed.

#[export] Instance increment_proper : Proper ((≡) ==> (=) ==> (≡)) increment.
Proof. intros a a' Ha n ? <- n'. rewrite !increment_count. case_decide; by rewrite Ha. Qed.

Lemma wrap_counter_bound c : wrap_counter c < 2 ^ 64.
Proof. apply N.mod_lt; lia. Qed.

Lemma wrap_counter_small c : c < 2 ^ 64 -> wrap_counter c = c.
Proof. apply N.mod_small. Qed.

Lemma increment_wf a n : str_wf n -> clock_wf a -> clock_wf (increment a n).
Proof. intros Hn Ha. apply map_Forall_insert_2; [split; [done|apply wrap_counter_bound]|done]. Qed.

Lemma new_wf : clock_wf new.
Proof. apply map_Forall_empty. Qed.

Lemma count_of_bound a n : clock_wf a -> a.[n] < 2 ^ 64.
Proof.
  intros Ha. unfold count_of. destruct (clocks a !! n) eqn:E; cbn; [by eapply (Ha n)|lia].
Qed.

Lemma increment_no_wrap a n n' :
  a.[n] < 2 ^ 64 - 1 ->
  (increment a n).[n'] = if decide (n = n') then a.[n] + 1 else a.[n'].
Proof. intros. rewrite increment_count. case_decide; [|done]. apply wrap_counter_small; lia. Qed.

Lemma increment_lt a n : a.[n] < 2 ^ 64 - 1 -> clock_lt a (increment a n).
Proof.
  intros H. split; [intros n'|exists n]; rewrite increment_no_wrap by done; case_decide; subst; lia || done.
Qed.

(** Merging a fresh one-event clock of [n] into a clock that has seen [n] adds nothing. *)
Lemma merge_fresh_absorbed a n : 0 < a.[n] -> merge (increment new n) a = a.
Proof.
  intros Hn. rewrite merge_eq. destruct a as [m]. f_equal. apply map_eq. intros n'.
  cbn [increment clocks new]. rewrite lookup_union_with.
  destruct (decide (n = n')) as [<-|Hne].
  - rewrite lookup_insert_eq. change (wrap_counter (count_of new n + 1)) with 1.
    unfold count_of in Hn; cbn in Hn. destruct (m !! n) as [c|]; cbn in *; [f_equal; lia|lia].
  - rewrite lookup_insert_ne, lookup_empty by done. by destruct (m !! n').
Qed.
End Facts.

#[export] Hint Resolve new_wf increment_wf merge_wf : rkv.

(** ** Properties *)

(** C25: [dominates] decides the strict causal order: every counter of the other
    clock is reached and at least one is exceeded. The answer does not depend on the
    order in which the two hash maps are iterated. *)
Theorem dominates_decides_causality (a b : VectorClock.t) es_b es_a :
  es_b ≡ₚ map_to_list b.(VectorClock.clocks) ->
  es_a ≡ₚ map_to_list a.(VectorClock.clocks) ->
  VectorClock.dominates_over a b es_b es_a = VectorClock.dominates a b
  /\ (VectorClock.dominates a b = true <-> clock_lt b a).
Proof.
  intros Hb Ha. split; [|apply dominates_lt]. apply eq_bool_prop_intro.
  by rewrite !Is_true_true, dominates_over_spec, dominates_lt.
Qed.

(** C26: [merge] computes the least clock that has seen both histories, whatever
    the iteration order, and as a map it is commutative, associative and idempotent. *)
Theorem merge_is_join (a b c : VectorClock.t) es :
  es ≡ₚ map_to_list b.(VectorClock.clocks) ->
  VectorClock.merge_over a es = VectorClock.merge a b
  /\ clock_le a (VectorClock.merge a b) /\ clock_le b (VectorClock.merge a b)
  /\ (forall u, clock_le a u -> clock_le b u -> clock_le (VectorClock.merge a b) u)
  /\ VectorClock.merge a b = VectorClock.merge b a
  /\ VectorClock.merge a (VectorClock.merge b c) = VectorClock.merge (VectorClock.merge a b) c
  /\ VectorClock.merge a a = a.
Proof.
  intros Hes. split_and!.
  - by rewrite merge_eq; apply merge_over_eq.
  - intros n. rewrite merge_count; lia.
  - intros n. rewrite merge_count; lia.
  - intros u Ha Hb n. rewrite merge_count. specialize (Ha n); specialize (Hb n); lia.
  - rewrite !merge_eq. f_equal. apply map_eq; intros k. rewrite !lookup_union_with.
    destruct (_ !! k), (_ !! k); cbn; f_equal; lia.
  - rewrite !merge_eq. f_equal. apply map_eq; intros k. cbn. rewrite !lookup_union_with.
    destruct (_ !! k), (_ !! k), (_ !! k); cbn; f_equal; lia.
  - rewrite merge_eq. destruct a as [m]. f_equal. apply map_eq; intros k. cbn.
    rewrite lookup_union_with. destruct (_ !! k); cbn; f_equal; lia.
Qed.

(** [increment] moves the clock strictly forward exactly when the node's
    counter is not the largest [u64]; there it wraps to 0 and the clock moves
    strictly backwards. *)
Theorem increment_advances_unless_wrap (a : VectorClock.t) (n : string) :
  clock_wf a ->
  (VectorClock.dominates (VectorClock.increment a n) a = true <-> a.[n] < 2 ^ 64 - 1)
  /\ (a.[n] = 2 ^ 64 - 1 -> VectorClock.dominates a (VectorClock.increment a n) = true).
Proof.
  intros Hwf. pose proof (count_of_bound a n Hwf) as Hb.
  assert (a.[n] = 2 ^ 64 - 1 -> clock_lt (VectorClock.increment a n) a) as Hwrap.
  { intros E.
    assert (forall n', (VectorClock.increment a n).[n'] = if decide (n = n') then 0 else a.[n']) as Hi.
    { intros n'. rewrite increment_count. by rewrite E. }
    split; [intros n'|exists n]; rewrite Hi; case_decide; subst; done || lia. }
  split; [|by rewrite dominates_lt]. rewrite dominates_lt. split; [|apply increment_lt].
  intros Hlt. destruct (decide (a.[n] = 2 ^ 64 - 1)) as [E|]; [|lia].
  specialize (Hwrap E). exfalso. eapply irreflexivity; [apply clock_lt_strict|]. by etrans.
Qed.

(** On clocks without explicit zero entries [is_concurrent_with] is exactly
    causal incomparability, so any two distinct clocks are ordered one way, ordered
    the other way, or concurrent, and only one of the three. *)
Theorem concurrent_iff_incomparable (a b : VectorClock.t) :
  clock_canonical a -> clock_canonical b ->
  VectorClock.is_concurrent_with a b = true <-> ~ clock_le a b /\ ~ clock_le b a.
Proof.
  intros Ha Hb. unfold VectorClock.is_concurrent_with.
  rewrite !andb_true_iff, !negb_true_iff, bool_decide_eq_true, !dominates_false.
  split.
  - intros [[Hba Hab] Hne].
    split; intros Hle; destruct (clock_le_lt_or_equiv _ _ Hle); try done;
      by destruct Hne; apply canonical_ext.
  - intros [Hab Hba]. split_and!.
    + by intros [? _].
    + by intros [? _].
    + intros ->. by destruct Hab.
Qed.

(** ** The properties at concrete clocks *)

Definition clock_21 : VectorClock.t := VectorClock.Clock {["a" := 2; "b" := 1]}.
Definition clock_10 : VectorClock.t := VectorClock.Clock {["a" := 1]}.
Definition clock_01 : VectorClock.t := VectorClock.Clock {["b" := 1]}.

Example dominates_decides_causality_witness :
  VectorClock.dominates_over clock_21 clock_10 [("a", 1)]
    (reverse (map_to_list (VectorClock.clocks clock_21))) = true.
Proof.
  rewrite (proj1 (dominates_decides_causality clock_21 clock_10 [("a", 1)]
    (reverse (map_to_list (VectorClock.clocks clock_21)))
    (reflexivity _) (reverse_Permutation _))).
  vm_compute. reflexivity.
Defined.

Example merge_is_join_witness :
  VectorClock.merge_over clock_10 [("b", 1)]
  = VectorClock.merge clock_01 clock_10.
Proof.
  destruct (merge_is_join clock_10 clock_01 clock_21 [("b", 1)] (reflexivity _))
    as (-> & _ & _ & _ & -> & _).
  reflexivity.
Defined.

Lemma clock_10_wf : clock_wf clock_10.
Proof. by apply map_Forall_singleton. Qed.

Example increment_advances_unless_wrap_witness :
  VectorClock.dominates (VectorClock.increment clock_10 "a") clock_10 = true.
Proof.
  apply (proj1 (increment_advances_unless_wrap clock_10 "a" clock_10_wf)).
  vm_compute. reflexivity.
Defined.

Lemma clock_10_canonical : clock_canonical clock_10.
Proof. apply map_Forall_singleton. lia. Qed.
Lemma clock_01_canonical : clock_canonical clock_01.
Proof. apply map_Forall_singleton. lia. Qed.

Example concurrent_iff_incomparable_witness :
  ~ clock_le clock_10 clock_01 /\ ~ clock_le clock_01 clock_10.
Proof.
  apply (concurrent_iff_incomparable _ _ clock_10_canonical clock_01_canonical).
  vm_compute. reflexivity.
Defined.

(** An explicit zero entry, which a peer may send, makes two clocks that count the
    same events "concurrent". *)
Example zero_entry_is_concurrent :
  VectorClock.is_concurrent_with (VectorClock.Clock {["a" := 0]}) VectorClock.new = true
  /\ VectorClock.Clock {["a" := 0]} ≡ VectorClock.new.
Proof.
  split; [reflexivity|]. intros n. unfold VectorClock.count_of; cbn.
  destruct (decide (n = "a")) as [->|]; [done|]. by rewrite lookup_singleton_ne.
Qed.
