(* ===== verification/Memtable.v ===== *)
(** The in-memory table (src/src/storage/memtable.rs): versioned values with expiry
    and tombstones, and the size-accounted ordered map over them.

    The wall clock is an input. An operation that looks at one value takes the
    reading [now]; one that visits many values takes [at : string -> Z], the reading
    made when the value of that key is visited (each key is visited at most once). *)

From S2P Require Import Prelude Bytes BTreeMap VectorClock.
Open Scope Z_scope.

(** [SystemTime::now().duration_since(UNIX_EPOCH).unwrap().as_millis() as i64]. *)
Definition now_ms (now : Z) : Z := wrap_i64 now.

Module VersionedValue.

Record t := Value {
  value : list byte;
  vector_clock : VectorClock.t;
  timestamp_ms : Z;
  ttl_ms : Z;
  deleted : bool
}.

#[global] Instance t_eq_dec : EqDecision t.
Proof. solve_decision. Defined.

Definition new (now : Z) (value : list byte) (node_id : string) (ttl_ms : Z) : t :=
  let vc := VectorClock.increment VectorClock.new node_id in
  Value value vc (now_ms now) ttl_ms false.

Definition is_expired (now : Z) (self : t) : bool :=
  if self.(ttl_ms) <=? 0 then false
  else wrap_i64 (self.(timestamp_ms) + self.(ttl_ms)) <? now_ms now.

Definition tombstone (now : Z) (node_id : string) (clock : VectorClock.t) : t :=
  let vc := VectorClock.increment clock node_id in
  Value [] vc (now_ms now) 300000 true.

Definition with_clock (self : t) (vc : VectorClock.t) : t :=
  Value self.(value) vc self.(timestamp_ms) self.(ttl_ms) self.(deleted).

End VersionedValue.

#[export] Instance value_countable : Countable VersionedValue.t :=
  inj_countable'
    (fun v => (VersionedValue.value v, VersionedValue.vector_clock v,
               VersionedValue.timestamp_ms v, VersionedValue.ttl_ms v,
               VersionedValue.deleted v))
    (fun '(b, vc, ts, ttl, d) => VersionedValue.Value b vc ts ttl d)
    (fun '(VersionedValue.Value _ _ _ _ _) => eq_refl).

Module MemTable.

Record t := Table {
  data : gmap string VersionedValue.t;
  size_bytes : Z;
  max_size_bytes : Z
}.

Definition new (max_size_bytes : Z) : t := Table ∅ 0 max_size_bytes.

Definition get (now : Z) (self : t) (key : string) : option VersionedValue.t :=
  match self.(data) !! key with
  | None => None
  | Some val =>
    if VersionedValue.is_expired now val then None
    else if VersionedValue.deleted val then None
    else Some val
  end.

Definition get_raw (self : t) (key : string) : option VersionedValue.t :=
  self.(data) !! key.

(** [(key.len() + value.value.len() + 128) as u64]. *)
Definition entry_size (key : string) (v : VersionedValue.t) : Z :=
  wrap_u64 (str_len key + vec_len (VersionedValue.value v) + 128).

Definition put (self : t) (key : string) (value : VersionedValue.t) : t * bool :=
  let size0 :=
    match self.(data) !! key with
    | Some old => wrap_u64 (self.(size_bytes) - entry_size key old)
    | None => self.(size_bytes)
    end in
  let new_size := wrap_u64 (size0 + entry_size key value) in
  (Table (<[key := value]> self.(data)) new_size self.(max_size_bytes),
   self.(max_size_bytes) <=? new_size).

(** The stored clock, or an empty one. *)
Definition clock_of (self : t) (key : string) : VectorClock.t :=
  match get_raw self key with
  | Some v => VersionedValue.vector_clock v
  | None => VectorClock.default
  end.

Definition delete (now : Z) (self : t) (key node_id : string) : t * bool :=
  put self key (VersionedValue.tombstone now node_id (clock_of self key)).

Definition visible (at_ : string -> Z) (p : string * VersionedValue.t) : bool :=
  negb (VersionedValue.is_expired (at_ p.1) p.2) && negb (VersionedValue.deleted p.2).

Definition scan (at_ : string -> Z) (self : t) (start end_ : string) (limit : N)
  : outcome (list (string * VersionedValue.t)) :=
  match range String.le start end_ self.(data) with
  | Panic => Panic
  | Return entries => Return (take (N.to_nat limit) (filter (fun p => visible at_ p = true) entries))
  end.

Definition drain (self : t) : t * gmap string VersionedValue.t :=
  (Table ∅ 0 self.(max_size_bytes), self.(data)).

Definition snapshot (self : t) : gmap string VersionedValue.t := self.(data).

(** [iter().map(entry size).sum::<u64>()]. *)
Definition sum_sizes (l : list (string * VersionedValue.t)) : Z :=
  foldl (fun acc p => wrap_u64 (acc + entry_size p.1 p.2)) 0 l.

Definition evict_expired (at_ : string -> Z) (self : t) : t * nat :=
  let before := size self.(data) in
  let data' := retain (fun k v => negb (VersionedValue.is_expired (at_ k) v)) self.(data) in
  let removed := (before - size data')%nat in
  (Table data' (sum_sizes (str_iter data')) self.(max_size_bytes), removed).

Definition len (self : t) : nat := size self.(data).
Definition is_empty (self : t) : bool := bool_decide (self.(data) = ∅).
Definition is_full (self : t) : bool := self.(max_size_bytes) <=? self.(size_bytes).

End MemTable.

(** ** Well-formedness *)

Definition value_wf (v : VersionedValue.t) : Prop :=
  clock_wf (VersionedValue.vector_clock v)
  /\ in_i64 (VersionedValue.timestamp_ms v) /\ in_i64 (VersionedValue.ttl_ms v).

Definition data_wf (m : gmap string VersionedValue.t) : Prop :=
  map_Forall (fun k v => str_wf k /\ value_wf v) m.

#[export] Instance value_wf_dec v : Decision (value_wf v).
Proof. unfold value_wf; apply _. Defined.
#[export] Instance data_wf_dec m : Decision (data_wf m).
Proof. unfold data_wf; apply _. Defined.

(** The bytes the table accounts for, as an unbounded integer. *)
Definition data_bytes (m : gmap string VersionedValue.t) : Z :=
  map_fold (fun k v acc => MemTable.entry_size k v + acc) 0 m.

(** The size counter is the accounted size, modulo the counter's width. *)
Definition size_ok (mt : MemTable.t) : Prop :=
  MemTable.size_bytes mt = wrap_u64 (data_bytes (MemTable.data mt)).

(** The client's view: what is neither expired nor deleted. *)
Definition live (at_ : string -> Z) (m : gmap string VersionedValue.t)
  : gmap string VersionedValue.t :=
  filter (fun p => MemTable.visible at_ p = true) m.

(** ** Facts *)

Section Facts.
Import MemTable.
Implicit Types (mt : MemTable.t) (m : gmap string VersionedValue.t) (k : string)
  (v : VersionedValue.t) (now : Z).

Lemma value_new_wf now bs node ttl :
  str_wf node -> in_i64 ttl -> value_wf (VersionedValue.new now bs node ttl).
Proof. intros; split_and!; cbn; eauto with rkv. Qed.

Lemma tombstone_wf now node vc :
  str_wf node -> clock_wf vc -> value_wf (VersionedValue.tombstone now node vc).
Proof. intros; split_and!; cbn; eauto with rkv; unfold in_i64; lia. Qed.

Lemma value_with_clock_wf v vc :
  value_wf v -> clock_wf vc -> value_wf (VersionedValue.with_clock v vc).
Proof. by intros (? & ? & ?) ?. Qed.

Lemma clock_of_wf mt k : data_wf (data mt) -> clock_wf (clock_of mt k).
Proof.
  intros Hm. unfold clock_of, get_raw. destruct (data mt !! k) eqn:E; [|apply new_wf].
  by apply Hm in E as (_ & ? & _).
Qed.

Lemma data_wf_insert m k v :
  data_wf m -> str_wf k -> value_wf v -> data_wf (<[k := v]> m).
Proof. intros. by apply map_Forall_insert_2. Qed.

Lemma data_wf_filter m P `{!forall p, Decision (P p)} : data_wf m -> data_wf (filter P m).
Proof. intros Hm k v [Hl _]%map_lookup_filter_Some. by apply Hm. Qed.

(** Expiry never goes back while the clock does not. *)
Lemma is_expired_mono now now' v :
  now_ms now <= now_ms now' ->
  VersionedValue.is_expired now v = true -> VersionedValue.is_expired now' v = true.
Proof. unfold VersionedValue.is_expired. intros. cases; reflect_bool; apply Z.ltb_lt; lia. Qed.

Lemma entry_size_range k v : in_u64 (entry_size k v).
Proof. apply wrap_u64_range. Qed.

Lemma data_bytes_insert_new m k v :
  m !! k = None -> data_bytes (<[k := v]> m) = entry_size k v + data_bytes m.
Proof. intros. unfold data_bytes. rewrite map_fold_insert_L; [done|intros; lia|done]. Qed.

Lemma data_bytes_lookup m k v :
  m !! k = Some v -> data_bytes m = entry_size k v + data_bytes (base.delete k m).
Proof. intros. unfold data_bytes. rewrite (map_fold_delete_L _ _ k v m); [done|intros; lia|done]. Qed.

Lemma data_bytes_insert m k v :
  data_bytes (<[k := v]> m)
  = data_bytes m + entry_size k v - from_option (entry_size k) 0 (m !! k).
Proof.
  destruct (m !! k) as [old|] eqn:E; cbn.
  - rewrite (data_bytes_lookup m k old), <-insert_delete_eq by done.
    rewrite data_bytes_insert_new by apply lookup_delete_eq. lia.
  - rewrite data_bytes_insert_new by done. lia.
Qed.

Lemma data_bytes_nonneg m : 0 <= data_bytes m.
Proof.
  induction m as [|k v m Hk IH] using map_ind; [done|].
  rewrite data_bytes_insert_new by done. pose proof (entry_size_range k v) as [? _]. lia.
Qed.

Lemma sum_sizes_from acc l :
  foldl (fun acc p => wrap_u64 (acc + entry_size p.1 p.2)) (wrap_u64 acc) l
  = wrap_u64 (foldr (fun p a => entry_size p.1 p.2 + a) acc l).
Proof.
  revert acc; induction l as [|p l IH]; intros acc; cbn; [done|].
  autorewrite with rkv_wrap. rewrite IH. f_equal.
  clear IH; induction l as [|q l IH]; cbn; lia.
Qed.

Lemma sum_sizes_data m : sum_sizes (str_iter m) = wrap_u64 (data_bytes m).
Proof.
  unfold sum_sizes. change 0 with (wrap_u64 0). rewrite sum_sizes_from. f_equal.
  unfold data_bytes. rewrite map_fold_foldr.
  transitivity (foldr (fun p a => entry_size p.1 p.2 + a) 0 (map_to_list m)).
  - apply (foldr_permutation eq); [by intros ? ? ? ->|intros; cbn; lia|apply iter_permutation].
  - induction (map_to_list m) as [|[] l IH]; cbn; congruence.
Qed.

Lemma put_data mt k v : data (put mt k v).1 = <[k := v]> (data mt).
Proof. done. Qed.

Lemma put_size_ok mt k v : size_ok mt -> size_ok (put mt k v).1.
Proof.
  unfold size_ok. intros Hs. cbn. rewrite data_bytes_insert, Hs.
  destruct (data mt !! k); cbn; autorewrite with rkv_wrap; f_equal; lia.
Qed.

Lemma live_lookup at_ m k :
  live at_ m !! k = get (at_ k) (Table m 0 0) k.
Proof.
  unfold live, get, visible; cbn. rewrite map_lookup_filter.
  destruct (m !! k) as [v|]; cbn; [|done].
  destruct (VersionedValue.is_expired (at_ k) v), (VersionedValue.deleted v); done.
Qed.

Lemma get_live at_ mt k : get (at_ k) mt k = live at_ (data mt) !! k.
Proof. by rewrite live_lookup. Qed.

Lemma scan_filter_live at_ m lo hi :
  filter (fun p => visible at_ p = true)
    (filter (in_range String.le lo hi) (str_iter m))
  = filter (in_range String.le lo hi) (str_iter (live at_ m)).
Proof. unfold live. rewrite (iter_filter String.le), !list_filter_filter. apply list_filter_iff. intros; tauto. Qed.

Lemma retain_live at_ m :
  retain (fun k v => negb (VersionedValue.is_expired (at_ k) v)) m
  = filter (fun p => VersionedValue.is_expired (at_ p.1) p.2 = false) m.
Proof. apply map_filter_ext. intros k v _; cbn. by destruct (VersionedValue.is_expired _ _). Qed.
End Facts.

#[export] Hint Resolve value_new_wf tombstone_wf value_with_clock_wf clock_of_wf
  data_wf_insert data_wf_filter put_size_ok : rkv.

(** ** Properties *)

(** C22: the table implements the client's view [live] as a map: reads are
    lookups, a put makes exactly its key visible (or hides it), a delete hides its key,
    and eviction at any earlier time never changes what is visible. *)
Theorem memtable_refines_live_map (at_ : string -> Z) (mt : MemTable.t) k v node now at0 :
  MemTable.get (at_ k) mt k = live at_ (MemTable.data mt) !! k
  /\ live at_ (MemTable.data (MemTable.put mt k v).1)
     = (if MemTable.visible at_ (k, v) then <[k := v]> (live at_ (MemTable.data mt))
        else base.delete k (live at_ (MemTable.data mt)))
  /\ live at_ (MemTable.data (MemTable.delete now mt k node).1)
     = base.delete k (live at_ (MemTable.data mt))
  /\ ((forall k', now_ms (at0 k') <= now_ms (at_ k')) ->
      live at_ (MemTable.data (MemTable.evict_expired at0 mt).1)
      = live at_ (MemTable.data mt)).
Proof.
  assert (forall w, live at_ (<[k := w]> (MemTable.data mt))
    = (if MemTable.visible at_ (k, w) then <[k := w]> (live at_ (MemTable.data mt))
       else base.delete k (live at_ (MemTable.data mt)))) as Hput.
  { intros w. unfold live. destruct (MemTable.visible at_ (k, w)) eqn:E.
    - by rewrite map_filter_insert_True.
    - rewrite map_filter_insert_False by (by rewrite E). by rewrite map_filter_delete. }
  split_and!.
  - apply get_live.
  - apply Hput.
  - unfold MemTable.delete. rewrite put_data, Hput. unfold MemTable.visible; cbn.
    by rewrite andb_false_r.
  - intros Hmono. cbn. rewrite retain_live. unfold live.
    rewrite map_filter_filter. apply map_filter_ext. intros k' v' _; cbn.
    unfold MemTable.visible; cbn. split; [by intros [? _]|]. intros H; split; [done|].
    destruct (VersionedValue.is_expired (at0 k') v') eqn:E; [|done].
    by rewrite (is_expired_mono _ (at_ k') v' (Hmono k') E) in H.
Qed.

(** C23: a scan returns the first [limit] visible entries with
    [start <= key < end], in key order; it panics exactly when [end] is below [start]. *)
Theorem scan_is_sorted_live_prefix (at_ : string -> Z) (mt : MemTable.t) lo hi limit :
  (~ String.le lo hi -> MemTable.scan at_ mt lo hi limit = Panic)
  /\ (String.le lo hi -> exists l,
      MemTable.scan at_ mt lo hi limit = Return (take (N.to_nat limit) l)
      /\ StronglySorted (entry_le String.le) l /\ NoDup l.*1
      /\ forall k v, (k, v) ∈ l <->
           MemTable.get (at_ k) mt k = Some v /\ String.le lo k /\ ~ String.le hi k).
Proof.
  unfold MemTable.scan, range. split; intros Hle.
  { by rewrite decide_False. }
  rewrite decide_True by done. eexists; split; [done|].
  rewrite scan_filter_live. set (m := live at_ (MemTable.data mt)).
  rewrite <-(iter_filter String.le (in_range String.le lo hi)).
  split_and!; [apply (iter_sorted String.le)|apply NoDup_iter|].
  intros k v. rewrite elem_of_iter, map_lookup_filter_Some, get_live. done.
Qed.

(** C24: the size counter always equals the accounted bytes modulo 2^64, after
    puts, deletes, eviction and drain; the flag a put returns compares it with the limit. *)
Theorem size_accounting (mt : MemTable.t) k v node now at_ :
  size_ok mt ->
  size_ok (MemTable.put mt k v).1
  /\ size_ok (MemTable.delete now mt k node).1
  /\ size_ok (MemTable.evict_expired at_ mt).1
  /\ size_ok (MemTable.drain mt).1
  /\ (data_bytes (<[k := v]> (MemTable.data mt)) < 2 ^ 64 ->
      (MemTable.put mt k v).2 = true
      <-> MemTable.max_size_bytes mt <= data_bytes (<[k := v]> (MemTable.data mt))).
Proof.
  intros Hs. split_and!; try (by apply put_size_ok).
  - unfold size_ok; cbn. apply sum_sizes_data.
  - done.
  - intros Hlt. pose proof (put_size_ok mt k v Hs) as Hs'. unfold size_ok in Hs'.
    rewrite put_data, wrap_u64_small in Hs' by (split; [apply data_bytes_nonneg|done]).
    rewrite <-Hs'. cbn. apply Z.leb_le.
Qed.

(** The reaper removes the expired entries and no other, and returns how many
    it removed. *)
Theorem evict_removes_exactly_expired (at_ : string -> Z) (mt : MemTable.t) :
  let '(mt', removed) := MemTable.evict_expired at_ mt in
  (forall k v, MemTable.data mt' !! k = Some v <->
     MemTable.data mt !! k = Some v /\ VersionedValue.is_expired (at_ k) v = false)
  /\ (MemTable.len mt' + removed = MemTable.len mt)%nat
  /\ removed = size (filter (fun p => VersionedValue.is_expired (at_ p.1) p.2 = true)
                            (MemTable.data mt)).
Proof.
  cbn. set (m := MemTable.data mt).
  assert (size m = size (filter (fun p => VersionedValue.is_expired (at_ p.1) p.2 = true) m)
    + size (filter (fun p => ~ VersionedValue.is_expired (at_ p.1) p.2 = true) m))%nat as Hsz.
  { rewrite <-map_size_disj_union by apply map_disjoint_filter_complement.
    by rewrite map_filter_union_complement. }
  rewrite retain_live.
  assert (filter (fun p => VersionedValue.is_expired (at_ p.1) p.2 = false) m
    = filter (fun p => ~ VersionedValue.is_expired (at_ p.1) p.2 = true) m) as Hf.
  { apply map_filter_ext. intros k v _; cbn. by destruct (VersionedValue.is_expired _ _). }
  unfold MemTable.len; cbn. fold m. split_and!.
  - intros k v. by rewrite map_lookup_filter_Some.
  - rewrite Hf. lia.
  - rewrite Hf. lia.
Qed.

(** A value with a positive TTL is expired exactly after its deadline, as long
    as the deadline fits an [i64]; when timestamp plus TTL overflows, the deadline
    wraps to the past and the value is expired at once. *)
Theorem expiry_deadline (v : VersionedValue.t) now :
  0 <= VersionedValue.timestamp_ms v < 2 ^ 63 -> 0 < VersionedValue.ttl_ms v < 2 ^ 63 ->
  0 <= now < 2 ^ 63 ->
  let deadline := VersionedValue.timestamp_ms v + VersionedValue.ttl_ms v in
  VersionedValue.is_expired now v = if deadline <? 2 ^ 63 then deadline <? now else true.
Proof.
  intros Ht Httl Hnow. cbn. unfold VersionedValue.is_expired, now_ms.
  rewrite (wrap_i64_small now) by (unfold in_i64; lia).
  destruct (Z.leb_spec (VersionedValue.ttl_ms v) 0); [lia|].
  destruct (Z.ltb_spec (VersionedValue.timestamp_ms v + VersionedValue.ttl_ms v) (2 ^ 63)).
  - by rewrite wrap_i64_small by (unfold in_i64; lia).
  - apply Z.ltb_lt. unfold wrap_i64.
    rewrite <-(Z.mod_unique _ _ 1 (VersionedValue.timestamp_ms v + VersionedValue.ttl_ms v
      + 2 ^ 63 - 2 ^ 64)); lia.
Qed.

(** ** The properties at concrete tables *)

Definition value_a : VersionedValue.t :=
  VersionedValue.Value [Byte.x61; Byte.x62] clock_10 1700000000000 0 false.
Definition value_ttl : VersionedValue.t :=
  VersionedValue.Value [Byte.x63] clock_01 1700000000000 5000 false.
Definition table_ab : MemTable.t :=
  (MemTable.put (MemTable.put (MemTable.new 1000) "a" value_a).1 "b" value_ttl).1.

(** One reading for every key, before and after the TTL of ["b"]. *)
Definition early : string -> Z := fun _ => 1700000001000.
Definition late : string -> Z := fun _ => 1700000009000.

Example memtable_refines_live_map_witness :
  MemTable.get (late "b") table_ab "b" = None
  /\ live late (MemTable.data (MemTable.evict_expired early table_ab).1)
     = live late (MemTable.data table_ab).
Proof.
  destruct (memtable_refines_live_map late table_ab "b" value_a "n" 1700000001000 early)
    as (Hget & _ & _ & Hevict).
  split.
  - rewrite Hget. vm_compute. reflexivity.
  - apply Hevict. intros k. vm_compute. discriminate.
Defined.

Example scan_is_sorted_live_prefix_witness :
  MemTable.scan early table_ab "b" "a" 10 = Panic
  /\ exists l, MemTable.scan late table_ab "a" "z" 10 = Return (take 10 l)
       /\ ("a", value_a) ∈ l.
Proof.
  destruct (scan_is_sorted_live_prefix early table_ab "b" "a" 10) as [Hpanic _].
  split; [apply Hpanic; decided|].
  destruct (scan_is_sorted_live_prefix late table_ab "a" "z" 10) as [_ Hscan].
  destruct Hscan as (l & Hl & _ & _ & Hin); [decided|]. exists l. split; [exact Hl|].
  apply Hin. split; [vm_compute; reflexivity|]. split; decided.
Defined.

Example size_accounting_witness :
  size_ok table_ab /\ (MemTable.put table_ab "c" value_a).2 = false.
Proof.
  assert (size_ok table_ab) as Hs by (vm_compute; reflexivity).
  split; [exact Hs|].
  destruct (size_accounting table_ab "c" value_a "n" 0 early Hs) as (_ & _ & _ & _ & Hflag).
  apply not_true_iff_false. intros Hfull.
  apply Hflag in Hfull; [|vm_compute; reflexivity]. revert Hfull. vm_compute. intros H; by apply H.
Defined.

Example expiry_deadline_witness :
  VersionedValue.is_expired 1700000009000 value_ttl = true
  /\ VersionedValue.is_expired 1700000000001
       (VersionedValue.Value [] clock_10 1700000000000 (2 ^ 63 - 1) false) = true.
Proof.
  split.
  - rewrite (expiry_deadline value_ttl 1700000009000); [reflexivity|split; vm_compute; congruence..].
  - rewrite expiry_deadline; [reflexivity|split; vm_compute; congruence..].
Defined.
