(* ===== verification/Wal.v ===== *)
(** The write-ahead log (src/src/storage/wal.rs): checksummed entries, one JSON line
    each, appended to a file and replayed from it.

    The file is its bytes, [None] when the path does not exist. Reads and opens
    succeed; a write is told what the operating system did with it
    ([write_outcome]). The counters of skipped lines are only logged by the code;
    [replay_loop] returns the count beside the entries. *)

From S2P Require Import Prelude Bytes VectorClock Memtable Externals.
Open Scope Z_scope.

Module WalEntry.

Record t := Entry {
  sequence : Z;
  key : string;
  value : VersionedValue.t;
  checksum : Z
}.

#[global] Instance t_eq_dec : EqDecision t.
Proof. solve_decision. Defined.

Section Checksum.
Context `{Crc32}.

Definition compute_checksum (self : t) : Z :=
  crc32 (le_bytes 8 self.(sequence) ++ bytes_of_string self.(key)
         ++ VersionedValue.value self.(value)
         ++ le_bytes 8 (VersionedValue.timestamp_ms self.(value))).

Definition with_checksum (self : t) (c : Z) : t :=
  Entry self.(sequence) self.(key) self.(value) c.

Definition new (sequence : Z) (key : string) (value : VersionedValue.t) : t :=
  let entry := Entry sequence key value 0 in
  with_checksum entry (compute_checksum entry).

Definition verify (self : t) : bool :=
  let copy := with_checksum self 0 in
  let copy := with_checksum copy (compute_checksum copy) in
  copy.(checksum) =? self.(checksum).
End Checksum.
End WalEntry.

#[export] Instance wal_entry_countable : Countable WalEntry.t :=
  inj_countable'
    (fun e => (WalEntry.sequence e, WalEntry.key e, WalEntry.value e, WalEntry.checksum e))
    (fun '(s, k, v, c) => WalEntry.Entry s k v c)
    (fun '(WalEntry.Entry _ _ _ _) => eq_refl).

Definition entry_wf (e : WalEntry.t) : Prop :=
  in_u64 (WalEntry.sequence e) /\ str_wf (WalEntry.key e) /\ value_wf (WalEntry.value e)
  /\ in_u32 (WalEntry.checksum e).
#[export] Instance entry_wf_dec e : Decision (entry_wf e).
Proof. unfold entry_wf; apply _. Defined.

(** What a [write_all]/[flush] did: everything reached the file, or an error after
    [written] bytes, with [kept] still in the buffer. *)
Inductive write_outcome :=
| WriteOk
| WriteErr (written : nat) (kept : list byte).

Module WriteAheadLog.

(** [BufWriter<File>]: its unwritten bytes, and where the next write goes: [None] for
    a handle opened with [append(true)], [Some pos] for one that keeps a position. *)
Record buf_writer := Writer { buffer : list byte; cursor : option nat }.

Record t := Log {
  path : string;
  writer : buf_writer;
  sequence : Z
}.

(** One [write] of the operating system; a gap before [pos] is filled with zeros. *)
Definition write_file (cur : option nat) (file bytes : list byte) : list byte :=
  match cur with
  | None => file ++ bytes
  | Some pos =>
    take pos file ++ replicate (pos - length file) Byte.x00 ++ bytes
      ++ drop (pos + length bytes) file
  end.

Definition advance (cur : option nat) (n : nat) : option nat :=
  option_map (fun pos => (pos + n)%nat) cur.

Section Operations.
Context `{Crc32, Json WalEntry.t}.

(** The parse of one item of [lines()] in [recover_sequence]: the checksum is not
    looked at. *)
Definition recover_line (max_seq : Z) (line : option (list byte)) : Z :=
  match line with
  | Some l =>
    match from_json l with
    | Some entry => Z.max max_seq (WalEntry.sequence entry)
    | None => max_seq
    end
  | None => max_seq
  end.

Definition recover_sequence (file : list byte) : Z := foldl recover_line 0 (lines file).

(** Returns the log and the file, created when it did not exist. *)
Definition open (path : string) (file : option (list byte)) : t * list byte :=
  let sequence := match file with Some f => recover_sequence f | None => 0 end in
  (Log path (Writer [] None) sequence, default [] file).

Definition append (self : t) (file : list byte) (key : string) (value : VersionedValue.t)
    (io : write_outcome) : t * list byte * result io_error Z :=
  let sequence := wrap_u64 (self.(sequence) + 1) in
  let entry := WalEntry.new sequence key value in
  match to_json entry with
  | None => (Log self.(path) self.(writer) sequence, file, Err InvalidData)
  | Some serialized =>
    let pending := self.(writer).(buffer) ++ serialized ++ [Byte.x0a] in
    let cur := self.(writer).(cursor) in
    match io with
    | WriteOk =>
      (Log self.(path) (Writer [] (advance cur (length pending))) sequence,
       write_file cur file pending, Ok sequence)
    | WriteErr written kept =>
      let reached := take written pending in
      (Log self.(path) (Writer kept (advance cur (length reached))) sequence,
       write_file cur file reached, Err OtherIo)
    end
  end.

(** One line of [replay]: the entries so far and the number of corrupt lines. *)
Definition replay_step (acc : list WalEntry.t * nat) (line : option (list byte))
  : list WalEntry.t * nat :=
  let '(entries, corrupt_count) := acc in
  match line with
  | None => (entries, corrupt_count)
  | Some l =>
    if from_option is_blank false (utf8_decode l) then (entries, corrupt_count)
    else match from_json l with
         | Some entry =>
           if WalEntry.verify entry then (entries ++ [entry], corrupt_count)
           else (entries, S corrupt_count)
         | None => (entries, S corrupt_count)
         end
  end.

Definition replay_loop (file : list byte) : list WalEntry.t * nat :=
  foldl replay_step ([], O) (lines file).

Definition replay (file : option (list byte)) : list WalEntry.t :=
  match file with
  | None => []
  | Some f => (replay_loop f).1
  end.

(** The new handle truncates the file and starts at its beginning; dropping the old
    [BufWriter] first flushes what it still holds through the old handle. *)
Definition truncate (self : t) : t * list byte :=
  let file := [] in
  let file :=
    match self.(writer).(buffer) with
    | [] => file
    | b => write_file self.(writer).(cursor) file b
    end in
  (Log self.(path) (Writer [] (Some O)) 0, file).

End Operations.
End WriteAheadLog.

(** ** Facts *)

(** Between operations that did not fail: nothing is buffered and the handle is at the
    end of the file. *)
Definition log_clean (w : WriteAheadLog.t) (file : list byte) : Prop :=
  WriteAheadLog.buffer (WriteAheadLog.writer w) = []
  /\ match WriteAheadLog.cursor (WriteAheadLog.writer w) with
     | None => True
     | Some pos => pos = length file
     end.

Section Facts.
Import WriteAheadLog.
Context `{Crc32, !Crc32Laws, Json WalEntry.t, !JsonLaws WalEntry.t entry_wf}.
Implicit Types (w : WriteAheadLog.t) (file s : list byte) (e : WalEntry.t).

Lemma verify_new n k v : WalEntry.verify (WalEntry.new n k v) = true.
Proof. apply Z.eqb_refl. Qed.

Lemma entry_new_wf n k v :
  in_u64 n -> str_wf k -> value_wf v -> entry_wf (WalEntry.new n k v).
Proof. intros. split_and!; try done. apply crc32_u32. Qed.

Lemma write_file_end w file bytes :
  log_clean w file -> write_file (cursor (writer w)) file bytes = file ++ bytes.
Proof.
  intros [_ Hc]. unfold write_file. destruct (cursor (writer w)) as [pos|]; [|done]. subst.
  rewrite take_ge by lia. rewrite Nat.sub_diag; cbn. rewrite drop_ge by lia.
  by rewrite app_nil_r.
Qed.

(** A serialised entry is a line that replays as that entry. *)
Lemma replay_step_entry acc e s :
  entry_wf e -> WalEntry.verify e = true -> to_json e = Some s ->
  replay_step acc (Some s) = (acc.1 ++ [e], acc.2).
Proof.
  intros Hwf Hv Hs. destruct acc as [es c]; cbn.
  pose proof (json_one_line e s Hwf Hs) as (_ & _ & Hu). unfold utf8_valid in Hu.
  destruct (utf8_decode s) as [cs|] eqn:Ed; [|done]. cbn.
  by rewrite (json_not_blank e s cs Hwf Hs Ed), (json_roundtrip e s Hwf Hs), Hv.
Qed.

Lemma replay_loop_line file e s :
  complete file -> entry_wf e -> WalEntry.verify e = true -> to_json e = Some s ->
  replay_loop (file ++ s ++ [Byte.x0a])
  = ((replay_loop file).1 ++ [e], (replay_loop file).2).
Proof.
  intros Hc Hwf Hv Hs. unfold replay_loop.
  rewrite lines_app_line by (done || by eapply json_one_line).
  rewrite foldl_app. cbn [foldl]. by apply replay_step_entry.
Qed.

Lemma recover_sequence_line file e s :
  complete file -> entry_wf e -> to_json e = Some s ->
  recover_sequence (file ++ s ++ [Byte.x0a])
  = Z.max (recover_sequence file) (WalEntry.sequence e).
Proof.
  intros Hc Hwf Hs. unfold recover_sequence.
  rewrite lines_app_line by (done || by eapply json_one_line).
  rewrite foldl_app. cbn. by rewrite (json_roundtrip e s Hwf Hs).
Qed.

Lemma json_nonempty e s : entry_wf e -> to_json e = Some s -> s <> [].
Proof. intros Hwf Hs ->. by pose proof (json_not_blank e [] [] Hwf Hs eq_refl). Qed.

(** An item that does not parse adds no entry. *)
Lemma replay_step_unparsed acc l : from_json l = None -> (replay_step acc (Some l)).1 = acc.1.
Proof. intros Hj. destruct acc; cbn. rewrite Hj. by destruct (from_option _ _ _). Qed.

(** A torn last piece that does not parse, or is not text, adds no entry and leaves
    the recovered sequence number alone. *)
Lemma torn_tail file t :
  complete file -> Byte.x0a ∉ t -> from_json t = None ->
  (replay_loop (file ++ t)).1 = (replay_loop file).1
  /\ recover_sequence (file ++ t) = recover_sequence file.
Proof.
  intros Hc Ht Hj. destruct (decide (t = [])) as [->|Hne]; [by rewrite app_nil_r|].
  unfold replay_loop, recover_sequence. rewrite lines_app_torn by done.
  rewrite !foldl_app. cbn [foldl]. unfold read_line_item.
  destruct (utf8_valid t); [|by destruct (foldl replay_step _ _)].
  rewrite replay_step_unparsed by done. unfold recover_line at 1. by rewrite Hj.
Qed.

Lemma recover_sequence_nonneg file : 0 <= recover_sequence file.
Proof.
  assert (forall ls m, 0 <= m -> 0 <= foldl recover_line m ls) as Hf; [|by apply Hf].
  induction ls as [|l ls IH]; cbn; intros m Hm; [done|].
  apply IH. unfold recover_line. repeat case_match; lia.
Qed.

Lemma append_ok w file k v :
  log_clean w file -> in_u64 (sequence w) -> str_wf k -> value_wf v ->
  let n := wrap_u64 (sequence w + 1) in
  exists s w', to_json (WalEntry.new n k v) = Some s
    /\ append w file k v WriteOk = (w', file ++ s ++ [Byte.x0a], Ok n)
    /\ log_clean w' (file ++ s ++ [Byte.x0a]) /\ sequence w' = n.
Proof.
  intros Hc Hn Hk Hv n.
  destruct (json_total (WalEntry.new n k v)) as [s Hs].
  { apply entry_new_wf; [apply wrap_u64_range|done|done]. }
  exists s. eexists. split; [done|]. unfold append. fold n. rewrite Hs.
  destruct Hc as [Hb Hc]. rewrite Hb. cbn [app].
  rewrite write_file_end by done. split; [done|]. split; [|done].
  split; [done|]. cbn. destruct (cursor (writer w)); cbn; [|done]. subst.
  rewrite !length_app. lia.
Qed.

Lemma truncate_clean w file :
  log_clean w file -> (truncate w).2 = [] /\ log_clean (truncate w).1 [].
Proof. intros [Hb _]. unfold truncate. by rewrite Hb. Qed.

Lemma open_clean p f : log_clean (open p f).1 (open p f).2.
Proof. done. Qed.
(** A partly written line. *)
Lemma torn_append_replay (file : list byte) (e : WalEntry.t) s n :
  complete file -> entry_wf e -> WalEntry.verify e = true -> to_json e = Some s ->
  replay (Some (file ++ take n (s ++ [Byte.x0a])))
  = replay (Some file) ++ (if (n <? length s)%nat then [] else [e]).
Proof.
  intros Hc Hwf Hv Hs. pose proof (json_one_line e s Hwf Hs) as Hl.
  destruct (Nat.ltb_spec n (length s)) as [Hn|Hn].
  - rewrite take_app_le, app_nil_r by lia.
    apply torn_tail; [done|by apply one_line_take|by eapply json_cut].
  - destruct (decide (n = length s)) as [->|].
    + rewrite take_app_length. cbn. unfold replay_loop.
      rewrite lines_app_torn by (done || apply Hl || by eapply json_nonempty).
      rewrite foldl_app. cbn [foldl]. unfold read_line_item.
      destruct Hl as (_ & _ & ->). by rewrite (replay_step_entry _ e s).
    + rewrite take_ge by (rewrite length_app; cbn; lia). cbn.
      by rewrite (replay_loop_line file e s).
Qed.
End Facts.

#[export] Hint Resolve verify_new entry_new_wf open_clean : rkv.

(** ** Properties *)

Section Properties.
Import WriteAheadLog.
Context `{Crc32, !Crc32Laws, Json WalEntry.t, !JsonLaws WalEntry.t entry_wf}.


(** A crash in the middle of an append leaves some first [n] bytes of its line.
    Replay then returns all earlier entries; the interrupted entry is either absent, or
    present once its text is complete. Earlier entries are never lost or altered. *)
Theorem torn_append_keeps_earlier_entries (file : list byte) (e : WalEntry.t) s n :
  complete file -> entry_wf e -> WalEntry.verify e = true -> to_json e = Some s ->
  replay (Some (file ++ take n (s ++ [Byte.x0a])))
  = replay (Some file) ++ (if (n <? length s)%nat then [] else [e]).
Proof. apply torn_append_replay. Qed.

(** C19: after a crash in the middle of an append, the log reopens and accepts the
    next write, but that acknowledged entry is glued to the torn line and no replay
    returns it: an [Ok] append that recovery loses. *)
Theorem append_after_torn_write_is_lost (file : list byte) (e : WalEntry.t) s n p k v :
  complete file -> entry_wf e -> to_json e = Some s -> (0 < n < length s)%nat ->
  str_wf k -> value_wf v -> recover_sequence file < 2 ^ 64 - 1 ->
  let torn := file ++ take n s in
  let '(w, f) := open p (Some torn) in
  exists w' file', append w f k v WriteOk = (w', file', Ok (sequence w + 1))
    /\ replay (Some file') = replay (Some file).
Proof.
  intros Hc Hwf Hs Hn Hk Hv Hr. cbn zeta.
  assert (Byte.x0a ∉ take n s) as Hnt by by apply one_line_take, (json_one_line e).
  destruct (torn_tail file (take n s)) as [_ Hseq]; [done|done|apply (json_cut e s n Hwf Hs); lia|].
  pose proof (recover_sequence_nonneg file) as Hpos. cbn [open]. rewrite Hseq.
  set (w := Log p (Writer [] None) (recover_sequence file)).
  destruct (append_ok w (file ++ take n s) k v) as (t & w' & Ht & Ha & _ & _);
    [done|split; cbn; lia|done|done|].
  cbn in Ht, Ha. rewrite wrap_u64_small in Ht, Ha by (split; lia).
  eexists _, _. split; [exact Ha|].
  assert (entry_wf (WalEntry.new (recover_sequence file + 1) k v)) as Hwf'
    by (apply entry_new_wf; [split; lia|done|done]).
  pose proof (json_one_line _ t Hwf' Ht) as Hlt.
  cbn. rewrite <-app_assoc. unfold replay_loop. rewrite lines_app_glued by done.
  rewrite foldl_app. cbn [foldl]. unfold read_line_item.
  destruct (utf8_valid _); [|by destruct (foldl replay_step _ _)].
  rewrite strip_cr_id.
  - rewrite replay_step_unparsed; [done|]. apply (json_glued e _ s t n Hwf Hwf' Hs Ht); lia.
  - rewrite last_app. destruct (last t) eqn:El; [|by apply last_None in El; destruct (json_nonempty _ _ Hwf' Ht)].
    destruct Hlt as (_ & Hlt & _); congruence.
Qed.

(** [verify] accepts every entry as it was created, but the checksum covers
    neither the clock, nor the TTL, nor the tombstone flag, and does not separate the
    key from the value: changing those leaves the entry valid. *)
Theorem checksum_coverage n k v vc' ttl' del' c (k1 k2 : string) b :
  WalEntry.verify (WalEntry.new n k v) = true
  /\ WalEntry.verify (WalEntry.Entry n k
       (VersionedValue.Value (VersionedValue.value v) vc' (VersionedValue.timestamp_ms v) ttl' del') c)
     = WalEntry.verify (WalEntry.Entry n k v c)
  /\ WalEntry.verify (WalEntry.Entry n (k1 +:+ k2)
       (VersionedValue.Value b vc' (VersionedValue.timestamp_ms v) ttl' del') c)
     = WalEntry.verify (WalEntry.Entry n k1
       (VersionedValue.Value (bytes_of_string k2 ++ b) vc' (VersionedValue.timestamp_ms v) ttl' del') c).
Proof.
  split; [apply verify_new|]. split; [done|].
  unfold WalEntry.verify, WalEntry.compute_checksum, WalEntry.with_checksum.
  cbn -[bytes_of_string String.append le_bytes].
  by rewrite bytes_of_string_app, <-!app_assoc.
Qed.
End Properties.

(** ** The properties at a concrete log *)

Section Witnesses.
Import WriteAheadLog Toy.

Definition entry_1 : WalEntry.t := WalEntry.new 1 "k" value_a.
Definition line_of (e : WalEntry.t) : list byte := default [] (to_json e).
Definition file_1 : list byte := line_of entry_1 ++ [Byte.x0a].
Definition log_1 : WriteAheadLog.t := Log "wal" (Writer [] None) 1.


Example torn_append_keeps_earlier_entries_witness :
  replay (Some (file_1 ++ take 9 (line_of entry_1 ++ [Byte.x0a]))) = [entry_1].
Proof.
  rewrite (torn_append_keeps_earlier_entries file_1 entry_1 (line_of entry_1) 9);
    [vm_compute; reflexivity|decided|decided|vm_compute; reflexivity|reflexivity].
Defined.

Example append_after_torn_write_is_lost_witness :
  let '(w, f) := open "wal" (Some (file_1 ++ take 9 (line_of entry_1))) in
  exists w' file', append w f "b" value_ttl WriteOk = (w', file', Ok 2)
    /\ replay (Some file') = [entry_1].
Proof.
  destruct (append_after_torn_write_is_lost file_1 entry_1 (line_of entry_1) 9 "wal" "b" value_ttl)
    as (w' & f' & Ha & Hr).
  - decided.
  - decided.
  - reflexivity.
  - split; [|apply Nat.ltb_lt]; vm_compute; [lia|reflexivity].
  - decided.
  - decided.
  - vm_compute. reflexivity.
  - exists w', f'. split; [exact Ha|]. rewrite Hr. vm_compute. reflexivity.
Defined.

Example checksum_coverage_witness : WalEntry.verify entry_1 = true.
Proof.
  exact (proj1 (checksum_coverage 1 "k" value_a clock_10 0 false 0 "" "" [])).
Defined.
End Witnesses.
