(* ===== verification/Snapshot.v ===== *)
(** Snapshots of the table on disk (src/src/storage/snapshot.rs): one checksummed
    bincode file per snapshot, named by its time in milliseconds; the latest one is
    the last in name order.

    The snapshot directory is a finite map from file names to contents. Directory
    listing, creation, reading and removal succeed; what the code itself returns as an
    error is modelled. *)

From S2P Require Import Prelude Bytes Numerals BTreeMap VectorClock Memtable Externals.
Open Scope Z_scope.

(** [HashMap]-independent name of the map type that is saved. *)
Abbreviation table := (gmap string VersionedValue.t).
Abbreviation directory := (gmap string (list byte)).

Module SnapshotManager.

Section Operations.
Context `{Crc32, Bincode table}.

(** [format!("snapshot_{}.dat", timestamp)]. *)
Definition snapshot_name (timestamp : N) : string :=
  "snapshot_" +:+ pretty timestamp +:+ ".dat".

(** The bytes [save] writes: the checksum of the payload, then the payload. *)
Definition file_bytes (serialized : list byte) : list byte :=
  le_bytes 4 (crc32 serialized) ++ serialized.

(** Returns the file name and the directory after the write. *)
Definition save (now : Z) (dir : directory) (data : table)
  : result io_error (string * directory) :=
  let filename := snapshot_name (Z.to_N now) in
  match serialize data with
  | None => Err InvalidData
  | Some serialized => Ok (filename, <[filename := file_bytes serialized]> dir)
  end.

Definition load_snapshot (dir : directory) (name : string) : result io_error table :=
  match dir !! name with
  | None => Err NotFound
  | Some bytes =>
    if (length bytes <? 4)%nat then Err UnexpectedEof
    else
      let expected_checksum := le_value (take 4 bytes) in
      let data_bytes := drop 4 bytes in
      let actual_checksum := crc32 data_bytes in
      if negb (expected_checksum =? actual_checksum) then Err InvalidData
      else match deserialize data_bytes with
           | None => Err InvalidData
           | Some data => Ok data
           end
  end.

(** The file-name filter shared by [find_latest] and [cleanup]. *)
Definition is_snapshot_name (n : string) : bool :=
  utf8_valid (bytes_of_string n)
  && String.prefix "snapshot_" n
  && bool_decide (bytes_of_string ".dat" `suffix_of` bytes_of_string n).

Definition snapshots (dir : directory) : list string :=
  merge_sort String.le (filter (fun n => is_snapshot_name n = true) (map_to_list dir).*1).

Definition find_latest (dir : directory) : option string := last (snapshots dir).

Definition load_latest (dir : directory) : result io_error (option table) :=
  match find_latest dir with
  | Some name => data <-? load_snapshot dir name ;; Ok (Some data)
  | None => Ok None
  end.

(** The removal loop; returns the directory and the number of files removed. *)
Definition remove_file (acc : directory * nat) (name : string) : directory * nat :=
  (base.delete name acc.1, S acc.2).

Definition cleanup (keep : nat) (dir : directory) : directory * nat :=
  let names := snapshots dir in
  if (keep <? length names)%nat then
    foldl remove_file (dir, O) (take (length names - keep) names)
  else (dir, O).

End Operations.
End SnapshotManager.

(** ** Facts *)

(** Millisecond timestamps with 13 digits: from September 2001 to November 2286. *)
Definition ms_13 (t : N) : Prop := (10 ^ 12 <= t < 10 ^ 13)%N.

Lemma pretty_length_13 t : ms_13 t -> String.length (pretty t) = 13%nat.
Proof.
  intros [Hlo Hhi]. destruct (pretty_numeral t) as (Hd & Hn & Hp); [lia|].
  pose proof (numeral_lt _ Hd) as Hlt. rewrite Hn in Hlt. unfold pow10 in *.
  set (n := N.of_nat (String.length (pretty t))) in *.
  assert (12 < n)%N by (apply (N.pow_lt_mono_r_iff 10); lia).
  assert (n < 14)%N by (apply (N.pow_lt_mono_r_iff 10); lia).
  lia.
Qed.

Lemma string_le_app_l p s t : String.le s t -> String.le (p +:+ s) (p +:+ t).
Proof. intros. induction p as [|c p IH]; [done|].
  change (String.le (String c (p +:+ s)) (String c (p +:+ t))). apply string_le_cons; auto.
Qed.

Lemma string_le_app_r s t u :
  String.length s = String.length t -> String.le s t -> String.le (s +:+ u) (t +:+ u).
Proof.
  revert t; induction s as [|c s IH]; intros [|d t]; try done; cbn [String.length].
  intros [= Hl] Hle. change (String.le (String c (s +:+ u)) (String d (t +:+ u))).
  apply string_le_cons in Hle as [?|[-> ?]]; apply string_le_cons; auto.
Qed.

Lemma snapshot_name_le t u :
  ms_13 t -> ms_13 u -> (t <= u)%N ->
  String.le (SnapshotManager.snapshot_name t) (SnapshotManager.snapshot_name u).
Proof.
  intros Ht Hu Hle. apply string_le_app_l.
  pose proof (pretty_length_13 t Ht) as Lt. pose proof (pretty_length_13 u Hu) as Lu.
  apply string_le_app_r; [by rewrite Lt, Lu|].
  destruct Ht, Hu.
  destruct (pretty_numeral t) as (Dt & Nt & _); [lia|].
  destruct (pretty_numeral u) as (Du & Nu & _); [lia|].
  apply numeral_order; try done; [by rewrite Lt, Lu|]. by rewrite Nt, Nu.
Qed.

Lemma byte_of_ascii_value c : Z_of_byte (Ascii.byte_of_ascii c) = Z.of_N (Ascii.N_of_ascii c).
Proof.
  unfold Z_of_byte. f_equal.
  by apply Byte.to_of_N, eq_sym, Ascii.byte_of_ascii_via_N.
Qed.

Lemma digits_ascii s :
  all_digits s -> Forall (fun b => Z_of_byte b < 128) (bytes_of_string s).
Proof.
  induction s as [|c s IH]; cbn; [constructor|]. intros [Hc Hs]. constructor; [|by apply IH].
  rewrite byte_of_ascii_value. unfold is_digit in Hc. lia.
Qed.

Lemma prefix_app p s : String.prefix p (p +:+ s) = true.
Proof.
  induction p as [|c p IH]; [by destruct s|].
  change (String c p +:+ s) with (String c (p +:+ s)). cbn. by destruct (Ascii.ascii_dec c c).
Qed.

Lemma snapshot_name_ok t :
  ms_13 t -> SnapshotManager.is_snapshot_name (SnapshotManager.snapshot_name t) = true.
Proof.
  intros [Ht _]. destruct (pretty_numeral t) as (Hd & _ & _); [lia|].
  unfold SnapshotManager.is_snapshot_name. rewrite !andb_true_iff. split_and!.
  - unfold utf8_valid. rewrite ascii_utf8; [done|].
    unfold SnapshotManager.snapshot_name. rewrite !bytes_of_string_app, !Forall_app.
    split_and!; [|by apply digits_ascii|]; repeat constructor.
  - apply prefix_app.
  - apply bool_decide_true. unfold SnapshotManager.snapshot_name.
    rewrite !bytes_of_string_app. by apply suffix_app_r, suffix_app_r.
Qed.

(** Every snapshot of the directory was saved by this code at a 13-digit time not
    after [now]. *)
Definition saved_before (now : N) (dir : directory) : Prop :=
  forall n, n ∈ SnapshotManager.snapshots dir ->
  exists t, n = SnapshotManager.snapshot_name t /\ ms_13 t /\ (t <= now)%N.

Lemma last_le (l : list string) x y :
  StronglySorted String.le l -> last l = Some x -> y ∈ l -> String.le y x.
Proof.
  intros Hs (l' & ->)%last_Some Hy. apply elem_of_app in Hy as [Hy|Hy%list_elem_of_singleton].
  - eapply StronglySorted_app_1_elem_of; [done|done|by left].
  - by subst.
Qed.

Section Facts.
Import SnapshotManager.
Context `{Crc32, !Crc32Laws, Bincode table, !BincodeLaws table data_wf}.
Implicit Types (dir : directory) (data : table).

Lemma elem_of_snapshots dir n :
  n ∈ snapshots dir <-> is_snapshot_name n = true /\ is_Some (dir !! n).
Proof.
  unfold snapshots. rewrite merge_sort_Permutation, list_elem_of_filter.
  rewrite list_elem_of_fmap. split.
  - intros (? & [? v] & -> & ?%elem_of_map_to_list). naive_solver.
  - intros (? & [v Hv]). split; [done|]. exists (n, v). by rewrite elem_of_map_to_list.
Qed.

Lemma snapshots_sorted dir : StronglySorted String.le (snapshots dir).
Proof. apply StronglySorted_merge_sort; apply _. Qed.

Lemma snapshots_NoDup dir : NoDup (snapshots dir).
Proof.
  unfold snapshots. rewrite merge_sort_Permutation. apply NoDup_filter, NoDup_fst_map_to_list.
Qed.

Lemma snapshots_unique dir l :
  StronglySorted String.le l -> NoDup l ->
  (forall n, n ∈ l <-> n ∈ snapshots dir) -> l = snapshots dir.
Proof.
  intros Hs Hn Hl. apply (StronglySorted_unique String.le); [done|apply snapshots_sorted|].
  apply NoDup_Permutation; [done|apply snapshots_NoDup|done].
Qed.

(** A listed name above all others is the latest. *)
Lemma find_latest_max dir n :
  n ∈ snapshots dir -> (forall m, m ∈ snapshots dir -> String.le m n) ->
  find_latest dir = Some n.
Proof.
  intros Hn Hmax. unfold find_latest. destruct (last (snapshots dir)) as [m|] eqn:E.
  - f_equal. apply (anti_symm String.le).
    + apply Hmax. apply last_Some in E as [l ->]. apply elem_of_app. right; by left.
    + eapply last_le; [apply snapshots_sorted|done|done].
  - apply last_None in E. rewrite E in Hn. by apply not_elem_of_nil in Hn.
Qed.

Lemma load_file_bytes dir n data bs :
  data_wf data -> serialize data = Some bs -> dir !! n = Some (file_bytes bs) ->
  load_snapshot dir n = Ok data.
Proof.
  intros Hwf Hs Hn. unfold load_snapshot. rewrite Hn. unfold file_bytes.
  rewrite length_app, le_bytes_length. cbn [Nat.ltb Nat.leb Nat.add].
  rewrite take_app_length', drop_app_length' by (by rewrite le_bytes_length).
  rewrite le_value_bytes, Z.mod_small by apply crc32_u32.
  rewrite Z.eqb_refl. cbn. by rewrite (bincode_roundtrip data bs Hwf Hs).
Qed.

(** Any one byte of the file changed, in the checksum or in the payload. *)
Lemma load_changed_byte dir n bs i b b' :
  file_bytes bs !! i = Some b -> b <> b' -> dir !! n = Some (<[i := b']> (file_bytes bs)) ->
  load_snapshot dir n = Err InvalidData.
Proof.
  intros Hi Hb Hn. unfold load_snapshot. rewrite Hn, length_insert. unfold file_bytes in *.
  pose proof (le_bytes_length 4 (crc32 bs)) as Hl.
  rewrite length_app, Hl. cbn [Nat.ltb Nat.leb Nat.add].
  destruct (decide (i < 4)%nat) as [Hlt|Hge].
  - rewrite lookup_app_l in Hi by lia. rewrite insert_app_l by lia.
    rewrite take_app_length', drop_app_length' by (by rewrite length_insert).
    rewrite (proj2 (Z.eqb_neq _ _)); [done|]. intros Heq.
    assert (<[i := b']> (le_bytes 4 (crc32 bs)) = le_bytes 4 (crc32 bs)) as Heq'.
    { apply le_value_inj; [by rewrite length_insert|].
      by rewrite Heq, le_value_bytes, Z.mod_small by apply crc32_u32. }
    assert (<[i := b']> (le_bytes 4 (crc32 bs)) !! i = Some b') as Hi'
      by (apply list_lookup_insert_eq; lia).
    rewrite Heq', Hi in Hi'. by injection Hi'.
  - rewrite lookup_app_r, Hl in Hi by lia. rewrite insert_app_r_alt, Hl by lia.
    rewrite take_app_length', drop_app_length' by done.
    rewrite (proj2 (Z.eqb_neq _ _)); [done|].
    rewrite le_value_bytes, Z.mod_small by apply crc32_u32.
    rewrite insert_take_drop by (by eapply lookup_lt_Some).
    rewrite <-(take_drop_middle bs (i - 4) b Hi) at 1. by apply crc32_byte.
Qed.

Lemma foldl_remove l dir k :
  foldl remove_file (dir, k) l = (filter (fun p => p.1 ∉ l) dir, (k + length l)%nat).
Proof.
  revert dir k; induction l as [|n l IH]; intros dir k; cbn [foldl length].
  - rewrite Nat.add_0_r. f_equal. symmetry. apply map_filter_id.
    intros; apply not_elem_of_nil.
  - unfold remove_file at 2; cbn. rewrite IH. f_equal; [|lia].
    apply map_eq. intros m. apply option_eq. intros v.
    rewrite !map_lookup_filter_Some, lookup_delete_Some; cbn. rewrite not_elem_of_cons.
    naive_solver.
Qed.

Lemma cleanup_eq keep dir :
  cleanup keep dir
  = (filter (fun p => p.1 ∉ take (length (snapshots dir) - keep) (snapshots dir)) dir,
     (length (snapshots dir) - keep)%nat).
Proof.
  unfold cleanup. destruct (Nat.ltb_spec keep (length (snapshots dir))) as [Hk|Hk].
  - rewrite foldl_remove, length_take. f_equal. lia.
  - replace (length (snapshots dir) - keep)%nat with 0%nat by lia. cbn. f_equal.
    symmetry. apply map_filter_id. intros; apply not_elem_of_nil.
Qed.

Lemma snapshots_cleanup keep dir :
  snapshots (cleanup keep dir).1
  = drop (length (snapshots dir) - keep) (snapshots dir).
Proof.
  rewrite cleanup_eq. cbn. set (k := (length (snapshots dir) - keep)%nat).
  pose proof (take_drop k (snapshots dir)) as Htd.
  pose proof (snapshots_NoDup dir) as Hnd. pose proof (snapshots_sorted dir) as Hs.
  rewrite <-Htd in Hnd, Hs. apply NoDup_app in Hnd as (_ & Hdisj & Hnd).
  symmetry. apply snapshots_unique; [by eapply StronglySorted_app_1_r|done|].
  intros n. rewrite (elem_of_snapshots (filter _ _)). split.
  - intros Hin.
    assert (n ∈ snapshots dir) as Hn by (rewrite <-Htd; apply elem_of_app; by right).
    apply elem_of_snapshots in Hn as [Hn [v Hv]]. split; [done|]. exists v.
    apply map_lookup_filter_Some. split; [done|]. intros Ht. by apply (Hdisj n).
  - intros [Hn [v [Hv Ht]%map_lookup_filter_Some]]. cbn in Ht.
    assert (n ∈ snapshots dir) as Hin by (apply elem_of_snapshots; eauto).
    rewrite <-Htd in Hin. by apply elem_of_app in Hin as [?|?].
Qed.

(** Cleanup does not touch the contents of the files it keeps. *)
Lemma cleanup_lookup keep dir n v :
  (cleanup keep dir).1 !! n = Some v <->
  dir !! n = Some v /\ n ∉ take (length (snapshots dir) - keep) (snapshots dir).
Proof. rewrite cleanup_eq. cbn. by rewrite map_lookup_filter_Some. Qed.

Lemma save_facts (now : Z) (dir : directory) (data : table) :
  data_wf data -> ms_13 (Z.to_N now) -> saved_before (Z.to_N now) dir ->
  exists name dir',
    save now dir data = Ok (name, dir')
    /\ load_snapshot dir' name = Ok data
    /\ load_latest dir' = Ok (Some data)
    /\ saved_before (Z.to_N now) dir'
    /\ forall n, n <> name -> dir' !! n = dir !! n.
Proof.
  intros Hwf Hms Hdir. destruct (bincode_total data Hwf) as [bs Hs].
  unfold save. rewrite Hs. set (name := snapshot_name (Z.to_N now)).
  set (dir' := <[name := file_bytes bs]> dir).
  assert (load_snapshot dir' name = Ok data) as Hload
    by (eapply load_file_bytes; [done|done|apply lookup_insert_eq]).
  assert (name ∈ snapshots dir') as Hin.
  { apply elem_of_snapshots. split; [by apply snapshot_name_ok|]. exists (file_bytes bs).
    apply lookup_insert_eq. }
  assert (saved_before (Z.to_N now) dir') as Hsaved.
  { intros n [Hn [v Hv]]%elem_of_snapshots. unfold dir' in Hv.
    apply lookup_insert_Some in Hv as [[<- _]|[_ Hv]]; [by exists (Z.to_N now)|].
    apply Hdir, elem_of_snapshots; eauto. }
  exists name, dir'. split_and!; try done.
  - unfold load_latest. rewrite (find_latest_max dir' name), Hload; [done|done|].
    intros m Hm. destruct (Hsaved m Hm) as (t & -> & Ht & Hle). by apply snapshot_name_le.
  - intros n Hne. by apply lookup_insert_ne.
Qed.

Lemma cleanup_facts (keep : nat) (dir : directory) :
  let '(dir', removed) := cleanup keep dir in
  removed = (length (snapshots dir) - keep)%nat
  /\ snapshots dir' = drop removed (snapshots dir)
  /\ (forall n, is_snapshot_name n = false -> dir' !! n = dir !! n)
  /\ ((1 <= keep)%nat -> load_latest dir' = load_latest dir).
Proof.
  destruct (cleanup keep dir) as [dir' removed] eqn:E.
  assert (dir' = (cleanup keep dir).1) as Hd by by rewrite E.
  assert (removed = (length (snapshots dir) - keep)%nat) as Hr.
  { rewrite cleanup_eq in E. by simplify_eq. }
  assert (snapshots dir' = drop removed (snapshots dir)) as Hs
    by by rewrite Hd, Hr, snapshots_cleanup.
  split_and!; [done|done| |].
  - intros n Hn. apply option_eq. intros v. rewrite Hd, cleanup_lookup.
    split; [by intros [? _]|]. intros Hv. split; [done|]. intros Hin.
    assert (n ∈ snapshots dir) as Hin' by (by rewrite <-(take_drop (length (snapshots dir) - keep) (snapshots dir)); apply elem_of_app; left).
    apply elem_of_snapshots in Hin' as [? _]. congruence.
  - intros Hk. unfold load_latest, find_latest. rewrite Hs.
    destruct (decide (snapshots dir = [])) as [He|He]; [by rewrite He, drop_nil|].
    assert (removed < length (snapshots dir))%nat as Hlt.
    { destruct (snapshots dir); [done|]. cbn in *. lia. }
    rewrite <-(take_drop removed (snapshots dir)) at 2.
    rewrite last_app. destruct (last (drop removed (snapshots dir))) as [n|] eqn:El.
    2: { apply last_None in El. apply (f_equal length) in El. rewrite length_drop in El. cbn in El. lia. }
    unfold load_snapshot. assert (dir' !! n = dir !! n) as ->; [|done].
    apply option_eq. intros v. rewrite Hd, cleanup_lookup, <-Hr. split; [by intros [? _]|].
    intros Hv. split; [done|]. intros Ht. pose proof (snapshots_NoDup dir) as Hnd.
    rewrite <-(take_drop removed (snapshots dir)) in Hnd. apply NoDup_app in Hnd as (_ & Hnd & _).
    apply (Hnd n Ht). apply last_Some in El as [l' ->]. apply elem_of_app. right; by left.
Qed.

Lemma load_error_facts (dir : directory) (name : string) (bs : list byte) :
  (dir !! name = None -> load_snapshot dir name = Err NotFound)
  /\ (dir !! name = Some bs -> (length bs < 4)%nat -> load_snapshot dir name = Err UnexpectedEof)
  /\ (dir !! name = Some bs -> (4 <= length bs)%nat ->
      le_value (take 4 bs) <> crc32 (drop 4 bs) -> load_snapshot dir name = Err InvalidData)
  /\ (find_latest dir = Some name -> dir !! name = Some bs -> (length bs < 4)%nat ->
      load_latest dir = Err UnexpectedEof).
Proof.
  assert (dir !! name = Some bs -> (length bs < 4)%nat -> load_snapshot dir name = Err UnexpectedEof) as Hshort.
  { intros E Hl. unfold load_snapshot. rewrite E. by rewrite (proj2 (Nat.ltb_lt _ _) Hl). }
  split_and!; [|done| |].
  - intros E. unfold load_snapshot. by rewrite E.
  - intros E Hl Hc. unfold load_snapshot. rewrite E, (proj2 (Nat.ltb_ge _ _) Hl).
    by rewrite (proj2 (Z.eqb_neq _ _) Hc).
  - intros Hf E Hl. unfold load_latest. by rewrite Hf, Hshort.
Qed.
End Facts.

(** ** Properties *)

Section Properties.
Import SnapshotManager.
Context `{Crc32, !Crc32Laws, Bincode table, !BincodeLaws table data_wf}.


(** Cleanup removes the oldest snapshots (in name order) until at most
    [keep] are left, returns how many it removed, keeps every other file, and with
    [keep >= 1] never changes what [load_latest] returns. *)
Theorem cleanup_keeps_newest (keep : nat) (dir : directory) :
  let '(dir', removed) := cleanup keep dir in
  removed = (length (snapshots dir) - keep)%nat
  /\ snapshots dir' = drop removed (snapshots dir)
  /\ (forall n, is_snapshot_name n = false -> dir' !! n = dir !! n)
  /\ ((1 <= keep)%nat -> load_latest dir' = load_latest dir).
Proof. apply cleanup_facts. Qed.

(** Loading reports a missing file, a file of fewer than four bytes, and a
    checksum mismatch as errors; and a latest snapshot cut to fewer than four bytes
    makes [load_latest] fail whatever intact older snapshots the directory holds. *)
Theorem load_errors (dir : directory) (name : string) (bs : list byte) :
  (dir !! name = None -> load_snapshot dir name = Err NotFound)
  /\ (dir !! name = Some bs -> (length bs < 4)%nat -> load_snapshot dir name = Err UnexpectedEof)
  /\ (dir !! name = Some bs -> (4 <= length bs)%nat ->
      le_value (take 4 bs) <> crc32 (drop 4 bs) -> load_snapshot dir name = Err InvalidData)
  /\ (find_latest dir = Some name -> dir !! name = Some bs -> (length bs < 4)%nat ->
      load_latest dir = Err UnexpectedEof).
Proof. apply load_error_facts. Qed.
End Properties.

(** ** The properties at a concrete directory *)

Section Witnesses.
Import SnapshotManager Toy.

Definition at_ms : Z := 1700000001000.
Definition table_1 : table := {["k" := value_a]}.


(** A checksum that does not match, a file too short, and no file at all. *)
Definition bad_dir : directory :=
  {["snapshot_1700000000000.dat" := [Byte.x01; Byte.x02; Byte.x03; Byte.x04; Byte.x05];
    "snapshot_1700000000001.dat" := [Byte.x01]]}.

Example load_errors_witness :
  load_snapshot bad_dir "snapshot_1700000000000.dat" = Err InvalidData
  /\ load_latest bad_dir = Err UnexpectedEof
  /\ load_snapshot bad_dir "none" = Err NotFound.
Proof.
  split_and!.
  - apply (load_errors bad_dir "snapshot_1700000000000.dat"
      [Byte.x01; Byte.x02; Byte.x03; Byte.x04; Byte.x05]); vm_compute; [reflexivity|lia|congruence].
  - apply (load_errors bad_dir "snapshot_1700000000001.dat" [Byte.x01]);
      vm_compute; [reflexivity|reflexivity|lia].
  - apply (load_errors bad_dir "none" []). reflexivity.
Defined.

Example cleanup_keeps_newest_witness :
  load_latest (cleanup 1 bad_dir).1 = load_latest bad_dir.
Proof.
  pose proof (cleanup_keeps_newest 1 bad_dir) as H. destruct (cleanup 1 bad_dir) as [dir' n].
  apply H. lia.
Defined.
End Witnesses.
