(* ===== verification/Engine.v ===== *)
(** The storage engine (src/src/storage/engine.rs): the table, the write-ahead log and
    the snapshots behind one facade, with recovery on open.

    [disk] is what survives a crash: the log file and the snapshot directory. An
    operation takes and returns the disk beside the in-memory engine. This file holds
    the operations run one at a time; EngineRace.v interleaves their steps. *)

From S2P Require Import Prelude Bytes BTreeMap VectorClock Memtable Externals Wal Snapshot.
Open Scope Z_scope.

(** [StorageConfig]; durations in milliseconds. *)
Module StorageConfig.
Record t := Config {
  data_dir : string;
  memtable_max_bytes : Z;
  snapshot_interval : Z;
  ttl_reap_interval : Z;
  max_snapshots : nat;
  node_id : string
}.
Definition default : t :=
  Config "./data" (64 * 1024 * 1024) (300 * 1000) (60 * 1000) 3 "node-0".
End StorageConfig.

Record disk := Disk { wal_file : option (list byte); snap_dir : directory }.

Module StorageEngine.

(** [flush_permit] is the state of [flush_notify : Notify]: a stored wake-up. *)
Record t := Engine {
  memtable : MemTable.t;
  wal : WriteAheadLog.t;
  config : StorageConfig.t;
  flush_permit : bool
}.

Definition set_memtable (self : t) (mt : MemTable.t) : t :=
  Engine mt self.(wal) self.(config) self.(flush_permit).
Definition set_wal (self : t) (w : WriteAheadLog.t) : t :=
  Engine self.(memtable) w self.(config) self.(flush_permit).
Definition notify (self : t) : t :=
  Engine self.(memtable) self.(wal) self.(config) true.

Section Operations.
Context `{Crc32, Json WalEntry.t, Bincode table}.

(** The log file of an open engine. *)
Definition file_of (d : disk) : list byte := default [] (wal_file d).

(** Recovery puts pairs into the table one after the other; the flag is dropped. *)
Definition load_pairs (mt : MemTable.t) (l : list (string * VersionedValue.t)) : MemTable.t :=
  foldl (fun mt p => (MemTable.put mt p.1 p.2).1) mt l.

Definition entry_pair (e : WalEntry.t) : string * VersionedValue.t :=
  (WalEntry.key e, WalEntry.value e).

(** The log file is created before the snapshot is loaded, so it exists even when
    loading fails. *)
Definition open (config : StorageConfig.t) (d : disk) : disk * result io_error t :=
  let wal_path := path_join (StorageConfig.data_dir config) "wal.log" in
  let memtable := MemTable.new (StorageConfig.memtable_max_bytes config) in
  let '(wal, file) := WriteAheadLog.open wal_path d.(wal_file) in
  let d' := Disk (Some file) d.(snap_dir) in
  match SnapshotManager.load_latest d.(snap_dir) with
  | Err e => (d', Err e)
  | Ok snapshot =>
    let memtable :=
      match snapshot with
      | Some snapshot_data => load_pairs memtable (str_iter snapshot_data)
      | None => memtable
      end in
    let wal_entries := WriteAheadLog.replay (Some file) in
    let memtable := load_pairs memtable (entry_pair <$> wal_entries) in
    (d', Ok (Engine memtable wal config false))
  end.

Definition get (now : Z) (self : t) (key : string) : option VersionedValue.t :=
  MemTable.get now self.(memtable) key.

Definition get_raw (self : t) (key : string) : option VersionedValue.t :=
  MemTable.get_raw self.(memtable) key.

(** [wal.append(..)?] under the log's lock. *)
Definition log_append (io : write_outcome) (self : t) (d : disk) (key : string)
    (value : VersionedValue.t) : t * disk * result io_error Z :=
  let '(wal, file, r) := WriteAheadLog.append self.(wal) (file_of d) key value io in
  (set_wal self wal, Disk (Some file) d.(snap_dir), r).

(** [memtable.put(..)], and the wake-up when the table is full. *)
Definition table_put (self : t) (key : string) (value : VersionedValue.t) : t :=
  let '(mt, should_flush) := MemTable.put self.(memtable) key value in
  let self := set_memtable self mt in
  if should_flush then notify self else self.

Definition put (io : write_outcome) (self : t) (d : disk) (key : string)
    (value : VersionedValue.t) : t * disk * result io_error unit :=
  let '(self, d, r) := log_append io self d key value in
  match r with
  | Err e => (self, d, Err e)
  | Ok _ => (table_put self key value, d, Ok tt)
  end.

Definition clock_of (self : t) (key : string) : VectorClock.t :=
  MemTable.clock_of self.(memtable) key.

Definition put_raw (now : Z) (io : write_outcome) (self : t) (d : disk) (key : string)
    (value : list byte) (ttl_ms : Z) : t * disk * result io_error unit :=
  let existing_clock := clock_of self key in
  let versioned := VersionedValue.new now value (StorageConfig.node_id self.(config)) ttl_ms in
  let versioned := VersionedValue.with_clock versioned
    (VectorClock.merge (VersionedValue.vector_clock versioned) existing_clock) in
  put io self d key versioned.

Definition delete (now : Z) (io : write_outcome) (self : t) (d : disk) (key : string)
  : t * disk * result io_error unit :=
  let clock := clock_of self key in
  let tombstone := VersionedValue.tombstone now (StorageConfig.node_id self.(config)) clock in
  let '(self, d, r) := log_append io self d key tombstone in
  match r with
  | Err e => (self, d, Err e)
  | Ok _ => (set_memtable self (MemTable.put self.(memtable) key tombstone).1, d, Ok tt)
  end.

Definition scan (at_ : string -> Z) (self : t) (start end_ : string) (limit : N)
  : outcome (list (string * VersionedValue.t)) :=
  MemTable.scan at_ self.(memtable) start end_ limit.

(** The steps of [flush] after the table was copied: save, clean up, truncate. *)
Definition flush_save (now : Z) (d : disk) (data : table) : result io_error disk :=
  match SnapshotManager.save now d.(snap_dir) data with
  | Err e => Err e
  | Ok (_, dir) => Ok (Disk d.(wal_file) dir)
  end.

Definition flush_cleanup (self : t) (d : disk) : disk :=
  Disk d.(wal_file)
    (SnapshotManager.cleanup (StorageConfig.max_snapshots self.(config)) d.(snap_dir)).1.

Definition flush_truncate (self : t) (d : disk) : t * disk :=
  let '(wal, file) := WriteAheadLog.truncate self.(wal) in
  (set_wal self wal, Disk (Some file) d.(snap_dir)).

Definition flush (now : Z) (self : t) (d : disk) : t * disk * result io_error unit :=
  let data := MemTable.snapshot self.(memtable) in
  if bool_decide (data = ∅) then (self, d, Ok tt)
  else
    match flush_save now d data with
    | Err e => (self, d, Err e)
    | Ok d =>
      let d := flush_cleanup self d in
      let '(self, d) := flush_truncate self d in
      (self, d, Ok tt)
    end.

(** One iteration of the snapshot task: woken by the timer or by the stored permit,
    which it consumes; a flush error is only logged. *)
Definition flush_task (woken_by_permit : bool) (now : Z) (self : t) (d : disk) : t * disk :=
  let self :=
    if woken_by_permit
    then Engine self.(memtable) self.(wal) self.(config) false
    else self in
  let '(self, d, _) := flush now self d in (self, d).

(** One iteration of the TTL reaper. *)
Definition reap_task (at_ : string -> Z) (self : t) : t :=
  set_memtable self (MemTable.evict_expired at_ self.(memtable)).1.

End Operations.
End StorageEngine.

(** ** Recovery *)

Section Recovery.
Import StorageEngine.
Context `{Crc32, Json WalEntry.t, Bincode table}.

(** What the log file adds, in order. *)
Definition logged (file : list byte) : list (string * VersionedValue.t) :=
  entry_pair <$> WriteAheadLog.replay (Some file).

(** The table that opening the disk rebuilds. *)
Definition recovered (d : disk) : result io_error table :=
  snap <-? SnapshotManager.load_latest (snap_dir d) ;;
  Ok (extend (default ∅ snap) (logged (file_of d))).

Lemma load_pairs_data mt l : MemTable.data (load_pairs mt l) = extend (MemTable.data mt) l.
Proof. revert mt; induction l as [|p l IH]; intros mt; cbn; [done|]. by rewrite IH. Qed.

Lemma load_pairs_size mt l : size_ok mt -> size_ok (load_pairs mt l).
Proof. revert mt; induction l as [|p l IH]; intros mt Hs; cbn; [done|]. by apply IH, put_size_ok. Qed.

Lemma load_pairs_max mt l :
  MemTable.max_size_bytes (load_pairs mt l) = MemTable.max_size_bytes mt.
Proof. revert mt; induction l as [|p l IH]; intros mt; cbn; [done|]. by rewrite IH. Qed.

Lemma extend_iter (m : table) : extend ∅ (str_iter m) = m.
Proof. apply extend_entries, iter_permutation. Qed.

(** Opening rebuilds exactly [recovered]. *)
Lemma open_recovers cfg d :
  match recovered d with
  | Ok m => exists e, open cfg d = (Disk (Some (file_of d)) (snap_dir d), Ok e)
      /\ MemTable.data (memtable e) = m /\ size_ok (memtable e)
      /\ config e = cfg /\ log_clean (wal e) (file_of d)
      /\ WriteAheadLog.sequence (wal e)
         = from_option WriteAheadLog.recover_sequence 0 (wal_file d)
  | Err err => open cfg d = (Disk (Some (file_of d)) (snap_dir d), Err err)
  end.
Proof.
  unfold recovered, open, WriteAheadLog.open, logged, file_of. cbn [default].
  destruct (SnapshotManager.load_latest (snap_dir d)) as [[s|]|err]; cbn [result_bind]; [| |done].
  - eexists. split; [done|]. cbn [memtable config wal].
    rewrite !load_pairs_data, extend_iter. split_and!; try done.
    by do 2 apply load_pairs_size.
  - eexists. split; [done|]. cbn [memtable config wal].
    rewrite load_pairs_data. split_and!; try done.
    by apply load_pairs_size.
Qed.
End Recovery.
