(* ===== verification/EngineDurability.v ===== *)
(** What the storage engine promises: a crash at any point between operations loses
    nothing a client could read. The abstract state is the table; [durable] relates
    the engine and its disk to it, every operation preserves the relation, and
    [reachable] is the transition system of an engine run one operation at a time. *)

From S2P Require Import Prelude Bytes BTreeMap VectorClock Memtable Externals Wal Snapshot Engine.
Open Scope Z_scope.

(** Wall-clock readings with 13 digits. *)
Definition clock_ok (now : Z) : Prop := 10 ^ 12 <= now < 10 ^ 13.

(** The recovered table agrees with the one in memory, up to entries that have
    expired and were evicted from memory only. *)
Definition agrees_at (now : Z) (x y : option VersionedValue.t) : Prop :=
  y = x \/ (x = None /\ exists v, y = Some v /\ VersionedValue.is_expired now v = true).

Definition agrees (now : Z) (m r : table) : Prop := forall k, agrees_at now (m !! k) (r !! k).

Section Agrees.
Implicit Types (m r : table).

Lemma agrees_refl now m : agrees now m m.
Proof. by left. Qed.

Lemma agrees_insert now m r k v : agrees now m r -> agrees now (<[k := v]> m) (<[k := v]> r).
Proof.
  intros Hmr k'. destruct (decide (k = k')) as [->|].
  - left. by rewrite !lookup_insert_eq.
  - rewrite !lookup_insert_ne by done. apply Hmr.
Qed.

Lemma now_ms_mono now now' : clock_ok now -> clock_ok now' -> now <= now' -> now_ms now <= now_ms now'.
Proof. unfold clock_ok, now_ms. intros. rewrite !wrap_i64_small by (unfold in_i64; lia). done. Qed.

Lemma agrees_mono now now' m r :
  now_ms now <= now_ms now' -> agrees now m r -> agrees now' m r.
Proof.
  intros Ht Hmr k. destruct (Hmr k) as [?|(Hm & v & Hr & Hv)]; [by left|right].
  split; [done|]. exists v. split; [done|]. by eapply is_expired_mono.
Qed.

Lemma agrees_at_evict now now' at_ m k y :
  now_ms now <= now_ms now' -> now_ms (at_ k) <= now_ms now' -> agrees_at now (m !! k) y ->
  agrees_at now'
    (retain (fun k v => negb (VersionedValue.is_expired (at_ k) v)) m !! k) y.
Proof.
  intros Ht Hat Hk.
  destruct (retain _ m !! k) as [v|] eqn:E.
  - apply lookup_retain in E as [E _]. rewrite E in Hk.
    destruct Hk as [?|[? _]]; [by left|done].
  - destruct (m !! k) as [v|] eqn:Em.
    2: { destruct Hk as [?|(_ & v & ? & ?)]; [by left|right]. split; [done|]. exists v.
         split; [done|]. by apply (is_expired_mono now). }
    assert (VersionedValue.is_expired (at_ k) v = true) as Hv.
    { destruct (VersionedValue.is_expired (at_ k) v) eqn:Ev; [done|].
      assert (retain (fun k v => negb (VersionedValue.is_expired (at_ k) v)) m !! k = Some v) as Hr
        by (apply lookup_retain; by rewrite Ev).
      congruence. }
    right. destruct Hk as [Hk|[? _]]; [|done]. split; [done|]. exists v. split; [done|].
    by apply (is_expired_mono (at_ k)).
Qed.

Lemma agrees_evict now now' at_ m r :
  now_ms now <= now_ms now' -> (forall k, now_ms (at_ k) <= now_ms now') -> agrees now m r ->
  agrees now' (retain (fun k v => negb (VersionedValue.is_expired (at_ k) v)) m) r.
Proof. intros Ht Hat Hmr k. by apply (agrees_at_evict now). Qed.

(** Agreement is invisible to reads from then on. *)
Lemma agrees_get now now' mt mt' k :
  now_ms now <= now_ms now' -> agrees now (MemTable.data mt) (MemTable.data mt') ->
  MemTable.get now' mt' k = MemTable.get now' mt k.
Proof.
  intros Ht Hmr. unfold MemTable.get.
  destruct (agrees_mono _ _ _ _ Ht Hmr k) as [->|(-> & v & -> & Hv)]; [done|]. by rewrite Hv.
Qed.

Lemma agrees_relog now m (s : table) l : agrees now m (extend s l) -> agrees now m (extend m l).
Proof.
  intros Hmr k. destruct (decide (k ∈ l.*1)) as [Hin|Hnot].
  - rewrite (lookup_extend_in m s) by done. apply Hmr.
  - left. by apply lookup_extend_notin.
Qed.
End Agrees.

Section Durable.
Import StorageEngine.
Context `{Crc32, !Crc32Laws, Json WalEntry.t, !JsonLaws WalEntry.t entry_wf}.
Context `{Bincode table, !BincodeLaws table data_wf}.

(** The invariant between operations at time [now]. *)
Record durable (now : Z) (e : t) (d : disk) : Prop := Durable {
  dur_clock : clock_ok now;
  dur_file : is_Some (wal_file d);
  dur_clean : log_clean (wal e) (file_of d);
  dur_complete : complete (file_of d);
  dur_seq : WriteAheadLog.recover_sequence (file_of d) <= WriteAheadLog.sequence (wal e);
  dur_wf : data_wf (MemTable.data (memtable e));
  dur_size : size_ok (memtable e);
  dur_saved : saved_before (Z.to_N now) (snap_dir d);
  dur_node : str_wf (StorageConfig.node_id (config e));
  dur_keep : (1 <= StorageConfig.max_snapshots (config e))%nat;
  dur_recovered : exists r, recovered d = Ok r /\ data_wf r
    /\ agrees now (MemTable.data (memtable e)) r
}.

Lemma saved_before_mono t u dir : (t <= u)%N -> saved_before t dir -> saved_before u dir.
Proof. intros Hle Hs n Hn. destruct (Hs n Hn) as (x & ? & ? & ?). exists x; split_and!; [done|done|lia]. Qed.

Lemma clock_ok_ms now : clock_ok now -> ms_13 (Z.to_N now).
Proof. unfold clock_ok, ms_13; lia. Qed.

Lemma durable_mono now now' e d :
  clock_ok now' -> now <= now' -> durable now e d -> durable now' e d.
Proof.
  intros Hok Hle [? ? ? ? ? ? ? ? ? ? (r & Hr & Hrw & Ha)]. split; try done.
  - eapply saved_before_mono; [|done]. unfold clock_ok in *; lia.
  - exists r. split_and!; [done|done|]. eapply agrees_mono; [|done]. by apply now_ms_mono.
Qed.

(** One more line in the log is one more insertion in the recovered table. *)
Lemma logged_line file n k v s :
  complete file -> in_u64 n -> str_wf k -> value_wf v ->
  to_json (WalEntry.new n k v) = Some s ->
  logged (file ++ s ++ [Byte.x0a]) = logged file ++ [(k, v)].
Proof.
  intros Hc Hn Hk Hv Hs. unfold logged, WriteAheadLog.replay.
  rewrite (replay_loop_line file (WalEntry.new n k v) s)
    by (done || by apply entry_new_wf || apply verify_new).
  cbn [fst]. by rewrite fmap_app.
Qed.

Lemma recovered_append d file n k v s r :
  wal_file d = Some file -> complete file -> in_u64 n -> str_wf k -> value_wf v ->
  to_json (WalEntry.new n k v) = Some s -> recovered d = Ok r ->
  recovered (Disk (Some (file ++ s ++ [Byte.x0a])) (snap_dir d)) = Ok (<[k := v]> r).
Proof.
  intros Hf Hc Hn Hk Hv Hs. unfold recovered, file_of. rewrite Hf. cbn [snap_dir wal_file].
  destruct (SnapshotManager.load_latest (snap_dir d)) as [snap|]; [|done].
  cbn [result_bind from_option id]. intros [= <-].
  rewrite (logged_line file n k v s) by done. by rewrite extend_app.
Qed.

(** *** Put and delete *)

Lemma log_append_durable now e d k v :
  durable now e d -> str_wf k -> value_wf v ->
  0 <= WriteAheadLog.sequence (wal e) < 2 ^ 64 - 1 ->
  exists w' file',
    log_append WriteOk e d k v
      = (set_wal e w', Disk (Some file') (snap_dir d), Ok (WriteAheadLog.sequence (wal e) + 1))
    /\ WriteAheadLog.sequence w' = WriteAheadLog.sequence (wal e) + 1
    /\ log_clean w' file' /\ complete file'
    /\ WriteAheadLog.recover_sequence file' <= WriteAheadLog.sequence w'
    /\ forall r, recovered d = Ok r ->
        recovered (Disk (Some file') (snap_dir d)) = Ok (<[k := v]> r).
Proof.
  intros [Hclk [file Hf] Hcl Hco Hsq Hwf _ _ _ _ _] Hk Hv Hn.
  unfold file_of in *. rewrite Hf in *. cbn [from_option id] in *.
  assert (wrap_u64 (WriteAheadLog.sequence (wal e) + 1) = WriteAheadLog.sequence (wal e) + 1) as Hw
    by (apply wrap_u64_small; unfold in_u64; lia).
  assert (in_u64 (WriteAheadLog.sequence (wal e) + 1)) as Hn' by (unfold in_u64; lia).
  destruct (append_ok (wal e) file k v) as (s & w' & Hs & Ha & Hc' & Hq);
    [done|split; lia|done|done|].
  rewrite Hw in *. exists w', (file ++ s ++ [Byte.x0a]).
  unfold log_append, file_of. rewrite Hf. cbn [from_option id]. rewrite Ha.
  split_and!; try done; [apply complete_app_line| |].
  - rewrite (recover_sequence_line file _ s) by (done || by apply entry_new_wf). cbn. lia.
  - intros r Hr. by eapply recovered_append.
Qed.

Lemma table_put_parts e k v :
  memtable (table_put e k v) = (MemTable.put (memtable e) k v).1
  /\ wal (table_put e k v) = wal e /\ config (table_put e k v) = config e.
Proof. unfold table_put. cbn. by case_match. Qed.

Lemma put_durable now e d k v :
  durable now e d -> str_wf k -> value_wf v ->
  0 <= WriteAheadLog.sequence (wal e) < 2 ^ 64 - 1 ->
  exists e' d', put WriteOk e d k v = (e', d', Ok tt) /\ durable now e' d'
    /\ MemTable.data (memtable e') = <[k := v]> (MemTable.data (memtable e)).
Proof.
  intros Hd Hk Hv Hn.
  destruct (log_append_durable now e d k v) as (w' & f' & Ha & Hq & Hc & Hco & Hrs & Hrec);
    [done..|].
  unfold put. rewrite Ha. eexists _, _. split; [done|].
  destruct (table_put_parts (set_wal e w') k v) as (Hm & Hw & Hcfg).
  destruct Hd as [? ? ? ? ? Hwf Hsz ? ? ? (r & Hr & Hrw & Hag)].
  split; [|by rewrite Hm].
  split; rewrite ?Hm, ?Hw, ?Hcfg; try done; cbn.
  - by apply data_wf_insert.
  - by apply (put_size_ok (memtable e)).
  - exists (<[k := v]> r). split_and!; [by apply Hrec|by apply data_wf_insert|by apply agrees_insert].
Qed.

Lemma delete_durable now t0 e d k :
  durable now e d -> str_wf k -> 0 <= WriteAheadLog.sequence (wal e) < 2 ^ 64 - 1 ->
  exists e' d', delete t0 WriteOk e d k = (e', d', Ok tt) /\ durable now e' d'
    /\ MemTable.data (memtable e')
       = <[k := VersionedValue.tombstone t0 (StorageConfig.node_id (config e)) (clock_of e k)]>
           (MemTable.data (memtable e)).
Proof.
  intros Hd Hk Hn. unfold delete.
  set (tomb := VersionedValue.tombstone _ _ _).
  assert (value_wf tomb) as Hv by (apply tombstone_wf, clock_of_wf; apply Hd).
  destruct (log_append_durable now e d k tomb) as (w' & f' & Ha & Hq & Hc & Hco & Hrs & Hrec);
    [done..|].
  rewrite Ha. eexists _, _. split; [done|].
  destruct Hd as [? ? ? ? ? Hwf Hsz ? ? ? (r & Hr & Hrw & Hag)].
  split; [|done]. split; try done; cbn.
  - by apply data_wf_insert.
  - by apply (put_size_ok (memtable e)).
  - exists (<[k := tomb]> r). split_and!; [by apply Hrec|by apply data_wf_insert|by apply agrees_insert].
Qed.

Lemma versioned_wf e now k v ttl :
  data_wf (MemTable.data (memtable e)) -> str_wf (StorageConfig.node_id (config e)) -> in_i64 ttl ->
  value_wf (VersionedValue.with_clock
    (VersionedValue.new now v (StorageConfig.node_id (config e)) ttl)
    (VectorClock.merge (VersionedValue.vector_clock
      (VersionedValue.new now v (StorageConfig.node_id (config e)) ttl)) (clock_of e k))).
Proof.
  intros. apply value_with_clock_wf; [by apply value_new_wf|].
  apply merge_wf; [by apply increment_wf; eauto with rkv|by apply clock_of_wf].
Qed.

(** *** The background tasks *)

Lemma reap_durable now now' at_ e d :
  durable now e d -> clock_ok now' -> now <= now' ->
  (forall k, now_ms (at_ k) <= now_ms now') -> durable now' (reap_task at_ e) d.
Proof.
  intros Hd Hok Hle Hat. pose proof (durable_mono _ _ _ _ Hok Hle Hd) as Hd'.
  destruct Hd as [Hck _ _ _ _ _ _ _ _ _ (r & Hr & Hrw & Ha)].
  destruct Hd' as [? ? ? ? ? Hwf ? ? ? ? _]. split; try done; cbn.
  - by apply data_wf_filter.
  - unfold size_ok; cbn. apply sum_sizes_data.
  - exists r. split_and!; [done|done|]. apply (agrees_evict now now' at_); [by apply now_ms_mono|exact Hat|exact Ha].
Qed.

(** The disks a crash can find while [flush] runs all recover the table. *)
Lemma flush_crash_points now e d :
  durable now e d ->
  let m := MemTable.data (memtable e) in
  exists d1, flush_save now d m = Ok d1
    /\ saved_before (Z.to_N now) (snap_dir d1)
    /\ SnapshotManager.load_latest (snap_dir d1) = Ok (Some m)
    /\ wal_file d1 = wal_file d
    /\ let d2 := flush_cleanup e d1 in
       let '(e3, d3) := flush_truncate e d2 in
       (exists r1, recovered d1 = Ok r1 /\ agrees now m r1)
       /\ (exists r2, recovered d2 = Ok r2 /\ agrees now m r2)
       /\ recovered d3 = Ok m.
Proof.
  intros [Hck [file Hf] Hcl Hco Hsq Hwf Hsz Hsv Hnd Hmax (r & Hr & Hrw & Ha)] m.
  destruct (save_facts now (snap_dir d) m) as (name & dir & Hs & _ & Hl & Hsv' & _);
    [done|by apply clock_ok_ms|done|].
  eexists. unfold flush_save. rewrite Hs. split; [done|].
  split; [done|]. split; [done|]. split; [done|].
  destruct (truncate_clean (wal e) (file_of d) Hcl) as [Ht _].
  unfold flush_cleanup, flush_truncate. destruct (WriteAheadLog.truncate (wal e)) as [w' f'].
  cbn in Ht. subst f'. cbn [snap_dir wal_file].
  assert (SnapshotManager.load_latest
    (SnapshotManager.cleanup (StorageConfig.max_snapshots (config e)) dir).1 = Ok (Some m)) as Hl2.
  { pose proof (cleanup_facts (StorageConfig.max_snapshots (config e)) dir) as Hcl2.
    destruct (SnapshotManager.cleanup _ dir). cbn [fst]. by rewrite (proj2 (proj2 (proj2 Hcl2))). }
  unfold recovered in *. cbn [snap_dir wal_file]. rewrite Hl, Hl2. cbn [result_bind from_option id].
  destruct (SnapshotManager.load_latest (snap_dir d)) as [snap|]; [|done]. cbn in Hr.
  injection Hr as <-. apply agrees_relog in Ha. split_and!.
  - by eexists.
  - by eexists.
  - done.
Qed.

Lemma saved_before_cleanup keep now dir :
  saved_before now dir -> saved_before now (SnapshotManager.cleanup keep dir).1.
Proof.
  intros Hs n Hn. apply Hs. rewrite snapshots_cleanup in Hn.
  rewrite <-(take_drop (length (SnapshotManager.snapshots dir) - keep)
    (SnapshotManager.snapshots dir)).
  apply elem_of_app. by right.
Qed.

Lemma flush_durable now e d :
  durable now e d -> exists e' d', flush now e d = (e', d', Ok tt) /\ durable now e' d'
    /\ memtable e' = memtable e /\ config e' = config e.
Proof.
  intros Hd. unfold flush, MemTable.snapshot. case_bool_decide as Hempty; [by exists e, d|].
  destruct (flush_crash_points now e d Hd) as (d1 & -> & Hsv & Hl & Hw & Hpts).
  destruct Hd as [Hck Hf Hcl Hco Hsq Hwf Hsz Hsv0 Hnd Hmax _].
  unfold flush_truncate in *. destruct (truncate_clean (wal e) (file_of d) Hcl) as [Ht Hcl'].
  assert (WriteAheadLog.sequence (WriteAheadLog.truncate (wal e)).1 = 0) as Hq by done.
  destruct (WriteAheadLog.truncate (wal e)) as [w' f']. cbn in Ht, Hq. subst f'.
  destruct Hpts as (_ & _ & Hrec). eexists _, _. split; [done|]. split; [|done].
  split; try done; cbn.
  - apply complete_nil.
  - by rewrite Hq.
  - by apply saved_before_cleanup.
  - eexists. split_and!; [exact Hrec|done|apply agrees_refl].
Qed.

(** *** Opening *)

Lemma open_durable now now' cfg e d :
  durable now e d -> clock_ok now' -> now <= now' -> str_wf (StorageConfig.node_id cfg) ->
  (1 <= StorageConfig.max_snapshots cfg)%nat ->
  exists e', open cfg d = (d, Ok e') /\ durable now' e' d
    /\ agrees now' (MemTable.data (memtable e)) (MemTable.data (memtable e')).
Proof.
  intros Hd Hok Hle Hnode Hkeep. pose proof (durable_mono _ _ _ _ Hok Hle Hd) as Hd'.
  destruct Hd' as [Hck [f Hf] Hcl Hco Hsq Hwf Hsz Hsv _ _ (r & Hr & Hrw & Ha)].
  pose proof (open_recovers cfg d) as Ho. rewrite Hr in Ho.
  destruct Ho as (e' & Ho & Hm & Hsz' & Hcfg & Hcl' & Hq).
  assert (Disk (Some (file_of d)) (snap_dir d) = d) as Hdd
    by (destruct d as [wf sd]; cbn in *; by subst).
  rewrite Hdd in Ho. exists e'. split; [done|]. rewrite Hm. split; [|done].
  split; rewrite ?Hm, ?Hcfg; try done.
  - rewrite Hq. unfold file_of. by rewrite Hf.
  - exists r. split_and!; [done|done|apply agrees_refl].
Qed.

(** A fresh data directory. *)
Lemma open_fresh now cfg :
  clock_ok now -> str_wf (StorageConfig.node_id cfg) ->
  (1 <= StorageConfig.max_snapshots cfg)%nat ->
  exists e d, open cfg (Disk None ∅) = (d, Ok e) /\ durable now e d
    /\ MemTable.data (memtable e) = ∅ /\ WriteAheadLog.sequence (wal e) = 0
    /\ recovered d = Ok ∅.
Proof.
  intros Hck Hnode Hkeep. pose proof (open_recovers cfg (Disk None ∅)) as Ho.
  assert (SnapshotManager.load_latest ∅ = Ok None) as Hl by done.
  unfold recovered at 1 in Ho. cbn [snap_dir] in Ho. rewrite Hl in Ho.
  cbn [result_bind from_option] in Ho.
  destruct Ho as (e & Ho & Hm & Hsz & Hcfg & Hcl & Hq).
  eexists e, _. split; [exact Ho|]. change (extend ∅ (logged (file_of (Disk None ∅)))) with (∅ : table) in Hm.
  split; [|done]. split; rewrite ?Hm, ?Hcfg; try done.
  - apply complete_nil.
  - by rewrite Hq.
  - intros n Hn. change (n ∈ []) in Hn. by apply not_elem_of_nil in Hn.
  - exists ∅. split_and!; [done|apply map_Forall_empty|apply agrees_refl].
Qed.
End Durable.

(** ** The engine as a transition system *)

(** Two tables look the same to every read from time [now] on. *)
Definition hidden (now : Z) (o : option VersionedValue.t) : Prop :=
  forall v, o = Some v -> VersionedValue.is_expired now v = true.

Definition same_view (now : Z) (m s : table) : Prop := forall k,
  m !! k = s !! k \/ (hidden now (m !! k) /\ hidden now (s !! k)).

Section View.
#[export] Instance same_view_equivalence now : Equivalence (same_view now).
Proof.
  split.
  - intros m k; by left.
  - intros m s Hms k. destruct (Hms k) as [->|[? ?]]; [by left|by right].
  - intros m s r Hms Hsr k. destruct (Hms k) as [->|[Hm Hs]]; [apply Hsr|].
    destruct (Hsr k) as [<-|[_ Hr]]; by right.
Qed.

#[export] Instance same_view_insert now k v :
  Proper (same_view now ==> same_view now) (<[k := v]> : table -> table).
Proof.
  intros m s Hms k'. destruct (decide (k = k')) as [->|].
  - left. by rewrite !lookup_insert_eq.
  - rewrite !lookup_insert_ne by done. apply Hms.
Qed.

Lemma agrees_same_view now m r : agrees now m r -> same_view now m r.
Proof.
  intros Hmr k. destruct (Hmr k) as [->|(-> & v & -> & Hv)]; [by left|].
  right. split; intros v' Hv'; simplify_eq. done.
Qed.

Lemma same_view_mono now now' m s :
  now_ms now <= now_ms now' -> same_view now m s -> same_view now' m s.
Proof.
  intros Ht Hms k. destruct (Hms k) as [?|[Hm Hs]]; [by left|right].
  split; intros v Hv; eapply is_expired_mono; eauto.
Qed.

Lemma same_view_get now mt mt' k :
  same_view now (MemTable.data mt) (MemTable.data mt') ->
  MemTable.get now mt k = MemTable.get now mt' k.
Proof.
  intros Hms. unfold MemTable.get. destruct (Hms k) as [->|[Hm Hs]]; [done|].
  destruct (MemTable.data mt !! k) as [v|] eqn:E, (MemTable.data mt' !! k) as [w|] eqn:E';
    try rewrite (Hm v) by done; try rewrite (Hs w) by done; done.
Qed.

(** What every read at the times [at_] or later sees. *)
Lemma same_view_live now m s (at_ : string -> Z) :
  same_view now m s -> (forall k, now_ms now <= now_ms (at_ k)) -> live at_ m = live at_ s.
Proof.
  intros Hms Hat. apply map_eq. intros k. rewrite !live_lookup. apply same_view_get; cbn.
  exact (same_view_mono _ _ _ _ (Hat k) Hms).
Qed.

Lemma live_scan (at_ : string -> Z) mt mt' lo hi limit :
  live at_ (MemTable.data mt) = live at_ (MemTable.data mt') ->
  MemTable.scan at_ mt lo hi limit = MemTable.scan at_ mt' lo hi limit.
Proof.
  intros Hl. unfold MemTable.scan, range. destruct (decide _); [|done].
  by rewrite !scan_filter_live, Hl.
Qed.
End View.

(** What the engine promises its callers: from the time [t] on, every read and every
    scan is the one of a table that holds [m]. *)
Record serves (t : Z) (e : StorageEngine.t) (m : table) : Prop := Serves {
  serves_get : forall now k, clock_ok now -> t <= now ->
    StorageEngine.get now e k = MemTable.get now (MemTable.Table m 0 0) k;
  serves_scan : forall at_ lo hi limit, (forall k, clock_ok (at_ k) /\ t <= at_ k) ->
    StorageEngine.scan at_ e lo hi limit = MemTable.scan at_ (MemTable.Table m 0 0) lo hi limit
}.

Lemma same_view_serves t e m :
  clock_ok t -> same_view t (MemTable.data (StorageEngine.memtable e)) m -> serves t e m.
Proof.
  intros Ht Hv. split.
  - intros now k Hnow Hle. apply same_view_get. cbn.
    eapply same_view_mono; [|exact Hv]. by apply now_ms_mono.
  - intros at_ lo hi limit Hat. apply live_scan. cbn. apply (same_view_live t); [done|].
    intros k. destruct (Hat k). by apply now_ms_mono.
Qed.

Lemma serves_mono t t' e m : t <= t' -> serves t e m -> serves t' e m.
Proof.
  intros Hle [Hg Hs]. split.
  - intros now k Hnow ?. apply Hg; [done|lia].
  - intros at_ lo hi limit Hat. apply Hs. intros k. destruct (Hat k). split; [done|lia].
Qed.

Record world := World { w_time : Z; w_engine : StorageEngine.t; w_disk : disk }.

Section Transitions.
Import StorageEngine.
Context `{Crc32, !Crc32Laws, Json WalEntry.t, !JsonLaws WalEntry.t entry_wf}.
Context `{Bincode table, !BincodeLaws table data_wf}.

(** The log can still number one more entry. *)
Definition log_open (e : t) : Prop := 0 <= WriteAheadLog.sequence (wal e) < 2 ^ 64 - 1.

(** One whole operation, its clock readings between the times before and after it; the
    label is the versioned value it writes. A crash keeps the disk only. *)
Inductive engine_step : option (string * VersionedValue.t) -> world -> world -> Prop :=
| step_put t0 t1 e d k v e' d' :
    t0 <= t1 -> clock_ok t1 -> str_wf k -> value_wf v -> log_open e ->
    put WriteOk e d k v = (e', d', Ok tt) ->
    engine_step (Some (k, v)) (World t0 e d) (World t1 e' d')
| step_put_raw t0 now t1 e d k bytes ttl e' d' v :
    t0 <= now <= t1 -> clock_ok t1 -> str_wf k -> in_i64 ttl -> log_open e ->
    put_raw now WriteOk e d k bytes ttl = (e', d', Ok tt) ->
    MemTable.data (memtable e') !! k = Some v ->
    engine_step (Some (k, v)) (World t0 e d) (World t1 e' d')
| step_delete t0 now t1 e d k e' d' v :
    t0 <= now <= t1 -> clock_ok t1 -> str_wf k -> log_open e ->
    delete now WriteOk e d k = (e', d', Ok tt) ->
    MemTable.data (memtable e') !! k = Some v ->
    engine_step (Some (k, v)) (World t0 e d) (World t1 e' d')
| step_flush t0 now t1 e d woken e' d' :
    t0 <= now <= t1 -> clock_ok t1 ->
    flush_task woken now e d = (e', d') ->
    engine_step None (World t0 e d) (World t1 e' d')
| step_reap t0 t1 e d at_ :
    t0 <= t1 -> clock_ok t1 -> (forall k, t0 <= at_ k <= t1) ->
    engine_step None (World t0 e d) (World t1 (reap_task at_ e) d)
| step_crash t0 t1 e d cfg d' e' :
    t0 <= t1 -> clock_ok t1 -> str_wf (StorageConfig.node_id cfg) ->
    (1 <= StorageConfig.max_snapshots cfg)%nat ->
    open cfg d = (d', Ok e') ->
    engine_step None (World t0 e d) (World t1 e' d').

(** A history and the writes it made, in order. *)
Inductive history : list (string * VersionedValue.t) -> world -> world -> Prop :=
| history_nil w : history [] w w
| history_snoc l o w1 w2 w3 :
    history l w1 w2 -> engine_step o w2 w3 -> history (l ++ option_list o) w1 w3.

Definition durable_world (w : world) : Prop := durable (w_time w) (w_engine w) (w_disk w).
Definition contents (w : world) : table := MemTable.data (memtable (w_engine w)).

Lemma clock_ok_between t0 now t1 : clock_ok t0 -> t0 <= now <= t1 -> clock_ok t1 -> clock_ok now.
Proof. unfold clock_ok; lia. Qed.

Lemma step_sound o w w' :
  engine_step o w w' -> durable_world w ->
  durable_world w' /\ w_time w <= w_time w'
  /\ same_view (w_time w') (contents w') (extend (contents w) (option_list o)).
Proof.
  intros Hst Hd. pose proof (dur_clock _ _ _ Hd) as Hck. unfold durable_world, contents in *.
  destruct Hst as [t0 t1 e d k v e' d' ? ? ? ? ? Hop
    |t0 now t1 e d k bytes ttl e' d' v ? ? ? ? ? Hop Hv
    |t0 now t1 e d k e' d' v ? ? ? ? Hop Hv
    |t0 now t1 e d woken e' d' ? ? Hop
    |t0 t1 e d at_ ? ? Hat
    |t0 t1 e d cfg d' e' ? ? ? ? Hop]; cbn [w_time w_engine w_disk option_list extend foldl] in *.
  - assert (durable t1 e d) as Hd1 by by eapply durable_mono.
    destruct (put_durable t1 e d k v) as (e2 & d2 & Hop2 & Hd2 & Hm); [done..|].
    rewrite Hop in Hop2. simplify_eq. by rewrite Hm.
  - assert (durable t1 e d) as Hd1 by (eapply durable_mono; [done| |done]; lia).
    unfold put_raw in Hop.
    destruct (put_durable t1 e d k (VersionedValue.with_clock
      (VersionedValue.new now bytes (StorageConfig.node_id (config e)) ttl)
      (VectorClock.merge (VersionedValue.vector_clock
        (VersionedValue.new now bytes (StorageConfig.node_id (config e)) ttl)) (clock_of e k))))
      as (e2 & d2 & Hop2 & Hd2 & Hm); [done|done|by apply versioned_wf; try apply Hd|done|].
    rewrite Hop in Hop2. simplify_eq. rewrite Hm, lookup_insert_eq in Hv. simplify_eq.
    rewrite Hm. split_and!; [done|lia|done].
  - assert (durable t1 e d) as Hd1 by (eapply durable_mono; [done| |done]; lia).
    destruct (delete_durable t1 now e d k) as (e2 & d2 & Hop2 & Hd2 & Hm); [done..|].
    rewrite Hop in Hop2. simplify_eq. rewrite Hm, lookup_insert_eq in Hv. simplify_eq.
    rewrite Hm. split_and!; [done|lia|done].
  - set (e0 := if woken then Engine (memtable e) (wal e) (config e) false else e) in *.
    assert (durable now e d) as Hd1
      by (eapply durable_mono; [by eapply clock_ok_between| |done]; lia).
    assert (durable now e0 d /\ memtable e0 = memtable e) as [Hd0 Hm0]
      by (unfold e0; by destruct woken; destruct Hd1).
    destruct (flush_durable now e0 d Hd0) as (e2 & d2 & Hop2 & Hd2 & Hm & _).
    unfold flush_task in Hop. fold e0 in Hop. rewrite Hop2 in Hop. simplify_eq.
    rewrite Hm, Hm0. split_and!; [|lia|done]. eapply durable_mono; [done| |done]; lia.
  - assert (forall k, now_ms (at_ k) <= now_ms t1) as Hat'.
    { intros k. apply now_ms_mono; [|done|apply Hat]. by eapply clock_ok_between. }
    split_and!; [by eapply reap_durable|done|].
    apply agrees_same_view, (agrees_evict t0 t1 at_); [by apply now_ms_mono|done|apply agrees_refl].
  - destruct (open_durable t0 t1 cfg e d) as (e2 & Hop2 & Hd2 & Ha); [done..|].
    rewrite Hop in Hop2. simplify_eq. split_and!; [done|done|].
    symmetry. by apply agrees_same_view.
Qed.

(** A history leaves the engine durable, with the table that its writes describe. *)
Lemma history_sound l w w' :
  history l w w' -> durable_world w ->
  durable_world w' /\ same_view (w_time w') (contents w') (extend (contents w) l).
Proof.
  intros Hh Hw. induction Hh as [w|l o w1 w2 w3 Hh IH Hst]; [done|].
  destruct (IH Hw) as [Hd2 Hv2]. destruct (step_sound _ _ _ Hst Hd2) as (Hd3 & Hle & Hv3).
  split; [done|]. rewrite extend_app. etrans; [exact Hv3|].
  assert (same_view (w_time w3) (contents w2) (extend (contents w1) l)) as Hv.
  { eapply same_view_mono; [|exact Hv2]. apply now_ms_mono; [apply Hd2|apply Hd3|done]. }
  destruct o as [[k v]|]; cbn; [by apply same_view_insert|done].
Qed.

(** Sequence numbers count the writes at most. *)
Definition numbered (w : world) : Z := WriteAheadLog.sequence (wal (w_engine w)).

Lemma put_sequence now e d k v e' d' :
  durable now e d -> str_wf k -> value_wf v -> log_open e ->
  put WriteOk e d k v = (e', d', Ok tt) ->
  WriteAheadLog.sequence (wal e') = WriteAheadLog.sequence (wal e) + 1.
Proof.
  intros Hd Hk Hv Hn. unfold put.
  destruct (log_append_durable now e d k v) as (w' & f' & -> & Hq & _); [done..|].
  intros [= <- _]. by rewrite (proj1 (proj2 (table_put_parts _ _ _))).
Qed.

Lemma delete_sequence now t0 e d k e' d' :
  durable now e d -> str_wf k -> log_open e -> delete t0 WriteOk e d k = (e', d', Ok tt) ->
  WriteAheadLog.sequence (wal e') = WriteAheadLog.sequence (wal e) + 1.
Proof.
  intros Hd Hk Hn. unfold delete.
  destruct (log_append_durable now e d k (VersionedValue.tombstone t0
    (StorageConfig.node_id (config e)) (clock_of e k))) as (w' & f' & -> & Hq & _); [done|done| |done|].
  { apply tombstone_wf, clock_of_wf; apply Hd. }
  by intros [= <- _].
Qed.

Lemma flush_task_sequence woken now e d :
  0 <= WriteAheadLog.sequence (wal e) ->
  0 <= WriteAheadLog.sequence (wal (flush_task woken now e d).1) <= WriteAheadLog.sequence (wal e).
Proof.
  intros Hn. unfold flush_task.
  assert (forall e0, wal e0 = wal e ->
    0 <= WriteAheadLog.sequence (wal (flush now e0 d).1.1) <= WriteAheadLog.sequence (wal e)) as Hf.
  { intros e0 E. rewrite <-E in *. unfold flush, flush_truncate. case_bool_decide; [cbn; lia|].
    destruct (flush_save _ _ _); cbn; lia. }
  destruct woken; match goal with |- context [flush now ?e0 d] => specialize (Hf e0 eq_refl);
    destruct (flush now e0 d) as [[e1 d1] r]; exact Hf end.
Qed.

Lemma step_sequence o w w' :
  engine_step o w w' -> durable_world w -> 0 <= numbered w ->
  0 <= numbered w' /\ numbered w' <= numbered w + Z.of_nat (length (option_list o)).
Proof.
  intros Hst Hd Hn. unfold durable_world, numbered in *.
  destruct Hst as [t0 t1 e d k v e' d' ? ? ? ? ? Hop
    |t0 now t1 e d k bytes ttl e' d' v ? ? ? ? ? Hop Hv
    |t0 now t1 e d k e' d' v ? ? ? ? Hop Hv
    |t0 now t1 e d woken e' d' ? ? Hop
    |t0 t1 e d at_ ? ? Hat
    |t0 t1 e d cfg d' e' ? ? ? ? Hop]; cbn [w_time w_engine w_disk option_list length] in *.
  - rewrite (put_sequence t0 e d k v e' d') by done. cbn; lia.
  - unfold put_raw in Hop. erewrite (put_sequence t0 e d k _ e' d'); [cbn; lia|done|done| |done|exact Hop].
    by apply versioned_wf; try apply Hd.
  - rewrite (delete_sequence t0 now e d k e' d') by done. cbn; lia.
  - pose proof (flush_task_sequence woken now e d Hn) as Hf. rewrite Hop in Hf. cbn in *. lia.
  - cbn. lia.
  - pose proof (open_recovers cfg d) as Ho. destruct (dur_recovered _ _ _ Hd) as (r & Hr & _).
    rewrite Hr in Ho. destruct Ho as (e2 & Ho & _ & _ & _ & _ & Hq). rewrite Hop in Ho.
    assert (e2 = e') as -> by congruence. rewrite Hq. pose proof (dur_seq _ _ _ Hd) as Hs. destruct (dur_file _ _ _ Hd) as [f Hf].
    unfold file_of in Hs. rewrite Hf in Hs |- *. cbn [from_option id] in *.
    pose proof (recover_sequence_nonneg f). lia.
Qed.

Lemma history_sequence l w w' :
  history l w w' -> durable_world w -> 0 <= numbered w ->
  0 <= numbered w' <= numbered w + Z.of_nat (length l).
Proof.
  intros Hh Hw Hn. induction Hh as [w|l o w1 w2 w3 Hh IH Hst]; [cbn; lia|].
  destruct (IH Hw Hn) as [Hn1 Hn2]. destruct (history_sound _ _ _ Hh Hw) as [Hd _].
  destruct (step_sequence _ _ _ Hst Hd Hn1). rewrite length_app. lia.
Qed.
End Transitions.

(** ** Properties *)

Section Properties.
Import StorageEngine.
Context `{Crc32, !Crc32Laws, Json WalEntry.t, !JsonLaws WalEntry.t entry_wf}.
Context `{Bincode table, !BincodeLaws table data_wf}.

(** C1: after any history of puts, deletes, flushes, TTL reaping and crashes with
    recovery, every read and every scan returns what a plain map holding the same writes
    would: the last values written to the keys that are neither deleted nor expired. *)
Theorem engine_refines_plain_map l w w' :
  durable_world w -> history l w w' ->
  durable_world w' /\ serves (w_time w') (w_engine w') (extend (contents w) l).
Proof.
  intros Hw Hh. destruct (history_sound _ _ _ Hh Hw) as [Hd Hv].
  split; [done|]. apply same_view_serves; [apply Hd|exact Hv].
Qed.

(** A crash between operations loses nothing: reopening the disk, at any
    later time and under any configuration, succeeds and answers every read and every
    scan as before. *)
Theorem reopen_preserves_reads t0 t1 e d cfg :
  durable t0 e d -> clock_ok t1 -> t0 <= t1 -> str_wf (StorageConfig.node_id cfg) ->
  (1 <= StorageConfig.max_snapshots cfg)%nat ->
  exists e', open cfg d = (d, Ok e') /\ durable t1 e' d
    /\ serves t1 e' (MemTable.data (memtable e)).
Proof.
  intros Hd Hok Hle Hn Hk. destruct (open_durable t0 t1 cfg e d) as (e' & Ho & Hd' & Ha); [done..|].
  exists e'. split; [done|]. split; [done|]. apply same_view_serves; [done|].
  symmetry. by apply agrees_same_view.
Qed.

(** C13: a crash in the middle of a put or delete, with any first part of the
    log line written, reopens to the table with the write or to the one without it. *)
Theorem crash_in_put_is_atomic now e d cfg k v s n :
  durable now e d -> str_wf k -> value_wf v -> log_open e ->
  to_json (WalEntry.new (WriteAheadLog.sequence (wal e) + 1) k v) = Some s ->
  let torn := Disk (Some (file_of d ++ take n (s ++ [Byte.x0a]))) (snap_dir d) in
  exists e' m, open cfg torn = (torn, Ok e')
    /\ m = (if (n <? length s)%nat then MemTable.data (memtable e)
            else <[k := v]> (MemTable.data (memtable e)))
    /\ agrees now m (MemTable.data (memtable e')).
Proof.
  intros [Hck [f Hf] Hcl Hco Hsq Hwf Hsz Hsv _ _ (r & Hr & Hrw & Ha)] Hk Hv Hlog Hs.
  cbn zeta. unfold log_open in Hlog.
  set (entry := WalEntry.new (WriteAheadLog.sequence (wal e) + 1) k v) in *.
  assert (entry_wf entry) as Hew by (apply entry_new_wf; [unfold in_u64; lia|done|done]).
  pose proof (torn_append_replay (file_of d) entry s n Hco Hew
    (verify_new _ _ _) Hs) as Ht.
  set (torn := Disk _ _).
  assert (recovered torn = Ok (if (n <? length s)%nat then r else <[k := v]> r)) as Hrt.
  { unfold recovered in *. unfold torn. cbn [snap_dir].
    destruct (SnapshotManager.load_latest (snap_dir d)) as [snap|]; [|done].
    cbn [result_bind] in *. injection Hr as <-. f_equal.
    unfold file_of at 1. cbn [wal_file from_option id]. unfold logged at 1. rewrite Ht.
    rewrite fmap_app, extend_app. by destruct (n <? length s)%nat. }
  pose proof (open_recovers cfg torn) as Ho. rewrite Hrt in Ho.
  destruct Ho as (e' & Ho & Hm & _). exists e'. eexists. split; [exact Ho|]. split; [done|].
  rewrite Hm. destruct (n <? length s)%nat; [done|by apply agrees_insert].
Qed.

(** A crash at any of the steps of a flush (after the save, after the
    cleanup, after the truncation) reopens to the table that was flushed. *)
Theorem crash_in_flush_recovers now e d cfg :
  durable now e d ->
  let m := MemTable.data (memtable e) in
  exists d1, flush_save now d m = Ok d1
    /\ let d2 := flush_cleanup e d1 in
       let d3 := (flush_truncate e d2).2 in
       forall dc, dc ∈ [d1; d2; d3] ->
       exists e', (open cfg dc).2 = Ok e' /\ agrees now m (MemTable.data (memtable e')).
Proof.
  intros Hd m. destruct (flush_crash_points now e d Hd) as (d1 & Hs & _ & _ & _ & Hpts).
  exists d1. split; [exact Hs|]. cbn zeta in *.
  destruct (flush_truncate e (flush_cleanup e d1)) as [e3 d3]. cbn [snd].
  assert (forall dc r, recovered dc = Ok r -> agrees now m r ->
    exists e', (open cfg dc).2 = Ok e' /\ agrees now m (MemTable.data (memtable e'))) as Hopen.
  { intros dc r Hr Ha. pose proof (open_recovers cfg dc) as Ho. rewrite Hr in Ho.
    destruct Ho as (e' & -> & Hm & _). exists e'. by rewrite Hm. }
  destruct Hpts as ((r1 & Hr1 & Ha1) & (r2 & Hr2 & Ha2) & Hr3).
  intros dc Hin. rewrite !elem_of_cons in Hin. destruct Hin as [->|[->|[->|Hin]]].
  - by eapply Hopen.
  - by eapply Hopen.
  - eapply Hopen; [exact Hr3|apply agrees_refl].
  - by apply not_elem_of_nil in Hin.
Qed.

(** C21: a crash while [save] has written fewer than four bytes of the new
    snapshot leaves a store that cannot be opened, although the previous snapshot and
    the whole log are intact on the disk. *)
Theorem torn_snapshot_blocks_open now e d cfg bs n :
  durable now e d -> (n < 4)%nat ->
  let name := SnapshotManager.snapshot_name (Z.to_N now) in
  let torn := Disk (wal_file d) (<[name := take n bs]> (snap_dir d)) in
  (open cfg torn).2 = Err UnexpectedEof.
Proof.
  intros Hd Hn name torn. destruct Hd as [Hck _ _ _ _ _ _ Hsv _ _ _].
  assert (name ∈ SnapshotManager.snapshots (snap_dir torn)) as Hin.
  { apply elem_of_snapshots. split; [by apply snapshot_name_ok, clock_ok_ms|].
    exists (take n bs). apply lookup_insert_eq. }
  assert (SnapshotManager.find_latest (snap_dir torn) = Some name) as Hlatest.
  { apply find_latest_max; [done|]. intros m [Hm [v Hv]]%elem_of_snapshots.
    cbn in Hv. apply lookup_insert_Some in Hv as [[<- _]|[_ Hv]]; [apply (reflexivity (R:=String.le))|].
    destruct (Hsv m) as (u & -> & Hu & Hle); [apply elem_of_snapshots; eauto|].
    apply snapshot_name_le; [done|by apply clock_ok_ms|done]. }
  pose proof (load_error_facts (snap_dir torn) name (take n bs)) as (_ & _ & _ & Herr).
  pose proof (open_recovers cfg torn) as Ho. unfold recovered in Ho.
  rewrite Herr in Ho; [by rewrite Ho|done|apply lookup_insert_eq|].
  rewrite length_take. lia.
Qed.

(** A put or delete that returns an error changed neither the table, nor the
    snapshots, nor the stored wake-up. *)
Theorem failed_write_changes_nothing_visible now io e d k v e' d' err :
  put io e d k v = (e', d', Err err) \/ delete now io e d k = (e', d', Err err) ->
  memtable e' = memtable e /\ snap_dir d' = snap_dir d
  /\ flush_permit e' = flush_permit e /\ config e' = config e.
Proof.
  unfold put, delete, log_append.
  intros [Hop|Hop]; destruct (WriteAheadLog.append _ _ _ _ _) as [[w f] [s|x]]; by simplify_eq.
Qed.

(** A delete gives its tombstone a strictly later clock, but [put_raw] does
    not advance the clock of a value this node has already written: the new value
    carries exactly the old clock, so neither version dominates the other. *)
Theorem put_raw_does_not_advance_clock now io e d k bytes ttl old e' d' :
  get_raw e k = Some old ->
  (0 < (VersionedValue.vector_clock old).[StorageConfig.node_id (config e)] < 2 ^ 64 - 1)%N ->
  put_raw now io e d k bytes ttl = (e', d', Ok tt) ->
  exists new, get_raw e' k = Some new
    /\ VersionedValue.value new = bytes
    /\ VersionedValue.vector_clock new = VersionedValue.vector_clock old
    /\ VectorClock.dominates (VersionedValue.vector_clock new) (VersionedValue.vector_clock old) = false
    /\ clock_lt (VersionedValue.vector_clock old)
         (VersionedValue.vector_clock
           (VersionedValue.tombstone now (StorageConfig.node_id (config e)) (clock_of e k))).
Proof.
  intros Hold Hpos Hop. unfold put_raw, put, log_append in Hop.
  destruct (WriteAheadLog.append _ _ _ _ _) as [[w f] [s|x]]; [|done].
  injection Hop as <- _. unfold get_raw in *.
  match goal with |- context [table_put ?e0 ?k0 ?v0] =>
    destruct (table_put_parts e0 k0 v0) as (Hm & _); set (nv := v0) in * end.
  rewrite Hm. exists nv. cbn. unfold MemTable.get_raw in *. cbn.
  rewrite lookup_insert_eq.
  assert (clock_of e k = VersionedValue.vector_clock old) as Hc
    by (unfold clock_of, MemTable.clock_of, MemTable.get_raw; by rewrite Hold).
  rewrite Hc.
  assert (VectorClock.merge
    (VectorClock.increment VectorClock.new (StorageConfig.node_id (config e)))
    (VersionedValue.vector_clock old) = VersionedValue.vector_clock old) as Hmerge
    by (apply merge_fresh_absorbed; lia).
  split_and!; try done.
  - rewrite Hmerge. apply dominates_false. apply irreflexivity. apply clock_lt_strict.
  - apply increment_lt. lia.
Qed.
End Properties.

(** ** The properties at a concrete engine *)

Section Witnesses.
Import StorageEngine Toy.

Definition config_0 : StorageConfig.t := StorageConfig.default.
Definition disk_0 : disk := Disk (Some []) ∅.
Definition engine_0 : t :=
  Engine (MemTable.new (64 * 1024 * 1024))
    (WriteAheadLog.Log "./data/wal.log" (WriteAheadLog.Writer [] None) 0) config_0 false.

(** A put on the fresh engine. *)
Definition engine_1 : t := (put WriteOk engine_0 disk_0 "k" value_a).1.1.
Definition disk_1 : disk := (put WriteOk engine_0 disk_0 "k" value_a).1.2.

Lemma at_ms_ok : clock_ok at_ms.
Proof. split; vm_compute; congruence. Qed.

Lemma durable_0 : durable at_ms engine_0 disk_0.
Proof.
  destruct (open_fresh at_ms config_0 at_ms_ok) as (e & d & Ho & Hd & _); [decided|cbn; lia|].
  change (open config_0 (Disk None ∅)) with (disk_0, @Ok io_error t engine_0) in Ho.
  by simplify_eq.
Qed.

Lemma put_1 : put WriteOk engine_0 disk_0 "k" value_a = (engine_1, disk_1, Ok tt).
Proof. reflexivity. Qed.

Lemma durable_1 : durable at_ms engine_1 disk_1.
Proof.
  destruct (put_durable at_ms engine_0 disk_0 "k" value_a durable_0) as (e & d & Hp & Hd & _);
    [decided|decided|split; vm_compute; congruence|].
  rewrite put_1 in Hp. by simplify_eq.
Qed.

Example engine_refines_plain_map_witness :
  get at_ms engine_1 "k" = Some value_a
  /\ scan (fun _ => at_ms) engine_1 "a" "z" 10 = Return [("k", value_a)].
Proof.
  destruct (engine_refines_plain_map [("k", value_a)] (World at_ms engine_0 disk_0)
    (World at_ms engine_1 disk_1)) as [_ [Hget Hscan]].
  - exact durable_0.
  - apply (history_snoc [] (Some ("k", value_a)) _ (World at_ms engine_0 disk_0));
      [apply history_nil|].
    apply step_put; [done|apply at_ms_ok|decided|decided|split; vm_compute; congruence|apply put_1].
  - split.
    + etrans; [apply Hget; [apply at_ms_ok|reflexivity]|]. vm_compute. reflexivity.
    + etrans; [apply Hscan; intros k; split; [apply at_ms_ok|reflexivity]|]. vm_compute. reflexivity.
Defined.

Example reopen_preserves_reads_witness :
  exists e', open config_0 disk_1 = (disk_1, Ok e') /\ get at_ms e' "k" = Some value_a.
Proof.
  destruct (reopen_preserves_reads at_ms at_ms engine_1 disk_1 config_0 durable_1 at_ms_ok)
    as (e' & Ho & _ & [Hget _]); [done|decided|cbn; lia|].
  exists e'. split; [exact Ho|]. rewrite Hget; [vm_compute; reflexivity|apply at_ms_ok|done].
Defined.

Example crash_in_put_is_atomic_witness :
  let s := line_of (WalEntry.new 2 "b" value_ttl) in
  exists e', (open config_0 (Disk (Some (file_of disk_1 ++ take 9 (s ++ [Byte.x0a])))
    (snap_dir disk_1))).2 = Ok e'
    /\ agrees at_ms {["k" := value_a]} (MemTable.data (memtable e')).
Proof.
  destruct (crash_in_put_is_atomic at_ms engine_1 disk_1 config_0 "b" value_ttl
    (line_of (WalEntry.new 2 "b" value_ttl)) 9 durable_1) as (e' & m & Ho & Hm & Ha);
    [decided|decided|split; vm_compute; congruence|reflexivity|].
  exists e'. split; [by rewrite Ho|]. rewrite Hm in Ha. exact Ha.
Defined.

Example crash_in_flush_recovers_witness :
  exists d1 e', flush_save at_ms disk_1 {["k" := value_a]} = Ok d1
    /\ (open config_0 (flush_truncate engine_1 (flush_cleanup engine_1 d1)).2).2 = Ok e'
    /\ agrees at_ms {["k" := value_a]} (MemTable.data (memtable e')).
Proof.
  destruct (crash_in_flush_recovers at_ms engine_1 disk_1 config_0 durable_1) as (d1 & Hs & Hdc).
  destruct (Hdc (flush_truncate engine_1 (flush_cleanup engine_1 d1)).2) as (e' & Ho & Ha).
  - right; right; left.
  - exists d1, e'. split_and!; [exact Hs|exact Ho|exact Ha].
Defined.

Example torn_snapshot_blocks_open_witness :
  (open config_0 (Disk (wal_file disk_1) {["snapshot_1700000001000.dat" := [Byte.x61]]})).2
  = Err UnexpectedEof.
Proof.
  exact (torn_snapshot_blocks_open at_ms engine_1 disk_1 config_0 [Byte.x61] 1 durable_1
    ltac:(lia)).
Defined.

Example failed_write_changes_nothing_visible_witness :
  memtable (put (WriteErr 3 []) engine_1 disk_1 "b" value_ttl).1.1 = memtable engine_1.
Proof.
  destruct (put (WriteErr 3 []) engine_1 disk_1 "b" value_ttl) as [[e' d'] r] eqn:E.
  apply (failed_write_changes_nothing_visible at_ms (WriteErr 3 []) engine_1 disk_1 "b" value_ttl
    e' d' OtherIo).
  left. rewrite E. f_equal. apply (f_equal snd) in E. exact (eq_sym E).
Defined.

(** The node that wrote ["k"] overwrites it. *)
Definition engine_2 : t :=
  (put_raw at_ms WriteOk engine_0 disk_0 "k" [Byte.x61] 0).1.1.
Definition disk_2 : disk := (put_raw at_ms WriteOk engine_0 disk_0 "k" [Byte.x61] 0).1.2.

Example put_raw_does_not_advance_clock_witness :
  exists old new,
    get_raw engine_2 "k" = Some old
    /\ get_raw (put_raw (at_ms + 5) WriteOk engine_2 disk_2 "k" [Byte.x62] 0).1.1 "k" = Some new
    /\ VersionedValue.value new = [Byte.x62]
    /\ VersionedValue.vector_clock new = VersionedValue.vector_clock old.
Proof.
  set (old := VersionedValue.Value [Byte.x61] (VectorClock.Clock {["node-0" := 1%N]}) at_ms 0 false).
  exists old.
  destruct (put_raw (at_ms + 5) WriteOk engine_2 disk_2 "k" [Byte.x62] 0) as [[e' d'] r] eqn:E.
  destruct (put_raw_does_not_advance_clock (at_ms + 5) WriteOk engine_2 disk_2 "k" [Byte.x62] 0
    old e' d') as (new & Hn & Hb & Hc & _).
  - vm_compute. reflexivity.
  - split; vm_compute; reflexivity.
  - rewrite E. f_equal. apply (f_equal snd) in E. exact (eq_sym E).
  - exists new. split_and!; [vm_compute; reflexivity|exact Hn|exact Hb|exact Hc].
Defined.
End Witnesses.
