(* ===== verification/EngineRace.v ===== *)
(** Concurrent use of the storage engine: every request handler and background task is
    a thread, and its atomic steps are the lock regions of src/src/storage/engine.rs.
    The log mutex, the table's lock and the directory are released between steps, so
    the steps of different threads interleave.

    [thread_step] is the next step of one thread, [run] a schedule of steps. A thread
    run alone is the sequential operation of Engine.v ([thread_alone_is_operation]). *)

From S2P Require Import Prelude Bytes BTreeMap VectorClock Memtable Externals Wal Snapshot.
From S2P Require Import Engine EngineDurability.
Open Scope Z_scope.

(** Where a thread is: the call it makes, or what it has computed so far. *)
Inductive thread :=
| PutCall (key : string) (value : VersionedValue.t)
| PutLogged (key : string) (value : VersionedValue.t)
| PutRawCall (key : string) (value : list byte) (ttl_ms : Z)
| DeleteCall (key : string)
| DeleteClock (key : string) (tombstone : VersionedValue.t)
| DeleteLogged (key : string) (tombstone : VersionedValue.t)
| FlushCall
| FlushCopied (data : table)
| FlushSaved
| FlushCleaned
| ReapCall
| Returned (r : result io_error unit).

(** What the environment gives a step: the clock, the per-key readings of a scan of the
    table, and what the operating system does with a write. *)
Record step_input := Input { in_now : Z; in_at : string -> Z; in_io : write_outcome }.

Section Threads.
Import StorageEngine.
Context `{Crc32, Json WalEntry.t, Bincode table}.

Definition thread_step (i : step_input) (th : thread) (e : t) (d : disk) : thread * t * disk :=
  match th with
  | PutCall k v =>
    let '(e, d, r) := log_append (in_io i) e d k v in
    (match r with Ok _ => PutLogged k v | Err err => Returned (Err err) end, e, d)
  | PutLogged k v => (Returned (Ok tt), table_put e k v, d)
  | PutRawCall k bytes ttl =>
    let versioned := VersionedValue.new (in_now i) bytes (StorageConfig.node_id (config e)) ttl in
    let versioned := VersionedValue.with_clock versioned
      (VectorClock.merge (VersionedValue.vector_clock versioned) (clock_of e k)) in
    (PutCall k versioned, e, d)
  | DeleteCall k =>
    (DeleteClock k (VersionedValue.tombstone (in_now i) (StorageConfig.node_id (config e))
       (clock_of e k)), e, d)
  | DeleteClock k tomb =>
    let '(e, d, r) := log_append (in_io i) e d k tomb in
    (match r with Ok _ => DeleteLogged k tomb | Err err => Returned (Err err) end, e, d)
  | DeleteLogged k tomb =>
    (Returned (Ok tt), set_memtable e (MemTable.put (memtable e) k tomb).1, d)
  | FlushCall =>
    let data := MemTable.snapshot (memtable e) in
    (if bool_decide (data = ∅) then Returned (Ok tt) else FlushCopied data, e, d)
  | FlushCopied data =>
    match flush_save (in_now i) d data with
    | Err err => (Returned (Err err), e, d)
    | Ok d => (FlushSaved, e, d)
    end
  | FlushSaved => (FlushCleaned, e, flush_cleanup e d)
  | FlushCleaned => let '(e, d) := flush_truncate e d in (Returned (Ok tt), e, d)
  | ReapCall => (Returned (Ok tt), reap_task (in_at i) e, d)
  | Returned r => (Returned r, e, d)
  end.

Record machine := Machine { m_engine : t; m_disk : disk; m_threads : list thread }.

(** Thread number [n] takes its next step. *)
Definition machine_step (m : machine) (s : nat * step_input) : machine :=
  let '(n, i) := s in
  match m_threads m !! n with
  | None => m
  | Some th =>
    let '(th, e, d) := thread_step i th (m_engine m) (m_disk m) in
    Machine e d (<[n := th]> (m_threads m))
  end.

Definition run (m : machine) (schedule : list (nat * step_input)) : machine :=
  foldl machine_step m schedule.

(** One thread to its end, with the same input at every step. *)
Definition run_alone (i : step_input) (th : thread) (e : t) (d : disk) : thread * t * disk :=
  Nat.iter 5 (fun '(th, e, d) => thread_step i th e d) (th, e, d).

(** The write a thread has logged and not yet stored. *)
Definition pending (th : thread) : option (string * VersionedValue.t) :=
  match th with PutLogged k v | DeleteLogged k v => Some (k, v) | _ => None end.

(** The key a thread writes. *)
Definition writes (th : thread) : option string :=
  match th with
  | PutCall k _ | PutLogged k _ | PutRawCall k _ _ | DeleteCall k
  | DeleteClock k _ | DeleteLogged k _ => Some k
  | _ => None
  end.

(** A bound on the steps a thread still takes. *)
Definition steps_left (th : thread) : nat :=
  match th with
  | PutRawCall _ _ _ | DeleteCall _ | FlushCopied _ => 3
  | PutCall _ _ | DeleteClock _ _ | FlushSaved => 2
  | PutLogged _ _ | DeleteLogged _ _ | FlushCleaned | ReapCall => 1
  | FlushCall => 4
  | Returned _ => 0
  end.

(** The steps of thread [n] in a schedule. *)
Definition own_steps (n : nat) (sch : list (nat * step_input)) : nat :=
  length (filter (fun s => s.1 = n) sch).

Definition is_flush (th : thread) : bool :=
  match th with FlushCall | FlushCopied _ | FlushSaved | FlushCleaned => true | _ => false end.

Definition thread_wf (th : thread) : Prop :=
  match th with
  | PutCall k v | PutLogged k v | DeleteClock k v | DeleteLogged k v => str_wf k /\ value_wf v
  | PutRawCall k _ ttl => str_wf k /\ in_i64 ttl
  | DeleteCall k => str_wf k
  | _ => True
  end.

(** No two writers on one key. *)
Definition one_writer (ths : list thread) : Prop :=
  forall i j th1 th2 k, ths !! i = Some th1 -> ths !! j = Some th2 ->
    writes th1 = Some k -> writes th2 = Some k -> i = j.
End Threads.

(** ** Facts *)

Section Facts.
Import StorageEngine.
Context `{Crc32, !Crc32Laws, Json WalEntry.t, !JsonLaws WalEntry.t entry_wf}.
Context `{Bincode table, !BincodeLaws table data_wf}.
Implicit Types (ths : list thread) (th : thread) (e : t) (d : disk).

(** A thread's own step brings it closer to its end, whatever it finds; other threads'
    steps do not touch it. *)
Lemma thread_step_left i th e d : (steps_left (thread_step i th e d).1.1 <= steps_left th - 1)%nat.
Proof.
  destruct th; cbn -[log_append flush_save flush_truncate]; try lia;
    repeat case_match; simplify_eq; cbn; lia.
Qed.

Lemma machine_step_thread m n i th :
  m_threads m !! n = Some th ->
  m_threads (machine_step m (n, i)) !! n = Some (thread_step i th (m_engine m) (m_disk m)).1.1.
Proof.
  intros Hn. unfold machine_step. rewrite Hn.
  destruct (thread_step i th (m_engine m) (m_disk m)) as [[th' e] d]. cbn.
  apply list_lookup_insert_eq. by apply lookup_lt_Some in Hn.
Qed.

Lemma machine_step_others m k i n :
  k <> n -> m_threads (machine_step m (k, i)) !! n = m_threads m !! n.
Proof.
  intros Hne. unfold machine_step. destruct (m_threads m !! k) as [th|]; [|done].
  destruct (thread_step i th (m_engine m) (m_disk m)) as [[th' e] d]. cbn.
  by rewrite list_lookup_insert_ne.
Qed.

(** The log of a running engine: what appending needs, at any sequence number. *)
Record log_ready (e : t) (d : disk) : Prop := LogReady {
  ready_file : is_Some (wal_file d);
  ready_clean : log_clean (wal e) (file_of d);
  ready_complete : complete (file_of d);
  ready_seq : in_u64 (WriteAheadLog.sequence (wal e))
}.

(** A successful append, whatever else runs, is one more write to the recovered table. *)
Lemma log_append_ready e d k v :
  log_ready e d -> str_wf k -> value_wf v ->
  exists w' d' n, log_append WriteOk e d k v = (set_wal e w', d', Ok n)
    /\ snap_dir d' = snap_dir d /\ log_ready (set_wal e w') d'
    /\ logged (file_of d') = logged (file_of d) ++ [(k, v)]
    /\ forall r, recovered d = Ok r -> recovered d' = Ok (<[k := v]> r).
Proof.
  intros [[file Hf] Hcl Hco Hn] Hk Hv. unfold file_of in *. rewrite Hf in *.
  cbn [from_option id] in *.
  destruct (append_ok (wal e) file k v) as (s & w' & Hs & Ha & Hc' & Hq); [done..|].
  exists w', (Disk (Some (file ++ s ++ [Byte.x0a])) (snap_dir d)).
  eexists. unfold log_append, file_of. rewrite Hf. cbn [from_option id]. rewrite Ha.
  split; [done|]. split; [done|]. split_and!.
  - split; [done|done|apply complete_app_line|]. cbn. rewrite Hq. apply wrap_u64_range.
  - eapply logged_line; [done|apply wrap_u64_range|done..].
  - intros r Hr. eapply recovered_append; [done|done|apply wrap_u64_range|done..].
Qed.

Lemma durable_log_ready now e d : durable now e d -> log_open e -> log_ready e d.
Proof. intros [] Hlog. unfold log_open in Hlog. split; [done..|]. unfold in_u64; lia. Qed.

(** Some thread has logged [v] for [k] and not stored it yet. *)
Definition in_flight ths k v : Prop :=
  exists i th, ths !! i = Some th /\ pending th = Some (k, v).

Lemma pending_writes th k v : pending th = Some (k, v) -> writes th = Some k.
Proof. by destruct th; intros [= -> ->]. Qed.

Lemma in_flight_insert ths n th th' k v :
  ths !! n = Some th ->
  in_flight (<[n := th']> ths) k v <->
  pending th' = Some (k, v) \/ exists i th0, i <> n /\ ths !! i = Some th0 /\ pending th0 = Some (k, v).
Proof.
  intros Hn. assert (n < length ths)%nat as Hlt by by apply lookup_lt_Some in Hn.
  unfold in_flight. split.
  - intros (i & th0 & Hi & Hp). apply list_lookup_insert_Some in Hi as [(-> & <- & _)|[Hne Hi]]; [by left|].
    right. by exists i, th0.
  - intros [Hp|(i & th0 & Hne & Hi & Hp)].
    + exists n, th'. by rewrite list_lookup_insert_eq.
    + exists i, th0. by rewrite list_lookup_insert_ne.
Qed.

(** A step that neither starts nor ends a pending write leaves the others in flight. *)
Lemma in_flight_same ths n th th' :
  ths !! n = Some th -> pending th' = pending th ->
  forall k v, in_flight (<[n := th']> ths) k v <-> in_flight ths k v.
Proof.
  intros Hn Hp k v. rewrite (in_flight_insert ths n th) by done. rewrite Hp. split.
  - intros [?|(i & th0 & _ & ? & ?)]; [by exists n, th|by exists i, th0].
  - intros (i & th0 & Hi & Hpi). destruct (decide (i = n)) as [->|]; [left; congruence|].
    right. by exists i, th0.
Qed.

Lemma one_writer_step ths n th th' :
  one_writer ths -> ths !! n = Some th -> (forall k, writes th' = Some k -> writes th = Some k) ->
  one_writer (<[n := th']> ths).
Proof.
  intros Hone Hn Hw i j th1 th2 k Hi Hj Hk1 Hk2.
  apply list_lookup_insert_Some in Hi as [(-> & <- & _)|[Hni Hi]];
    apply list_lookup_insert_Some in Hj as [(-> & <- & _)|[Hnj Hj]]; try done.
  - apply Hw in Hk1. by eapply Hone.
  - apply Hw in Hk2. by eapply Hone.
  - by eapply Hone.
Qed.

(** A key with a write in flight recovers to that write, every other key to what the
    table holds. *)
Definition recovers_with (now : Z) ths (m r : table) : Prop := forall k,
  (exists v, in_flight ths k v /\ r !! k = Some v)
  \/ ((forall v, ~ in_flight ths k v) /\ agrees_at now (m !! k) (r !! k)).

Lemma recovers_log now ths n th th' m r k v :
  ths !! n = Some th -> pending th = None -> pending th' = Some (k, v) ->
  recovers_with now ths m r -> recovers_with now (<[n := th']> ths) m (<[k := v]> r).
Proof.
  intros Hn Hp Hp' Hr k'. destruct (decide (k' = k)) as [->|Hne].
  { left. exists v. rewrite lookup_insert_eq. split; [|done].
    apply (in_flight_insert ths n th); [done|by left]. }
  rewrite lookup_insert_ne by done.
  assert (forall w, in_flight (<[n := th']> ths) k' w <-> in_flight ths k' w) as Hif.
  { intros w. rewrite (in_flight_insert ths n th) by done. split.
    - intros [?|(i & th0 & _ & ? & ?)]; [congruence|by exists i, th0].
    - intros (i & th0 & Hi & Hpi). right. exists i, th0. split_and!; [|done..]. congruence. }
  destruct (Hr k') as [(w & ? & ?)|[Hno ?]]; [left; exists w; by rewrite Hif|right].
  split; [|done]. intros w. rewrite Hif. apply Hno.
Qed.

Lemma recovers_store now ths n th th' m r k v :
  ths !! n = Some th -> one_writer ths -> pending th = Some (k, v) -> pending th' = None ->
  recovers_with now ths m r -> recovers_with now (<[n := th']> ths) (<[k := v]> m) r.
Proof.
  intros Hn Hone Hp Hp' Hr k'. destruct (decide (k' = k)) as [->|Hne].
  - assert (forall w, ~ in_flight (<[n := th']> ths) k w) as Hno.
    { intros w. rewrite (in_flight_insert ths n th) by done.
      intros [?|(i & th0 & Hi & Hl & Hpi)]; [congruence|].
      apply Hi. eapply (Hone i n th0 th); [done|done|by eapply pending_writes..]. }
    right. split; [done|]. rewrite lookup_insert_eq.
    destruct (Hr k) as [(w & (i & th0 & Hi & Hpi) & Hw)|[Hnone _]].
    + assert (i = n) as -> by (eapply (Hone i n th0 th); [done|done|by eapply pending_writes..]).
      left. congruence.
    + destruct (Hnone v). by exists n, th.
  - rewrite lookup_insert_ne by done.
    assert (forall w, in_flight (<[n := th']> ths) k' w <-> in_flight ths k' w) as Hif.
    { intros w. rewrite (in_flight_insert ths n th) by done. split.
      - intros [?|(i & th0 & _ & ? & ?)]; [congruence|by exists i, th0].
      - intros (i & th0 & Hi & Hpi). right. exists i, th0. split_and!; [|done..]. congruence. }
    destruct (Hr k') as [(w & ? & ?)|[Hno ?]]; [left; exists w; by rewrite Hif|right].
    split; [|done]. intros w. rewrite Hif. apply Hno.
Qed.

Lemma recovers_same now ths n th th' m r :
  ths !! n = Some th -> pending th' = pending th ->
  recovers_with now ths m r -> recovers_with now (<[n := th']> ths) m r.
Proof.
  intros Hn Hp Hr k. pose proof (in_flight_same ths n th th' Hn Hp k) as Hif.
  destruct (Hr k) as [(w & ? & ?)|[Hno ?]]; [left; exists w; by rewrite Hif|right].
  split; [|done]. intros w. rewrite Hif. apply Hno.
Qed.

(** The invariant of a machine without a running flush. *)
Record machine_ok (now : Z) (m : machine) : Prop := MachineOk {
  ok_log : log_ready (m_engine m) (m_disk m);
  ok_data : data_wf (MemTable.data (memtable (m_engine m)));
  ok_node : str_wf (StorageConfig.node_id (config (m_engine m)));
  ok_threads : Forall (fun th => thread_wf th /\ is_flush th = false) (m_threads m);
  ok_writers : one_writer (m_threads m);
  ok_recovers : exists r, recovered (m_disk m) = Ok r
    /\ recovers_with now (m_threads m) (MemTable.data (memtable (m_engine m))) r
}.

Definition input_ok (now : Z) (i : step_input) : Prop :=
  in_io i = WriteOk /\ forall k, now_ms (in_at i k) <= now_ms now.

(** Advancing thread [n] to [th'] without touching the table keeps the invariant. *)
Lemma machine_ok_local now m n th th' :
  machine_ok now m -> m_threads m !! n = Some th ->
  thread_wf th' -> is_flush th' = false -> pending th' = pending th ->
  (forall k, writes th' = Some k -> writes th = Some k) ->
  machine_ok now (Machine (m_engine m) (m_disk m) (<[n := th']> (m_threads m))).
Proof.
  intros [Hlog Hdata Hnode Hths Hone (r & Hr & Hrec)] Hn Hwf Hfl Hp Hw.
  split; try done; cbn.
  - by apply Forall_insert.
  - by eapply one_writer_step.
  - exists r. split; [done|]. by eapply recovers_same.
Qed.

Lemma machine_ok_log now m n th th' k v :
  machine_ok now m -> m_threads m !! n = Some th -> str_wf k -> value_wf v ->
  pending th = None -> pending th' = Some (k, v) -> thread_wf th' -> is_flush th' = false ->
  (forall k, writes th' = Some k -> writes th = Some k) ->
  exists e d s, log_append WriteOk (m_engine m) (m_disk m) k v = (e, d, Ok s)
    /\ machine_ok now (Machine e d (<[n := th']> (m_threads m))).
Proof.
  intros [Hlog Hdata Hnode Hths Hone (r & Hr & Hrec)] Hn Hk Hv Hp Hp' Hwf Hfl Hw.
  destruct (log_append_ready (m_engine m) (m_disk m) k v Hlog Hk Hv)
    as (w' & d' & s & Ha & _ & Hready & _ & Hrec').
  rewrite Ha. eexists _, _, _. split; [done|]. split; try done; cbn.
  - by apply Forall_insert.
  - by eapply one_writer_step.
  - exists (<[k := v]> r). split; [by apply Hrec'|]. by eapply recovers_log.
Qed.

Lemma machine_ok_store now m n th k v e' :
  machine_ok now m -> m_threads m !! n = Some th -> pending th = Some (k, v) ->
  wal e' = wal (m_engine m) -> config e' = config (m_engine m) ->
  MemTable.data (memtable e') = <[k := v]> (MemTable.data (memtable (m_engine m))) ->
  machine_ok now (Machine e' (m_disk m) (<[n := Returned (Ok tt)]> (m_threads m))).
Proof.
  intros [[? ? ? ?] Hdata Hnode Hths Hone (r & Hr & Hrec)] Hn Hp Hw Hc Hm.
  assert (str_wf k /\ value_wf v) as [Hk Hv].
  { rewrite Forall_lookup in Hths. destruct (Hths n th Hn) as [Hth _].
    by destruct th; simplify_eq/=. }
  split; cbn; rewrite ?Hc, ?Hm; try done.
  - split; cbn; by rewrite ?Hw.
  - by apply data_wf_insert.
  - by apply Forall_insert.
  - by eapply one_writer_step.
  - exists r. split; [done|]. by eapply recovers_store.
Qed.

Lemma machine_ok_reap now m n at_ :
  machine_ok now m -> m_threads m !! n = Some ReapCall ->
  (forall k, now_ms (at_ k) <= now_ms now) ->
  machine_ok now (Machine (reap_task at_ (m_engine m)) (m_disk m)
    (<[n := Returned (Ok tt)]> (m_threads m))).
Proof.
  intros [Hlog Hdata Hnode Hths Hone (r & Hr & Hrec)] Hn Hat.
  split; cbn; try done.
  - by destruct Hlog.
  - by apply data_wf_filter.
  - by apply Forall_insert.
  - by eapply one_writer_step.
  - exists r. split; [done|]. apply (recovers_same _ _ n ReapCall); [done..|].
    intros k. destruct (Hrec k) as [?|[? ?]]; [by left|right]. split; [done|].
    by apply (agrees_at_evict now).
Qed.

Lemma machine_step_ok now m n i :
  machine_ok now m -> input_ok now i -> machine_ok now (machine_step m (n, i)).
Proof.
  intros Hok [Hio Hat]. unfold machine_step.
  destruct (m_threads m !! n) as [th|] eqn:Hn; [|done].
  pose proof (ok_threads _ _ Hok) as Hths. rewrite Forall_lookup in Hths.
  destruct (Hths n th Hn) as [Hwf Hfl].
  destruct th as [k v|k v|k bytes ttl|k|k v|k v| | | | | |r]; cbn [thread_step]; try done.
  - rewrite Hio. destruct Hwf as [Hk Hv].
    destruct (machine_ok_log now m n (PutCall k v) (PutLogged k v) k v Hok Hn)
      as (e & d & s & -> & Hok'); done.
  - destruct (table_put_parts (m_engine m) k v) as (Hm & Hw & Hc).
    eapply machine_ok_store; [done|done|done|done|done|]. by rewrite Hm.
  - destruct Hwf as [Hk Httl].
    eapply machine_ok_local; [done|done| |done|done|done]. split; [done|].
    apply versioned_wf; [apply Hok|apply Hok|done].
  - eapply machine_ok_local; [done|done| |done|done|done]. split; [done|].
    apply tombstone_wf; [apply Hok|apply clock_of_wf, Hok].
  - rewrite Hio. destruct Hwf as [Hk Hv].
    destruct (machine_ok_log now m n (DeleteClock k v) (DeleteLogged k v) k v Hok Hn)
      as (e & d & s & -> & Hok'); done.
  - by eapply machine_ok_store.
  - by apply machine_ok_reap.
  - by eapply machine_ok_local.
Qed.

(** A durable engine with threads that are about to start. *)
Lemma machine_ok_start now e d ths :
  durable now e d -> log_open e ->
  Forall (fun th => thread_wf th /\ is_flush th = false) ths -> one_writer ths ->
  Forall (fun th => pending th = None) ths -> machine_ok now (Machine e d ths).
Proof.
  intros Hd Hlog Hths Hone Hnone. split; cbn; try done; try apply Hd.
  - by eapply durable_log_ready.
  - destruct (dur_recovered _ _ _ Hd) as (r & Hr & _ & Ha). exists r. split; [done|].
    intros k. right. split; [|apply Ha]. intros v (i & th & Hi & Hp).
    rewrite Forall_lookup in Hnone. by rewrite (Hnone i th Hi) in Hp.
Qed.

Lemma run_ok now sch m :
  machine_ok now m -> Forall (fun s => input_ok now s.2) sch -> machine_ok now (run m sch).
Proof.
  revert m. induction sch as [|[n i] sch IH]; intros m Hok Hsch; cbn; [done|].
  apply Forall_cons in Hsch as [Hi Hsch]. apply IH; [|done]. by apply machine_step_ok.
Qed.
End Facts.

(** ** Properties *)

Section Properties.
Import StorageEngine.
Context `{Crc32, !Crc32Laws, Json WalEntry.t, !JsonLaws WalEntry.t entry_wf}.
Context `{Bincode table, !BincodeLaws table data_wf}.

(** What a flush that copied [data] leaves on the disk, whatever was written since. *)
Lemma flush_rest now e d data :
  log_ready e d -> saved_before (Z.to_N now) (snap_dir d) -> clock_ok now -> data_wf data ->
  (1 <= StorageConfig.max_snapshots (config e))%nat ->
  exists d1, flush_save now d data = Ok d1
    /\ recovered (flush_truncate e (flush_cleanup e d1)).2 = Ok data
    /\ memtable (flush_truncate e (flush_cleanup e d1)).1 = memtable e.
Proof.
  intros [Hf Hcl _ _] Hsv Hck Hwf Hmax. unfold flush_save.
  destruct (save_facts now (snap_dir d) data) as (name & dir & -> & _ & Hl & _);
    [done|by apply clock_ok_ms|done|].
  eexists. split; [done|]. destruct (truncate_clean (wal e) (file_of d) Hcl) as [Ht _].
  unfold flush_cleanup, flush_truncate. destruct (WriteAheadLog.truncate (wal e)) as [w' f'].
  cbn in Ht. subst f'. cbn [fst snd snap_dir wal_file]. split; [|done].
  pose proof (cleanup_facts (StorageConfig.max_snapshots (config e)) dir) as Hcl2.
  unfold recovered. cbn [snap_dir wal_file]. destruct (SnapshotManager.cleanup _ dir) as [dir' c].
  cbn [fst]. rewrite (proj2 (proj2 (proj2 Hcl2))), Hl by done. done.
Qed.

(** A thread that is not interleaved with others computes exactly the
    sequential operation it stands for, results and errors included. *)
Theorem thread_alone_is_operation i e d k v bytes ttl :
  run_alone i (PutCall k v) e d
    = (let '(e', d', r) := put (in_io i) e d k v in (Returned r, e', d'))
  /\ run_alone i (PutRawCall k bytes ttl) e d
    = (let '(e', d', r) := put_raw (in_now i) (in_io i) e d k bytes ttl in (Returned r, e', d'))
  /\ run_alone i (DeleteCall k) e d
    = (let '(e', d', r) := delete (in_now i) (in_io i) e d k in (Returned r, e', d'))
  /\ run_alone i FlushCall e d
    = (let '(e', d', r) := flush (in_now i) e d in (Returned r, e', d'))
  /\ run_alone i ReapCall e d = (Returned (Ok tt), reap_task (in_at i) e, d).
Proof.
  split_and!; cbn.
  - unfold put. by destruct (log_append (in_io i) e d k v) as [[e1 d1] [s|err]].
  - unfold put_raw, put. by destruct (log_append (in_io i) e d k _) as [[e1 d1] [s|err]].
  - unfold delete. by destruct (log_append (in_io i) e d k _) as [[e1 d1] [s|err]].
  - unfold flush. case_bool_decide; [done|]. cbn.
    destruct (flush_save _ _ _) as [d1|err]; [|done]. cbn.
    by destruct (flush_truncate e (flush_cleanup e d1)).
  - done.
Qed.

(** Every operation returns: a thread that is scheduled as often as it has
    steps left, at most four times, has returned, whatever the other threads do in
    between and however the disk behaves; no thread waits for another. *)
Theorem threads_return sch m n th :
  m_threads m !! n = Some th -> (steps_left th <= own_steps n sch)%nat ->
  exists r, m_threads (run m sch) !! n = Some (Returned r).
Proof.
  revert m th. induction sch as [|[k i] sch IH]; intros m th Hn Hle.
  { cbn in Hle. destruct th; cbn in Hle; try lia. by exists r. }
  unfold own_steps in Hle. rewrite filter_cons in Hle. cbn [fst] in Hle.
  unfold run. cbn [foldl]. destruct (decide (k = n)) as [->|Hne].
  - apply (IH _ (thread_step i th (m_engine m) (m_disk m)).1.1); [by apply machine_step_thread|].
    pose proof (thread_step_left i th (m_engine m) (m_disk m)). cbn in Hle. unfold own_steps. lia.
  - apply (IH _ th); [by rewrite machine_step_others|exact Hle].
Qed.

(** As long as no flush runs and no two threads write the same key, any
    interleaving of puts, deletes and reaping is crash-safe at every step: reopening
    the disk gives, for each key, the write that a thread has logged and not yet
    stored, or else what a read of the running engine returns. *)
Theorem interleaved_writes_recover now cfg m sch :
  machine_ok now m -> Forall (fun s => input_ok now s.2) sch ->
  let m' := run m sch in
  exists e', (open cfg (m_disk m')).2 = Ok e'
    /\ forall k, (exists v, in_flight (m_threads m') k v /\ get_raw e' k = Some v)
         \/ ((forall v, ~ in_flight (m_threads m') k v)
             /\ get now e' k = get now (m_engine m') k).
Proof.
  intros Hok Hsch m'. pose proof (run_ok now sch m Hok Hsch) as Hok'. fold m' in Hok'.
  destruct (ok_recovers _ _ Hok') as (r & Hr & Hrec).
  pose proof (open_recovers cfg (m_disk m')) as Ho. rewrite Hr in Ho.
  destruct Ho as (e' & Ho & Hm & _). exists e'. split; [by rewrite Ho|].
  intros k. unfold get_raw, MemTable.get_raw, get, MemTable.get. rewrite Hm.
  destruct (Hrec k) as [?|[Hno Hk]]; [by left|right]. split; [done|].
  destruct Hk as [->|(-> & v & -> & ->)]; done.
Qed.

(** C15: a put that runs between a flush's copy of the table and its truncation
    of the log is acknowledged and readable, and then lost by a crash: the snapshot was
    taken before it and the truncation removed it from the log. *)
Theorem put_during_flush_is_lost now i e d cfg k v :
  durable now e d -> log_open e -> str_wf k -> value_wf v ->
  MemTable.data (memtable e) <> ∅ -> in_io i = WriteOk -> in_now i = now ->
  let m := run (Machine e d [FlushCall; PutCall k v])
             [(0, i); (1, i); (1, i); (0, i); (0, i); (0, i)]%nat in
  m_threads m = [Returned (Ok tt); Returned (Ok tt)]
  /\ get_raw (m_engine m) k = Some v
  /\ exists e', (open cfg (m_disk m)).2 = Ok e'
       /\ MemTable.data (memtable e') = MemTable.data (memtable e).
Proof.
  intros Hd Hlog Hk Hv Hne Hio Hnow m.
  pose proof (durable_log_ready _ _ _ Hd Hlog) as Hready.
  destruct (log_append_ready e d k v Hready Hk Hv) as (w & d' & s & Ha & Hsd & Hready' & _).
  destruct (table_put_parts (set_wal e w) k v) as (Hm & Hw & Hc).
  set (e2 := table_put (set_wal e w) k v) in *.
  destruct (flush_rest now e2 d' (MemTable.data (memtable e))) as (d1 & Hs & Hrec & Hmt).
  { destruct Hready' as [? ? ? ?]. by split; rewrite ?Hw. }
  { rewrite Hsd. apply Hd. }
  { apply Hd. }
  { apply Hd. }
  { rewrite Hc. apply Hd. }
  assert (m = Machine (flush_truncate e2 (flush_cleanup e2 d1)).1
    (flush_truncate e2 (flush_cleanup e2 d1)).2 [Returned (Ok tt); Returned (Ok tt)]) as ->.
  { unfold m, run. cbn [foldl machine_step m_threads m_engine m_disk lookup list_lookup thread_step].
    unfold MemTable.snapshot. rewrite (bool_decide_false _ Hne). cbn. rewrite Hio, Ha. cbn. fold e2.
    rewrite Hnow, Hs. cbn. by destruct (flush_truncate e2 _). }
  split; [done|]. cbn [m_engine m_disk]. split.
  - unfold get_raw. rewrite Hmt, Hm. apply lookup_insert_eq.
  - pose proof (open_recovers cfg (flush_truncate e2 (flush_cleanup e2 d1)).2) as Ho.
    rewrite Hrec in Ho. destruct Ho as (e' & Ho & Hm' & _). exists e'. by rewrite Ho.
Qed.

(** C16: two puts of one key take the log's lock and the table's lock separately,
    so they can be logged in one order and stored in the other: the running engine then
    serves one value and the recovered engine the other, both acknowledged. *)
Theorem same_key_puts_can_invert now i e d cfg k v1 v2 :
  durable now e d -> log_open e -> str_wf k -> value_wf v1 -> value_wf v2 ->
  in_io i = WriteOk ->
  let m := run (Machine e d [PutCall k v1; PutCall k v2])
             [(0, i); (1, i); (1, i); (0, i)]%nat in
  m_threads m = [Returned (Ok tt); Returned (Ok tt)]
  /\ get_raw (m_engine m) k = Some v1
  /\ exists e', (open cfg (m_disk m)).2 = Ok e' /\ get_raw e' k = Some v2.
Proof.
  intros Hd Hlog Hk Hv1 Hv2 Hio m.
  pose proof (durable_log_ready _ _ _ Hd Hlog) as Hready.
  destruct (log_append_ready e d k v1 Hready Hk Hv1) as (w1 & d1 & s1 & Ha1 & _ & Hready1 & _ & Hr1).
  destruct (log_append_ready (set_wal e w1) d1 k v2 Hready1 Hk Hv2)
    as (w2 & d2 & s2 & Ha2 & _ & _ & _ & Hr2).
  destruct Hd as [_ _ _ _ _ _ _ _ _ _ (r & Hr & _ & _)].
  assert (m = Machine (table_put (table_put (set_wal (set_wal e w1) w2) k v2) k v1) d2
    [Returned (Ok tt); Returned (Ok tt)]) as ->.
  { unfold m, run. cbn [foldl machine_step m_threads m_engine m_disk lookup list_lookup thread_step].
    rewrite Hio, Ha1. cbn. by rewrite Hio, Ha2. }
  split; [done|]. cbn [m_engine m_disk]. split.
  - unfold get_raw. rewrite (proj1 (table_put_parts _ k v1)). apply lookup_insert_eq.
  - pose proof (open_recovers cfg d2) as Ho. rewrite (Hr2 _ (Hr1 _ Hr)) in Ho.
    destruct Ho as (e' & Ho & Hm' & _). exists e'. rewrite Ho. split; [done|].
    unfold get_raw, MemTable.get_raw. rewrite Hm'. apply lookup_insert_eq.
Qed.
End Properties.

(** ** The properties at a concrete engine *)

Section Witnesses.
Import StorageEngine Toy.

Definition input_0 : step_input := Input at_ms (fun _ => at_ms) WriteOk.

Example interleaved_writes_recover_witness :
  exists e', (open config_0
      (m_disk (run (Machine engine_1 disk_1 [PutCall "b" value_ttl; ReapCall])
        [(0, input_0); (1, input_0)]%nat))).2 = Ok e'
    /\ get_raw e' "b" = Some value_ttl.
Proof.
  assert (machine_ok at_ms (Machine engine_1 disk_1 [PutCall "b" value_ttl; ReapCall])) as Hok.
  { apply machine_ok_start; [apply durable_1|split; vm_compute; congruence| | |].
    - constructor; [split; [split; decided|done]|constructor; [done|constructor]].
    - intros [|[|i]] [|[|j]] th1 th2 k; cbn; intros ? ? ? ?; simplify_eq; done.
    - constructor; [done|constructor; [done|constructor]]. }
  destruct (interleaved_writes_recover at_ms config_0 _ [(0, input_0); (1, input_0)]%nat Hok)
    as (e' & Ho & Hk).
  { constructor; [by split|constructor; [by split|constructor]]. }
  exists e'. split; [exact Ho|].
  destruct (Hk "b") as [(v & (i & th & Hi & Hp) & Hv)|[Hno _]].
  - revert Hi. vm_compute. destruct i as [|[|i]]; intros ?; simplify_eq/=. exact Hv.
  - destruct (Hno value_ttl). exists 0%nat. eexists. split; vm_compute; reflexivity.
Defined.

Example threads_return_witness :
  exists r, m_threads (run (Machine engine_1 disk_1 [FlushCall; PutRawCall "b" [Byte.x61] 0])
      [(1, input_0); (0, input_0); (1, input_0); (0, input_0); (0, input_0); (1, input_0)]%nat)
    !! 1%nat = Some (Returned r).
Proof.
  apply (threads_return _ _ 1 (PutRawCall "b" [Byte.x61] 0)); [reflexivity|vm_compute; lia].
Defined.

Example put_during_flush_is_lost_witness :
  exists e', (open config_0
      (m_disk (run (Machine engine_1 disk_1 [FlushCall; PutCall "b" value_ttl])
        [(0, input_0); (1, input_0); (1, input_0); (0, input_0); (0, input_0); (0, input_0)]%nat))).2
      = Ok e'
    /\ get_raw e' "b" = None.
Proof.
  destruct (put_during_flush_is_lost at_ms input_0 engine_1 disk_1 config_0 "b" value_ttl durable_1)
    as (_ & _ & e' & Ho & Hm); [split; vm_compute; congruence|decided|decided| |done|done|].
  { vm_compute. discriminate. }
  exists e'. split; [exact Ho|]. unfold get_raw, MemTable.get_raw. rewrite Hm.
  vm_compute. reflexivity.
Defined.

Example same_key_puts_can_invert_witness :
  exists e', (open config_0
      (m_disk (run (Machine engine_1 disk_1 [PutCall "b" value_a; PutCall "b" value_ttl])
        [(0, input_0); (1, input_0); (1, input_0); (0, input_0)]%nat))).2 = Ok e'
    /\ get_raw e' "b" = Some value_ttl.
Proof.
  destruct (same_key_puts_can_invert at_ms input_0 engine_1 disk_1 config_0 "b" value_a value_ttl
    durable_1) as (_ & _ & He);
    [split; vm_compute; congruence|decided|decided|decided|done|exact He].
Defined.
End Witnesses.
