(* ===== verification/EngineFlush.v ===== *)
(** Flushes that run while other threads write. A flush copies the table, saves the
    copy, and then empties the log; what was logged in between is in neither
    ([put_during_flush_is_lost] of EngineRace.v). Here the keys that this concerns are
    followed along a schedule, and every other key is shown to survive a crash. *)

From S2P Require Import Prelude Bytes BTreeMap VectorClock Memtable Externals Wal Snapshot.
From S2P Require Import Engine EngineDurability EngineRace.
Open Scope Z_scope.

(** A flush between its copy of the table and the truncation of the log. *)
Definition in_flush (th : thread) : bool :=
  match th with FlushCopied _ | FlushSaved | FlushCleaned => true | _ => false end.

(** The keys with a write that is logged and not yet stored. *)
Definition pending_keys (ths : list thread) : gset string :=
  list_to_set (omap (fun th => fst <$> pending th) ths).

(** What is followed along a schedule: the time; the keys logged since the running flush
    copied the table, or pending then; and the keys whose last write a truncation has
    removed from the log without its being in the snapshot. *)
Record track := Track {
  tr_time : Z;
  tr_touched : gset string;
  tr_exposed : gset string
}.

Definition track_step (m : machine) (s : nat * step_input) (tr : track) : track :=
  let now := in_now s.2 in
  match m_threads m !! s.1 with
  | Some (PutCall k _ | DeleteClock k _) =>
    Track now (tr_touched tr ∪ {[k]}) (tr_exposed tr ∖ {[k]})
  | Some FlushCall => Track now (pending_keys (m_threads m)) (tr_exposed tr)
  | Some FlushCleaned => Track now ∅ (tr_touched tr)
  | _ => Track now (tr_touched tr) (tr_exposed tr)
  end.

(** The schedules considered: the clock does not run backwards and the disk accepts
    writes; a write is logged while no other of its key is pending, and a flush starts
    when no other is running (the program has one flush task). *)
Definition given_ok (t : Z) (i : step_input) : Prop :=
  clock_ok (in_now i) /\ t <= in_now i /\ in_io i = WriteOk
  /\ forall k, now_ms (in_at i k) <= now_ms (in_now i).

Definition step_alone (m : machine) (n : nat) : Prop :=
  match m_threads m !! n with
  | Some (PutCall k _ | DeleteClock k _) => k ∉ pending_keys (m_threads m)
  | Some FlushCall => Forall (fun th => in_flush th = false) (m_threads m)
  | _ => True
  end.

Definition step_ok (m : machine) (t : Z) (s : nat * step_input) : Prop :=
  given_ok t s.2 /\ step_alone m s.1.

(** A write is logged while a flush runs, or a flush copies the table while a write is
    pending. *)
Definition disturbs (m : machine) (n : nat) : Prop :=
  match m_threads m !! n with
  | Some (PutCall _ _ | DeleteClock _ _) => Exists (fun th => in_flush th = true) (m_threads m)
  | Some FlushCall => pending_keys (m_threads m) <> ∅
  | _ => False
  end.

#[export] Instance step_alone_dec m n : Decision (step_alone m n).
Proof. unfold step_alone. destruct (m_threads m !! n) as [[]|]; apply _. Defined.
#[export] Instance disturbs_dec m n : Decision (disturbs m n).
Proof. unfold disturbs. destruct (m_threads m !! n) as [[]|]; apply _. Defined.

Section Schedules.
Context `{Crc32, Json WalEntry.t, Bincode table}.

Fixpoint schedule_ok (m : machine) (tr : track) (sch : list (nat * step_input)) : Prop :=
  match sch with
  | [] => True
  | s :: sch => step_ok m (tr_time tr) s /\ schedule_ok (machine_step m s) (track_step m s tr) sch
  end.

Fixpoint tracked (m : machine) (tr : track) (sch : list (nat * step_input)) : track :=
  match sch with
  | [] => tr
  | s :: sch => tracked (machine_step m s) (track_step m s tr) sch
  end.

Fixpoint undisturbed (m : machine) (sch : list (nat * step_input)) : Prop :=
  match sch with
  | [] => True
  | s :: sch => ~ disturbs m s.1 /\ undisturbed (machine_step m s) sch
  end.

#[export] Instance undisturbed_dec m sch : Decision (undisturbed m sch).
Proof. revert m. induction sch as [|s sch IH]; intros m; cbn; apply _. Defined.

(** A schedule whose steps all get the same input. *)
Fixpoint steps_alone (m : machine) (i : step_input) (ns : list nat) : bool :=
  match ns with
  | [] => true
  | n :: ns => bool_decide (step_alone m n) && steps_alone (machine_step m (n, i)) i ns
  end.

Lemma steps_alone_ok m tr i ns :
  given_ok (tr_time tr) i -> steps_alone m i ns = true ->
  schedule_ok m tr ((fun n => (n, i)) <$> ns).
Proof.
  revert m tr. induction ns as [|n ns IH]; intros m tr Hi; [done|]. cbn [steps_alone].
  intros [Hn%bool_decide_eq_true_1 Hns]%andb_prop. split; [by split|]. apply IH; [|done].
  destruct Hi as (? & ? & ? & ?). split_and!; try done.
  unfold track_step. cbn [fst snd]. destruct (m_threads m !! n) as [[]|]; cbn; lia.
Qed.
End Schedules.

(** ** Writes in flight *)

Section InFlight.
Implicit Types (ths : list thread) (th : thread).

Lemma elem_of_pending_keys ths k : k ∈ pending_keys ths <-> exists v, in_flight ths k v.
Proof.
  unfold pending_keys. rewrite elem_of_list_to_set, list_elem_of_omap. split.
  - intros (th & Hin & Hp). apply list_elem_of_lookup in Hin as [i Hi].
    destruct (pending th) as [[k' v]|] eqn:E; [|done]. cbn in Hp. injection Hp as ->. by exists v, i, th.
  - intros (v & i & th & Hi & Hp). exists th. rewrite Hp. split; [by eapply list_elem_of_lookup_2|done].
Qed.

(** At most one write per key is pending. *)
Definition alone ths : Prop := forall i j th1 th2 k v1 v2,
  ths !! i = Some th1 -> ths !! j = Some th2 -> pending th1 = Some (k, v1) -> pending th2 = Some (k, v2) ->
  i = j.

Lemma in_flight_log ths n th th' k v k' w :
  ths !! n = Some th -> pending th = None -> pending th' = Some (k, v) ->
  in_flight (<[n := th']> ths) k' w <-> (k' = k /\ w = v) \/ in_flight ths k' w.
Proof.
  intros Hn Hp Hp'. rewrite (in_flight_insert ths n th) by done. rewrite Hp'. split.
  - intros [[= -> ->]|(i & th0 & _ & ? & ?)]; [by left|right; by exists i, th0].
  - intros [[-> ->]|(i & th0 & Hi & Hpi)]; [by left|right]. exists i, th0. split_and!; [|done..]. congruence.
Qed.

Lemma in_flight_store ths n th th' k v k' w :
  ths !! n = Some th -> alone ths -> pending th = Some (k, v) -> pending th' = None ->
  in_flight (<[n := th']> ths) k' w <-> k' <> k /\ in_flight ths k' w.
Proof.
  intros Hn Hal Hp Hp'. rewrite (in_flight_insert ths n th) by done. rewrite Hp'. split.
  - intros [?|(i & th0 & Hne & Hi & Hpi)]; [done|]. split; [|by exists i, th0]. intros ->.
    by apply Hne, (Hal i n th0 th k w v).
  - intros [Hne (i & th0 & Hi & Hpi)]. right. exists i, th0. split_and!; [|done..]. congruence.
Qed.

Lemma alone_same ths n th th' :
  ths !! n = Some th -> (pending th' = pending th \/ pending th' = None) -> alone ths ->
  alone (<[n := th']> ths).
Proof.
  intros Hn Hp Hal i j th1 th2 k v1 v2 Hi Hj H1 H2.
  assert (forall l x v, <[n := th']> ths !! l = Some x -> pending x = Some (k, v) ->
    exists y, ths !! l = Some y /\ pending y = Some (k, v)) as Hback.
  { intros l x v [(-> & <- & _)|[_ Hl]]%list_lookup_insert_Some Hx; [|by exists x].
    exists th. split; [done|]. destruct Hp as [<-|Hnone]; congruence. }
  destruct (Hback i th1 v1 Hi H1) as (y1 & ? & ?), (Hback j th2 v2 Hj H2) as (y2 & ? & ?). by eapply Hal.
Qed.

Lemma alone_log ths n th th' k v :
  ths !! n = Some th -> pending th' = Some (k, v) -> k ∉ pending_keys ths -> alone ths ->
  alone (<[n := th']> ths).
Proof.
  intros Hn Hp Hk Hal i j th1 th2 k' v1 v2 Hi Hj H1 H2.
  assert (forall l x w, ths !! l = Some x -> pending x = Some (k, w) -> False) as Hno.
  { intros l x w Hl Hx. apply Hk, elem_of_pending_keys. by exists w, l, x. }
  apply list_lookup_insert_Some in Hi as [(-> & <- & _)|[Hni Hi]];
    apply list_lookup_insert_Some in Hj as [(-> & <- & _)|[Hnj Hj]]; [done| | |by eapply Hal];
    rewrite Hp in *; simplify_eq; exfalso; by eapply Hno.
Qed.
End InFlight.

(** ** The tables, the keys and the threads *)

Section Covered.
Implicit Types (t : Z) (ths : list thread) (th : thread) (m r data : table) (lk : list string).

(** What a recovery brings back for a key: the write in flight, or what a read returns. *)
Definition recovers_at t ths (x y : option VersionedValue.t) (k : string) : Prop :=
  (exists v, in_flight ths k v /\ y = Some v)
  \/ ((forall v, ~ in_flight ths k v) /\ agrees_at t x y).

(** [m] is the table in memory, [r] the recovered one, [lk] the keys in the log, [copy]
    the table a running flush has copied. *)
Record covered t ths m r lk (copy : option table) (touched exposed : gset string) : Prop := Covered {
  cv_recovers : forall k, k ∉ exposed -> recovers_at t ths (m !! k) (r !! k) k;
  cv_logged : forall k v, in_flight ths k v -> k ∉ exposed -> k ∈ lk;
  cv_copy : forall data, copy = Some data ->
    (forall k, k ∉ touched -> agrees_at t (m !! k) (data !! k))
    /\ (forall k v, in_flight ths k v -> k ∈ touched)
    /\ (forall k, k ∈ touched -> k ∈ lk \/ k ∈ exposed);
  cv_alone : alone ths
}.

Lemma recovers_at_ext t ths ths' x y k :
  (forall v, in_flight ths' k v <-> in_flight ths k v) -> recovers_at t ths x y k -> recovers_at t ths' x y k.
Proof.
  intros Hif [(v & ? & ?)|[Hno ?]]; [left; exists v; by rewrite Hif|right].
  split; [|done]. intros v. rewrite Hif. apply Hno.
Qed.

Lemma covered_same t ths n th th' m r lk copy touched exposed :
  ths !! n = Some th -> pending th' = pending th -> covered t ths m r lk copy touched exposed ->
  covered t (<[n := th']> ths) m r lk copy touched exposed.
Proof.
  intros Hn Hp [Hr Hl Hc Ha]. pose proof (in_flight_same ths n th th' Hn Hp) as Hif. split.
  - intros k Hk. by apply (recovers_at_ext t ths); [apply Hif|apply Hr].
  - intros k v. rewrite Hif. apply Hl.
  - intros data Hdata. destruct (Hc data Hdata) as (? & Hin & ?). split_and!; try done.
    intros k v. rewrite Hif. apply Hin.
  - eapply alone_same; [done|by left|done].
Qed.

Lemma agrees_at_mono t t' x y : now_ms t <= now_ms t' -> agrees_at t x y -> agrees_at t' x y.
Proof.
  intros Ht [?|(? & v & ? & Hv)]; [by left|right]. split; [done|]. exists v. split; [done|].
  by eapply is_expired_mono.
Qed.

Lemma covered_mono t t' ths m r lk copy touched exposed :
  now_ms t <= now_ms t' -> covered t ths m r lk copy touched exposed ->
  covered t' ths m r lk copy touched exposed.
Proof.
  intros Ht [Hr Hl Hc Ha]. split; [|done| |done].
  - intros k Hk. destruct (Hr k Hk) as [?|[? ?]]; [by left|right]. split; [done|by eapply agrees_at_mono].
  - intros data Hdata. destruct (Hc data Hdata) as (Hag & ? & ?). split_and!; try done.
    intros k Hk. eapply agrees_at_mono; [done|by apply Hag].
Qed.

(** A write is logged: from now on it is recovered, whatever happened to the key before. *)
Lemma covered_log t ths n th th' m r lk copy touched exposed k v :
  ths !! n = Some th -> pending th = None -> pending th' = Some (k, v) -> k ∉ pending_keys ths ->
  covered t ths m r lk copy touched exposed ->
  covered t (<[n := th']> ths) m (<[k := v]> r) (lk ++ [k]) copy (touched ∪ {[k]}) (exposed ∖ {[k]}).
Proof.
  intros Hn Hp Hp' Hk [Hr Hl Hc Ha].
  pose proof (fun k' w => in_flight_log ths n th th' k v k' w Hn Hp Hp') as Hif. split.
  - intros k' Hk'. destruct (decide (k' = k)) as [->|Hne].
    { left. exists v. rewrite lookup_insert_eq. split; [apply Hif; by left|done]. }
    rewrite lookup_insert_ne by done. apply (recovers_at_ext t ths); [|apply Hr; set_solver].
    intros w. rewrite Hif. naive_solver.
  - intros k' w. rewrite Hif, elem_of_app, list_elem_of_singleton. intros [[-> _]|Hin] Hx; [by right|].
    destruct (decide (k' = k)) as [->|]; [by right|left]. apply (Hl k' w Hin). set_solver.
  - intros data Hdata. destruct (Hc data Hdata) as (Hag & Hin & Hcov). split_and!.
    + intros k' Hk'. apply Hag. set_solver.
    + intros k' w. rewrite Hif. intros [[-> _]|Hw]; [set_solver|]. apply Hin in Hw. set_solver.
    + intros k' Hk'. rewrite elem_of_app, list_elem_of_singleton.
      destruct (decide (k' = k)) as [->|]; [by left; right|].
      destruct (Hcov k') as [?|?]; [set_solver|by left; left|right; set_solver].
  - by eapply alone_log.
Qed.

(** The write is stored. *)
Lemma covered_store t ths n th th' m r lk copy touched exposed k v :
  ths !! n = Some th -> pending th = Some (k, v) -> pending th' = None ->
  covered t ths m r lk copy touched exposed ->
  covered t (<[n := th']> ths) (<[k := v]> m) r lk copy touched exposed.
Proof.
  intros Hn Hp Hp' [Hr Hl Hc Ha].
  pose proof (fun k' w => in_flight_store ths n th th' k v k' w Hn Ha Hp Hp') as Hif. split.
  - intros k' Hk'. destruct (decide (k' = k)) as [->|Hne].
    + right. split; [intros w; rewrite Hif; naive_solver|]. rewrite lookup_insert_eq. left.
      destruct (Hr k Hk') as [(w & (i & th0 & Hi & Hpi) & ->)|[Hno _]].
      * assert (i = n) as -> by (by eapply (Ha i n th0 th)). congruence.
      * destruct (Hno v). by exists n, th.
    + rewrite lookup_insert_ne by done. apply (recovers_at_ext t ths); [|by apply Hr].
      intros w. rewrite Hif. naive_solver.
  - intros k' w. rewrite Hif. intros [_ Hin]. by apply (Hl k' w).
  - intros data Hdata. destruct (Hc data Hdata) as (Hag & Hin & Hcov). split_and!; [| |done].
    + intros k' Hk'. rewrite lookup_insert_ne; [by apply Hag|]. intros <-. apply Hk', (Hin k v). by exists n, th.
    + intros k' w. rewrite Hif. intros [_ ?]. by eapply Hin.
  - eapply alone_same; [done|by right|done].
Qed.

(** Expired entries leave the table in memory. *)
Lemma covered_evict t at_ ths m r lk copy touched exposed :
  (forall k, now_ms (at_ k) <= now_ms t) -> covered t ths m r lk copy touched exposed ->
  covered t ths (retain (fun k v => negb (VersionedValue.is_expired (at_ k) v)) m) r lk copy touched exposed.
Proof.
  intros Hat [Hr Hl Hc Ha]. split; [|done| |done].
  - intros k Hk. destruct (Hr k Hk) as [?|[? ?]]; [by left|right]. split; [done|]. by apply (agrees_at_evict t).
  - intros data Hdata. destruct (Hc data Hdata) as (Hag & ? & ?). split_and!; try done.
    intros k Hk. apply (agrees_at_evict t); [done|apply Hat|by apply Hag].
Qed.

(** A flush copies the table. *)
Lemma covered_begin t ths m r lk copy touched exposed :
  covered t ths m r lk copy touched exposed ->
  covered t ths m r lk (Some m) (pending_keys ths) exposed.
Proof.
  intros [Hr Hl Hc Ha]. split; try done. intros data [= <-]. split_and!.
  - intros k _. by left.
  - intros k v Hin. apply elem_of_pending_keys. by exists v.
  - intros k (v & Hin)%elem_of_pending_keys.
    destruct (decide (k ∈ exposed)); [by right|left]. by eapply Hl.
Qed.

(** The copy becomes the snapshot, under the same log. *)
Lemma covered_save t ths m base (l : list (string * VersionedValue.t)) data touched exposed :
  covered t ths m (extend base l) l.*1 (Some data) touched exposed ->
  covered t ths m (extend data l) l.*1 (Some data) touched exposed.
Proof.
  intros [Hr Hl Hc Ha]. split; try done. intros k Hk.
  destruct (decide (k ∈ l.*1)) as [Hin|Hnot].
  { rewrite (lookup_extend_in data base) by done. by apply Hr. }
  rewrite lookup_extend_notin by done. destruct (Hc data eq_refl) as (Hag & _ & Hcov). right. split.
  - intros v Hif. by apply Hnot, (Hl k v).
  - apply Hag. intros Ht. by destruct (Hcov k Ht).
Qed.

(** The log is emptied: what the flush did not see is exposed. *)
Lemma covered_truncate t ths m r lk data touched exposed :
  covered t ths m r lk (Some data) touched exposed -> covered t ths m data [] None ∅ touched.
Proof.
  intros [Hr Hl Hc Ha]. destruct (Hc data eq_refl) as (Hag & Hin & _). split; [| |done|done].
  - intros k Hk. right. split; [|by apply Hag]. intros v Hif. by apply Hk, (Hin k v).
  - intros k v Hif Hk. destruct Hk. by eapply Hin.
Qed.
End Covered.

(** ** The invariant of a machine on such a schedule *)

Section Invariant.
Import StorageEngine.
Context `{Crc32, !Crc32Laws, Json WalEntry.t, !JsonLaws WalEntry.t entry_wf}.
Context `{Bincode table, !BincodeLaws table data_wf}.
Implicit Types (ths : list thread) (th : thread) (e : t) (d : disk) (m : machine).

(** What the flush [th] copied: it holds it, or the newest snapshot does. *)
Definition copied (snap : option table) th (data : table) : Prop :=
  match th with FlushCopied x => x = data | _ => snap = Some data end.

Definition thread_ok th : Prop :=
  thread_wf th /\ match th with FlushCopied data => data_wf data | _ => True end.

Definition one_flush ths : Prop := forall i j th1 th2,
  ths !! i = Some th1 -> ths !! j = Some th2 -> in_flush th1 = true -> in_flush th2 = true -> i = j.

(** The engine, its disk and its threads. *)
Record engine_ok (t : Z) e d ths : Prop := EngineOk {
  eo_clock : clock_ok t;
  eo_log : log_ready e d;
  eo_data : data_wf (MemTable.data (memtable e));
  eo_node : str_wf (StorageConfig.node_id (config e));
  eo_keep : (1 <= StorageConfig.max_snapshots (config e))%nat;
  eo_saved : saved_before (Z.to_N t) (snap_dir d);
  eo_threads : Forall thread_ok ths;
  eo_flush : one_flush ths
}.

(** What a crash would find. *)
Definition disk_covers (t : Z) e d ths (touched exposed : gset string) : Prop :=
  exists snap copy, SnapshotManager.load_latest (snap_dir d) = Ok snap
    /\ covered t ths (MemTable.data (memtable e)) (extend (default ∅ snap) (logged (file_of d)))
         (logged (file_of d)).*1 copy touched exposed
    /\ forall j th, ths !! j = Some th -> in_flush th = true ->
         exists data, copy = Some data /\ copied snap th data.

Definition flush_inv m (tr : track) : Prop :=
  engine_ok (tr_time tr) (m_engine m) (m_disk m) (m_threads m)
  /\ disk_covers (tr_time tr) (m_engine m) (m_disk m) (m_threads m) (tr_touched tr) (tr_exposed tr).

Lemma one_flush_insert ths n th th' :
  ths !! n = Some th -> (in_flush th' = true -> in_flush th = true) -> one_flush ths ->
  one_flush (<[n := th']> ths).
Proof.
  intros Hn Hf Hone i j th1 th2 Hi Hj Hf1 Hf2.
  apply list_lookup_insert_Some in Hi as [(-> & <- & _)|[Hni Hi]];
    apply list_lookup_insert_Some in Hj as [(-> & <- & _)|[Hnj Hj]]; [done| | |by eapply Hone];
    [apply Hf in Hf1|apply Hf in Hf2]; by eapply Hone.
Qed.

(** The flush that runs is the one thread that remembers a copy. *)
Lemma copies_insert ths n th th' snap snap' copy :
  ths !! n = Some th -> one_flush ths -> (in_flush th' = true -> in_flush th = true) ->
  (forall data, copy = Some data -> copied snap th data -> in_flush th' = true -> copied snap' th' data) ->
  (in_flush th = false -> snap' = snap) ->
  (forall j th, ths !! j = Some th -> in_flush th = true -> exists data, copy = Some data /\ copied snap th data) ->
  forall j th, <[n := th']> ths !! j = Some th -> in_flush th = true ->
    exists data, copy = Some data /\ copied snap' th data.
Proof.
  intros Hn Hone Hf Hcp Hsnap Hc j thj [(-> & <- & _)|[Hne Hj]]%list_lookup_insert_Some Hfl.
  - destruct (Hc j th Hn (Hf Hfl)) as (data & ? & ?). exists data. split; [done|by eapply Hcp].
  - destruct (Hc j thj Hj Hfl) as (data & ? & ?). exists data. split; [done|].
    destruct (in_flush th) eqn:E; [|by rewrite Hsnap]. by destruct Hne; eapply Hone.
Qed.

Lemma flush_inv_later m tr t' :
  clock_ok t' -> tr_time tr <= t' -> flush_inv m tr ->
  flush_inv m (Track t' (tr_touched tr) (tr_exposed tr)).
Proof.
  intros Hck Hle [[? ? ? ? ? Hsv ? ?] (snap & copy & Hl & Hc & Hcp)].
  split; [split; try done|exists snap, copy; split_and!; try done]; cbn.
  - eapply saved_before_mono; [|done]. unfold clock_ok in *; lia.
  - eapply covered_mono; [|done]. by apply now_ms_mono.
Qed.

(** *** Steps that touch neither table nor disk *)

Lemma inv_local m tr n th th' :
  flush_inv m tr -> m_threads m !! n = Some th -> thread_ok th' -> pending th' = pending th ->
  (in_flush th' = true -> in_flush th = true) ->
  (forall snap data, copied snap th data -> in_flush th' = true -> copied snap th' data) ->
  flush_inv (Machine (m_engine m) (m_disk m) (<[n := th']> (m_threads m))) tr.
Proof.
  intros [[? ? ? ? ? ? Hths Hone] (snap & copy & Hl & Hc & Hcp)] Hn Hok Hp Hf Hcop. split; cbn.
  - split; try done; [by apply Forall_insert|by eapply one_flush_insert].
  - exists snap, copy. split_and!; [done|by eapply covered_same|].
    eapply copies_insert; [done|done|done| |done|done]. intros data _. apply Hcop.
Qed.

Lemma inv_log m tr n th th' k v :
  flush_inv m tr -> m_threads m !! n = Some th -> str_wf k -> value_wf v ->
  pending th = None -> pending th' = Some (k, v) -> thread_ok th' -> in_flush th' = false ->
  k ∉ pending_keys (m_threads m) ->
  exists e d s, log_append WriteOk (m_engine m) (m_disk m) k v = (e, d, Ok s)
    /\ flush_inv (Machine e d (<[n := th']> (m_threads m)))
         (Track (tr_time tr) (tr_touched tr ∪ {[k]}) (tr_exposed tr ∖ {[k]})).
Proof.
  intros [[? Hlog ? ? ? Hsv Hths Hone] (snap & copy & Hl & Hc & Hcp)] Hn Hk Hv Hp Hp' Hok Hf Hal.
  destruct (log_append_ready (m_engine m) (m_disk m) k v Hlog Hk Hv)
    as (w' & d' & s & Ha & Hsd & Hready & Hlg & _).
  rewrite Ha. eexists _, _, _. split; [done|]. split; cbn.
  - split; try done; [by rewrite Hsd|by apply Forall_insert|]. eapply one_flush_insert; [done| |done]. congruence.
  - exists snap, copy. rewrite Hsd, Hlg, fmap_app, extend_app. split_and!; [done|by eapply covered_log|].
    eapply copies_insert; [done|done| | |done|done]; congruence.
Qed.

Lemma inv_store m tr n th k v e' :
  flush_inv m tr -> m_threads m !! n = Some th -> pending th = Some (k, v) ->
  wal e' = wal (m_engine m) -> config e' = config (m_engine m) ->
  MemTable.data (memtable e') = <[k := v]> (MemTable.data (memtable (m_engine m))) ->
  flush_inv (Machine e' (m_disk m) (<[n := Returned (Ok tt)]> (m_threads m))) tr.
Proof.
  intros [[? [? ? ? ?] Hdata ? ? ? Hths Hone] (snap & copy & Hl & Hc & Hcp)] Hn Hp Hw Hcfg Hm.
  assert (str_wf k /\ value_wf v) as [Hk Hv].
  { rewrite Forall_lookup in Hths. destruct (Hths n th Hn) as [Hth _]. by destruct th; simplify_eq/=. }
  split; cbn; [split; rewrite ?Hcfg, ?Hm; try done|].
  - split; by rewrite ?Hw.
  - by apply data_wf_insert.
  - by apply Forall_insert.
  - by eapply one_flush_insert.
  - exists snap, copy. rewrite Hm. split_and!; [done|by eapply covered_store|].
    by eapply copies_insert.
Qed.

Lemma inv_reap m tr n at_ :
  flush_inv m tr -> m_threads m !! n = Some ReapCall ->
  (forall k, now_ms (at_ k) <= now_ms (tr_time tr)) ->
  flush_inv (Machine (reap_task at_ (m_engine m)) (m_disk m) (<[n := Returned (Ok tt)]> (m_threads m))) tr.
Proof.
  intros [[? [? ? ? ?] Hdata ? ? ? Hths Hone] (snap & copy & Hl & Hc & Hcp)] Hn Hat.
  split; cbn; [split; try done|].
  - by apply data_wf_filter.
  - by apply Forall_insert.
  - by eapply one_flush_insert.
  - exists snap, copy. split_and!; [done| |by eapply copies_insert].
    eapply covered_evict; [done|]. by eapply covered_same.
Qed.

(** *** The steps of a flush *)

Lemma inv_begin m tr n :
  flush_inv m tr -> m_threads m !! n = Some FlushCall ->
  Forall (fun th => in_flush th = false) (m_threads m) ->
  flush_inv (Machine (m_engine m) (m_disk m)
      (<[n := FlushCopied (MemTable.data (memtable (m_engine m)))]> (m_threads m)))
    (Track (tr_time tr) (pending_keys (m_threads m)) (tr_exposed tr)).
Proof.
  intros [[? ? ? ? ? ? Hths Hone] (snap & copy & Hl & Hc & Hcp)] Hn Hnone.
  rewrite Forall_lookup in Hnone.
  assert (forall j th, <[n := FlushCopied (MemTable.data (memtable (m_engine m)))]> (m_threads m) !! j = Some th ->
    in_flush th = true -> j = n /\ th = FlushCopied (MemTable.data (memtable (m_engine m)))) as Hself.
  { intros j th [(-> & <- & _)|[_ Hj]]%list_lookup_insert_Some Hf; [done|]. by rewrite (Hnone j th Hj) in Hf. }
  split; cbn.
  - split; try done; [by apply Forall_insert|]. intros i j th1 th2 Hi Hj Hf1 Hf2.
    destruct (Hself i th1 Hi Hf1), (Hself j th2 Hj Hf2). congruence.
  - eexists snap, _. split_and!; [done| |].
    + eapply covered_same; [done..|]. eapply covered_begin. done.
    + intros j th Hj Hf. destruct (Hself j th Hj Hf) as [_ ->]. by eexists.
Qed.

Lemma inv_save m tr n data :
  flush_inv m tr -> m_threads m !! n = Some (FlushCopied data) ->
  exists d, flush_save (tr_time tr) (m_disk m) data = Ok d
    /\ flush_inv (Machine (m_engine m) d (<[n := FlushSaved]> (m_threads m))) tr.
Proof.
  intros [[? [? ? ? ?] ? ? ? Hsv Hths Hone] (snap & copy & Hl & Hc & Hcp)] Hn.
  assert (data_wf data) as Hdata by (rewrite Forall_lookup in Hths; by apply (Hths n _ Hn)).
  destruct (save_facts (tr_time tr) (snap_dir (m_disk m)) data) as (name & dir & Hs & _ & Hl' & Hsv' & _);
    [done|by apply clock_ok_ms|done|].
  unfold flush_save. rewrite Hs. eexists. split; [done|].
  destruct (Hcp n _ Hn eq_refl) as (data' & -> & Hcd). cbn in Hcd. subst data'.
  split; cbn; [split; try done|].
  - by apply Forall_insert.
  - by eapply one_flush_insert.
  - exists (Some data), (Some data). split_and!; [done| |].
    + eapply covered_same; [done..|]. change (file_of (Disk _ _)) with (file_of (m_disk m)).
      by eapply covered_save.
    + apply (copies_insert _ n (FlushCopied data) FlushSaved snap); done.
Qed.

Lemma inv_cleanup m tr n :
  flush_inv m tr -> m_threads m !! n = Some FlushSaved ->
  flush_inv (Machine (m_engine m) (flush_cleanup (m_engine m) (m_disk m))
    (<[n := FlushCleaned]> (m_threads m))) tr.
Proof.
  intros [[? [? ? ? ?] ? ? ? Hsv Hths Hone] (snap & copy & Hl & Hc & Hcp)] Hn.
  assert (SnapshotManager.load_latest (snap_dir (flush_cleanup (m_engine m) (m_disk m))) = Ok snap) as Hl'.
  { unfold flush_cleanup. cbn.
    pose proof (cleanup_facts (StorageConfig.max_snapshots (config (m_engine m))) (snap_dir (m_disk m))) as Hcl.
    destruct (SnapshotManager.cleanup _ _) as [dir' c]. cbn. by rewrite (proj2 (proj2 (proj2 Hcl))). }
  split; cbn [m_engine m_disk m_threads]; [split; try done|].
  - by apply saved_before_cleanup.
  - by apply Forall_insert.
  - by eapply one_flush_insert.
  - exists snap, copy. split_and!; [done|by eapply covered_same|]. by eapply copies_insert.
Qed.

Lemma inv_truncate m tr n :
  flush_inv m tr -> m_threads m !! n = Some FlushCleaned ->
  let '(e, d) := flush_truncate (m_engine m) (m_disk m) in
  flush_inv (Machine e d (<[n := Returned (Ok tt)]> (m_threads m))) (Track (tr_time tr) ∅ (tr_touched tr)).
Proof.
  intros [[? [? Hcl ? ?] ? ? ? Hsv Hths Hone] (snap & copy & Hl & Hc & Hcp)] Hn.
  destruct (Hcp n _ Hn eq_refl) as (data & -> & ->).
  unfold flush_truncate. destruct (truncate_clean (wal (m_engine m)) (file_of (m_disk m)) Hcl) as [Ht Hcl'].
  assert (WriteAheadLog.sequence (WriteAheadLog.truncate (wal (m_engine m))).1 = 0) as Hq by done.
  destruct (WriteAheadLog.truncate (wal (m_engine m))) as [w' f']. cbn in Ht, Hq, Hcl'. subst f'.
  split; cbn; [split; try done|].
  - split; [done|done|apply complete_nil|]. cbn. by rewrite Hq.
  - by apply Forall_insert.
  - by eapply one_flush_insert.
  - exists (Some data), None. split_and!; [done| |].
    + change (logged (file_of _)) with (@nil (string * VersionedValue.t)). cbn.
      eapply covered_same; [done..|]. by eapply covered_truncate.
    + intros j th [(-> & <- & _)|[Hne Hj]]%list_lookup_insert_Some Hf; [done|].
      destruct Hne. by eapply Hone.
Qed.

(** *** Every step *)

Lemma flush_step_ok m tr s :
  flush_inv m tr -> step_ok m (tr_time tr) s -> flush_inv (machine_step m s) (track_step m s tr).
Proof.
  destruct s as [n i]. intros Hinv [(Hck & Hle & Hio & Hat) Hth]. unfold step_alone in Hth. cbn [fst snd] in *.
  pose proof (flush_inv_later m tr (in_now i) Hck Hle Hinv) as Hinv'. clear Hinv Hle Hck.
  unfold machine_step, track_step. cbn [fst snd].
  destruct (m_threads m !! n) as [th|] eqn:Hn; [|done].
  pose proof (eo_threads _ _ _ _ (proj1 Hinv')) as Hths. rewrite Forall_lookup in Hths.
  destruct (Hths n th Hn) as [Hwf Hdata].
  destruct th as [k v|k v|k bytes ttl|k|k v|k v| |data| | | |r]; cbn [thread_step].
  - rewrite Hio. destruct Hwf as [Hk Hv].
    destruct (inv_log m _ n (PutCall k v) (PutLogged k v) k v Hinv' Hn Hk Hv eq_refl eq_refl)
      as (e & d & s & -> & Hok); [done..|exact Hok].
  - destruct (table_put_parts (m_engine m) k v) as (Hm & Hw & Hc).
    eapply inv_store; [done|done|done|done|done|]. by rewrite Hm.
  - destruct Hwf as [Hk Httl]. eapply inv_local; [done|done| |done|done|done]. split; [split; [done|]|done].
    apply versioned_wf; [apply Hinv'|apply Hinv'|done].
  - eapply inv_local; [done|done| |done|done|done]. split; [split; [done|]|done].
    apply tombstone_wf; [apply Hinv'|apply clock_of_wf, Hinv'].
  - rewrite Hio. destruct Hwf as [Hk Hv].
    destruct (inv_log m _ n (DeleteClock k v) (DeleteLogged k v) k v Hinv' Hn Hk Hv eq_refl eq_refl)
      as (e & d & s & -> & Hok); [done..|exact Hok].
  - by eapply inv_store.
  - pose proof (inv_begin m _ n Hinv' Hn Hth) as Hok. unfold MemTable.snapshot.
    case_bool_decide; [|exact Hok].
    eapply (inv_local _ _ n (FlushCopied _) (Returned (Ok tt))) in Hok; [|cbn; apply list_lookup_insert_eq;
      by apply lookup_lt_Some in Hn|split; done|done|done|done].
    cbn in Hok. rewrite list_insert_insert_eq in Hok. exact Hok.
  - destruct (inv_save m _ n data Hinv' Hn) as (d & Hs & Hok). cbn in Hs. rewrite Hs. exact Hok.
  - by apply inv_cleanup.
  - pose proof (inv_truncate m _ n Hinv' Hn) as Hok. by destruct (flush_truncate _ _).
  - apply inv_reap; [done|done|apply Hat].
  - by eapply inv_local.
Qed.

Lemma flush_run_ok sch m tr :
  flush_inv m tr -> schedule_ok m tr sch -> flush_inv (run m sch) (tracked m tr sch).
Proof.
  revert m tr. induction sch as [|s sch IH]; intros m tr Hinv; [done|]. intros [Hs Hsch].
  cbn [run foldl tracked]. apply IH; [by apply flush_step_ok|done].
Qed.

(** A durable engine, with threads that are about to start. *)
Lemma flush_inv_start now e d ths :
  durable now e d -> log_open e -> Forall thread_wf ths ->
  Forall (fun th => pending th = None /\ in_flush th = false) ths ->
  flush_inv (Machine e d ths) (Track now ∅ ∅).
Proof.
  intros Hd Hlog Hwf Hnone. rewrite !Forall_lookup in *.
  assert (forall k v, ~ in_flight ths k v) as Hno.
  { intros k v (i & th & Hi & Hp). destruct (Hnone i th Hi). congruence. }
  split; cbn.
  - split; try apply Hd; [by eapply durable_log_ready| |].
    + apply Forall_lookup. intros i th Hi. split; [by eapply Hwf|]. destruct (Hnone i th Hi). by destruct th.
    + intros i j th1 th2 Hi Hj Hf1. destruct (Hnone i th1 Hi). congruence.
  - destruct (dur_recovered _ _ _ Hd) as (r & Hr & _ & Ha). unfold recovered in Hr.
    destruct (SnapshotManager.load_latest (snap_dir d)) as [snap|] eqn:Hl; [|done]. injection Hr as <-.
    exists snap, None. split_and!; [done| |].
    + split; [|intros k v Hif; by destruct (Hno k v)|done|].
      * intros k _. right. split; [apply Hno|apply Ha].
      * intros i j th1 th2 k v1 v2 Hi _ Hp. destruct (Hno k v1). by exists i, th1.
    + intros j th Hj Hf. destruct (Hnone j th Hj). congruence.
Qed.
End Invariant.

(** ** Properties *)

Section Properties.
Import StorageEngine.
Context `{Crc32, !Crc32Laws, Json WalEntry.t, !JsonLaws WalEntry.t entry_wf}.
Context `{Bincode table, !BincodeLaws table data_wf}.

(** Nothing is exposed, and a running flush has seen every write. *)
Lemma undisturbed_exposes_nothing sch m tr :
  tr_exposed tr = ∅ -> (Exists (fun th => in_flush th = true) (m_threads m) -> tr_touched tr = ∅) ->
  undisturbed m sch -> tr_exposed (tracked m tr sch) = ∅.
Proof.
  revert m tr. induction sch as [|[n i] sch IH]; intros m tr Hx Ht; [done|]. intros [Hd Hsch].
  cbn [tracked]. apply IH; [| |done]; unfold track_step, disturbs in *; cbn [fst snd] in *.
  - destruct (m_threads m !! n) as [[]|] eqn:Hn; cbn; rewrite ?Hx; try done; [set_solver..|].
    apply Ht. apply Exists_exists. exists FlushCleaned. split; [by eapply list_elem_of_lookup_2|done].
  - assert (m_threads (machine_step m (n, i)) = match m_threads m !! n with
      | Some th => <[n := (thread_step i th (m_engine m) (m_disk m)).1.1]> (m_threads m) | None => m_threads m end)
      as Hths.
    { unfold machine_step. destruct (m_threads m !! n) as [th|]; [|done].
      by destruct (thread_step i th (m_engine m) (m_disk m)) as [[th' e] d]. }
    rewrite Hths. clear Hths. intros Hex.
    assert ((forall th, m_threads m !! n = Some th -> in_flush th = false ->
      in_flush (thread_step i th (m_engine m) (m_disk m)).1.1 = false) ->
      Exists (fun th => in_flush th = true) (m_threads m)) as Hback.
    { intros Hth. destruct (m_threads m !! n) as [th|] eqn:Hn; [|done].
      apply Exists_exists in Hex as (x & Hin & Hf). apply list_elem_of_lookup in Hin as [j Hj].
      apply list_lookup_insert_Some in Hj as [(-> & <- & _)|[_ Hj]].
      - apply Exists_exists. exists th. split; [by eapply list_elem_of_lookup_2|].
        destruct (in_flush th) eqn:E; [done|]. by rewrite (Hth th eq_refl E) in Hf.
      - apply Exists_exists. exists x. split; [by eapply list_elem_of_lookup_2|done]. }
    destruct (m_threads m !! n) as [[]|] eqn:Hn; cbn [tr_touched];
      try (apply Ht, Hback; intros th [= <-]; cbn -[log_append flush_save flush_truncate]; by repeat case_match).
    + destruct Hd. apply Hback. intros th [= <-]. cbn -[log_append]. by repeat case_match.
    + destruct Hd. apply Hback. intros th [= <-]. cbn -[log_append]. by repeat case_match.
    + by destruct (decide (pending_keys (m_threads m) = ∅)).
    + done.
Qed.

(** C12: any interleaving of puts, deletes, reaping and flushes in which no two writes
    of one key overlap between log and table and only one flush runs at a time is crash
    safe at every step for every key that is not exposed: reopening the disk gives the
    write of the key that is logged and not yet stored, or else what a read of the
    running engine returns. A key is exposed by the end of a flush during which, or
    across whose start, it was written, until it is logged again; so nothing is exposed
    when no write overlaps a flush. *)
Theorem flushes_expose_only_overlapping_writes now e d ths cfg sch :
  durable now e d -> log_open e -> Forall thread_wf ths ->
  Forall (fun th => pending th = None /\ in_flush th = false) ths ->
  schedule_ok (Machine e d ths) (Track now ∅ ∅) sch ->
  let m := run (Machine e d ths) sch in
  let tr := tracked (Machine e d ths) (Track now ∅ ∅) sch in
  (exists e', (open cfg (m_disk m)).2 = Ok e'
    /\ forall k t, k ∉ tr_exposed tr -> clock_ok t -> tr_time tr <= t ->
         (exists v, in_flight (m_threads m) k v /\ get_raw e' k = Some v)
         \/ ((forall v, ~ in_flight (m_threads m) k v) /\ get t e' k = get t (m_engine m) k))
  /\ (undisturbed (Machine e d ths) sch -> tr_exposed tr = ∅).
Proof.
  intros Hd Hlog Hwf Hfresh Hsch m tr. split.
  - destruct (flush_run_ok sch _ _ (flush_inv_start now e d ths Hd Hlog Hwf Hfresh) Hsch)
      as [Heng (snap & copy & Hl & Hc & _)]. fold m tr in Heng, Hl, Hc.
    pose proof (open_recovers cfg (m_disk m)) as Ho. unfold recovered in Ho. rewrite Hl in Ho.
    destruct Ho as (e' & Ho & Hm & _). exists e'. split; [by rewrite Ho|]. intros k t Hk Ht Hle.
    unfold get_raw, MemTable.get_raw, get, MemTable.get. rewrite Hm.
    destruct (cv_recovers _ _ _ _ _ _ _ _ Hc k Hk) as [?|[Hno Hag]]; [by left|right]. split; [done|].
    eapply (agrees_at_mono _ t) in Hag; [|apply now_ms_mono; [apply Heng|done|done]].
    destruct Hag as [->|(-> & v & -> & ->)]; done.
  - intros Hu. apply undisturbed_exposes_nothing; [done|done|exact Hu].
Qed.
End Properties.

(** ** The property at a concrete engine *)

Section Witnesses.
Import StorageEngine Toy.

Lemma input_0_given : given_ok at_ms input_0.
Proof. split_and!; [apply at_ms_ok|cbn; lia|done|done]. Qed.

(** A put that overlaps a flush exposes its key, and no other. *)
Definition overlapping : machine := Machine engine_1 disk_1 [FlushCall; PutCall "b" value_ttl].
Definition overlap : list (nat * step_input) := (fun n => (n, input_0)) <$> [0; 1; 0; 1; 0; 0]%nat.

Example flushes_expose_only_overlapping_writes_witness :
  tr_exposed (tracked overlapping (Track at_ms ∅ ∅) overlap) = {["b"]}
  /\ exists e', (open config_0 (m_disk (run overlapping overlap))).2 = Ok e'
    /\ get at_ms e' "k" = Some value_a.
Proof.
  assert (tr_exposed (tracked overlapping (Track at_ms ∅ ∅) overlap) = {["b"]}) as Hx
    by (vm_compute; reflexivity).
  split; [exact Hx|].
  destruct (flushes_expose_only_overlapping_writes at_ms engine_1 disk_1 [FlushCall; PutCall "b" value_ttl]
    config_0 overlap durable_1) as [(e' & Ho & Hk) _].
  - split; vm_compute; congruence.
  - constructor; [done|constructor; [split; decided|constructor]].
  - constructor; [done|constructor; [done|constructor]].
  - apply steps_alone_ok; [exact input_0_given|vm_compute; reflexivity].
  - exists e'. split; [exact Ho|]. destruct (Hk "k" at_ms) as [(v & Hif & _)|[_ ->]].
    + change (tracked _ _ _) with (tracked overlapping (Track at_ms ∅ ∅) overlap). rewrite Hx.
      apply (bool_decide_unpack _). vm_compute. exact I.
    + apply at_ms_ok.
    + change (tracked _ _ _) with (tracked overlapping (Track at_ms ∅ ∅) overlap). vm_compute. congruence.
    + exfalso. assert ("k" ∈ pending_keys (m_threads (run overlapping overlap))) as Hin
        by (apply elem_of_pending_keys; by exists v).
      revert Hin. apply (bool_decide_unpack _). vm_compute. exact I.
    + vm_compute. reflexivity.
Defined.
End Witnesses.
