(* ===== verification/EngineLinear.v ===== *)
(** The engine under concurrent use is an atomic map: every call of a thread takes
    effect at one step, between its first and its last one, or not at all if it fails,
    and readers see the effects in the order of these steps. The specification is the
    transition system of the map, in which the other steps stutter. *)

From S2P Require Import Prelude Bytes BTreeMap VectorClock Memtable Externals Wal Snapshot.
From S2P Require Import Engine EngineDurability EngineRace.
Open Scope Z_scope.

(** ** Specification *)

(** A step of the map. *)
Inductive effect :=
| Insert (k : string) (v : VersionedValue.t)
| Evict (at_ : string -> Z).

Definition apply_effect (s : table) (x : effect) : table :=
  match x with
  | Insert k v => <[k := v]> s
  | Evict at_ => filter (fun p => VersionedValue.is_expired (at_ p.1) p.2 = false) s
  end.

(** The effect of a thread's next step, or none if it is a stuttering one. *)
Definition effect_of (th : thread) (i : step_input) : option effect :=
  match th with
  | PutLogged k v | DeleteLogged k v => Some (Insert k v)
  | ReapCall => Some (Evict (in_at i))
  | _ => None
  end.

(** What a call may store: its own value; its bytes and lifetime under some clock and
    time; a tombstone. *)
Definition may_store (th : thread) (v : VersionedValue.t) : Prop :=
  match th with
  | PutCall _ w | PutLogged _ w | DeleteClock _ w | DeleteLogged _ w => v = w
  | PutRawCall _ bytes ttl =>
    VersionedValue.value v = bytes /\ VersionedValue.ttl_ms v = ttl /\ VersionedValue.deleted v = false
  | DeleteCall _ => VersionedValue.value v = [] /\ VersionedValue.deleted v = true
  | _ => False
  end.

Section History.
Context `{Crc32, Json WalEntry.t, Bincode table}.

(** The effects of a schedule, each with the thread that made it, in order. *)
Fixpoint effects (m : machine) (sch : list (nat * step_input)) : list (nat * effect) :=
  match sch with
  | [] => []
  | s :: sch =>
    option_list (pair s.1 <$> (m_threads m !! s.1 ≫= fun th => effect_of th s.2))
      ++ effects (machine_step m s) sch
  end.

(** The effects of thread [n]. *)
Definition effects_of (n : nat) (l : list (nat * effect)) : list effect := (filter (fun x => x.1 = n) l).*2.

(** A writing call [th], its effects [l], and where it stands, [th']: it has returned
    success and stored once, or not yet, or failed, and has stored nothing. *)
Definition call_outcome (th : thread) (k : string) (l : list effect) (th' : thread) : Prop :=
  (th' = Returned (Ok tt) /\ exists v, l = [Insert k v] /\ may_store th v)
  \/ (l = [] /\ (writes th' = Some k \/ exists err, th' = Returned (Err err))).

(** ** Facts *)

Lemma thread_step_effect i th e d :
  MemTable.data (StorageEngine.memtable (thread_step i th e d).1.2)
  = from_option (apply_effect (MemTable.data (StorageEngine.memtable e)))
      (MemTable.data (StorageEngine.memtable e)) (effect_of th i).
Proof.
  destruct th; cbn -[StorageEngine.log_append StorageEngine.flush_save StorageEngine.flush_truncate
    StorageEngine.table_put retain]; try done.
  - unfold StorageEngine.log_append. by destruct (WriteAheadLog.append _ _ _ _ _) as [[w f] [s|err]].
  - by rewrite (proj1 (table_put_parts e key value)), put_data.
  - unfold StorageEngine.log_append. by destruct (WriteAheadLog.append _ _ _ _ _) as [[w f] [s|err]].
  - by destruct (StorageEngine.flush_save _ _ _).
  - exact (retain_live (in_at i) (MemTable.data (StorageEngine.memtable e))).
Qed.

Lemma machine_step_effect m n i :
  MemTable.data (StorageEngine.memtable (m_engine (machine_step m (n, i))))
  = foldl apply_effect (MemTable.data (StorageEngine.memtable (m_engine m)))
      (option_list (m_threads m !! n ≫= fun th => effect_of th i)).
Proof.
  unfold machine_step. destruct (m_threads m !! n) as [th|]; [|done]. cbn [mbind option_bind].
  pose proof (thread_step_effect i th (m_engine m) (m_disk m)) as He.
  destruct (thread_step i th (m_engine m) (m_disk m)) as [[th' e] d]. cbn in *. rewrite He.
  by destruct (effect_of th i).
Qed.

Lemma run_effects sch m :
  MemTable.data (StorageEngine.memtable (m_engine (run m sch)))
  = foldl apply_effect (MemTable.data (StorageEngine.memtable (m_engine m))) (effects m sch).*2.
Proof.
  revert m. induction sch as [|[n i] sch IH]; intros m; [done|]. cbn [run foldl effects].
  change (foldl machine_step (machine_step m (n, i)) sch) with (run (machine_step m (n, i)) sch).
  rewrite IH, machine_step_effect, fmap_app, foldl_app. f_equal. cbn [fst snd].
  by destruct (m_threads m !! n ≫= fun th => effect_of th i).
Qed.

(** One step of a writing call: it stores and returns, or it goes on. *)
Lemma thread_step_call i th e d k :
  writes th = Some k ->
  let th' := (thread_step i th e d).1.1 in
  (exists v, effect_of th i = Some (Insert k v) /\ may_store th v /\ th' = Returned (Ok tt))
  \/ (effect_of th i = None
      /\ ((exists err, th' = Returned (Err err))
          \/ (writes th' = Some k /\ forall v, may_store th' v -> may_store th v))).
Proof.
  destruct th; cbn -[StorageEngine.log_append]; intros [= ->].
  - right. destruct (StorageEngine.log_append _ _ _ _ _) as [[e' d'] [s|err]]; cbn;
      (split; [done|]); [by right|left; by exists err].
  - left. by exists value.
  - right. split; [done|right]. split; [done|]. by intros v ->.
  - right. split; [done|right]. split; [done|]. by intros v ->.
  - right. destruct (StorageEngine.log_append _ _ _ _ _) as [[e' d'] [s|err]]; cbn;
      (split; [done|]); [by right|left; by exists err].
  - left. by exists tombstone.
Qed.

Lemma effects_of_own n k (o : option effect) :
  effects_of n (option_list (pair k <$> o)) = if decide (k = n) then option_list o else [].
Proof.
  unfold effects_of. destruct o as [x|]; [|by case_decide].
  change (option_list (pair k <$> Some x)) with [(k, x)]. rewrite filter_cons. cbn [fst].
  by destruct (decide (k = n)).
Qed.

Lemma effects_of_step m n k i sch :
  effects_of n (effects m ((k, i) :: sch))
  = (if decide (k = n) then option_list (m_threads m !! n ≫= fun th => effect_of th i) else [])
      ++ effects_of n (effects (machine_step m (k, i)) sch).
Proof.
  set (x := m_threads m !! k ≫= fun th => effect_of th i).
  transitivity (effects_of n (option_list (pair k <$> x)) ++ effects_of n (effects (machine_step m (k, i)) sch)).
  - unfold effects_of. cbn [effects fst snd]. by rewrite filter_app, fmap_app.
  - rewrite effects_of_own. unfold x. by destruct (decide (k = n)) as [->|].
Qed.

(** A returned call does nothing more. *)
Lemma returned_stays sch m n r :
  m_threads m !! n = Some (Returned r) ->
  m_threads (run m sch) !! n = Some (Returned r) /\ effects_of n (effects m sch) = [].
Proof.
  revert m. induction sch as [|[k i] sch IH]; intros m Hn; [done|]. rewrite effects_of_step.
  assert (m_threads (machine_step m (k, i)) !! n = Some (Returned r)) as Hn'.
  { destruct (decide (k = n)) as [->|]; [by rewrite (machine_step_thread _ _ _ _ Hn)|].
    by rewrite machine_step_others. }
  destruct (IH _ Hn') as [Hr ->]. split; [done|]. rewrite Hn. by case_decide.
Qed.

Lemma call_runs sch m n th k :
  m_threads m !! n = Some th -> writes th = Some k ->
  exists th', m_threads (run m sch) !! n = Some th'
    /\ call_outcome th k (effects_of n (effects m sch)) th'.
Proof.
  revert m th. induction sch as [|[j i] sch IH]; intros m th Hn Hk.
  { exists th. split; [done|]. right. split; [done|by left]. }
  rewrite effects_of_step. change (run m ((j, i) :: sch)) with (run (machine_step m (j, i)) sch).
  destruct (decide (j = n)) as [->|Hne].
  2: { destruct (IH (machine_step m (j, i)) th) as (th' & ? & ?); [by rewrite machine_step_others|done|].
       by exists th'. }
  pose proof (machine_step_thread m n i th Hn) as Hn'. rewrite Hn. cbn [mbind option_bind].
  destruct (thread_step_call i th (m_engine m) (m_disk m) k Hk)
    as [(v & -> & Hv & Hr)|[-> [[err Hr]|[Hk' Hv]]]].
  - rewrite Hr in Hn'. destruct (returned_stays sch _ n _ Hn') as [-> ->].
    eexists. split; [done|]. left. split; [done|]. by exists v.
  - rewrite Hr in Hn'. destruct (returned_stays sch _ n _ Hn') as [-> ->].
    eexists. split; [done|]. right. split; [done|]. right. by exists err.
  - destruct (IH _ _ Hn' Hk') as (th' & Ht & Hout). exists th'. split; [done|]. cbn [option_list app].
    destruct Hout as [(-> & v & -> & Hs)|[-> Hw]]; [left|by right]. split; [done|]. exists v. auto.
Qed.
End History.

(** ** Properties *)

Section Properties.
Import StorageEngine.
Context `{Crc32, Json WalEntry.t, Bincode table}.

(** C17: linearizability. However the steps of any puts, deletes, flushes and
    reapings interleave and whatever the disk does, the table is the one to which the
    effects of the calls were applied one after the other; a call that returned success
    made exactly one, within its own steps, of a value it may store, and a call that
    failed or is still running has made none. Flushes make none. *)
Theorem engine_is_linearizable m sch :
  let m' := run m sch in
  let h := effects m sch in
  MemTable.data (memtable (m_engine m')) = foldl apply_effect (MemTable.data (memtable (m_engine m))) h.*2
  /\ (forall n th k, m_threads m !! n = Some th -> writes th = Some k ->
        exists th', m_threads m' !! n = Some th' /\ call_outcome th k (effects_of n h) th')
  /\ (forall n th, m_threads m !! n = Some th -> is_flush th = true -> effects_of n h = []).
Proof.
  cbn zeta. split_and!; [apply run_effects|intros n th k; apply call_runs|].
  intros n th. revert m th. induction sch as [|[j i] sch IH]; intros m th Hn Hf; [done|].
  rewrite effects_of_step. destruct (decide (j = n)) as [->|Hne].
  - pose proof (machine_step_thread m n i th Hn) as Hn'. rewrite Hn. cbn [mbind option_bind].
    assert (effect_of th i = None) as -> by by destruct th. cbn [option_list app].
    destruct (thread_step i th (m_engine m) (m_disk m)).1.1 as [| | | | | | | | | | |r] eqn:E;
      [..|by apply (returned_stays sch _ n r)];
      (eapply IH; [exact Hn'|]); destruct th; try done; cbn -[flush_save flush_truncate] in E;
      repeat case_match; simplify_eq/=; done.
  - eapply IH; [by rewrite machine_step_others|done].
Qed.
End Properties.

(** ** The property at a concrete engine *)

Section Witnesses.
Import StorageEngine Toy.

(** Two puts of one key, logged in one order and stored in the other, during a flush. *)
Definition racing : machine :=
  Machine engine_1 disk_1 [PutCall "b" value_a; FlushCall; PutCall "b" value_ttl].
Definition race : list (nat * step_input) := (fun n => (n, input_0)) <$> [0; 1; 2; 1; 2; 0]%nat.

Example engine_is_linearizable_witness :
  effects racing race = [(2%nat, Insert "b" value_ttl); (0%nat, Insert "b" value_a)]
  /\ MemTable.data (memtable (m_engine (run racing race)))
     = foldl apply_effect (MemTable.data (memtable engine_1)) (effects racing race).*2
  /\ exists th', m_threads (run racing race) !! 0%nat = Some th'
       /\ call_outcome (PutCall "b" value_a) "b" (effects_of 0 (effects racing race)) th'.
Proof.
  destruct (engine_is_linearizable racing race) as (Hdata & Hcalls & _).
  split; [vm_compute; reflexivity|]. split; [exact Hdata|].
  apply (Hcalls 0%nat (PutCall "b" value_a) "b"); reflexivity.
Defined.
End Witnesses.
