(* ===== verification/ConsistentHash.v ===== *)
(** The consistent hash ring (src/src/ring/consistent_hash.rs): virtual nodes on a
    circle of 64-bit positions, and the preference list of a key.

    The ring is a [BTreeMap<u64, Node>]: a finite map iterated in the order of the
    positions. SHA-256 is a parameter (Externals.v). *)

From S2P Require Import Prelude Bytes Numerals BTreeMap Externals.
Open Scope Z_scope.

Module Node.
Record t := Mk { id : string; address : string }.
#[global] Instance t_eq_dec : EqDecision t.
Proof. solve_decision. Defined.
Definition display (n : t) : string := id n +:+ "@" +:+ address n.
End Node.

Module HashRing.

Record t := Ring {
  ring : gmap Z Node.t;
  vnodes_per_node : N;
  replication_factor : N
}.

Definition set_ring (self : t) (r : gmap Z Node.t) : t :=
  Ring r self.(vnodes_per_node) self.(replication_factor).

Definition new (vnodes_per_node replication_factor : N) : t :=
  Ring ∅ vnodes_per_node replication_factor.

Section Operations.
Context `{Sha256}.

(** The first eight bytes of the digest, big-endian. *)
Definition hash (input : string) : Z := be_value (take 8 (sha256 (bytes_of_string input))).

(** [format!("{}:vnode:{}", node.id, i)]. *)
Definition vnode_key (id : string) (i : N) : string := id +:+ ":vnode:" +:+ pretty i.

Definition add_vnode (node : Node.t) (ring : gmap Z Node.t) (i : N) : gmap Z Node.t :=
  let hash := hash (vnode_key (Node.id node) i) in
  <[hash := node]> ring.

Definition add_node (self : t) (node : Node.t) : t :=
  set_ring self
    (foldl (add_vnode node) self.(ring) (N.of_nat <$> seq 0 (N.to_nat self.(vnodes_per_node)))).

Definition remove_node (self : t) (node_id : string) : t :=
  set_ring self (retain (fun _ node => negb (bool_decide (Node.id node = node_id))) self.(ring)).

Definition get_node (self : t) (key : string) : option Node.t :=
  let hash := hash key in
  if bool_decide (self.(ring) = ∅) then None
  else
    match head (range_from Z.le hash self.(ring)) with
    | Some e => Some e.2
    | None => snd <$> head (iter Z.le self.(ring))
    end.

(** The loop of [get_nodes]: returns [result] when the iterator ends or on [break]. *)
Fixpoint walk (target : nat) (nodes : list Node.t) (seen_ids : gset string)
    (result : list Node.t) : list Node.t :=
  match nodes with
  | [] => result
  | node :: rest =>
    if bool_decide (Node.id node ∈ seen_ids) then walk target rest seen_ids result
    else
      let seen_ids := {[Node.id node]} ∪ seen_ids in
      let result := result ++ [node] in
      if (target <=? length result)%nat then result else walk target rest seen_ids result
  end.

Definition get_nodes (self : t) (key : string) : list Node.t :=
  let hash := hash key in
  if bool_decide (self.(ring) = ∅) then []
  else
    let target := N.to_nat self.(replication_factor) in
    let nodes := (range_from Z.le hash self.(ring) ++ iter Z.le self.(ring)).*2 in
    walk target nodes ∅ [].

Definition collect_node (acc : gset string * list Node.t) (node : Node.t)
  : gset string * list Node.t :=
  let '(seen, nodes) := acc in
  if bool_decide (Node.id node ∈ seen) then (seen, nodes)
  else ({[Node.id node]} ∪ seen, nodes ++ [node]).

Definition get_all_nodes (self : t) : list Node.t :=
  (foldl collect_node (∅, []) (iter Z.le self.(ring)).*2).2.

Definition node_count (self : t) : nat := length (get_all_nodes self).

Definition is_responsible (self : t) (node_id key : string) : bool :=
  existsb (fun n => bool_decide (Node.id n = node_id)) (get_nodes self key).

Definition get_hash_for_key (key : string) : Z := hash key.

End Operations.
End HashRing.

(** ** The specification of the preference list *)

(** Distinct nodes in order of first appearance, skipping the identifiers [seen]. *)
Fixpoint distinct (seen : gset string) (l : list Node.t) : list Node.t :=
  match l with
  | [] => []
  | n :: l =>
    if decide (Node.id n ∈ seen) then distinct seen l
    else n :: distinct ({[Node.id n]} ∪ seen) l
  end.

(** The ring read clockwise from a position, every virtual node once. *)
Definition clockwise (h : Z) (r : gmap Z Node.t) : list Node.t :=
  (filter (fun e => h <= e.1) (iter Z.le r) ++ filter (fun e => ~ h <= e.1) (iter Z.le r)).*2.

(** How many nodes a preference list may hold: one even for a replication factor 0. *)
Definition list_size (self : HashRing.t) : nat :=
  Nat.max 1 (N.to_nat (HashRing.replication_factor self)).

(** The identifiers on the ring. *)
Definition member_ids (r : gmap Z Node.t) : gset string :=
  list_to_set (Node.id <$> (map_to_list r).*2).

(** Every entry is at a position of its own virtual nodes, and one identifier never
    has two addresses. *)
Definition ring_wf `{Sha256} (self : HashRing.t) : Prop :=
  map_Forall (fun h n => exists i, (i < HashRing.vnodes_per_node self)%N
      /\ h = HashRing.hash (HashRing.vnode_key (Node.id n) i)) (HashRing.ring self)
  /\ forall h1 h2 n1 n2, HashRing.ring self !! h1 = Some n1 -> HashRing.ring self !! h2 = Some n2 ->
      Node.id n1 = Node.id n2 -> n1 = n2.

Section Facts.
Import HashRing.
Implicit Types (l : list Node.t) (seen : gset string) (r : gmap Z Node.t).

Definition ids_of l : gset string := list_to_set (Node.id <$> l).

Lemma elem_of_distinct_ids seen l x :
  x ∈ Node.id <$> distinct seen l <-> x ∈ Node.id <$> l /\ x ∉ seen.
Proof.
  revert seen; induction l as [|n l IH]; intros seen; cbn [distinct].
  { cbn. rewrite elem_of_nil. tauto. }
  case_decide as Hn; rewrite ?fmap_cons, ?elem_of_cons, IH; [naive_solver|].
  rewrite not_elem_of_union, not_elem_of_singleton.
  destruct (decide (x = Node.id n)) as [->|]; naive_solver.
Qed.

Lemma distinct_subseteq seen l n : n ∈ distinct seen l -> n ∈ l.
Proof.
  revert seen; induction l as [|n' l IH]; intros seen; cbn [distinct]; [done|].
  case_decide; rewrite ?elem_of_cons; naive_solver.
Qed.

Lemma distinct_NoDup seen l : NoDup (Node.id <$> distinct seen l).
Proof.
  revert seen; induction l as [|n l IH]; intros seen; cbn [distinct]; [constructor|].
  case_decide; [apply IH|]. rewrite fmap_cons. constructor; [|apply IH].
  rewrite elem_of_distinct_ids. set_solver.
Qed.

Lemma distinct_app seen l1 l2 :
  distinct seen (l1 ++ l2) = distinct seen l1 ++ distinct (ids_of l1 ∪ seen) l2.
Proof.
  revert seen; induction l1 as [|n l1 IH]; intros seen; cbn [distinct app].
  { unfold ids_of; cbn. f_equal. set_solver. }
  unfold ids_of in *. rewrite fmap_cons, list_to_set_cons.
  case_decide as Hn; rewrite IH; cbn [app]; [f_equal|f_equal; f_equal]; f_equal; set_solver.
Qed.

Lemma distinct_seen seen l : (forall x, x ∈ Node.id <$> l -> x ∈ seen) -> distinct seen l = [].
Proof.
  revert seen; induction l as [|n l IH]; intros seen Hs; cbn [distinct]; [done|].
  rewrite decide_True by (apply Hs; rewrite fmap_cons; by left).
  apply IH. intros x Hx. apply Hs. rewrite fmap_cons. by right.
Qed.

(** Dropping one identifier from the list drops it from the distinct nodes. *)
Lemma distinct_filter seen l x :
  distinct seen (filter (fun n => Node.id n <> x) l)
  = filter (fun n => Node.id n <> x) (distinct seen l).
Proof.
  revert seen; induction l as [|n l IH]; intros seen; [done|].
  rewrite filter_cons. cbn [distinct]. destruct (decide (Node.id n = x)) as [Hx|Hx].
  - rewrite (decide_False (P:=Node.id n <> x)) by tauto. rewrite IH. case_decide; [done|].
    rewrite filter_cons, (decide_False (P:=Node.id n <> x)) by tauto. rewrite <-!IH.
    clear IH. revert seen H. induction l as [|n' l IH]; intros seen Hn; [done|].
    rewrite filter_cons. case_decide as Hx'; [|by apply IH]. cbn [distinct].
    assert (Node.id n' ∈ {[Node.id n]} ∪ seen <-> Node.id n' ∈ seen) as Hiff by set_solver.
    destruct (decide (Node.id n' ∈ seen)) as [Hs|Hs].
    + rewrite decide_True by tauto. by apply IH.
    + rewrite decide_False by tauto. f_equal. rewrite IH by set_solver. f_equal. set_solver.
  - rewrite decide_True by done. cbn [distinct]. case_decide; [apply IH|].
    rewrite filter_cons, decide_True by done. by rewrite IH.
Qed.

Lemma walk_distinct target l seen result :
  (length result < Nat.max 1 target)%nat ->
  walk target l seen result
  = result ++ take (Nat.max 1 target - length result) (distinct seen l).
Proof.
  revert seen result; induction l as [|n l IH]; intros seen result Hlen; cbn [walk distinct].
  { by rewrite take_nil, app_nil_r. }
  case_bool_decide as Hn; [rewrite decide_True by done; by apply IH|].
  rewrite decide_False by done.
  replace (Nat.max 1 target - length result)%nat
    with (S (Nat.max 1 target - S (length result))) by lia.
  cbn [take]. destruct (Nat.leb_spec target (length (result ++ [n]))) as [Hle|Hlt];
    rewrite length_app in *; cbn [length] in *.
  - replace (Nat.max 1 target - S (length result))%nat with 0%nat by lia. done.
  - rewrite IH by (rewrite length_app; cbn; lia). rewrite length_app; cbn [length].
    rewrite <-app_assoc. cbn [app]. do 3 f_equal. lia.
Qed.

(** *** The circle *)

Lemma sorted_split (l : list (Z * Node.t)) h :
  StronglySorted (entry_le Z.le) l ->
  l = filter (fun e => ~ h <= e.1) l ++ filter (fun e => h <= e.1) l.
Proof.
  induction 1 as [|e l Hs IH He]; [done|]. rewrite !filter_cons.
  destruct (decide (h <= e.1)) as [Hle|Hnle].
  - rewrite decide_False by tauto.
    assert (filter (fun e => ~ h <= e.1) l = []) as Hnil.
    { destruct (filter _ l) as [|e' l'] eqn:E; [done|exfalso].
      assert (e' ∈ filter (fun e => ~ h <= e.1) l) as Hin by (rewrite E; by left).
      apply list_elem_of_filter in Hin as [Hn Hin].
      rewrite Forall_forall in He. specialize (He e' Hin). unfold entry_le in He. lia. }
    rewrite Hnil in *. cbn [app] in *. by rewrite <-IH.
  - rewrite decide_True by done. cbn [app]. by rewrite <-IH.
Qed.

Lemma iter_split r h :
  iter Z.le r = filter (fun e => ~ h <= e.1) (iter Z.le r) ++ filter (fun e => h <= e.1) (iter Z.le r).
Proof. apply sorted_split, (iter_sorted Z.le). Qed.

Lemma clockwise_permutation h r : clockwise h r ≡ₚ (map_to_list r).*2.
Proof.
  unfold clockwise. rewrite <-(iter_permutation Z.le r). rewrite (iter_split r h) at 3.
  by rewrite Permutation_app_comm.
Qed.

Lemma elem_of_clockwise h r n : n ∈ clockwise h r <-> exists p, r !! p = Some n.
Proof.
  rewrite clockwise_permutation, list_elem_of_fmap. split.
  - intros ([p n'] & -> & ?%elem_of_map_to_list). by exists p.
  - intros (p & Hp). exists (p, n). by rewrite elem_of_map_to_list.
Qed.

Lemma clockwise_filter h r x :
  clockwise h (retain (fun _ n => negb (bool_decide (Node.id n = x))) r)
  = filter (fun n => Node.id n <> x) (clockwise h r).
Proof.
  unfold clockwise, retain. rewrite (iter_filter Z.le), list_filter_fmap, filter_app.
  do 2 f_equal; rewrite !list_filter_filter; apply list_filter_iff;
    intros [p n]; cbn; rewrite negb_true_iff, bool_decide_eq_false; tauto.
Qed.

Lemma clockwise_nil h r : clockwise h r = [] <-> r = ∅.
Proof.
  split.
  - intros Hn. apply map_empty. intros p. destruct (r !! p) as [n|] eqn:E; [|done].
    assert (n ∈ clockwise h r) as Hin by (apply elem_of_clockwise; eauto).
    rewrite Hn in Hin. by apply not_elem_of_nil in Hin.
  - intros ->. apply Permutation_nil_r. by rewrite clockwise_permutation, map_to_list_empty.
Qed.

(** The list that [get_nodes] walks, wrapping around once, has the same distinct nodes. *)
Lemma wrapped_distinct h r :
  distinct ∅ (range_from Z.le h r ++ iter Z.le r).*2 = distinct ∅ (clockwise h r).
Proof.
  rewrite (iter_split r h) at 1. unfold clockwise, range_from. rewrite !fmap_app.
  rewrite app_assoc, (distinct_app ∅ (_ ++ _)).
  rewrite (distinct_seen _ (filter _ _).*2); [by rewrite app_nil_r|].
  intros x Hx. unfold ids_of. rewrite fmap_app. set_solver.
Qed.

Lemma member_ids_listing l r x :
  l ≡ₚ (map_to_list r).*2 -> x ∈ Node.id <$> l <-> x ∈ member_ids r.
Proof. intros Hl. unfold member_ids. by rewrite elem_of_list_to_set, Hl. Qed.

Lemma distinct_ids_length l r :
  l ≡ₚ (map_to_list r).*2 -> length (distinct ∅ l) = size (member_ids r).
Proof.
  intros Hl. rewrite <-(length_fmap Node.id).
  rewrite <-(size_list_to_set (C:=gset string)) by apply distinct_NoDup.
  f_equal. apply set_eq. intros x. rewrite elem_of_list_to_set, elem_of_distinct_ids.
  rewrite (member_ids_listing l r) by done. set_solver.
Qed.

Lemma collect_distinct l seen nodes :
  (foldl collect_node (seen, nodes) l).2 = nodes ++ distinct seen l.
Proof.
  revert seen nodes; induction l as [|n l IH]; intros seen nodes; cbn [foldl distinct].
  { by rewrite app_nil_r. }
  unfold collect_node at 2. case_bool_decide; [by rewrite decide_True, IH|].
  rewrite decide_False, IH by done. by rewrite <-app_assoc.
Qed.

Section Hashed.
Context `{Sha256}.
Implicit Types (self : HashRing.t) (key : string) (n : Node.t).

Lemma get_nodes_eq self key :
  get_nodes self key = take (list_size self) (distinct ∅ (clockwise (hash key) (ring self))).
Proof.
  unfold get_nodes. case_bool_decide as He.
  - rewrite (proj2 (clockwise_nil _ _) He). cbn [distinct]. by rewrite take_nil.
  - rewrite walk_distinct by (cbn; lia). cbn [app length]. rewrite Nat.sub_0_r.
    by rewrite wrapped_distinct.
Qed.

Lemma get_node_eq self key : get_node self key = head (clockwise (hash key) (ring self)).
Proof.
  unfold get_node. case_bool_decide as He.
  { by rewrite (proj2 (clockwise_nil _ _) He). }
  unfold clockwise, range_from. pose proof (iter_split (ring self) (hash key)) as Hs.
  destruct (filter (fun e => hash key <= e.1) _) as [|e l].
  - rewrite app_nil_r in Hs. cbn [head app]. rewrite <-Hs. by destruct (iter Z.le (ring self)).
  - done.
Qed.

Lemma get_nodes_ids self key :
  NoDup (Node.id <$> get_nodes self key)
  /\ length (get_nodes self key) = Nat.min (list_size self) (size (member_ids (ring self))).
Proof.
  rewrite get_nodes_eq. split.
  - rewrite fmap_take. eapply sublist_NoDup; [apply distinct_NoDup|apply sublist_take].
  - by rewrite length_take, (distinct_ids_length _ (ring self)) by apply clockwise_permutation.
Qed.

Lemma elem_of_get_nodes self key n :
  n ∈ get_nodes self key -> exists p, ring self !! p = Some n.
Proof.
  rewrite get_nodes_eq. intros Hn. apply elem_of_take in Hn as (i & Hi & _).
  apply list_elem_of_lookup_2, distinct_subseteq in Hi. by apply elem_of_clockwise in Hi.
Qed.

(** *** Adding and removing nodes *)

Definition positions (n : Node.t) (k : N) : list Z :=
  (fun i => hash (vnode_key (Node.id n) (N.of_nat i))) <$> seq 0 (N.to_nat k).

Lemma foldl_add_vnode n r (idx : list N) p :
  foldl (add_vnode n) r idx !! p
  = if decide (p ∈ (fun i => hash (vnode_key (Node.id n) i)) <$> idx) then Some n else r !! p.
Proof.
  revert r; induction idx as [|i idx IH]; intros r; cbn [foldl].
  { rewrite decide_False; [done|]. apply not_elem_of_nil. }
  rewrite IH, fmap_cons. unfold add_vnode. rewrite lookup_insert.
  repeat case_decide; rewrite ?elem_of_cons in *; naive_solver.
Qed.

Lemma add_node_lookup self n p :
  ring (add_node self n) !! p
  = if decide (p ∈ positions n (vnodes_per_node self)) then Some n else ring self !! p.
Proof.
  unfold add_node; cbn. rewrite foldl_add_vnode.
  assert ((fun i => hash (vnode_key (Node.id n) i))
    <$> (N.of_nat <$> seq 0 (N.to_nat (vnodes_per_node self)))
    = positions n (vnodes_per_node self)) as -> by by rewrite <-list_fmap_compose.
  done.
Qed.

Lemma elem_of_positions n k p :
  p ∈ positions n k <-> exists i, (i < k)%N /\ p = hash (vnode_key (Node.id n) i).
Proof.
  unfold positions. rewrite list_elem_of_fmap. split.
  - intros (i & -> & Hi%elem_of_seq). exists (N.of_nat i). split; [lia|done].
  - intros (i & Hi & ->). exists (N.to_nat i). rewrite N2Nat.id, elem_of_seq. split; [done|lia].
Qed.

Lemma remove_node_lookup self x p n :
  ring (remove_node self x) !! p = Some n <-> ring self !! p = Some n /\ Node.id n <> x.
Proof. cbn. by rewrite lookup_retain, negb_true_iff, bool_decide_eq_false. Qed.

Lemma new_ring_wf k f : ring_wf (new k f).
Proof. split; [apply map_Forall_empty|]. intros p q n1 n2; cbn. by intros ?%lookup_empty_Some. Qed.

Lemma add_node_wf self n : ring_wf self -> ring_wf (add_node self n).
Proof.
  intros [Hpos Hone]. split.
  - intros p n'. rewrite add_node_lookup. case_decide as Hp; [|apply Hpos].
    intros [= <-]. by apply elem_of_positions.
  - assert (forall p n', ring (add_node self n) !! p = Some n' ->
      n' = n \/ (Node.id n' <> Node.id n /\ ring self !! p = Some n')) as Hcase.
    { intros p n'. rewrite add_node_lookup. case_decide as Hp; [intros [= <-]; by left|].
      intros Hl. right. split; [|done]. intros Hid. destruct Hp. apply elem_of_positions.
      rewrite <-Hid. by apply Hpos in Hl. }
    intros p q n1 n2 Hp Hq Hid.
    destruct (Hcase p n1 Hp) as [->|[? Hp']], (Hcase q n2 Hq) as [->|[? Hq']]; try congruence.
    by eapply Hone.
Qed.

Lemma remove_node_wf self x : ring_wf self -> ring_wf (remove_node self x).
Proof.
  intros [Hpos Hone]. split.
  - intros p n [Hp _]%remove_node_lookup. by apply (Hpos p n).
  - intros p q n1 n2 [Hp _]%remove_node_lookup [Hq _]%remove_node_lookup. by eapply Hone.
Qed.

Lemma hash_range `{!Sha256Laws} key : in_u64 (hash key).
Proof.
  unfold hash. pose proof (be_value_range (take 8 (sha256 (bytes_of_string key)))) as Hr.
  rewrite length_take, sha256_length in Hr. exact Hr.
Qed.

Lemma is_responsible_spec self x key :
  is_responsible self x key = true <-> x ∈ Node.id <$> get_nodes self key.
Proof.
  unfold is_responsible. rewrite existsb_exists, list_elem_of_fmap.
  split; intros (n & Hn1 & Hn2); exists n.
  - apply bool_decide_eq_true in Hn2. by rewrite list_elem_of_In.
  - rewrite bool_decide_eq_true. by rewrite <-list_elem_of_In.
Qed.
End Hashed.
End Facts.

#[export] Hint Resolve new_ring_wf add_node_wf remove_node_wf : rkv.

Lemma vnode_key_inj id1 id2 i1 i2 :
  HashRing.vnode_key id1 i1 = HashRing.vnode_key id2 i2 -> id1 = id2 /\ i1 = i2.
Proof.
  unfold HashRing.vnode_key. intros E%(f_equal String.list_ascii_of_string).
  rewrite !list_ascii_app in E.
  change (String.list_ascii_of_string ":vnode:")
    with (String.list_ascii_of_string ":vnode" ++ [Ascii.ascii_of_N 58]) in E.
  rewrite <-!app_assoc in E. cbn [app] in E. rewrite !app_assoc in E.
  apply app_separator_inj in E as [El Ed];
    try (by apply digits_no_separator; [apply pretty_digits|intros [_ ?]; cbn in *; lia]).
  split; [apply list_ascii_inj; by eapply app_inv_tail|].
  apply (inj pretty). by apply list_ascii_inj.
Qed.

(** ** Histories of membership changes *)

Inductive ring_op :=
| AddNode (node : Node.t)
| RemoveNode (node_id : string).

Definition op_id (o : ring_op) : string :=
  match o with AddNode n => Node.id n | RemoveNode x => x end.

Definition apply_op `{Sha256} (self : HashRing.t) (o : ring_op) : HashRing.t :=
  match o with
  | AddNode n => HashRing.add_node self n
  | RemoveNode x => HashRing.remove_node self x
  end.

Definition apply_ops `{Sha256} (self : HashRing.t) (ops : list ring_op) : HashRing.t :=
  foldl apply_op self ops.

(** The last change that concerned an identifier. *)
Definition last_op (ops : list ring_op) (x : string) : option ring_op :=
  last (filter (fun o => op_id o = x) ops).

Section History.
Import HashRing.
Context `{Sha256}.

Lemma last_op_snoc ops o x :
  last_op (ops ++ [o]) x = if decide (op_id o = x) then Some o else last_op ops x.
Proof.
  unfold last_op. rewrite filter_app, filter_cons, filter_nil.
  case_decide; [by rewrite last_snoc|by rewrite app_nil_r].
Qed.

Lemma apply_op_size self o : vnodes_per_node (apply_op self o) = vnodes_per_node self.
Proof. by destruct o. Qed.

Lemma apply_ops_wf self ops : ring_wf self -> ring_wf (apply_ops self ops).
Proof.
  revert self. induction ops as [|o ops IH]; intros self Hwf; cbn; [done|].
  apply IH. destruct o; eauto with rkv.
Qed.

Lemma apply_ops_size self ops : vnodes_per_node (apply_ops self ops) = vnodes_per_node self.
Proof.
  revert self. induction ops as [|o ops IH]; intros self; cbn; [done|].
  change (vnodes_per_node (apply_ops (apply_op self o) ops) = vnodes_per_node self).
  by rewrite IH, apply_op_size.
Qed.

Lemma apply_ops_snoc self ops o : apply_ops self (ops ++ [o]) = apply_op (apply_ops self ops) o.
Proof. unfold apply_ops. by rewrite foldl_app. Qed.

Lemma apply_ops_last k f ops p n :
  ring (apply_ops (new k f) ops) !! p = Some n -> last_op ops (Node.id n) = Some (AddNode n).
Proof.
  revert p n. induction ops as [|o ops IH] using rev_ind; intros p n.
  { cbn. by intros ?%lookup_empty_Some. }
  rewrite apply_ops_snoc, last_op_snoc. pose proof (apply_ops_wf (new k f) ops (new_ring_wf k f)) as Hwf.
  destruct o as [n'|x]; cbn [apply_op op_id].
  - rewrite add_node_lookup. case_decide as Hp; [intros [= ->]; by rewrite decide_True|].
    intros Hl. rewrite decide_False; [by eapply IH|]. intros Hid. destruct Hp.
    apply elem_of_positions. rewrite Hid. by apply Hwf in Hl.
  - rewrite remove_node_lookup. intros [Hl Hne]. rewrite decide_False by congruence. by eapply IH.
Qed.

(** No two identifiers share a position. *)
Definition no_collision (k : N) (ids : list string) : Prop :=
  forall x y i j, x ∈ ids -> y ∈ ids -> (i < k)%N -> (j < k)%N ->
    hash (vnode_key x i) = hash (vnode_key y j) -> x = y.

Lemma apply_ops_present k f ops n i :
  no_collision k (op_id <$> ops) -> (i < k)%N -> last_op ops (Node.id n) = Some (AddNode n) ->
  ring (apply_ops (new k f) ops) !! hash (vnode_key (Node.id n) i) = Some n.
Proof.
  induction ops as [|o ops IH] using rev_ind; intros Hnc Hi; [done|].
  rewrite apply_ops_snoc, last_op_snoc. rewrite fmap_app in Hnc.
  assert (no_collision k (op_id <$> ops)) as Hnc'.
  { intros x y i' j Hx Hy. apply Hnc; apply elem_of_app; by left. }
  pose proof (apply_ops_size (new k f) ops) as Hk. cbn [vnodes_per_node new] in Hk.
  case_decide as Ho.
  - intros [= ->]. cbn [apply_op]. rewrite add_node_lookup, Hk.
    rewrite decide_True; [done|]. apply elem_of_positions. by exists i.
  - intros Hlast. specialize (IH Hnc' Hi Hlast). destruct o as [n'|x]; cbn [apply_op op_id] in *.
    + rewrite add_node_lookup, Hk, decide_False; [done|]. intros (j & Hj & E)%elem_of_positions.
      apply Ho. symmetry. apply (Hnc (Node.id n) (Node.id n') i j); [| |done|done|done].
      * apply elem_of_app. left. apply last_Some in Hlast as [l Hl].
        apply list_elem_of_fmap. exists (AddNode n). split; [done|].
        assert (AddNode n ∈ filter (fun o => op_id o = Node.id n) ops) as Hin
          by (rewrite Hl; apply elem_of_app; right; by left).
        by apply list_elem_of_filter in Hin as [_ ?].
      * apply elem_of_app. right. by left.
    + rewrite remove_node_lookup. split; [done|congruence].
Qed.
End History.

(** ** Properties *)

Section Properties.
Import HashRing.
Context `{Sha256, !Sha256Laws}.

(** Clockwise distance from [k] to [h] on the circle of 2^64 positions. *)
Definition distance (k h : Z) : Z := wrap_u64 (h - k).

Lemma distance_mono k h h' :
  in_u64 k -> in_u64 h -> in_u64 h' ->
  (k <= h /\ (h' < k \/ h <= h')) \/ (h < k /\ h' < k /\ h <= h') ->
  distance k h <= distance k h'.
Proof.
  unfold distance, wrap_u64, in_u64. intros Hk Hh Hh' Hc.
  assert (forall x, 0 <= x < 2 ^ 64 ->
    (x - k) mod 2 ^ 64 = if decide (k <= x) then x - k else x - k + 2 ^ 64) as Hmod.
  { intros x Hx. case_decide; [by rewrite Z.mod_small by lia|].
    symmetry. apply (Z.mod_unique _ _ (-1)); lia. }
  rewrite !Hmod by done. repeat case_decide; lia.
Qed.

(** C27: the preference list of a key holds distinct nodes, as many as the
    replication factor asks and the ring has (at least one, even for factor 0), in the
    order in which a clockwise walk from the key's position first meets them; it starts
    with the primary node, and [is_responsible] is membership of it. *)
Theorem preference_list_spec (self : HashRing.t) (key x : string) :
  get_nodes self key = take (list_size self) (distinct ∅ (clockwise (hash key) (ring self)))
  /\ NoDup (Node.id <$> get_nodes self key)
  /\ length (get_nodes self key)
     = Nat.min (Nat.max 1 (N.to_nat (replication_factor self))) (node_count self)
  /\ head (get_nodes self key) = get_node self key
  /\ (is_responsible self x key = true <-> x ∈ Node.id <$> get_nodes self key).
Proof.
  destruct (get_nodes_ids self key) as [Hnd Hlen]. split_and!.
  - apply get_nodes_eq.
  - done.
  - rewrite Hlen. unfold node_count, get_all_nodes, list_size. rewrite collect_distinct.
    cbn [app]. rewrite (distinct_ids_length _ (ring self)); [done|].
    by rewrite (iter_permutation Z.le).
  - rewrite get_nodes_eq, get_node_eq. unfold list_size.
    destruct (clockwise _ _) as [|n l]; [by cbn [distinct]; rewrite take_nil|].
    cbn [distinct]. rewrite decide_False by set_solver.
    by destruct (Nat.max 1 _) eqn:E; [lia|].
  - apply is_responsible_spec.
Qed.

(** The first entry of a part of the ring, by position. *)
Lemma filter_iter_head (P : Z * Node.t -> Prop) `{!forall e, Decision (P e)} (r : gmap Z Node.t) :
  match filter P (iter Z.le r) with
  | [] => forall h n, r !! h = Some n -> ~ P (h, n)
  | e :: _ => P e /\ r !! e.1 = Some e.2 /\ forall h n, r !! h = Some n -> P (h, n) -> e.1 <= h
  end.
Proof.
  assert (forall h n, r !! h = Some n -> P (h, n) -> (h, n) ∈ filter P (iter Z.le r)) as Hin.
  { intros h n Hn HP. apply list_elem_of_filter. split; [done|by apply (elem_of_iter Z.le)]. }
  destruct (filter P (iter Z.le r)) as [|[p m] l] eqn:E.
  { intros h n Hn HP. apply (not_elem_of_nil (h, n)). by apply Hin. }
  assert ((p, m) ∈ filter P (iter Z.le r)) as [HP He%(elem_of_iter Z.le)]%list_elem_of_filter
    by (rewrite E; by left).
  split; [done|]. split; [done|]. intros h n Hn HPn. specialize (Hin h n Hn HPn).
  apply elem_of_cons in Hin as [[= <- _]|Hin]; [done|].
  pose proof (iter_sorted Z.le (filter P r)) as Hs. rewrite (iter_filter Z.le), E in Hs.
  apply StronglySorted_inv in Hs as [_ Hs]. rewrite Forall_forall in Hs. by apply (Hs (h, n)).
Qed.

(** [h] is met no later than [h'] on the way clockwise from [k]. *)
Definition cw_le (k h h' : Z) : Prop :=
  (k <= h /\ (h' < k \/ h <= h')) \/ (h < k /\ h' < k /\ h <= h').

Lemma get_node_first (self : HashRing.t) (key : string) n :
  get_node self key = Some n -> exists h, ring self !! h = Some n
    /\ forall h' m, ring self !! h' = Some m -> cw_le (hash key) h h'.
Proof.
  rewrite get_node_eq. set (k := hash key). unfold clockwise.
  pose proof (filter_iter_head (fun e => k <= e.1) (ring self)) as Hge.
  pose proof (filter_iter_head (fun e => ~ k <= e.1) (ring self)) as Hlt.
  destruct (filter (fun e => k <= e.1) _) as [|e l]; cbn [app fmap list_fmap head].
  - destruct (filter (fun e => ~ k <= e.1) _) as [|e l]; [done|].
    intros [= <-]. destruct Hlt as (Hne & He & Hmin). exists e.1. split; [done|].
    intros h' m Hm. pose proof (Hge h' m Hm). specialize (Hmin h' m Hm). unfold cw_le. cbn in *. lia.
  - intros [= <-]. destruct Hge as (Hle & He & Hmin). exists e.1. split; [done|].
    intros h' m Hm. specialize (Hmin h' m Hm). unfold cw_le. cbn in *. lia.
Qed.

Lemma get_node_None (self : HashRing.t) (key : string) :
  get_node self key = None <-> ring self = ∅.
Proof. rewrite get_node_eq, head_None. apply clockwise_nil. Qed.

(** The primary of a key is the node at the first occupied position at or
    clockwise after the key's hash, wrapping at 2^64; there is one unless the ring is
    empty. *)
Theorem primary_is_nearest_clockwise (self : HashRing.t) (key : string) :
  ring_wf self ->
  (get_node self key = None <-> ring self = ∅)
  /\ forall n, get_node self key = Some n -> exists h, ring self !! h = Some n
       /\ forall h', is_Some (ring self !! h') -> distance (hash key) h <= distance (hash key) h'.
Proof.
  intros [Hpos _]. split; [apply get_node_None|].
  intros n (h & Hh & Hmin)%get_node_first. exists h. split; [done|].
  assert (forall p m, ring self !! p = Some m -> in_u64 p) as Hu.
  { intros p m Hm. apply Hpos in Hm as (i & _ & ->). apply hash_range. }
  intros h' [m Hm]. apply distance_mono; [apply hash_range|by eapply Hu|by eapply Hu|by eapply Hmin].
Qed.

(** C28: removing a node changes a preference list only by dropping that node and
    appending the next distinct nodes of the same walk: keys that were not on it keep
    their list, the others keep their remaining nodes, in order, as a prefix. *)
Theorem remove_node_minimal_disruption (self : HashRing.t) (x key : string) :
  get_nodes (remove_node self x) key
  = take (list_size self)
      (filter (fun n => Node.id n <> x) (distinct ∅ (clockwise (hash key) (ring self))))
  /\ (x ∉ Node.id <$> get_nodes self key ->
      get_nodes (remove_node self x) key = get_nodes self key)
  /\ filter (fun n => Node.id n <> x) (get_nodes self key)
       `prefix_of` get_nodes (remove_node self x) key
  /\ x ∉ Node.id <$> get_nodes (remove_node self x) key.
Proof.
  rewrite !get_nodes_eq. cbn [ring remove_node set_ring].
  rewrite clockwise_filter, distinct_filter. change (list_size (remove_node self x)) with (list_size self).
  split_and!; [done| |apply take_filter_prefix|].
  - intros Hx. apply take_filter_all, Forall_forall. intros n Hn <-. destruct Hx.
    by apply list_elem_of_fmap_2.
  - intros Hin. apply list_elem_of_fmap in Hin as (n & -> & Hn). apply elem_of_take in Hn as (i & Hi & _).
    by apply list_elem_of_lookup_2, list_elem_of_filter in Hi as [? _].
Qed.

(** Adding a node moves keys only to it: the primary of a key stays what it was
    or becomes the new node. *)
Lemma get_node_add_node (self : HashRing.t) (n : Node.t) (key : string) :
  get_node (add_node self n) key = Some n
  \/ get_node (add_node self n) key = get_node self key.
Proof.
  assert (forall p m, ring self !! p = Some m -> exists m', ring (add_node self n) !! p = Some m') as Hsub.
  { intros p m Hp. rewrite add_node_lookup. case_decide; eauto. }
  destruct (get_node (add_node self n) key) as [n'|] eqn:E'.
  - apply get_node_first in E' as (h & Hh & Hmin). rewrite add_node_lookup in Hh.
    case_decide as Hp; [left; congruence|]. right.
    destruct (get_node self key) as [n''|] eqn:E.
    + apply get_node_first in E as (h2 & Hh2 & Hmin2).
      destruct (Hsub _ _ Hh2) as [m' Hm']. specialize (Hmin _ _ Hm'). specialize (Hmin2 _ _ Hh).
      assert (h = h2) as -> by (unfold cw_le in *; lia). congruence.
    + apply get_node_None in E. rewrite E in Hh. by apply lookup_empty_Some in Hh.
  - right. symmetry. apply get_node_None. apply get_node_None in E'. apply map_empty. intros p.
    destruct (ring self !! p) as [m|] eqn:E; [|done]. destruct (Hsub p m E) as [m' Hm'].
    rewrite E' in Hm'. by apply lookup_empty_Some in Hm'.
Qed.

(** Adding a node moves keys only to it: the primary of a key stays what it was
    or becomes the new node. If the node is new and none of its positions is taken,
    removing it again restores the ring. *)
Theorem add_node_minimal_disruption (self : HashRing.t) (n : Node.t) (key : string) :
  (get_node (add_node self n) key = Some n
   \/ get_node (add_node self n) key = get_node self key)
  /\ (Node.id n ∉ member_ids (ring self) ->
      (forall p, p ∈ positions n (vnodes_per_node self) -> ring self !! p = None) ->
      remove_node (add_node self n) (Node.id n) = self).
Proof.
  split; [apply get_node_add_node|].
  intros Hid Hfree. destruct self as [r k f]. unfold remove_node, set_ring. cbn. f_equal.
  apply map_eq. intros p. apply option_eq. intros m. rewrite lookup_retain.
  rewrite negb_true_iff, bool_decide_eq_false.
  pose proof (add_node_lookup (Ring r k f) n p) as Hl. cbn in Hl, Hfree. rewrite Hl.
  case_decide as Hp.
  - rewrite Hfree by done. split; [|done]. by intros [[= ->] ?].
  - split; [by intros [? _]|]. intros Hm. split; [done|]. intros Heq. destruct Hid.
    rewrite <-Heq. unfold member_ids. apply elem_of_list_to_set.
    apply list_elem_of_fmap_2, list_elem_of_fmap. exists (p, m). by rewrite elem_of_map_to_list.
Qed.

(** C29: after any sequence of additions and removals, a node on the ring is the
    one its identifier was last added with, at one address only; and, as long as no two
    identifiers collide on a position, every identifier whose last change was an
    addition owns all of its virtual nodes. *)
Theorem ring_reflects_last_operations (k f : N) (ops : list ring_op) (n : Node.t) :
  let self := apply_ops (new k f) ops in
  ring_wf self
  /\ (forall key, n ∈ get_nodes self key -> last_op ops (Node.id n) = Some (AddNode n))
  /\ (no_collision k (op_id <$> ops) -> (0 < k)%N ->
      n ∈ get_all_nodes self <-> last_op ops (Node.id n) = Some (AddNode n)).
Proof.
  intros self. split; [apply apply_ops_wf, new_ring_wf|]. split.
  { intros key (p & Hp)%elem_of_get_nodes. by eapply apply_ops_last. }
  intros Hnc Hk. unfold get_all_nodes. rewrite collect_distinct. cbn [app]. split.
  - intros Hn%distinct_subseteq. rewrite (iter_permutation Z.le) in Hn.
    apply list_elem_of_fmap in Hn as ([p m] & -> & Hp%elem_of_map_to_list).
    by eapply apply_ops_last.
  - intros Hlast. pose proof (apply_ops_present k f ops n 0 Hnc Hk Hlast) as Hp.
    assert (Node.id n ∈ Node.id <$> distinct ∅ (iter Z.le (ring self)).*2) as Hid.
    { apply elem_of_distinct_ids. split; [|set_solver].
      rewrite (member_ids_listing _ (ring self)) by by rewrite (iter_permutation Z.le).
      apply elem_of_list_to_set, list_elem_of_fmap_2, list_elem_of_fmap.
      eexists (_, n). split; [done|]. by apply elem_of_map_to_list. }
    apply list_elem_of_fmap in Hid as (m & Hid & Hm). pose proof Hm as Hm'.
    apply distinct_subseteq in Hm. rewrite (iter_permutation Z.le) in Hm.
    apply list_elem_of_fmap in Hm as ([p m'] & -> & Hm%elem_of_map_to_list). cbn in *.
    apply apply_ops_last in Hm. rewrite <-Hid in Hm. rewrite Hlast in Hm. by simplify_eq.
Qed.

(** The strings that place virtual nodes never clash: different nodes, and
    different virtual nodes of one node, are hashed from different texts, whatever
    characters the identifiers contain; and every hash is a [u64] position. *)
Theorem vnode_keys_distinct (id1 id2 : string) (i1 i2 : N) :
  (vnode_key id1 i1 = vnode_key id2 i2 <-> id1 = id2 /\ i1 = i2)
  /\ in_u64 (hash (vnode_key id1 i1)).
Proof. split; [|apply hash_range]. split; [apply vnode_key_inj|by intros [-> ->]]. Qed.
End Properties.

(** ** The properties at a concrete ring *)

Section Witnesses.
Import HashRing Toy.

Definition node_1 : Node.t := Node.Mk "n1" "10.0.0.1:7000".
Definition node_2 : Node.t := Node.Mk "n2" "10.0.0.2:7000".
Definition node_3 : Node.t := Node.Mk "n3" "10.0.0.3:7000".
Definition ring_ops : list ring_op :=
  [AddNode node_1; AddNode node_2; RemoveNode "n1"; AddNode node_3; AddNode node_1].
Definition ring_3 : HashRing.t := apply_ops (new 3 2) ring_ops.

Lemma ring_3_wf : ring_wf ring_3.
Proof. apply apply_ops_wf, new_ring_wf. Qed.

Example ring_3_has_all : node_count ring_3 = 3%nat /\ size (ring ring_3) = 9%nat.
Proof. split; vm_compute; reflexivity. Qed.

Example preference_list_spec_witness :
  length (get_nodes ring_3 "key") = 2%nat
  /\ head (get_nodes ring_3 "key") = get_node ring_3 "key"
  /\ is_responsible ring_3 "n3" "key" = true.
Proof.
  destruct (preference_list_spec ring_3 "key" "n3") as (_ & _ & Hlen & Hhead & Hresp).
  split; [|split].
  - rewrite Hlen. vm_compute. reflexivity.
  - exact Hhead.
  - apply Hresp. decided.
Defined.

Example primary_is_nearest_clockwise_witness :
  exists n h, get_node ring_3 "key" = Some n /\ ring ring_3 !! h = Some n
    /\ forall h', is_Some (ring ring_3 !! h') -> distance (hash "key") h <= distance (hash "key") h'.
Proof.
  destruct (primary_is_nearest_clockwise ring_3 "key" ring_3_wf) as [_ Hsome].
  destruct (get_node ring_3 "key") as [n|] eqn:E.
  - destruct (Hsome n eq_refl) as (h & Hh & Hmin). exists n, h.
    split; [reflexivity|]. split; [exact Hh|exact Hmin].
  - exfalso. revert E. vm_compute. discriminate.
Defined.

Example remove_node_minimal_disruption_witness :
  get_nodes ring_3 "key" = [node_3; node_2]
  /\ get_nodes (remove_node ring_3 "n1") "key" = [node_3; node_2].
Proof.
  assert (get_nodes ring_3 "key" = [node_3; node_2]) as E by (vm_compute; reflexivity).
  split; [exact E|]. rewrite <-E. apply (remove_node_minimal_disruption ring_3 "n1" "key").
  rewrite E. decided.
Defined.

Example add_node_minimal_disruption_witness :
  let small := apply_ops (new 3 2) [AddNode node_1; AddNode node_2] in
  remove_node (add_node small node_3) "n3" = small.
Proof.
  intros small. apply (add_node_minimal_disruption small node_3 "key").
  - decided.
  - apply Forall_forall. decided.
Defined.

Definition rejoin_ops : list ring_op := [AddNode node_1; RemoveNode "n1"; AddNode node_1].

Example ring_reflects_last_operations_witness : 
  node_1 ∈ get_all_nodes (apply_ops (new 2 2) rejoin_ops).
Proof.
  destruct (ring_reflects_last_operations 2 2 rejoin_ops node_1) as (_ & _ & Hmem).
  apply Hmem.
  - intros x y i j Hx Hy Hi Hj.
    assert (i ∈ [0; 1]%N) as Hi' by (rewrite !elem_of_cons; lia).
    assert (j ∈ [0; 1]%N) as Hj' by (rewrite !elem_of_cons; lia).
    assert (Forall (fun x => Forall (fun y => Forall (fun i => Forall (fun j =>
      hash (vnode_key x i) = hash (vnode_key y j) -> x = y) [0; 1]%N) [0; 1]%N)
      (op_id <$> rejoin_ops)) (op_id <$> rejoin_ops)) as Hall by decided.
    rewrite Forall_forall in Hall. specialize (Hall x Hx).
    rewrite Forall_forall in Hall. specialize (Hall y Hy).
    rewrite Forall_forall in Hall. specialize (Hall i Hi').
    rewrite Forall_forall in Hall. exact (Hall j Hj').
  - lia.
  - vm_compute. reflexivity.
Defined.
End Witnesses.
