(* ===== verification/Quorum.v ===== *)
(** Quorum arithmetic (src/src/replication/quorum.rs): the N/R/W configuration, the
    per-request overrides, and why overlapping quorums see each other's writes. *)

From S2P Require Import Prelude.
Open Scope Z_scope.

Module QuorumConfig.
Record t := Config {
  replication_factor : Z;
  read_quorum : Z;
  write_quorum : Z
}.

Definition default_strong : t := Config 3 2 2.
Definition eventual : t := Config 3 1 1.

(** The sum is a [u32]. *)
Definition is_strongly_consistent (self : t) : bool :=
  self.(replication_factor) <? wrap_u32 (self.(read_quorum) + self.(write_quorum)).

Definition effective_read_quorum (self : t) (override_r : Z) : Z :=
  if 0 <? override_r then override_r else self.(read_quorum).

Definition effective_write_quorum (self : t) (override_w : Z) : Z :=
  if 0 <? override_w then override_w else self.(write_quorum).

Definition config_wf (self : t) : Prop :=
  in_u32 self.(replication_factor) /\ in_u32 self.(read_quorum) /\ in_u32 self.(write_quorum).
End QuorumConfig.

Module QuorumResult.
Record t (T : Type) := Result {
  value : option T;
  successes : Z;
  failures : Z;
  required : Z
}.
Arguments Result {T} _ _ _ _.
Arguments value {T} _.
Arguments successes {T} _.
Arguments failures {T} _.
Arguments required {T} _.

Definition is_success {T} (self : t T) : bool := self.(required) <=? self.(successes).
End QuorumResult.

(** ** Facts *)

Section Intersection.
Context {A : Type} `{Countable A}.
Implicit Types (U R W : gset A).

(** Two subsets of [U] that together have more members than [U] meet. *)
Lemma quorums_meet U R W :
  R ⊆ U -> W ⊆ U -> (size U < size R + size W)%nat -> exists x, x ∈ R /\ x ∈ W.
Proof.
  intros HR HW Hlt. destruct (decide (R ∩ W = ∅)) as [He|Hne].
  - exfalso. assert (R ## W) as Hd by set_solver.
    pose proof (size_union R W Hd). assert (size (R ∪ W) <= size U)%nat by (apply subseteq_size; set_solver).
    lia.
  - apply set_choose_L in Hne as [x Hx]. exists x. set_solver.
Qed.

(** The same for lists without duplicates. *)
Lemma quorum_lists_meet (l r w : list A) :
  NoDup r -> NoDup w -> r ⊆ l -> w ⊆ l -> (length l < length r + length w)%nat ->
  exists x, x ∈ r /\ x ∈ w.
Proof.
  intros Hr Hw Hrl Hwl Hlt. destruct (decide (Exists (fun x => x ∈ w) r)) as [Hex|Hno].
  { apply Exists_exists in Hex as (x & ? & ?). by exists x. }
  exfalso. apply not_Exists_Forall in Hno; [|apply _]. rewrite Forall_forall in Hno.
  assert (r ++ w ⊆+ l) as Hle%submseteq_length; [|rewrite length_app in Hle; lia].
  apply NoDup_submseteq; [by apply NoDup_app|]. intros x [?|?]%elem_of_app; auto.
Qed.
End Intersection.

Definition replicas (lo n : Z) : gset Z := list_to_set (seqZ lo n).

Lemma replicas_size lo n : 0 <= n -> size (replicas lo n) = Z.to_nat n.
Proof.
  intros Hn. unfold replicas. rewrite size_list_to_set by apply NoDup_seqZ. apply length_seqZ.
Qed.

Lemma elem_of_replicas lo n x : x ∈ replicas lo n <-> lo <= x < lo + n.
Proof. unfold replicas. by rewrite elem_of_list_to_set, elem_of_seqZ. Qed.

(** ** Properties *)

(** Every read quorum meets every write quorum of [N] replicas. *)
Definition quorums_overlap (c : QuorumConfig.t) : Prop :=
  forall R W : gset Z,
    R ⊆ replicas 0 (QuorumConfig.replication_factor c) ->
    W ⊆ replicas 0 (QuorumConfig.replication_factor c) ->
    Z.of_nat (size R) = QuorumConfig.read_quorum c ->
    Z.of_nat (size W) = QuorumConfig.write_quorum c ->
    exists x, x ∈ R /\ x ∈ W.

(** C37: as long as R + W does not overflow a [u32], [is_strongly_consistent]
    decides exactly whether every read quorum meets every write quorum (vacuously so
    when a quorum is larger than N); when the sum overflows, the flag is computed from
    the wrapped sum. *)
Theorem strongly_consistent_iff_quorums_overlap (c : QuorumConfig.t) :
  QuorumConfig.config_wf c ->
  let sum := QuorumConfig.read_quorum c + QuorumConfig.write_quorum c in
  (sum < 2 ^ 32 -> QuorumConfig.is_strongly_consistent c = true <-> quorums_overlap c)
  /\ (2 ^ 32 <= sum ->
      QuorumConfig.is_strongly_consistent c = (QuorumConfig.replication_factor c <? sum - 2 ^ 32)).
Proof.
  destruct c as [n r w]. unfold QuorumConfig.config_wf, in_u32, quorums_overlap,
    QuorumConfig.is_strongly_consistent; cbn. intros (Hn & Hr & Hw). split.
  - intros Hsum. unfold wrap_u32. rewrite Z.mod_small by lia. rewrite Z.ltb_lt. split.
    + intros Hlt R W HR HW HsR HsW. apply (quorums_meet (replicas 0 n)); [done|done|].
      rewrite replicas_size by lia. lia.
    + intros Hov. destruct (Z.lt_ge_cases n (r + w)) as [|Hge]; [done|exfalso].
      destruct (Hov (replicas 0 r) (replicas r w)) as (x & H1%elem_of_replicas & H2%elem_of_replicas);
        try (rewrite replicas_size by lia; lia); try lia;
        intros x Hx%elem_of_replicas; apply elem_of_replicas; lia.
  - intros Hsum. unfold wrap_u32. f_equal. symmetry. apply (Z.mod_unique _ _ 1); lia.
Qed.

(** A request's override replaces the configured quorum without any check:
    from every configuration with at least two replicas, strongly consistent or not, a
    pair of overrides gives quorums that need not meet. *)
Theorem overrides_escape_strong_consistency (c : QuorumConfig.t) :
  2 <= QuorumConfig.replication_factor c ->
  exists R W : gset Z,
    R ⊆ replicas 0 (QuorumConfig.replication_factor c)
    /\ W ⊆ replicas 0 (QuorumConfig.replication_factor c)
    /\ Z.of_nat (size R) = QuorumConfig.effective_read_quorum c 1
    /\ Z.of_nat (size W) = QuorumConfig.effective_write_quorum c 1
    /\ R ∩ W = ∅.
Proof.
  intros Hn. exists (replicas 0 1), (replicas 1 1). split_and!.
  - intros x Hx%elem_of_replicas. apply elem_of_replicas; lia.
  - intros x Hx%elem_of_replicas. apply elem_of_replicas; lia.
  - by rewrite replicas_size.
  - by rewrite replicas_size.
  - apply set_eq. intros x. rewrite elem_of_intersection, !elem_of_replicas. set_solver by lia.
Qed.

(** ** The properties at concrete configurations *)

Example strongly_consistent_iff_quorums_overlap_witness :
  quorums_overlap QuorumConfig.default_strong /\ ~ quorums_overlap QuorumConfig.eventual.
Proof.
  split.
  - apply (strongly_consistent_iff_quorums_overlap QuorumConfig.default_strong).
    + split_and!; decided.
    + reflexivity.
    + reflexivity.
  - intros Hov.
    apply (strongly_consistent_iff_quorums_overlap QuorumConfig.eventual) in Hov.
    + discriminate Hov.
    + split_and!; decided.
    + reflexivity.
Defined.

Example overrides_escape_strong_consistency_witness :
  exists R W : gset Z, R ⊆ replicas 0 3 /\ W ⊆ replicas 0 3 /\ R ∩ W = ∅.
Proof.
  destruct (overrides_escape_strong_consistency QuorumConfig.default_strong)
    as (R & W & HR & HW & _ & _ & Hd); [vm_compute; congruence|].
  exists R, W. split_and!; [exact HR|exact HW|exact Hd].
Defined.
