(* ===== verification/Proto.v ===== *)
(** The messages between nodes and clients (the message types of src/src/grpc/rkv.rs,
    generated from src/proto/rkv.proto), and the conversions between them and the
    stored values (src/src/replication/coordinator.rs, lines 328-377).

    A [string] field is a [string], [bytes] a byte list, [uint32], [uint64], [int32]
    and [int64] a [Z], an absent message field [None]. *)

From S2P Require Import Prelude Bytes VectorClock Memtable.
Open Scope Z_scope.

Module proto.

Module VectorClock.
Record t := Mk { clocks : gmap string N }.
End VectorClock.

Module VersionedValue.
Record t := Mk { value : list byte; vector_clock : option VectorClock.t; timestamp_ms : Z; ttl_ms : Z }.
End VersionedValue.

Module GetRequest.
Record t := Mk { key : string; read_quorum : Z }.
End GetRequest.

Module GetResponse.
Record t := Mk { found : bool; value : list byte; vector_clock : option VectorClock.t }.
End GetResponse.

Module PutRequest.
Record t := Mk { key : string; value : list byte; ttl_ms : Z; write_quorum : Z; vector_clock : option VectorClock.t }.
End PutRequest.

Module PutResponse.
Record t := Mk { success : bool; vector_clock : option VectorClock.t }.
End PutResponse.

Module DeleteRequest.
Record t := Mk { key : string; write_quorum : Z }.
End DeleteRequest.

Module DeleteResponse.
Record t := Mk { success : bool }.
End DeleteResponse.

Module ScanRequest.
Record t := Mk { start_key : string; end_key : string; limit : Z }.
End ScanRequest.

Module KeyValue.
Record t := Mk { key : string; value : list byte; vector_clock : option VectorClock.t }.
End KeyValue.

Module ScanResponse.
Record t := Mk { pairs : list KeyValue.t }.
End ScanResponse.

Module ReplicateRequest.
Record t := Mk { key : string; value : option VersionedValue.t; is_delete : bool }.
End ReplicateRequest.

Module ReplicateResponse.
Record t := Mk { success : bool }.
End ReplicateResponse.

Module GetInternalRequest.
Record t := Mk { key : string }.
End GetInternalRequest.

Module GetInternalResponse.
Record t := Mk { found : bool; value : option VersionedValue.t }.
End GetInternalResponse.

Module DeleteInternalRequest.
Record t := Mk { key : string; vector_clock : option VectorClock.t }.
End DeleteInternalRequest.

Module DeleteInternalResponse.
Record t := Mk { success : bool }.
End DeleteInternalResponse.

Module NodeState.
Record t := Mk { node_id : string; address : string; status : Z; heartbeat : Z; generation : Z }.
End NodeState.

Module GossipMessage.
Record t := Mk { sender_id : string; nodes : list NodeState.t }.
End GossipMessage.

Module GossipAck.
Record t := Mk { nodes : list NodeState.t }.
End GossipAck.

Module HintedWrite.
Record t := Mk { key : string; value : option VersionedValue.t; is_delete : bool }.
End HintedWrite.

Module HandoffRequest.
Record t := Mk { target_node_id : string; hints : list HintedWrite.t }.
End HandoffRequest.

Module HandoffResponse.
Record t := Mk { accepted : Z }.
End HandoffResponse.

Module TransferRequest.
Record t := Mk { pairs : list KeyValue.t }.
End TransferRequest.

Module TransferResponse.
Record t := Mk { accepted : Z }.
End TransferResponse.

(** The enumeration of node states; its wire value is an [i32]. *)
Module NodeStatus.
Inductive t := Alive | Suspect | Dead.

#[global] Instance t_eq_dec : EqDecision t.
Proof. solve_decision. Defined.

(** [status as i32]. *)
Definition to_i32 (s : t) : Z :=
  match s with Alive => 0 | Suspect => 1 | Dead => 2 end.

(** [NodeStatus::try_from]: [None] for a number that is no variant. *)
Definition try_from (n : Z) : option t :=
  if n =? 0 then Some Alive
  else if n =? 1 then Some Suspect
  else if n =? 2 then Some Dead
  else None.

Definition as_str_name (s : t) : string :=
  match s with Alive => "ALIVE" | Suspect => "SUSPECT" | Dead => "DEAD" end.

Definition from_str_name (value : string) : option t :=
  if bool_decide (value = "ALIVE") then Some Alive
  else if bool_decide (value = "SUSPECT") then Some Suspect
  else if bool_decide (value = "DEAD") then Some Dead
  else None.
End NodeStatus.

End proto.

(** ** Conversions *)

Definition to_proto_vector_clock (vc : VectorClock.t) : proto.VectorClock.t :=
  proto.VectorClock.Mk (VectorClock.clocks vc).

Definition from_proto_vector_clock (p : proto.VectorClock.t) : VectorClock.t :=
  VectorClock.Clock (proto.VectorClock.clocks p).

Definition to_proto_versioned (v : VersionedValue.t) : proto.VersionedValue.t :=
  proto.VersionedValue.Mk (VersionedValue.value v)
    (Some (to_proto_vector_clock (VersionedValue.vector_clock v)))
    (VersionedValue.timestamp_ms v) (VersionedValue.ttl_ms v).

(** [p.vector_clock.map(from_proto_vector_clock).unwrap_or_default()]. *)
Definition clock_from (p : option proto.VectorClock.t) : VectorClock.t :=
  match p with Some vc => from_proto_vector_clock vc | None => VectorClock.default end.

Definition from_proto_versioned (p : proto.VersionedValue.t) : VersionedValue.t :=
  VersionedValue.Value (proto.VersionedValue.value p)
    (clock_from (proto.VersionedValue.vector_clock p))
    (proto.VersionedValue.timestamp_ms p) (proto.VersionedValue.ttl_ms p) false.

(** The re-exports for the services. *)
Definition value_to_proto : VersionedValue.t -> proto.VersionedValue.t := to_proto_versioned.
Definition value_from_proto : proto.VersionedValue.t -> VersionedValue.t := from_proto_versioned.
Definition vc_to_proto : VectorClock.t -> proto.VectorClock.t := to_proto_vector_clock.
Definition vc_from_proto : proto.VectorClock.t -> VectorClock.t := from_proto_vector_clock.

(** What of a value crosses the wire: everything but the tombstone flag. *)
Definition undeleted (v : VersionedValue.t) : VersionedValue.t :=
  VersionedValue.Value (VersionedValue.value v) (VersionedValue.vector_clock v)
    (VersionedValue.timestamp_ms v) (VersionedValue.ttl_ms v) false.

Lemma clock_roundtrip vc : from_proto_vector_clock (to_proto_vector_clock vc) = vc.
Proof. by destruct vc. Qed.

Lemma value_roundtrip v : from_proto_versioned (to_proto_versioned v) = undeleted v.
Proof. unfold from_proto_versioned; cbn. by rewrite clock_roundtrip. Qed.

Lemma undeleted_wf v : value_wf v -> value_wf (undeleted v).
Proof. by intros (? & ? & ?). Qed.

Lemma undeleted_id v : VersionedValue.deleted v = false -> undeleted v = v.
Proof. destruct v; cbn. by intros ->. Qed.

Lemma try_from_to_i32 s : proto.NodeStatus.try_from (proto.NodeStatus.to_i32 s) = Some s.
Proof. by destruct s. Qed.

#[export] Hint Resolve undeleted_wf : rkv.

(** ** Properties *)

(** A live value or a clock sent to a peer and back is unchanged; a
    tombstone comes back as a live, empty value with the tombstone's clock, timestamp
    and five-minute expiry, because the message has no field for the flag. *)
Theorem wire_roundtrip_loses_only_tombstones (v : VersionedValue.t) (vc : VectorClock.t) :
  vc_from_proto (vc_to_proto vc) = vc
  /\ (value_from_proto (value_to_proto v) = v <-> VersionedValue.deleted v = false)
  /\ (forall now node clock, v = VersionedValue.tombstone now node clock ->
      let back := value_from_proto (value_to_proto v) in
      VersionedValue.deleted back = false /\ VersionedValue.value back = []
      /\ VersionedValue.vector_clock back = VectorClock.increment clock node
      /\ VersionedValue.is_expired now back = VersionedValue.is_expired now v).
Proof.
  unfold value_from_proto, value_to_proto. rewrite value_roundtrip. split_and!.
  - apply clock_roundtrip.
  - split; [by intros <-|apply undeleted_id].
  - by intros now node clock ->.
Qed.

(** The status enumeration survives its numeric and its textual encoding, and
    every other number and every other name is rejected. *)
Theorem node_status_encodings (s : proto.NodeStatus.t) (n : Z) (name : string) :
  proto.NodeStatus.try_from (proto.NodeStatus.to_i32 s) = Some s
  /\ proto.NodeStatus.from_str_name (proto.NodeStatus.as_str_name s) = Some s
  /\ (proto.NodeStatus.try_from n = Some s <-> n = proto.NodeStatus.to_i32 s)
  /\ (proto.NodeStatus.from_str_name name = Some s <-> name = proto.NodeStatus.as_str_name s).
Proof.
  split_and!.
  - apply try_from_to_i32.
  - by destruct s.
  - split; [|intros ->; apply try_from_to_i32].
    unfold proto.NodeStatus.try_from. intros. cases; reflect_bool; done.
  - split; [|intros ->; by destruct s].
    unfold proto.NodeStatus.from_str_name. intros. cases; by reflect_bool.
Qed.

Example wire_roundtrip_loses_only_tombstones_witness :
  value_from_proto (value_to_proto value_a) = value_a
  /\ VersionedValue.deleted
       (value_from_proto (value_to_proto (VersionedValue.tombstone 5 "n" clock_10))) = false.
Proof.
  split.
  - apply (wire_roundtrip_loses_only_tombstones value_a clock_10). reflexivity.
  - apply (wire_roundtrip_loses_only_tombstones (VersionedValue.tombstone 5 "n" clock_10) clock_10)
      with (now := 5) (node := "n") (clock := clock_10). reflexivity.
Defined.
