(* ===== verification/Coordinator.v ===== *)
(** Quorum coordination of reads and writes (src/src/replication/coordinator.rs).

    The coordinator writes or reads its own engine when it is on the key's preference
    list, calls every other node of the list at once, waits for all the calls and
    counts. The calls are an input: [reply] gives what became of the request to a node
    ([Replied] with the peer's message, an error, or the two-second timeout).
    Cluster.v computes the replies from the peers' engines.

    The engine and the ring are shared ([Arc]) with the services and the gossip task,
    so they are arguments beside the coordinator's own record. *)

From S2P Require Import Prelude Bytes BTreeMap VectorClock Memtable Externals Wal Snapshot.
From S2P Require Import Engine ConsistentHash Quorum Proto.
Open Scope Z_scope.

(** The outcome of [timeout(rpc_timeout, connect and call)]. *)
Inductive rpc_result (A : Type) :=
| Replied (response : A)
| RpcFailed
| RpcTimedOut.
Arguments Replied {A} response.
Arguments RpcFailed {A}.
Arguments RpcTimedOut {A}.

Module ReplicationCoordinator.

Record t := Coordinator { quorum : QuorumConfig.t; rpc_timeout : Z }.

Definition new (quorum : QuorumConfig.t) : t := Coordinator quorum 2000.

Section Operations.
Context `{Crc32, Sha256, Json WalEntry.t, Bincode table}.

(** The nodes of the preference list other than this one. *)
Definition peers (ring : HashRing.t) (my_id key : string) : list Node.t :=
  filter (fun n => Node.id n <> my_id) (HashRing.get_nodes ring key).

(** [if success { successes += 1 } else { failures += 1 }]. *)
Definition tally (counts : Z * Z) (success : bool) : Z * Z :=
  let '(successes, failures) := counts in
  if success then (wrap_u32 (successes + 1), failures) else (successes, wrap_u32 (failures + 1)).

Definition node_id (e : StorageEngine.t) : string :=
  StorageConfig.node_id (StorageEngine.config e).

(** The value a coordinated put writes everywhere. *)
Definition versioned_value (now : Z) (e : StorageEngine.t) (key : string) (value : list byte)
    (ttl_ms : Z) : VersionedValue.t :=
  let existing_clock := StorageEngine.clock_of e key in
  let versioned := VersionedValue.new now value (node_id e) ttl_ms in
  VersionedValue.with_clock versioned
    (VectorClock.merge (VersionedValue.vector_clock versioned) existing_clock).

Definition replicate_request (key : string) (v : VersionedValue.t) : proto.ReplicateRequest.t :=
  proto.ReplicateRequest.Mk key (Some (to_proto_versioned v)) false.

Definition replicate_success (r : rpc_result proto.ReplicateResponse.t) : bool :=
  match r with
  | Replied resp => proto.ReplicateResponse.success resp
  | RpcFailed | RpcTimedOut => false
  end.

(** The first half of [put]: the local write, and the counts after it. *)
Definition put_begin (ring : HashRing.t) (io : write_outcome) (e : StorageEngine.t) (d : disk)
    (key : string) (versioned : VersionedValue.t) : StorageEngine.t * disk * (Z * Z) :=
  if HashRing.is_responsible ring (node_id e) key then
    let '(e, d, r) := StorageEngine.put io e d key versioned in
    (e, d, tally (0, 0) (is_ok r))
  else (e, d, (0, 0)).

(** The second half: the count of the joined replies. *)
Definition put_finish (self : t) (w : Z) (versioned : VersionedValue.t) (counts : Z * Z)
    (replies : list (rpc_result proto.ReplicateResponse.t)) : QuorumResult.t VectorClock.t :=
  let required := QuorumConfig.effective_write_quorum self.(quorum) w in
  let '(successes, failures) := foldl tally counts (replicate_success <$> replies) in
  QuorumResult.Result (Some (VersionedValue.vector_clock versioned)) successes failures required.

Definition put (self : t) (ring : HashRing.t) (now : Z) (io : write_outcome)
    (e : StorageEngine.t) (d : disk) (key : string) (value : list byte) (ttl_ms : Z)
    (write_quorum_override : Z)
    (reply : Node.t -> proto.ReplicateRequest.t -> rpc_result proto.ReplicateResponse.t)
  : StorageEngine.t * disk * QuorumResult.t VectorClock.t :=
  let versioned := versioned_value now e key value ttl_ms in
  let request := replicate_request key versioned in
  let peer_nodes := peers ring (node_id e) key in
  let '(e, d, counts) := put_begin ring io e d key versioned in
  let replies := (fun n => reply n request) <$> peer_nodes in
  (e, d, put_finish self write_quorum_override versioned counts replies).

Definition read_value (r : rpc_result proto.GetInternalResponse.t) : option VersionedValue.t :=
  match r with
  | Replied resp =>
    if proto.GetInternalResponse.found resp
    then option_map from_proto_versioned (proto.GetInternalResponse.value resp)
    else None
  | RpcFailed | RpcTimedOut => None
  end.

(** One iteration of [resolve_conflicts] on a value that is there; [now] is the clock
    reading of its expiry check. *)
Definition resolve_step (now : Z) (best : option VersionedValue.t) (val : VersionedValue.t)
  : option VersionedValue.t :=
  if VersionedValue.deleted val then best
  else if VersionedValue.is_expired now val then best
  else
    match best with
    | None => Some val
    | Some current =>
      if VectorClock.dominates (VersionedValue.vector_clock val)
           (VersionedValue.vector_clock current) then Some val
      else if VectorClock.dominates (VersionedValue.vector_clock current)
                (VersionedValue.vector_clock val) then Some current
      else if VersionedValue.timestamp_ms current <? VersionedValue.timestamp_ms val
           then Some val else Some current
    end.

(** [values.into_iter().flatten()]: the values that are there, in order; [at i] is the
    clock reading of the [i]-th one's expiry check. *)
Definition resolve_conflicts (at_ : nat -> Z) (values : list (option VersionedValue.t))
  : option VersionedValue.t :=
  foldl (fun best '(i, val) => resolve_step (at_ i) best val) None (imap pair (omap id values)).

(** The responses before any peer answered. *)
Definition get_begin (ring : HashRing.t) (e : StorageEngine.t) (key : string)
  : list (option VersionedValue.t) * Z :=
  if HashRing.is_responsible ring (node_id e) key
  then ([StorageEngine.get_raw e key], wrap_u32 (0 + 1)) else ([], 0).

Definition get_finish (self : t) (at_ : nat -> Z) (r : Z)
    (local : list (option VersionedValue.t) * Z)
    (replies : list (rpc_result proto.GetInternalResponse.t)) : QuorumResult.t VersionedValue.t :=
  let required := QuorumConfig.effective_read_quorum self.(quorum) r in
  let '(responses, successes) :=
    foldl (fun '(responses, successes) result => (responses ++ [result], wrap_u32 (successes + 1)))
      local (read_value <$> replies) in
  let failures := 0 in
  QuorumResult.Result (resolve_conflicts at_ responses) successes failures required.

Definition get_request (key : string) : proto.GetInternalRequest.t :=
  proto.GetInternalRequest.Mk key.

Definition get (self : t) (ring : HashRing.t) (at_ : nat -> Z) (e : StorageEngine.t) (key : string)
    (read_quorum_override : Z)
    (reply : Node.t -> proto.GetInternalRequest.t -> rpc_result proto.GetInternalResponse.t)
  : QuorumResult.t VersionedValue.t :=
  let replies := (fun n => reply n (get_request key)) <$> peers ring (node_id e) key in
  get_finish self at_ read_quorum_override (get_begin ring e key) replies.

Definition delete_success (r : rpc_result proto.DeleteInternalResponse.t) : bool :=
  match r with
  | Replied resp => proto.DeleteInternalResponse.success resp
  | RpcFailed | RpcTimedOut => false
  end.

Definition delete_begin (ring : HashRing.t) (now : Z) (io : write_outcome) (e : StorageEngine.t)
    (d : disk) (key : string) : StorageEngine.t * disk * (Z * Z) :=
  if HashRing.is_responsible ring (node_id e) key then
    let '(e, d, r) := StorageEngine.delete now io e d key in
    (e, d, tally (0, 0) (is_ok r))
  else (e, d, (0, 0)).

(** The clock sent to the peers is read after the local delete. *)
Definition delete_request (e : StorageEngine.t) (key : string) : proto.DeleteInternalRequest.t :=
  let clock := StorageEngine.clock_of e key in
  proto.DeleteInternalRequest.Mk key (Some (to_proto_vector_clock clock)).

Definition delete_finish (self : t) (w : Z) (counts : Z * Z)
    (replies : list (rpc_result proto.DeleteInternalResponse.t)) : QuorumResult.t unit :=
  let required := QuorumConfig.effective_write_quorum self.(quorum) w in
  let '(successes, failures) := foldl tally counts (delete_success <$> replies) in
  QuorumResult.Result (Some tt) successes failures required.

Definition delete (self : t) (ring : HashRing.t) (now : Z) (io : write_outcome)
    (e : StorageEngine.t) (d : disk) (key : string) (write_quorum_override : Z)
    (reply : Node.t -> proto.DeleteInternalRequest.t -> rpc_result proto.DeleteInternalResponse.t)
  : StorageEngine.t * disk * QuorumResult.t unit :=
  let peer_nodes := peers ring (node_id e) key in
  let '(e, d, counts) := delete_begin ring now io e d key in
  let replies := (fun n => reply n (delete_request e key)) <$> peer_nodes in
  (e, d, delete_finish self write_quorum_override counts replies).

End Operations.
End ReplicationCoordinator.

(** ** The specification of conflict resolution *)

(** What resolution considers: the values that are neither deleted nor expired. *)
Definition candidate (at_ : nat -> Z) (p : nat * VersionedValue.t) : Prop :=
  VersionedValue.deleted p.2 = false /\ VersionedValue.is_expired (at_ p.1) p.2 = false.

#[export] Instance candidate_dec at_ p : Decision (candidate at_ p).
Proof. unfold candidate; apply _. Defined.

Definition candidates (at_ : nat -> Z) (values : list (option VersionedValue.t))
  : list VersionedValue.t :=
  (filter (candidate at_) (imap pair (omap id values))).*2.

(** [v] happened after [w]. *)
Definition supersedes (v w : VersionedValue.t) : Prop :=
  clock_lt (VersionedValue.vector_clock w) (VersionedValue.vector_clock v).

(** Wall clocks never run against causality among these values. *)
Definition clocks_agree (l : list VersionedValue.t) : Prop :=
  forall v w, v ∈ l -> w ∈ l -> supersedes v w ->
    VersionedValue.timestamp_ms w <= VersionedValue.timestamp_ms v.

Section Facts.
Import ReplicationCoordinator.
Implicit Types (v w : VersionedValue.t) (l : list VersionedValue.t).

(** The choice between the best so far and a candidate. *)
Definition choose (best : option VersionedValue.t) (val : VersionedValue.t)
  : option VersionedValue.t :=
  match best with
  | None => Some val
  | Some current =>
    if VectorClock.dominates (VersionedValue.vector_clock val)
         (VersionedValue.vector_clock current) then Some val
    else if VectorClock.dominates (VersionedValue.vector_clock current)
              (VersionedValue.vector_clock val) then Some current
    else if VersionedValue.timestamp_ms current <? VersionedValue.timestamp_ms val
         then Some val else Some current
  end.

Lemma resolve_candidates at_ values :
  resolve_conflicts at_ values = foldl choose None (candidates at_ values).
Proof.
  unfold resolve_conflicts, candidates. generalize (@None VersionedValue.t).
  induction (imap pair (omap id values)) as [|[i v] l IH]; intros best; [done|].
  rewrite filter_cons. cbn [foldl]. rewrite IH.
  unfold resolve_step. destruct (VersionedValue.deleted v) eqn:Ed.
  { rewrite decide_False; [done|]. intros [? _]; cbn in *; congruence. }
  destruct (VersionedValue.is_expired (at_ i) v) eqn:Ee.
  { rewrite decide_False; [done|]. intros [_ ?]; cbn in *; congruence. }
  by rewrite decide_True by by split.
Qed.

Lemma supersedes_dominates v w :
  VectorClock.dominates (VersionedValue.vector_clock v) (VersionedValue.vector_clock w) = true
  <-> supersedes v w.
Proof. apply dominates_lt. Qed.

Lemma supersedes_irrefl v : ~ supersedes v v.
Proof. unfold supersedes. apply irreflexivity, clock_lt_strict. Qed.

Lemma choose_cases best val :
  choose best val = Some val \/ (choose best val = best /\ is_Some best).
Proof. unfold choose. destruct best; repeat case_match; eauto. Qed.

Lemma foldl_choose_elem l best r :
  foldl choose best l = Some r -> best = Some r \/ r ∈ l.
Proof.
  revert best; induction l as [|v l IH]; intros best; cbn [foldl]; [by left|].
  intros [Hc|Hin]%IH; [|right; by right].
  destruct (choose_cases best v) as [E|[E _]]; rewrite E in Hc; [|by left].
  right. simplify_eq. by left.
Qed.

Lemma foldl_choose_None l best : foldl choose best l = None <-> best = None /\ l = [].
Proof.
  revert best; induction l as [|v l IH]; intros best; cbn [foldl]; [naive_solver|].
  rewrite IH. split; [|by intros [_ ?]]. intros [Hc _].
  destruct (choose_cases best v) as [E|[E [b Hb]]]; congruence.
Qed.

(** When wall clocks follow causality, the choice has the latest timestamp and nothing
    supersedes it. *)
Lemma foldl_choose_best l done_ b r :
  clocks_agree (done_ ++ l) -> b ∈ done_ ->
  (forall w, w ∈ done_ -> VersionedValue.timestamp_ms w <= VersionedValue.timestamp_ms b
                         /\ ~ supersedes w b) ->
  foldl choose (Some b) l = Some r ->
  forall w, w ∈ done_ ++ l -> VersionedValue.timestamp_ms w <= VersionedValue.timestamp_ms r
                         /\ ~ supersedes w r.
Proof.
  revert done_ b; induction l as [|v l IH]; intros done_ b Hag Hb Hbest; cbn [foldl].
  { intros [= ->] w. rewrite app_nil_r. apply Hbest. }
  assert (b ∈ done_ ++ v :: l) as Hb' by (apply elem_of_app; by left).
  assert (v ∈ done_ ++ v :: l) as Hv' by (apply elem_of_app; right; by left).
  assert (forall c, choose (Some b) v = Some c -> c ∈ done_ ++ [v] /\
    forall w, w ∈ done_ ++ [v] ->
      VersionedValue.timestamp_ms w <= VersionedValue.timestamp_ms c /\ ~ supersedes w c) as Hstep.
  { intros c. unfold choose.
    destruct (VectorClock.dominates (VersionedValue.vector_clock v) _) eqn:Evb.
    - intros [= <-]. apply supersedes_dominates in Evb. split; [apply elem_of_app; right; by left|].
      pose proof (Hag v b Hv' Hb' Evb).
      intros w [Hw| ->%list_elem_of_singleton]%elem_of_app.
      + destruct (Hbest w Hw) as [? Hnot]. split; [lia|]. intros Hwv. apply Hnot.
        unfold supersedes in *. by etrans.
      + split; [done|]. apply supersedes_irrefl.
    - apply dominates_false in Evb.
      destruct (VectorClock.dominates (VersionedValue.vector_clock b) _) eqn:Ebv.
      + intros [= <-]. apply supersedes_dominates in Ebv. split; [apply elem_of_app; by left|].
        pose proof (Hag b v Hb' Hv' Ebv).
        intros w [Hw| ->%list_elem_of_singleton]%elem_of_app; [by apply Hbest|].
        split; [done|exact Evb].
      + destruct (Z.ltb_spec (VersionedValue.timestamp_ms b) (VersionedValue.timestamp_ms v)) as [Hlt|Hge];
          intros [= <-].
        * split; [apply elem_of_app; right; by left|].
          intros w [Hw| ->%list_elem_of_singleton]%elem_of_app.
          -- destruct (Hbest w Hw) as [? Hnot]. split; [lia|]. intros Hwv.
             assert (w ∈ done_ ++ v :: l) as Hw' by (apply elem_of_app; by left).
             pose proof (Hag w v Hw' Hv' Hwv). lia.
          -- split; [done|]. apply supersedes_irrefl.
        * split; [apply elem_of_app; by left|].
          intros w [Hw| ->%list_elem_of_singleton]%elem_of_app; [by apply Hbest|].
          split; [done|exact Evb]. }
  destruct (choose (Some b) v) as [c|] eqn:Ec.
  2: { destruct (choose_cases (Some b) v) as [E|[E _]]; congruence. }
  destruct (Hstep c eq_refl) as [Hc Hcb].
  intros Hr w Hw. apply (IH (done_ ++ [v]) c); try rewrite <-app_assoc; done.
Qed.

Lemma resolve_best at_ values r :
  clocks_agree (candidates at_ values) -> resolve_conflicts at_ values = Some r ->
  forall w, w ∈ candidates at_ values ->
    VersionedValue.timestamp_ms w <= VersionedValue.timestamp_ms r /\ ~ supersedes w r.
Proof.
  rewrite resolve_candidates. destruct (candidates at_ values) as [|v l] eqn:E; [done|].
  cbn [foldl choose]. intros Hag Hr. apply (foldl_choose_best l [v] v r Hag); [by left| |done].
  intros w ->%list_elem_of_singleton. split; [done|]. apply supersedes_irrefl.
Qed.

Lemma resolve_elem at_ values r :
  resolve_conflicts at_ values = Some r -> r ∈ candidates at_ values.
Proof. rewrite resolve_candidates. by intros [?|?]%foldl_choose_elem. Qed.

Lemma elem_of_candidates at_ values v :
  v ∈ candidates at_ values ->
  Some v ∈ values /\ VersionedValue.deleted v = false
  /\ exists i, VersionedValue.is_expired (at_ i) v = false.
Proof.
  unfold candidates. rewrite list_elem_of_fmap.
  intros ([i v'] & -> & [[Hd He] Hin]%list_elem_of_filter). cbn in *.
  split_and!; [|done|by exists i]. apply elem_of_lookup_imap in Hin as (j & w & [= -> ->] & Hj).
  apply list_elem_of_lookup_2, list_elem_of_omap in Hj as (o & Ho & Hs). cbn in Hs. by subst.
Qed.

(** With one reading for all values, a deleted value leaves no trace. *)
Lemma foldl_deleted now l1 t l2 best :
  VersionedValue.deleted t = true ->
  foldl (resolve_step now) best (l1 ++ t :: l2) = foldl (resolve_step now) best (l1 ++ l2).
Proof. intros Ht. rewrite !foldl_app. cbn [foldl]. unfold resolve_step at 2. by rewrite Ht. Qed.

Lemma resolve_const now values :
  resolve_conflicts (fun _ => now) values = foldl (resolve_step now) None (omap id values).
Proof.
  unfold resolve_conflicts. generalize (@None VersionedValue.t) as best.
  generalize (omap id values) as l. intros l.
  assert (forall g best, foldl (fun best '(i, val) => resolve_step ((fun _ : nat => now) i) best val)
    best (imap (fun i v => (g i, v)) l) = foldl (resolve_step now) best l) as Hg.
  { induction l as [|v l IH]; intros g best; cbn; [done|]. apply (IH (fun i => g (S i))). }
  apply (Hg id).
Qed.
End Facts.

(** ** Counting *)

Section Counting.
Import ReplicationCoordinator.
Context `{Crc32, Sha256, Json WalEntry.t, Bincode table}.

Definition acks (results : list bool) : Z := Z.of_nat (length (filter (fun b => b = true) results)).

Lemma acks_cons b results : acks (b :: results) = (if b then 1 else 0) + acks results.
Proof.
  unfold acks. rewrite filter_cons. destruct b; cbn [length].
  - rewrite decide_True by done. cbn [length]. lia.
  - by rewrite decide_False by done.
Qed.

Lemma acks_bound results : 0 <= acks results <= Z.of_nat (length results).
Proof. unfold acks. pose proof (length_filter (fun b => b = true) results). lia. Qed.

Lemma foldl_tally s f results :
  0 <= s -> 0 <= f -> s + f + Z.of_nat (length results) < 2 ^ 32 ->
  foldl tally (s, f) results
  = (s + acks results, f + (Z.of_nat (length results) - acks results)).
Proof.
  revert s f; induction results as [|b l IH]; intros s f Hs Hf Hlt.
  { unfold acks; cbn. f_equal; lia. }
  rewrite acks_cons. cbn [foldl length] in *. unfold tally at 2.
  destruct b; rewrite wrap_u32_small by (unfold in_u32; lia); rewrite IH by lia; f_equal; lia.
Qed.

(** The count of a local attempt, made or not, and of the remote results. *)
Lemma foldl_tally_local (local ok : bool) results :
  (if local then 1 else 0) + Z.of_nat (length results) < 2 ^ 32 ->
  foldl tally (if local then tally (0, 0) ok else (0, 0)) results
  = ((if local && ok then 1 else 0) + acks results,
     (if local && negb ok then 1 else 0) + (Z.of_nat (length results) - acks results)).
Proof.
  intros Hlt. destruct local.
  - assert (tally (0, 0) ok = (if ok then 1 else 0, if ok then 0 else 1)) as -> by by destruct ok.
    destruct ok; rewrite foldl_tally by lia; done.
  - by rewrite foldl_tally by lia.
Qed.

(** A node on the preference list is there once; the peers are the rest. *)
Lemma peers_length ring my_id key :
  Z.of_nat (length (HashRing.get_nodes ring key))
  = (if HashRing.is_responsible ring my_id key then 1 else 0)
    + Z.of_nat (length (peers ring my_id key)).
Proof.
  pose proof (proj1 (get_nodes_ids ring key)) as Hnd.
  pose proof (is_responsible_spec ring my_id key) as Hr. unfold peers.
  assert (forall l : list Node.t, NoDup (Node.id <$> l) ->
    length l = ((if decide (my_id ∈ Node.id <$> l) then 1 else 0)
                + length (filter (fun n => Node.id n <> my_id) l))%nat) as Hl.
  { clear. induction l as [|n l IH]; [done|]. rewrite fmap_cons. intros [Hn Hnd]%NoDup_cons.
    specialize (IH Hnd). rewrite filter_cons. cbn [length].
    destruct (decide (Node.id n = my_id)) as [Heq|Hne].
    - subst my_id. rewrite (decide_True (P:=_ ∈ _)) by (by left).
      rewrite (decide_False (P:=_ <> _)) by tauto.
      rewrite decide_False in IH by done. lia.
    - rewrite (decide_True (P:=_ <> _)) by done. cbn [length].
      destruct (decide (my_id ∈ Node.id <$> l)) as [Hin|Hnin].
      + rewrite decide_True by by right. lia.
      + rewrite decide_False by (intros [?|?]%elem_of_cons; congruence). lia. }
  rewrite (Hl _ Hnd) at 1. destruct (HashRing.is_responsible ring my_id key).
  - rewrite decide_True by by apply Hr. lia.
  - rewrite decide_False; [lia|]. intros Hin. by apply Hr in Hin.
Qed.

Lemma elem_of_peers ring my_id key n :
  n ∈ peers ring my_id key <-> n ∈ HashRing.get_nodes ring key /\ Node.id n <> my_id.
Proof. unfold peers. rewrite list_elem_of_filter. tauto. Qed.

(** The accumulation of the read responses. *)
Lemma foldl_responses responses successes (results : list (option VersionedValue.t)) :
  0 <= successes -> successes + Z.of_nat (length results) < 2 ^ 32 ->
  foldl (fun '(responses, successes) result => (responses ++ [result], wrap_u32 (successes + 1)))
    (responses, successes) results
  = (responses ++ results, successes + Z.of_nat (length results)).
Proof.
  revert responses successes; induction results as [|r l IH]; intros rs s Hs Hlt.
  { cbn. rewrite app_nil_r. f_equal; lia. }
  cbn [foldl length] in *. rewrite wrap_u32_small by (unfold in_u32; lia).
  rewrite IH by lia. rewrite <-app_assoc. f_equal; lia.
Qed.
End Counting.

(** ** Properties *)

Section Properties.
Import ReplicationCoordinator.
Context `{Crc32, Sha256, Json WalEntry.t, Bincode table}.

(** The counts of the two halves of a put, over any joined replies. *)
Lemma put_finish_counts self ring io e d key v w replies :
  length replies = length (peers ring (node_id e) key) ->
  Z.of_nat (length (HashRing.get_nodes ring key)) < 2 ^ 32 ->
  let '(e', d', counts) := put_begin ring io e d key v in
  let q := put_finish self w v counts replies in
  let local := StorageEngine.put io e d key v in
  QuorumResult.successes q + QuorumResult.failures q
    = Z.of_nat (length (HashRing.get_nodes ring key))
  /\ QuorumResult.successes q
     = (if HashRing.is_responsible ring (node_id e) key && is_ok local.2 then 1 else 0)
       + acks (replicate_success <$> replies)
  /\ (e', d') = (if HashRing.is_responsible ring (node_id e) key then local.1 else (e, d)).
Proof.
  intros Hrl Hlen. unfold put_begin, put_finish.
  pose proof (peers_length ring (node_id e) key) as Hp. rewrite Hp in Hlen |- *.
  rewrite <-Hrl in *. rewrite <-(length_fmap replicate_success) in Hlen |- *.
  destruct (StorageEngine.put io e d key v) as [[e1 d1] r].
  pose proof (foldl_tally_local (HashRing.is_responsible ring (node_id e) key) (is_ok r)
    (replicate_success <$> replies) Hlen) as Hf.
  destruct (HashRing.is_responsible ring (node_id e) key); rewrite Hf; cbn;
    (split_and!; [destruct (is_ok r); cbn; lia|done..]).
Qed.

(** The same for a delete. *)
Lemma delete_finish_counts self ring now io e d key w replies :
  length replies = length (peers ring (node_id e) key) ->
  Z.of_nat (length (HashRing.get_nodes ring key)) < 2 ^ 32 ->
  let '(e', d', counts) := delete_begin ring now io e d key in
  let q := delete_finish self w counts replies in
  let local := StorageEngine.delete now io e d key in
  QuorumResult.successes q + QuorumResult.failures q
    = Z.of_nat (length (HashRing.get_nodes ring key))
  /\ QuorumResult.successes q
     = (if HashRing.is_responsible ring (node_id e) key && is_ok local.2 then 1 else 0)
       + acks (delete_success <$> replies)
  /\ QuorumResult.required q = QuorumConfig.effective_write_quorum (quorum self) w
  /\ (e', d') = (if HashRing.is_responsible ring (node_id e) key then local.1 else (e, d)).
Proof.
  intros Hrl Hlen. unfold delete_begin, delete_finish.
  pose proof (peers_length ring (node_id e) key) as Hp. rewrite Hp in Hlen |- *.
  rewrite <-Hrl in *. rewrite <-(length_fmap delete_success) in Hlen |- *.
  destruct (StorageEngine.delete now io e d key) as [[e1 d1] r].
  pose proof (foldl_tally_local (HashRing.is_responsible ring (node_id e) key) (is_ok r)
    (delete_success <$> replies) Hlen) as Hf.
  destruct (HashRing.is_responsible ring (node_id e) key); rewrite Hf; cbn;
    (split_and!; [destruct (is_ok r); cbn; lia|done..]).
Qed.

Lemma get_finish_counts self at_ ring e key r replies :
  length replies = length (peers ring (node_id e) key) ->
  Z.of_nat (length (HashRing.get_nodes ring key)) < 2 ^ 32 ->
  let q := get_finish self at_ r (get_begin ring e key) replies in
  QuorumResult.successes q = Z.of_nat (length (HashRing.get_nodes ring key))
  /\ QuorumResult.failures q = 0
  /\ QuorumResult.required q = QuorumConfig.effective_read_quorum (quorum self) r
  /\ QuorumResult.value q
     = resolve_conflicts at_
         ((if HashRing.is_responsible ring (node_id e) key then [StorageEngine.get_raw e key] else [])
          ++ (read_value <$> replies)).
Proof.
  intros Hrl Hlen. pose proof (peers_length ring (node_id e) key) as Hp. rewrite Hp in Hlen |- *.
  rewrite <-Hrl in *. unfold get_finish, get_begin.
  assert (length (read_value <$> replies) = length replies) as Hrl2 by apply length_fmap.
  destruct (HashRing.is_responsible ring (node_id e) key);
    change (wrap_u32 (0 + 1)) with 1; rewrite foldl_responses by lia;
    cbn [QuorumResult.successes QuorumResult.failures QuorumResult.required QuorumResult.value];
    split_and!; done || lia.
Qed.

(** A coordinated put counts every node of the preference list exactly
    once: a success for each replica that acknowledged, this node included, a failure
    for each other one; it touches the local engine exactly when this node is on the
    list, and reports the clock it wrote. *)
Theorem put_counts_acknowledgements self ring now io e d key value ttl w reply :
  Z.of_nat (length (HashRing.get_nodes ring key)) < 2 ^ 32 ->
  let v := versioned_value now e key value ttl in
  let '(e', d', q) := put self ring now io e d key value ttl w reply in
  let local := StorageEngine.put io e d key v in
  let remote := (fun n => replicate_success (reply n (replicate_request key v)))
                  <$> peers ring (node_id e) key in
  QuorumResult.successes q + QuorumResult.failures q
    = Z.of_nat (length (HashRing.get_nodes ring key))
  /\ QuorumResult.successes q
     = (if HashRing.is_responsible ring (node_id e) key && is_ok local.2 then 1 else 0) + acks remote
  /\ (e', d') = (if HashRing.is_responsible ring (node_id e) key then local.1 else (e, d))
  /\ QuorumResult.value q = Some (VersionedValue.vector_clock v)
  /\ QuorumResult.required q = QuorumConfig.effective_write_quorum (quorum self) w.
Proof.
  intros Hlen v. unfold put. fold v.
  set (replies := (fun n => reply n (replicate_request key v)) <$> peers ring (node_id e) key).
  pose proof (put_finish_counts self ring io e d key v w replies (length_fmap _ _) Hlen) as Hc.
  destruct (put_begin ring io e d key v) as [[e' d'] counts].
  destruct Hc as (Hsum & Hs & He). unfold replies in Hs. rewrite <-list_fmap_compose in Hs.
  split_and!; [exact Hsum|exact Hs|exact He|unfold put_finish..]; by destruct (foldl tally _ _).
Qed.

(** C30: a coordinated get counts an attempt as a success: whatever the peers
    answer, even when every call fails or times out, all nodes of the preference list
    count and there are no failures, so the read quorum is met exactly when it is not
    larger than the list. *)
Theorem get_counts_attempts self ring at_ e key r reply :
  Z.of_nat (length (HashRing.get_nodes ring key)) < 2 ^ 32 ->
  let q := get self ring at_ e key r reply in
  QuorumResult.successes q = Z.of_nat (length (HashRing.get_nodes ring key))
  /\ QuorumResult.failures q = 0
  /\ (QuorumResult.is_success q = true <->
      QuorumConfig.effective_read_quorum (quorum self) r
      <= Z.of_nat (length (HashRing.get_nodes ring key)))
  /\ QuorumResult.value q
     = resolve_conflicts at_
         ((if HashRing.is_responsible ring (node_id e) key then [StorageEngine.get_raw e key] else [])
          ++ ((fun n => read_value (reply n (get_request key))) <$> peers ring (node_id e) key)).
Proof.
  intros Hlen. unfold get.
  destruct (get_finish_counts self at_ ring e key r
    ((fun n => reply n (get_request key)) <$> peers ring (node_id e) key)) as (Hs & Hf & Hr & Hv);
    [apply length_fmap|done|].
  cbn zeta. unfold QuorumResult.is_success. rewrite Hs, Hf, Hr, Hv, Z.leb_le.
  by rewrite <-list_fmap_compose.
Qed.

(** C31: conflict resolution returns one of the live values, or nothing when
    there is none; as long as wall clocks do not run against causality, the result has
    the latest timestamp and no live value supersedes it. *)
Theorem resolution_is_latest at_ values :
  (resolve_conflicts at_ values = None <-> candidates at_ values = [])
  /\ forall r, resolve_conflicts at_ values = Some r ->
      r ∈ candidates at_ values
      /\ (clocks_agree (candidates at_ values) ->
          forall w, w ∈ candidates at_ values ->
            VersionedValue.timestamp_ms w <= VersionedValue.timestamp_ms r /\ ~ supersedes w r).
Proof.
  split.
  - rewrite resolve_candidates, foldl_choose_None. naive_solver.
  - intros r Hr. split; [by apply resolve_elem|]. intros Hag. by eapply resolve_best.
Qed.

(** Under the same assumption and with distinct timestamps, the order in which
    the replicas are listed does not matter. *)
Theorem resolution_order_independent at_ at' values values' :
  candidates at_ values ≡ₚ candidates at' values' ->
  clocks_agree (candidates at_ values) ->
  NoDup (VersionedValue.timestamp_ms <$> candidates at_ values) ->
  resolve_conflicts at_ values = resolve_conflicts at' values'.
Proof.
  intros Hp Hag Hnd.
  assert (clocks_agree (candidates at' values')) as Hag'.
  { intros v w. rewrite <-Hp. apply Hag. }
  destruct (resolve_conflicts at_ values) as [r|] eqn:E, (resolve_conflicts at' values') as [r'|] eqn:E'.
  - pose proof (resolve_elem _ _ _ E) as Hr. pose proof (resolve_elem _ _ _ E') as Hr'.
    pose proof (resolve_best _ _ _ Hag E) as Hb. pose proof (resolve_best _ _ _ Hag' E') as Hb'.
    rewrite <-Hp in Hr'. setoid_rewrite <-Hp in Hb'. destruct (Hb r' Hr') as [? _], (Hb' r Hr) as [? _].
    f_equal. apply (NoDup_fmap_elem_inj VersionedValue.timestamp_ms (candidates at_ values));
      done || lia.
  - pose proof (resolve_elem _ _ _ E) as Hr. rewrite resolve_candidates, foldl_choose_None in E'.
    destruct E' as [_ E']. rewrite E' in Hp. rewrite Hp in Hr. by apply not_elem_of_nil in Hr.
  - pose proof (resolve_elem _ _ _ E') as Hr. rewrite resolve_candidates, foldl_choose_None in E.
    destruct E as [_ E]. rewrite <-Hp, E in Hr. by apply not_elem_of_nil in Hr.
  - done.
Qed.

(** A tombstone takes no part in resolution, whatever its clock: a value
    that the delete supersedes, still held by a lagging replica, is returned as if
    there had been no delete. *)
Theorem tombstones_lose_to_stale_values now l1 l2 t old :
  VersionedValue.deleted t = true ->
  resolve_conflicts (fun _ => now) (l1 ++ Some t :: l2) = resolve_conflicts (fun _ => now) (l1 ++ l2)
  /\ (VersionedValue.deleted old = false -> VersionedValue.is_expired now old = false ->
      supersedes t old ->
      resolve_conflicts (fun _ => now) [Some t; Some old] = Some old
      /\ resolve_conflicts (fun _ => now) [Some old; Some t] = Some old).
Proof.
  intros Ht. rewrite !resolve_const, !omap_app. cbn [omap list_omap id]. split.
  - by apply foldl_deleted.
  - intros Hd He _. cbn. unfold resolve_step. by rewrite Ht, Hd, He.
Qed.
End Properties.

(** *** A replica with a slow clock *)

(** Two versions of one node's counter, the second written after its wall clock went
    back, and a concurrent write of another node. *)
Definition skew_old : VersionedValue.t :=
  VersionedValue.Value [Byte.x61] (VectorClock.Clock {["a" := 1%N]}) 30 0 false.
Definition skew_new : VersionedValue.t :=
  VersionedValue.Value [Byte.x62] (VectorClock.Clock {["a" := 2%N]}) 10 0 false.
Definition skew_other : VersionedValue.t :=
  VersionedValue.Value [Byte.x63] (VectorClock.Clock {["b" := 1%N]}) 20 0 false.

(** Without that assumption resolution is not a maximum: with one clock
    running against causality, the same three replies give three different results
    in different orders, one of them a value that another reply supersedes. *)
Theorem clock_skew_breaks_resolution :
  supersedes skew_new skew_old
  /\ ReplicationCoordinator.resolve_conflicts (fun _ => 0) [Some skew_new; Some skew_other; Some skew_old] = Some skew_old
  /\ ReplicationCoordinator.resolve_conflicts (fun _ => 0) [Some skew_old; Some skew_other; Some skew_new] = Some skew_new
  /\ ReplicationCoordinator.resolve_conflicts (fun _ => 0) [Some skew_old; Some skew_new; Some skew_other] = Some skew_other.
Proof. split_and!; [apply supersedes_dominates|..]; vm_compute; reflexivity. Qed.

(** ** The properties at concrete replies *)

Section Witnesses.
Import ReplicationCoordinator Toy.

Definition coordinator_0 : t := new QuorumConfig.default_strong.
Definition config_n1 : StorageConfig.t := StorageConfig.Config "./data" 1000 300000 60000 3 "n1".
Definition engine_n1 : StorageEngine.t :=
  StorageEngine.Engine (MemTable.new 1000)
    (WriteAheadLog.Log "./data/wal.log" (WriteAheadLog.Writer [] None) 0) config_n1 false.
Definition disk_n1 : disk := Disk (Some []) ∅.

(** ["n2"] does not answer, ["n3"] acknowledges. *)
Definition replies_0 (n : Node.t) (_ : proto.ReplicateRequest.t)
  : rpc_result proto.ReplicateResponse.t :=
  if bool_decide (Node.id n = "n3") then Replied (proto.ReplicateResponse.Mk true) else RpcTimedOut.

(** All three nodes of ConsistentHash.v, three replicas of every key. *)
Definition ring_rf3 : HashRing.t := apply_ops (HashRing.new 3 3) ring_ops.

Example put_counts_acknowledgements_witness :
  let q := (put coordinator_0 ring_rf3 1700000000000 WriteOk engine_n1 disk_n1 "key" [] 0 0
              replies_0).2 in
  QuorumResult.successes q + QuorumResult.failures q = 3 /\ QuorumResult.successes q = 2.
Proof.
  pose proof (put_counts_acknowledgements coordinator_0 ring_rf3 1700000000000 WriteOk engine_n1
    disk_n1 "key" [] 0 0 replies_0) as Hp. cbn zeta in *.
  destruct (put coordinator_0 ring_rf3 _ _ _ _ _ _ _ _ _) as [[e' d'] q].
  destruct Hp as (Hsum & Hs & _); [vm_compute; reflexivity|].
  cbn [snd]. split; [rewrite Hsum|rewrite Hs]; vm_compute; reflexivity.
Defined.

Example get_counts_attempts_witness :
  QuorumResult.is_success (get coordinator_0 ring_rf3 (fun _ => 0) engine_n1 "key" 0
    (fun _ _ => RpcFailed)) = true.
Proof.
  apply get_counts_attempts; vm_compute; congruence.
Defined.

Example resolution_is_latest_witness :
  exists r, resolve_conflicts (fun _ => 0) [Some skew_old; None; Some skew_other] = Some r
    /\ ~ supersedes skew_other r.
Proof.
  destruct (resolution_is_latest (fun _ => 0) [Some skew_old; None; Some skew_other]) as [_ Hr].
  exists skew_old. split; [vm_compute; reflexivity|].
  destruct (Hr skew_old) as [_ Hlate]; [vm_compute; reflexivity|]. apply Hlate.
  - change (candidates (fun _ => 0) [Some skew_old; None; Some skew_other])
      with [skew_old; skew_other].
    intros v w Hv Hw. rewrite <-supersedes_dominates. rewrite !elem_of_cons in Hv, Hw.
    destruct Hv as [->|[->|Hv]]; [| |by apply not_elem_of_nil in Hv];
      (destruct Hw as [->|[->|Hw]]; [| |by apply not_elem_of_nil in Hw]);
      vm_compute; congruence.
  - change (candidates (fun _ => 0) [Some skew_old; None; Some skew_other])
      with [skew_old; skew_other]. right; left.
Defined.

Example resolution_order_independent_witness :
  resolve_conflicts (fun _ => 0) [Some skew_old; Some skew_other]
  = resolve_conflicts (fun _ => 1) [None; Some skew_other; Some skew_old].
Proof.
  apply resolution_order_independent;
    change (candidates (fun _ => 0) [Some skew_old; Some skew_other]) with [skew_old; skew_other].
  - apply perm_swap.
  - intros v w Hv Hw. rewrite <-supersedes_dominates. rewrite !elem_of_cons in Hv, Hw.
    destruct Hv as [->|[->|Hv]]; [| |by apply not_elem_of_nil in Hv];
      (destruct Hw as [->|[->|Hw]]; [| |by apply not_elem_of_nil in Hw]);
      vm_compute; congruence.
  - decided.
Defined.

Example tombstones_lose_to_stale_values_witness :
  resolve_conflicts (fun _ => 40)
    [Some (VersionedValue.tombstone 40 "a" (VersionedValue.vector_clock skew_old)); Some skew_old]
  = Some skew_old.
Proof.
  apply (tombstones_lose_to_stale_values 40 [] []
    (VersionedValue.tombstone 40 "a" (VersionedValue.vector_clock skew_old)) skew_old).
  - reflexivity.
  - reflexivity.
  - reflexivity.
  - apply supersedes_dominates. vm_compute. reflexivity.
Defined.
End Witnesses.
