(* ===== verification/Detector.v ===== *)
(** Membership and failure detection by gossip (src/src/gossip/detector.rs): the peer
    table, the merging of gossip messages, the timeouts, and the ring that both keep up
    to date.

    [Instant]s are integers, in the unit of the configured durations. The service owns
    the ring here; the coordinator reads the same one. A [HashMap] is iterated in the
    order of [map_to_list], one of the orders Rust may use; no theorem depends on it.
    The random choice of gossip targets is a parameter. *)

From S2P Require Import Prelude Bytes BTreeMap Externals ConsistentHash Proto.
Open Scope Z_scope.

Module NodeStatus.
Inductive t := Alive | Suspect | Dead.
#[global] Instance t_eq_dec : EqDecision t.
Proof. solve_decision. Defined.
End NodeStatus.

Module PeerState.
Record t := State {
  node_id : string;
  address : string;
  status : NodeStatus.t;
  heartbeat : Z;
  generation : Z;
  last_seen : Z
}.

#[global] Instance t_eq_dec : EqDecision t.
Proof. solve_decision. Defined.

Definition set_status (self : t) (s : NodeStatus.t) : t :=
  State self.(node_id) self.(address) s self.(heartbeat) self.(generation) self.(last_seen).
End PeerState.

(** Durations in milliseconds. *)
Module GossipConfig.
Record t := Config {
  gossip_interval : Z;
  suspect_timeout : Z;
  dead_timeout : Z;
  fanout : nat
}.
Definition default : t := Config 1000 5000 15000 3.
End GossipConfig.

(** rand: [choose_multiple] of [amount] elements. *)
Class Rng := choose_multiple : nat -> list PeerState.t -> list PeerState.t.

(** It returns that many of the elements, each at most once. *)
Class RngLaws `{Rng} := choose_multiple_spec amount l :
  (amount <= length l)%nat ->
  length (choose_multiple amount l) = amount
  /\ exists rest, choose_multiple amount l ++ rest ≡ₚ l.

Module GossipService.

Record t := Service {
  node_id : string;
  peers : gmap string PeerState.t;
  ring : HashRing.t;
  heartbeat_counter : Z;
  generation : Z;
  config : GossipConfig.t
}.

Definition set_peers (self : t) (p : gmap string PeerState.t) : t :=
  Service self.(node_id) p self.(ring) self.(heartbeat_counter) self.(generation) self.(config).
Definition set_ring (self : t) (r : HashRing.t) : t :=
  Service self.(node_id) self.(peers) r self.(heartbeat_counter) self.(generation) self.(config).
Definition set_heartbeat (self : t) (h : Z) : t :=
  Service self.(node_id) self.(peers) self.(ring) h self.(generation) self.(config).

Section Operations.
Context `{Sha256}.

Definition new (node_id address : string) (ring : HashRing.t) (config : GossipConfig.t) : t :=
  Service node_id ∅ (HashRing.add_node ring (Node.Mk node_id address)) 0 1 config.

Definition add_seed (now : Z) (self : t) (node_id address : string) : t :=
  let peer := PeerState.State node_id address NodeStatus.Alive 0 0 now in
  let self := set_peers self (<[node_id := peer]> self.(peers)) in
  set_ring self (HashRing.add_node self.(ring) (Node.Mk node_id address)).

(** The version test of [handle_gossip]. *)
Definition should_update (existing : option PeerState.t) (ns : proto.NodeState.t) : bool :=
  match existing with
  | None => true
  | Some existing =>
    (PeerState.generation existing <? proto.NodeState.generation ns)
    || ((proto.NodeState.generation ns =? PeerState.generation existing)
        && (PeerState.heartbeat existing <? proto.NodeState.heartbeat ns))
  end.

Definition status_from (n : Z) : NodeStatus.t :=
  match proto.NodeStatus.try_from n with
  | Some proto.NodeStatus.Alive => NodeStatus.Alive
  | Some proto.NodeStatus.Suspect => NodeStatus.Suspect
  | Some proto.NodeStatus.Dead => NodeStatus.Dead
  | None => NodeStatus.Alive
  end.

Definition status_to (s : NodeStatus.t) : Z :=
  match s with
  | NodeStatus.Alive => proto.NodeStatus.to_i32 proto.NodeStatus.Alive
  | NodeStatus.Suspect => proto.NodeStatus.to_i32 proto.NodeStatus.Suspect
  | NodeStatus.Dead => proto.NodeStatus.to_i32 proto.NodeStatus.Dead
  end.

(** One iteration of the loop of [handle_gossip]. *)
Definition handle_entry (now : Z) (self : t) (ns : proto.NodeState.t) : t :=
  let id := proto.NodeState.node_id ns in
  let existing := self.(peers) !! id in
  if should_update existing ns && negb (bool_decide (id = self.(node_id))) then
    let status := status_from (proto.NodeState.status ns) in
    let peer := PeerState.State id (proto.NodeState.address ns) status
      (proto.NodeState.heartbeat ns) (proto.NodeState.generation ns) now in
    let self :=
      match status with
      | NodeStatus.Dead => set_ring self (HashRing.remove_node self.(ring) id)
      | NodeStatus.Alive =>
        set_ring self (HashRing.add_node self.(ring) (Node.Mk id (proto.NodeState.address ns)))
      | NodeStatus.Suspect => self
      end in
    set_peers self (<[id := peer]> self.(peers))
  else self.

Definition node_state_of (p : PeerState.t) : proto.NodeState.t :=
  proto.NodeState.Mk (PeerState.node_id p) (PeerState.address p)
    (status_to (PeerState.status p)) (PeerState.heartbeat p) (PeerState.generation p).

Definition build_node_states (peers : gmap string PeerState.t) : list proto.NodeState.t :=
  node_state_of <$> (map_to_list peers).*2.

(** The loop of [handle_gossip]; [at i] is the [Instant] read for the [i]-th entry. *)
Definition merge_states (at_ : nat -> Z) (self : t) (nodes : list proto.NodeState.t) : t :=
  foldl (fun self '(i, ns) => handle_entry (at_ i) self ns) self (imap pair nodes).

Definition handle_gossip (at_ : nat -> Z) (self : t) (msg : proto.GossipMessage.t)
  : t * list proto.NodeState.t :=
  let self := merge_states at_ self (proto.GossipMessage.nodes msg) in
  (self, build_node_states self.(peers)).

Definition build_gossip_message (self : t) : proto.GossipMessage.t :=
  let heartbeat := self.(heartbeat_counter) in
  let nodes := build_node_states self.(peers) in
  let nodes := nodes ++
    [proto.NodeState.Mk self.(node_id) "" (proto.NodeStatus.to_i32 proto.NodeStatus.Alive)
       heartbeat self.(generation)] in
  proto.GossipMessage.Mk self.(node_id) nodes.

(** One round: the messages sent, each with the address it goes to. The replies are
    dropped by the code. *)
Definition gossip_round `{Rng} (self : t) : t * list (string * proto.GossipMessage.t) :=
  let self := set_heartbeat self (wrap_u64 (self.(heartbeat_counter) + 1)) in
  let peers_snapshot :=
    filter (fun p => PeerState.status p <> NodeStatus.Dead) (map_to_list self.(peers)).*2 in
  match peers_snapshot with
  | [] => (self, [])
  | _ =>
    let amount := Nat.min (GossipConfig.fanout self.(config)) (length peers_snapshot) in
    let targets := choose_multiple amount peers_snapshot in
    let msg := build_gossip_message self in
    (self, (fun target => (PeerState.address target, msg)) <$> targets)
  end.

(** [now.duration_since(last_seen)] saturates at zero. *)
Definition elapsed (now last_seen : Z) : Z := Z.max 0 (now - last_seen).

(** One iteration of [check_failures]: the peer after it and whether it left the ring. *)
Definition check_peer (suspect_timeout dead_timeout now : Z) (peer : PeerState.t)
  : PeerState.t * bool :=
  let e := elapsed now (PeerState.last_seen peer) in
  match PeerState.status peer with
  | NodeStatus.Alive =>
    if suspect_timeout <? e then (PeerState.set_status peer NodeStatus.Suspect, false)
    else (peer, false)
  | NodeStatus.Suspect =>
    if dead_timeout <? e then (PeerState.set_status peer NodeStatus.Dead, true)
    else (peer, false)
  | NodeStatus.Dead => (peer, false)
  end.

Definition check_step (suspect_timeout dead_timeout now : Z) (self : t)
    (entry : string * PeerState.t) : t :=
  let '(key, peer) := entry in
  let '(peer', died) := check_peer suspect_timeout dead_timeout now peer in
  let self := set_peers self (<[key := peer']> self.(peers)) in
  if died then set_ring self (HashRing.remove_node self.(ring) (PeerState.node_id peer))
  else self.

Definition check_failures (suspect_timeout dead_timeout now : Z) (self : t) : t :=
  foldl (check_step suspect_timeout dead_timeout now) self (map_to_list self.(peers)).

Definition alive_peers (self : t) : list PeerState.t :=
  filter (fun p => PeerState.status p = NodeStatus.Alive) (map_to_list self.(peers)).*2.

Definition peer_status (self : t) (node_id : string) : option NodeStatus.t :=
  PeerState.status <$> self.(peers) !! node_id.

End Operations.
End GossipService.

(** ** Specification *)

(** The version of what is known about a node: its generation, then its heartbeat. *)
Definition version_le (a b : Z * Z) : Prop := a.1 < b.1 \/ (a.1 = b.1 /\ a.2 <= b.2).
Definition peer_version (p : PeerState.t) : Z * Z :=
  (PeerState.generation p, PeerState.heartbeat p).
Definition state_version (ns : proto.NodeState.t) : Z * Z :=
  (proto.NodeState.generation ns, proto.NodeState.heartbeat ns).

(** The steps of a running node: registering a seed (not itself), a message from
    outside, a check of the timeouts, a gossip round. *)
Inductive gossip_step `{Sha256} : GossipService.t -> GossipService.t -> Prop :=
| step_seed self now id addr :
    id <> GossipService.node_id self ->
    gossip_step self (GossipService.add_seed now self id addr)
| step_message self at_ msg :
    gossip_step self (GossipService.handle_gossip at_ self msg).1
| step_check self suspect dead now :
    gossip_step self (GossipService.check_failures suspect dead now self)
| step_round `{Rng} self :
    gossip_step self (GossipService.gossip_round self).1.

(** The invariant of a node: it is not its own peer; the table is keyed by identifier;
    every member of the ring is this node or a peer not known to be dead; a peer that
    is alive is on the ring at the address it was last heard from. *)
Record gossip_ok `{Sha256} (self : GossipService.t) : Prop := GossipOk {
  ok_self : GossipService.peers self !! GossipService.node_id self = None;
  ok_keys : forall k p, GossipService.peers self !! k = Some p -> PeerState.node_id p = k;
  ok_ring : ring_wf (GossipService.ring self);
  ok_members : forall h n, HashRing.ring (GossipService.ring self) !! h = Some n ->
    Node.id n = GossipService.node_id self
    \/ exists p, GossipService.peers self !! Node.id n = Some p
         /\ PeerState.status p <> NodeStatus.Dead;
  ok_addresses : forall h n p, HashRing.ring (GossipService.ring self) !! h = Some n ->
    GossipService.peers self !! Node.id n = Some p -> PeerState.status p = NodeStatus.Alive ->
    Node.address n = PeerState.address p
}.

Section Facts.
Import GossipService.
Context `{Sha256}.
Implicit Types (self : t) (p : PeerState.t) (ns : proto.NodeState.t) (id : string).

#[export] Instance version_le_preorder : PreOrder version_le.
Proof.
  split; [intros [g h]; right; cbn; lia|].
  intros [] [] []; unfold version_le; cbn; lia.
Qed.

Lemma version_le_total a b : version_le a b \/ version_le b a.
Proof. destruct a, b; unfold version_le; cbn; lia. Qed.

(** *** Merging *)

Lemma should_update_false p ns :
  should_update (Some p) ns = false <-> version_le (state_version ns) (peer_version p).
Proof.
  unfold version_le, state_version, peer_version; cbn.
  rewrite orb_false_iff, andb_false_iff, Z.ltb_ge, Z.eqb_neq, Z.ltb_ge. lia.
Qed.

(** The two outcomes of one entry for the peer table. *)
Lemma handle_entry_cases now self ns :
  handle_entry now self ns = self
    /\ (proto.NodeState.node_id ns = node_id self
        \/ exists p, peers self !! proto.NodeState.node_id ns = Some p
             /\ version_le (state_version ns) (peer_version p))
  \/ proto.NodeState.node_id ns <> node_id self
    /\ should_update (peers self !! proto.NodeState.node_id ns) ns = true
    /\ peers (handle_entry now self ns)
       = <[proto.NodeState.node_id ns :=
             PeerState.State (proto.NodeState.node_id ns) (proto.NodeState.address ns)
               (status_from (proto.NodeState.status ns)) (proto.NodeState.heartbeat ns)
               (proto.NodeState.generation ns) now]> (peers self).
Proof.
  unfold handle_entry. destruct (should_update _ ns) eqn:Eu; cbn [andb].
  - case_bool_decide as Hid; cbn [negb]; [by left; auto|right].
    split_and!; [done|done|]. by destruct (status_from _).
  - left. split; [done|right]. destruct (peers self !! _) as [p|] eqn:Ep; [|done].
    exists p. split; [done|]. by apply should_update_false.
Qed.

Lemma handle_entry_id now self ns : node_id (handle_entry now self ns) = node_id self.
Proof. unfold handle_entry. by repeat case_match. Qed.

Lemma handle_entry_generation now self ns : generation (handle_entry now self ns) = generation self.
Proof. unfold handle_entry. by repeat case_match. Qed.

Lemma merge_states_snoc at_ self nodes ns :
  merge_states at_ self (nodes ++ [ns])
  = handle_entry (at_ (length nodes)) (merge_states at_ self nodes) ns.
Proof. unfold merge_states. rewrite imap_app, foldl_app. cbn. by rewrite Nat.add_0_r. Qed.

Lemma merge_states_ind (P : t -> Prop) at_ self nodes :
  P self -> (forall now s ns, ns ∈ nodes -> P s -> P (handle_entry now s ns)) ->
  P (merge_states at_ self nodes).
Proof.
  intros Hself Hstep. induction nodes as [|ns nodes IH] using rev_ind; [done|].
  rewrite merge_states_snoc. apply Hstep; [apply elem_of_app; right; by left|].
  apply IH. intros now s ns' Hin. apply Hstep. apply elem_of_app. by left.
Qed.

Lemma merge_states_id at_ self nodes : node_id (merge_states at_ self nodes) = node_id self.
Proof.
  apply (merge_states_ind (fun s => node_id s = node_id self)); [done|].
  intros now s ns _ <-. apply handle_entry_id.
Qed.

(** An entry that brings nothing newer changes nothing. *)
Lemma handle_entry_stale now self ns :
  proto.NodeState.node_id ns = node_id self
  \/ (exists p, peers self !! proto.NodeState.node_id ns = Some p
       /\ version_le (state_version ns) (peer_version p)) ->
  handle_entry now self ns = self.
Proof.
  intros Hst. unfold handle_entry. destruct Hst as [Hid|(p & Hp & Hle)].
  - rewrite (bool_decide_true _ Hid). by rewrite andb_false_r.
  - rewrite Hp. by rewrite (proj2 (should_update_false p ns) Hle).
Qed.

Lemma handle_entry_other now self ns id :
  id <> proto.NodeState.node_id ns -> peers (handle_entry now self ns) !! id = peers self !! id.
Proof.
  intros Hne. destruct (handle_entry_cases now self ns) as [[-> _]|(_ & _ & ->)]; [done|].
  by rewrite lookup_insert_ne.
Qed.

(** Knowledge only grows, and covers every entry. *)
Lemma handle_entry_grows now self ns id p :
  peers self !! id = Some p -> exists p', peers (handle_entry now self ns) !! id = Some p'
    /\ version_le (peer_version p) (peer_version p').
Proof.
  intros Hp. destruct (handle_entry_cases now self ns) as [[-> _]|(_ & Hu & ->)]; [by exists p|].
  rewrite lookup_insert. case_decide as Hid; [|by exists p]. eexists. split; [done|]. subst id.
  rewrite Hp in Hu. destruct (version_le_total (state_version ns) (peer_version p)) as [Hle|Hle];
    [|exact Hle]. apply should_update_false in Hle. congruence.
Qed.

Lemma handle_entry_covers now self ns :
  proto.NodeState.node_id ns <> node_id self ->
  exists p', peers (handle_entry now self ns) !! proto.NodeState.node_id ns = Some p'
    /\ version_le (state_version ns) (peer_version p').
Proof.
  intros Hne. destruct (handle_entry_cases now self ns) as [[-> [?|?]]|(_ & _ & ->)]; [done|done|].
  rewrite lookup_insert_eq. eexists. split; [done|]. apply (reflexivity (R:=version_le)).
Qed.

Lemma merge_states_grows at_ self nodes id p :
  peers self !! id = Some p -> exists p', peers (merge_states at_ self nodes) !! id = Some p'
    /\ version_le (peer_version p) (peer_version p').
Proof.
  intros Hp. apply (merge_states_ind (fun s => exists p', peers s !! id = Some p'
    /\ version_le (peer_version p) (peer_version p'))); [by exists p|].
  intros now s ns _ (p1 & Hp1 & Hle1).
  destruct (handle_entry_grows now s ns id p1 Hp1) as (p2 & Hp2 & Hle2).
  exists p2. split; [done|by etrans].
Qed.

Lemma merge_states_covers at_ self nodes ns :
  ns ∈ nodes -> proto.NodeState.node_id ns <> node_id self ->
  exists p', peers (merge_states at_ self nodes) !! proto.NodeState.node_id ns = Some p'
    /\ version_le (state_version ns) (peer_version p').
Proof.
  intros Hin Hne. induction nodes as [|ns' nodes IH] using rev_ind; [by apply not_elem_of_nil in Hin|].
  rewrite merge_states_snoc. apply elem_of_app in Hin as [Hin| ->%list_elem_of_singleton].
  - destruct (IH Hin) as (p1 & Hp1 & Hle1).
    destruct (handle_entry_grows (at_ (length nodes)) (merge_states at_ self nodes) ns' _ p1 Hp1)
      as (p2 & Hp2 & Hle2). exists p2. split; [done|by etrans].
  - apply handle_entry_covers. by rewrite merge_states_id.
Qed.

Lemma merge_states_source at_ self nodes id p' :
  peers (merge_states at_ self nodes) !! id = Some p' ->
  peers self !! id = Some p'
  \/ exists ns, ns ∈ nodes /\ id = proto.NodeState.node_id ns
       /\ peer_version p' = state_version ns
       /\ PeerState.address p' = proto.NodeState.address ns
       /\ PeerState.status p' = status_from (proto.NodeState.status ns).
Proof.
  revert p'. induction nodes as [|ns nodes IH] using rev_ind; intros p'; [by left|].
  rewrite merge_states_snoc.
  destruct (handle_entry_cases (at_ (length nodes)) (merge_states at_ self nodes) ns)
    as [[-> _]|(_ & _ & ->)].
  - intros [?|(ns' & ? & ?)]%IH; [by left|right]. exists ns'. split; [|done].
    apply elem_of_app. by left.
  - rewrite lookup_insert. case_decide as Hid.
    + intros [= <-]. right. exists ns. split; [apply elem_of_app; right; by left|done].
    + intros [?|(ns' & ? & ?)]%IH; [by left|right]. exists ns'. split; [|done].
      apply elem_of_app. by left.
Qed.

Lemma merge_states_other at_ self nodes id :
  (forall ns, ns ∈ nodes -> proto.NodeState.node_id ns <> id) ->
  peers (merge_states at_ self nodes) !! id = peers self !! id.
Proof.
  intros Hno. apply (merge_states_ind (fun s => peers s !! id = peers self !! id)); [done|].
  intros now s ns Hin Hs. rewrite handle_entry_other; [done|]. intros ->. by apply (Hno ns).
Qed.
End Facts.

(** *** The invariant *)

Section Invariant.
Import GossipService.
Context `{Sha256}.
Implicit Types (self : t) (p : PeerState.t) (id : string).

(** Where a node of the ring came from after an addition. *)
Lemma add_node_cases r n h m :
  ring_wf r -> HashRing.ring (HashRing.add_node r n) !! h = Some m ->
  m = n \/ (Node.id m <> Node.id n /\ HashRing.ring r !! h = Some m).
Proof.
  intros [Hpos _]. rewrite add_node_lookup. case_decide as Hp; [intros [= <-]; by left|].
  intros Hl. right. split; [|done]. intros Hid. destruct Hp. apply elem_of_positions.
  rewrite <-Hid. by apply Hpos in Hl.
Qed.

(** Recording a live peer and putting it on the ring. *)
Lemma gossip_ok_add self id p :
  gossip_ok self -> id <> node_id self -> PeerState.node_id p = id ->
  PeerState.status p = NodeStatus.Alive ->
  gossip_ok (set_peers
    (set_ring self (HashRing.add_node (ring self) (Node.Mk id (PeerState.address p))))
    (<[id := p]> (peers self))).
Proof.
  intros [Hs Hk Hr Hm Ha] Hid Hp Hst. split; cbn.
  - by rewrite lookup_insert_ne.
  - intros k q [[<- <-]|[_ Hq]]%lookup_insert_Some; [done|by apply Hk].
  - by apply add_node_wf.
  - intros h n [->|[Hne Hl]]%add_node_cases; [| |done]; cbn.
    + right. exists p. rewrite lookup_insert_eq, Hst. done.
    + rewrite lookup_insert_ne by done. by apply (Hm h).
  - intros h n q [->|[Hne Hl]]%add_node_cases; [| |done]; cbn.
    + rewrite lookup_insert_eq. by intros [= ->].
    + rewrite lookup_insert_ne by done. by apply (Ha h).
Qed.

(** Recording a dead peer and taking it off the ring. *)
Lemma gossip_ok_remove self id p :
  gossip_ok self -> id <> node_id self -> PeerState.node_id p = id ->
  gossip_ok (set_peers (set_ring self (HashRing.remove_node (ring self) id))
    (<[id := p]> (peers self))).
Proof.
  intros [Hs Hk Hr Hm Ha] Hid Hp. split; cbn -[HashRing.remove_node].
  - by rewrite lookup_insert_ne.
  - intros k q [[<- <-]|[_ Hq]]%lookup_insert_Some; [done|by apply Hk].
  - by apply remove_node_wf.
  - intros h n [Hl Hne]%remove_node_lookup. rewrite lookup_insert_ne by done. by apply (Hm h).
  - intros h n q [Hl Hne]%remove_node_lookup. rewrite lookup_insert_ne by done. by apply (Ha h).
Qed.

(** Recording a suspect, the ring as it was. *)
Lemma gossip_ok_suspect self id p :
  gossip_ok self -> id <> node_id self -> PeerState.node_id p = id ->
  PeerState.status p = NodeStatus.Suspect ->
  gossip_ok (set_peers self (<[id := p]> (peers self))).
Proof.
  intros [Hs Hk Hr Hm Ha] Hid Hp Hst. split; cbn.
  - by rewrite lookup_insert_ne.
  - intros k q [[<- <-]|[_ Hq]]%lookup_insert_Some; [done|by apply Hk].
  - done.
  - intros h n Hl. destruct (decide (Node.id n = id)) as [Heq|Hne].
    + right. exists p. rewrite Heq, lookup_insert_eq, Hst. done.
    + rewrite lookup_insert_ne by done. by apply (Hm h).
  - intros h n q Hl. destruct (decide (Node.id n = id)) as [Heq|Hne].
    + rewrite Heq, lookup_insert_eq. intros [= <-]. by rewrite Hst.
    + rewrite lookup_insert_ne by done. by apply (Ha h).
Qed.

Lemma handle_entry_ok now self ns : gossip_ok self -> gossip_ok (handle_entry now self ns).
Proof.
  intros Hok. unfold handle_entry. destruct (should_update _ ns); [|done].
  case_bool_decide as Hid; [done|]. cbn [andb negb].
  set (p := PeerState.State _ _ _ _ _ _).
  assert (PeerState.status p = status_from (proto.NodeState.status ns)) as Hst by done.
  destruct (status_from (proto.NodeState.status ns)).
  - by apply (gossip_ok_add self _ p).
  - by apply (gossip_ok_suspect self _ p).
  - by apply (gossip_ok_remove self _ p).
Qed.

Lemma merge_states_ok at_ self nodes : gossip_ok self -> gossip_ok (merge_states at_ self nodes).
Proof. intros Hok. apply merge_states_ind; [done|]. intros. by apply handle_entry_ok. Qed.

Lemma add_seed_ok now self id addr :
  gossip_ok self -> id <> node_id self -> gossip_ok (add_seed now self id addr).
Proof.
  intros Hok Hid. unfold add_seed.
  by apply (gossip_ok_add self id (PeerState.State id addr NodeStatus.Alive 0 0 now)).
Qed.

Lemma new_ok id addr k f cfg : gossip_ok (new id addr (HashRing.new k f) cfg).
Proof.
  split; cbn -[HashRing.add_node]; try done.
  - apply add_node_wf, new_ring_wf.
  - intros h n [->|[_ Hl]]%add_node_cases; [by left| |apply new_ring_wf].
    cbn in Hl. by apply lookup_empty_Some in Hl.
Qed.

Lemma set_heartbeat_ok self h : gossip_ok self -> gossip_ok (set_heartbeat self h).
Proof. by intros []. Qed.

Lemma gossip_round_state `{Rng} self :
  (gossip_round self).1 = set_heartbeat self (wrap_u64 (heartbeat_counter self + 1)).
Proof. unfold gossip_round. by case_match. Qed.

(** *** The timeouts *)

Lemma check_peer_keeps suspect dead now p :
  let p' := (check_peer suspect dead now p).1 in
  PeerState.node_id p' = PeerState.node_id p /\ PeerState.address p' = PeerState.address p
  /\ peer_version p' = peer_version p /\ PeerState.last_seen p' = PeerState.last_seen p.
Proof. unfold check_peer. by repeat case_match. Qed.

(** The three things a check can do to a peer. *)
Lemma check_peer_status suspect dead now p :
  let '(p', died) := check_peer suspect dead now p in
  (p' = p /\ died = false)
  \/ (PeerState.status p = NodeStatus.Alive /\ p' = PeerState.set_status p NodeStatus.Suspect
      /\ died = false)
  \/ (p' = PeerState.set_status p NodeStatus.Dead /\ died = true).
Proof.
  unfold check_peer. destruct (PeerState.status p) eqn:E; [| |by left].
  - destruct (suspect <? _); [by right; left|by left].
  - destruct (dead <? _); [by right; right|by left].
Qed.

(** The order in which a silent peer goes through the states. *)
Definition rank (s : NodeStatus.t) : nat :=
  match s with NodeStatus.Alive => 0 | NodeStatus.Suspect => 1 | NodeStatus.Dead => 2 end.

Lemma rank_dead s : (2 <= rank s)%nat -> s = NodeStatus.Dead.
Proof. destruct s; cbn; (lia || done). Qed.

(** A check moves a peer forward, one state at a time, when its timeout has passed. *)
Lemma check_peer_rank suspect dead now p r :
  (r <= rank (PeerState.status p))%nat ->
  let r' := rank (PeerState.status (check_peer suspect dead now p).1) in
  (r <= r')%nat
  /\ (suspect < elapsed now (PeerState.last_seen p) -> (1 <= r')%nat)
  /\ ((1 <= r)%nat -> dead < elapsed now (PeerState.last_seen p) -> (2 <= r')%nat).
Proof.
  intros Hr r'. unfold r', check_peer. rewrite <-!Z.ltb_lt.
  destruct (PeerState.status p) eqn:Es; cbn in Hr;
    repeat case_match; cbn; rewrite ?Es; cbn; split_and!; intros; (lia || done).
Qed.

Lemma check_step_ok suspect dead now self k p :
  gossip_ok self -> peers self !! k = Some p ->
  gossip_ok (check_step suspect dead now self (k, p)).
Proof.
  intros Hok Hp. pose proof (ok_keys _ Hok k p Hp) as Hk.
  assert (k <> node_id self) as Hid by (intros ->; rewrite (ok_self _ Hok) in Hp; done).
  unfold check_step. pose proof (check_peer_status suspect dead now p) as Hc.
  destruct (check_peer suspect dead now p) as [p' died].
  destruct Hc as [[-> ->]|[(Hst & -> & ->)|[-> ->]]].
  - rewrite insert_id by done. by destruct self.
  - by apply gossip_ok_suspect.
  - rewrite Hk. by apply (gossip_ok_remove self k (PeerState.set_status p NodeStatus.Dead)).
Qed.

Lemma check_step_peers suspect dead now self k p :
  peers (check_step suspect dead now self (k, p))
  = <[k := (check_peer suspect dead now p).1]> (peers self).
Proof. unfold check_step. by destruct (check_peer _ _ _ _) as [p' []]. Qed.

Lemma check_step_ring suspect dead now self k p :
  ring (check_step suspect dead now self (k, p))
  = if (check_peer suspect dead now p).2
    then HashRing.remove_node (ring self) (PeerState.node_id p) else ring self.
Proof. unfold check_step. by destruct (check_peer _ _ _ _) as [p' []]. Qed.

(** The table is keyed by identifier. *)
Definition keyed self : Prop :=
  forall k p, peers self !! k = Some p -> PeerState.node_id p = k.

(** The loop over a listing of the table that has each key once. *)
Lemma check_loop suspect dead now l self :
  NoDup l.*1 -> (forall k p, (k, p) ∈ l -> peers self !! k = Some p) -> keyed self ->
  let self' := foldl (check_step suspect dead now) self l in
  node_id self' = node_id self /\ (gossip_ok self -> gossip_ok self')
  /\ (forall k, peers self' !! k
        = if decide (k ∈ l.*1) then (fun p => (check_peer suspect dead now p).1) <$> peers self !! k
          else peers self !! k)
  /\ (forall h n, HashRing.ring (ring self') !! h = Some n <->
        HashRing.ring (ring self) !! h = Some n
        /\ forall p, (Node.id n, p) ∈ l -> (check_peer suspect dead now p).2 = false).
Proof.
  revert self. induction l as [|[k p] l IH]; intros self Hnd Hl Hok.
  { cbn. split_and!; [done|done| |].
    - intros k. by rewrite decide_False by apply not_elem_of_nil.
    - intros h n. split; [|by intros [? _]]. intros Hn. split; [done|].
      by intros p ?%not_elem_of_nil. }
  rewrite fmap_cons in Hnd. apply NoDup_cons in Hnd as [Hk Hnd]. cbn [fst] in Hk.
  assert (peers self !! k = Some p) as Hp by (apply Hl; by left).
  pose proof (Hok k p Hp) as Hkp.
  pose proof (check_step_peers suspect dead now self k p) as Hps.
  pose proof (check_step_ring suspect dead now self k p) as Hrs.
  destruct (IH (check_step suspect dead now self (k, p))) as (Hid' & Hok' & Hpe & Hri); [done| | |].
  { intros k' p' Hin. rewrite Hps. rewrite lookup_insert_ne; [apply Hl; by right|].
    intros ->. apply Hk. apply list_elem_of_fmap. by exists (k', p'). }
  { intros k' p'. rewrite Hps. intros [[<- <-]|[_ Hp']]%lookup_insert_Some; [|by apply Hok].
    by rewrite (proj1 (check_peer_keeps suspect dead now p)). }
  cbn [foldl]. split_and!.
  - rewrite Hid'. unfold check_step. by destruct (check_peer _ _ _ _) as [p' []].
  - intros Hgok. by apply Hok', check_step_ok.
  - intros k'. rewrite Hpe, Hps. destruct (decide (k' = k)) as [->|Hne].
    + rewrite (decide_False (P:=k ∈ l.*1)) by done. rewrite (decide_True (P:=k ∈ ((k, p) :: l).*1)) by (by left).
      by rewrite lookup_insert_eq, Hp.
    + rewrite lookup_insert_ne by done.
      destruct (decide (k' ∈ l.*1)).
      * by rewrite decide_True by by right.
      * rewrite decide_False; [done|]. by intros [?|?]%elem_of_cons.
  - intros h n. rewrite Hri, Hrs. setoid_rewrite elem_of_cons.
    destruct ((check_peer suspect dead now p).2) eqn:Ed.
    + rewrite remove_node_lookup, Hkp. split.
      * intros [[Hn Hne] Hall]. split; [done|]. intros p' [[= ? ?]|Hin]; [done|by apply Hall].
      * intros [Hn Hall]. split; [split; [done|]|naive_solver].
        intros Heq. specialize (Hall p). rewrite Heq in Hall. rewrite Hall in Ed by (by left). done.
    + split; intros [Hn Hall]; (split; [done|]); naive_solver.
Qed.

(** What a check does to the table and to the ring. *)
Lemma check_failures_spec suspect dead now self :
  keyed self ->
  let self' := check_failures suspect dead now self in
  node_id self' = node_id self /\ (gossip_ok self -> gossip_ok self')
  /\ (forall k, peers self' !! k = (fun p => (check_peer suspect dead now p).1) <$> peers self !! k)
  /\ (forall h n, HashRing.ring (ring self') !! h = Some n <->
        HashRing.ring (ring self) !! h = Some n
        /\ forall p, peers self !! Node.id n = Some p -> (check_peer suspect dead now p).2 = false).
Proof.
  intros Hok. destruct (check_loop suspect dead now (map_to_list (peers self)) self)
    as (Hid & Hok' & Hp & Hr); [apply NoDup_fst_map_to_list| |done|].
  { intros k p. by rewrite elem_of_map_to_list. }
  split_and!; [done|done| |].
  - intros k. unfold check_failures. rewrite Hp. case_decide as Hk; [done|].
    destruct (peers self !! k) as [p|] eqn:E; [|done]. destruct Hk.
    apply list_elem_of_fmap. exists (k, p). by rewrite elem_of_map_to_list.
  - intros h n. unfold check_failures. rewrite Hr. by setoid_rewrite elem_of_map_to_list.
Qed.

(** *** The transition system *)

Lemma gossip_step_ok self self' :
  gossip_step self self' -> gossip_ok self -> gossip_ok self' /\ node_id self' = node_id self.
Proof.
  intros [s now id addr Hid|s at_ msg|s suspect dead now|Hrng s] Hok.
  - split; [by apply add_seed_ok|done].
  - split; [by apply merge_states_ok|apply merge_states_id].
  - destruct (check_failures_spec suspect dead now s (ok_keys _ Hok)) as (? & ? & _). split; auto.
  - rewrite gossip_round_state. split; [by apply set_heartbeat_ok|done].
Qed.

Lemma check_loop_generation suspect dead now l self :
  generation (foldl (check_step suspect dead now) self l) = generation self.
Proof.
  revert self. induction l as [|[k p] l IH]; intros self; cbn [foldl]; [done|].
  rewrite IH. unfold check_step. by destruct (check_peer _ _ _ _) as [p' []].
Qed.

(** A node never changes its generation. *)
Lemma gossip_steps_generation self self' :
  rtc gossip_step self self' -> generation self' = generation self.
Proof.
  induction 1 as [s|s1 s2 s3 Hst _ IH]; [done|]. rewrite IH.
  destruct Hst as [s now id addr Hid|s at_ msg|s suspect dead now|Hrng s]; [done| | |].
  - apply (merge_states_ind (fun s' => generation s' = generation s)); [done|].
    intros now s' ns _ <-. apply handle_entry_generation.
  - apply check_loop_generation.
  - by rewrite gossip_round_state.
Qed.

Lemma gossip_steps_ok self self' :
  rtc gossip_step self self' -> gossip_ok self -> gossip_ok self' /\ node_id self' = node_id self.
Proof.
  induction 1 as [s|s1 s2 s3 Hst _ IH]; [done|]. intros Hok.
  destruct (gossip_step_ok _ _ Hst Hok) as [Hok2 Hid2]. destruct (IH Hok2) as [? ->]. done.
Qed.
End Invariant.

(** ** Properties *)

Section Properties.
Import GossipService.
Context `{Sha256}.


(** C33: merging a message keeps, for every other node, the newest of the versions
    it knew and the versions in the message, ordered by generation and then heartbeat:
    nothing known gets older, every entry is covered, and what is stored is what was
    stored before or one of the entries. *)
Theorem gossip_keeps_newest_version at_ self msg id :
  id <> node_id self ->
  let self' := (handle_gossip at_ self msg).1 in
  (forall p, peers self !! id = Some p -> exists p', peers self' !! id = Some p'
     /\ version_le (peer_version p) (peer_version p'))
  /\ (forall ns, ns ∈ proto.GossipMessage.nodes msg -> proto.NodeState.node_id ns = id ->
      exists p', peers self' !! id = Some p' /\ version_le (state_version ns) (peer_version p'))
  /\ (forall p', peers self' !! id = Some p' ->
      peers self !! id = Some p'
      \/ exists ns, ns ∈ proto.GossipMessage.nodes msg /\ id = proto.NodeState.node_id ns
           /\ peer_version p' = state_version ns
           /\ PeerState.address p' = proto.NodeState.address ns
           /\ PeerState.status p' = status_from (proto.NodeState.status ns)).
Proof.
  intros Hid. cbn. split_and!.
  - intros p. apply merge_states_grows.
  - intros ns Hin <-. by apply merge_states_covers.
  - intros p'. apply merge_states_source.
Qed.

(** A message delivered a second time changes nothing, neither the table nor
    the ring: gossip is idempotent, so duplicated or re-sent messages are harmless. *)
Theorem redelivered_gossip_is_ignored at_ at' self msg :
  let self' := (handle_gossip at_ self msg).1 in
  (handle_gossip at' self' msg).1 = self'.
Proof.
  cbn. set (nodes := proto.GossipMessage.nodes msg). set (self' := merge_states at_ self nodes).
  assert (forall ns, ns ∈ nodes -> proto.NodeState.node_id ns = node_id self'
    \/ exists p, peers self' !! proto.NodeState.node_id ns = Some p
         /\ version_le (state_version ns) (peer_version p)) as Hcov.
  { intros ns Hin. unfold self'. rewrite merge_states_id.
    destruct (decide (proto.NodeState.node_id ns = node_id self)) as [?|Hne]; [by left|right].
    by apply merge_states_covers. }
  apply (merge_states_ind (fun s => s = self')); [done|].
  intros now s ns Hin ->. by apply handle_entry_stale, Hcov.
Qed.

(** C34: a check moves an alive peer that was silent for longer than the suspect
    timeout to suspect, a suspect one silent for longer than the dead timeout to dead,
    and no other; exactly the nodes that die leave the ring. Two checks after both
    timeouts therefore remove a silent peer from every preference list. *)
Theorem silent_peers_die suspect dead now now' self id p :
  gossip_ok self -> peers self !! id = Some p -> PeerState.status p = NodeStatus.Alive ->
  let once := check_failures suspect dead now self in
  let twice := check_failures suspect dead now' once in
  (elapsed now (PeerState.last_seen p) <= suspect -> peers once !! id = Some p)
  /\ (suspect < elapsed now (PeerState.last_seen p) ->
      peer_status once id = Some NodeStatus.Suspect
      /\ (elapsed now' (PeerState.last_seen p) <= dead ->
          peer_status twice id = Some NodeStatus.Suspect)
      /\ (dead < elapsed now' (PeerState.last_seen p) ->
          peer_status twice id = Some NodeStatus.Dead
          /\ forall key, HashRing.is_responsible (ring twice) id key = false)).
Proof.
  intros Hok Hp Hst once twice.
  destruct (check_failures_spec suspect dead now self (ok_keys _ Hok)) as (Hid1 & Hok1 & Hp1 & _).
  fold once in Hok1, Hid1, Hp1. specialize (Hok1 Hok).
  destruct (check_failures_spec suspect dead now' once (ok_keys _ Hok1)) as (Hid2 & Hok2 & Hp2 & _).
  fold twice in Hok2, Hid2, Hp2. specialize (Hok2 Hok1).
  specialize (Hp1 id). rewrite Hp in Hp1. cbn in Hp1. unfold check_peer in Hp1. rewrite Hst in Hp1.
  specialize (Hp2 id). unfold peer_status. split.
  - intros Hle. by rewrite (proj2 (Z.ltb_ge _ _) Hle) in Hp1.
  - intros Hlt. rewrite (proj2 (Z.ltb_lt _ _) Hlt) in Hp1. cbn [fst] in Hp1.
    rewrite Hp1 in Hp2. cbn in Hp2. unfold check_peer in Hp2. cbn in Hp2.
    rewrite Hp1. split; [done|]. split.
    + intros Hle. rewrite (proj2 (Z.ltb_ge _ _) Hle) in Hp2. by rewrite Hp2.
    + intros Hd. rewrite (proj2 (Z.ltb_lt _ _) Hd) in Hp2. rewrite Hp2. split; [done|].
      intros key. apply not_true_iff_false. intros Hr%is_responsible_spec.
      apply list_elem_of_fmap in Hr as (n & -> & (h & Hn)%elem_of_get_nodes).
      destruct (ok_members _ Hok2 h n Hn) as [Heq|(q & Hq & Hnd)].
      * rewrite Hid2, Hid1 in Heq. rewrite Heq, (ok_self _ Hok) in Hp. done.
      * rewrite Hp2 in Hq. by injection Hq as <-.
Qed.

(** The message of a node has one entry about itself, the last, without an address. *)
Lemma build_gossip_message_self self :
  gossip_ok self ->
  exists others, proto.GossipMessage.nodes (build_gossip_message self)
    = others ++ [proto.NodeState.Mk (node_id self) ""
                   (proto.NodeStatus.to_i32 proto.NodeStatus.Alive)
                   (heartbeat_counter self) (generation self)]
    /\ forall ns, ns ∈ others -> proto.NodeState.node_id ns <> node_id self.
Proof.
  intros Hok. exists (build_node_states (peers self)). split; [done|].
  intros ns (p & -> & Hp)%list_elem_of_fmap Heq. cbn in Heq.
  apply list_elem_of_fmap in Hp as ([k q] & -> & Hkq%elem_of_map_to_list). cbn in *.
  pose proof (ok_keys _ Hok k q Hkq) as Hk. pose proof (ok_self _ Hok) as Hs.
  rewrite <-Heq, Hk, Hkq in Hs. done.
Qed.

(** Gossip erases addresses. The first message a node receives directly from
    a peer, with news about that peer, replaces the peer's address by the empty string
    that the sender put there for the receiver to fill in, and every key that is routed
    to that peer is now routed to the empty address. *)
Theorem direct_gossip_erases_address at_ self sender :
  gossip_ok self -> gossip_ok sender -> node_id sender <> node_id self ->
  (forall p, peers self !! node_id sender = Some p ->
     ~ version_le (generation sender, heartbeat_counter sender) (peer_version p)) ->
  let self' := (handle_gossip at_ self (build_gossip_message sender)).1 in
  (exists p, peers self' !! node_id sender = Some p
     /\ PeerState.status p = NodeStatus.Alive /\ PeerState.address p = "")
  /\ forall key n, n ∈ HashRing.get_nodes (ring self') key -> Node.id n = node_id sender ->
       Node.address n = "".
Proof.
  intros Hok Hsok Hne Hnew self'.
  destruct (build_gossip_message_self sender Hsok) as (others & Hmsg & Hothers).
  assert (gossip_ok self') as Hok' by by apply merge_states_ok.
  assert (exists p, peers self' !! node_id sender = Some p
     /\ PeerState.status p = NodeStatus.Alive /\ PeerState.address p = "") as (p & Hp & Hst & Haddr).
  { unfold self'. cbn [handle_gossip fst]. rewrite Hmsg, merge_states_snoc.
    set (s := merge_states at_ self others). set (ns := proto.NodeState.Mk _ _ _ _ _).
    assert (peers s !! node_id sender = peers self !! node_id sender) as Hs
      by by apply merge_states_other.
    destruct (handle_entry_cases (at_ (length others)) s ns) as [[_ [Hid|(p & Hp & Hle)]]|(_ & _ & ->)].
    - unfold s in Hid. by rewrite merge_states_id in Hid.
    - cbn in Hp. rewrite Hs in Hp. by destruct (Hnew p Hp).
    - eexists. cbn. rewrite lookup_insert_eq. done. }
  split; [by exists p|]. intros key n (h & Hn)%elem_of_get_nodes Hid.
  rewrite <-Hid in Hp. rewrite (ok_addresses _ Hok' h n p); done.
Qed.

(** A restarted node is not heard. It starts again with generation 1 and
    heartbeat 0, so whoever knows it from before ignores what it says about itself,
    and does not refresh the time it was last seen, until its heartbeat has caught up. *)
Theorem restarted_node_is_ignored at_ self addr k f cfg sender id p :
  let start := new id addr (HashRing.new k f) cfg in
  rtc gossip_step start sender -> heartbeat_counter sender <= PeerState.heartbeat p ->
  1 <= PeerState.generation p ->
  peers self !! id = Some p ->
  peers (handle_gossip at_ self (build_gossip_message sender)).1 !! id = Some p.
Proof.
  intros start Hsteps Hhb Hp1 Hp.
  pose proof (gossip_steps_generation _ _ Hsteps) as Hgen.
  destruct (gossip_steps_ok _ _ Hsteps (new_ok id addr k f cfg)) as [Hsok Hid]. cbn in Hid, Hgen.
  destruct (build_gossip_message_self sender Hsok) as (others & Hmsg & Hothers).
  cbn [handle_gossip fst]. rewrite Hmsg, merge_states_snoc.
  assert (peers (merge_states at_ self others) !! id = Some p) as Hs.
  { rewrite merge_states_other; [done|]. rewrite <-Hid. exact Hothers. }
  rewrite handle_entry_stale; [done|]. right. exists p. cbn. rewrite Hid. split; [done|].
  unfold version_le, state_version, peer_version; cbn. lia.
Qed.
End Properties.

(** ** The properties at concrete nodes *)

Section Witnesses.
Import GossipService Toy.

#[local] Instance toy_rng : Rng := fun amount l => take amount l.

Lemma toy_rng_laws : RngLaws.
Proof.
  intros amount l Hle. unfold choose_multiple, toy_rng. rewrite length_take. split; [lia|].
  exists (drop amount l). by rewrite take_drop.
Qed.

Definition gossip_1 : t := new "n1" "10.0.0.1:7000" (HashRing.new 2 2) GossipConfig.default.
(** Node 1 after it was given node 2 as a seed. *)
Definition gossip_12 : t := add_seed 1000 gossip_1 "n2" "10.0.0.2:7000".
(** Node 2 after its first round. *)
Definition gossip_2 : t :=
  (gossip_round (new "n2" "10.0.0.2:7000" (HashRing.new 2 2) GossipConfig.default)).1.

Lemma gossip_12_steps : rtc gossip_step gossip_1 gossip_12.
Proof. apply rtc_once. by apply step_seed. Qed.
Lemma gossip_2_steps :
  rtc gossip_step (new "n2" "10.0.0.2:7000" (HashRing.new 2 2) GossipConfig.default) gossip_2.
Proof. apply rtc_once. apply step_round. Qed.
Lemma gossip_12_ok : gossip_ok gossip_12.
Proof. apply (gossip_steps_ok _ _ gossip_12_steps), new_ok. Qed.
Lemma gossip_2_ok : gossip_ok gossip_2.
Proof. apply (gossip_steps_ok _ _ gossip_2_steps), new_ok. Qed.

Definition seed_2 : PeerState.t := PeerState.State "n2" "10.0.0.2:7000" NodeStatus.Alive 0 0 1000.


Example gossip_keeps_newest_version_witness :
  exists p', peers (handle_gossip (fun _ => 2000) gossip_12 (build_gossip_message gossip_2)).1
    !! "n2" = Some p' /\ version_le (1, 1) (peer_version p').
Proof.
  destruct (gossip_keeps_newest_version (fun _ => 2000) gossip_12 (build_gossip_message gossip_2) "n2")
    as (_ & Hcov & _); [done|].
  apply (Hcov (proto.NodeState.Mk "n2" "" 0 1 1)); [|reflexivity].
  change (proto.GossipMessage.nodes (build_gossip_message gossip_2))
    with [proto.NodeState.Mk "n2" "" 0 1 1]. left.
Defined.

Example silent_peers_die_witness :
  let once := check_failures 5000 15000 7000 gossip_12 in
  let twice := check_failures 5000 15000 17000 once in
  peer_status once "n2" = Some NodeStatus.Suspect
  /\ HashRing.is_responsible (ring twice) "n2" "key" = false.
Proof.
  destruct (silent_peers_die 5000 15000 7000 17000 gossip_12 "n2" seed_2 gossip_12_ok)
    as [_ Hlate]; [reflexivity|reflexivity|].
  destruct Hlate as (Hs & _ & Hd); [vm_compute; reflexivity|].
  split; [exact Hs|]. apply Hd. vm_compute. reflexivity.
Defined.

Example direct_gossip_erases_address_witness :
  exists p, peers (handle_gossip (fun _ => 2000) gossip_12 (build_gossip_message gossip_2)).1
    !! "n2" = Some p /\ PeerState.address p = "".
Proof.
  destruct (direct_gossip_erases_address (fun _ => 2000) gossip_12 gossip_2 gossip_12_ok gossip_2_ok)
    as [(p & Hp & _ & Ha) _]; [done| |].
  - intros p Hp. change (peers gossip_12 !! "n2") with (Some seed_2) in Hp.
    injection Hp as <-. intros [Hlt|[Heq _]]; [revert Hlt|revert Heq]; vm_compute; congruence.
  - exists p. split; [exact Hp|exact Ha].
Defined.

(** Node 1 remembers heartbeat 40 of node 2, which restarts. *)
Definition known_2 : PeerState.t := PeerState.State "n2" "10.0.0.2:7000" NodeStatus.Alive 40 1 1000.

Example restarted_node_is_ignored_witness :
  peers (handle_gossip (fun _ => 2000) (set_peers gossip_1 {["n2" := known_2]})
    (build_gossip_message gossip_2)).1 !! "n2" = Some known_2.
Proof.
  apply (restarted_node_is_ignored (fun _ => 2000) (set_peers gossip_1 {["n2" := known_2]})
    "10.0.0.2:7000" 2 2 GossipConfig.default gossip_2 "n2" known_2 gossip_2_steps).
  - vm_compute. congruence.
  - reflexivity.
  - reflexivity.
Defined.
End Witnesses.
