(* ===== verification/Service.v ===== *)
(** The two gRPC services of a node (src/src/grpc/service.rs): the client-facing
    key-value service, which goes through the coordinator, and the internal service
    that the other nodes call.

    A handler takes the node's shared state and a request and returns both the state
    and the reply. The calls a coordinated request makes to other nodes are an input,
    as in Coordinator.v. *)

From S2P Require Import Prelude Bytes BTreeMap VectorClock Memtable Externals Wal Snapshot.
From S2P Require Import Engine EngineDurability EngineRace ConsistentHash Quorum Proto Coordinator Detector.
Open Scope Z_scope.

(** [tonic::Status], by its code; an internal error carries the storage error it
    reports. *)
Inductive status :=
| Internal (e : io_error)
| Unavailable (message : string)
| InvalidArgument (message : string).

(** What the services of one process share, and the disk under the engine. *)
Record node := MkNode {
  engine : StorageEngine.t;
  store : disk;
  gossip_service : GossipService.t;
  coordinator : ReplicationCoordinator.t
}.

Definition set_engine (nd : node) (e : StorageEngine.t) (d : disk) : node :=
  MkNode e d nd.(gossip_service) nd.(coordinator).
Definition set_gossip (nd : node) (g : GossipService.t) : node :=
  MkNode nd.(engine) nd.(store) g nd.(coordinator).

(** The ring that the coordinator and the gossip service share. *)
Definition ring_of (nd : node) : HashRing.t := GossipService.ring nd.(gossip_service).

Module KvServiceImpl.
Section Handlers.
Context `{Crc32, Sha256, Json WalEntry.t, Bincode table}.

(** [format!("... quorum not met: got {}/{} successes", ..)]. *)
Definition quorum_message {T} (what : string) (q : QuorumResult.t T) : string :=
  what +:+ " quorum not met: got " +:+ pretty (Z.to_N (QuorumResult.successes q))
  +:+ "/" +:+ pretty (Z.to_N (QuorumResult.required q)) +:+ " successes".

(** The reply to a get, from the coordinator's result. *)
Definition get_reply (result : QuorumResult.t VersionedValue.t) : proto.GetResponse.t + status :=
  if negb (QuorumResult.is_success result) then inr (Unavailable (quorum_message "Read" result))
  else
    match QuorumResult.value result with
    | Some val =>
      inl (proto.GetResponse.Mk true (VersionedValue.value val)
             (Some (vc_to_proto (VersionedValue.vector_clock val))))
    | None => inl (proto.GetResponse.Mk false [] None)
    end.

Definition get (at_ : nat -> Z) (nd : node) (req : proto.GetRequest.t)
    (reply : Node.t -> proto.GetInternalRequest.t -> rpc_result proto.GetInternalResponse.t)
  : proto.GetResponse.t + status :=
  get_reply (ReplicationCoordinator.get nd.(coordinator) (ring_of nd) at_ nd.(engine)
    (proto.GetRequest.key req) (proto.GetRequest.read_quorum req) reply).

Definition put_reply (result : QuorumResult.t VectorClock.t) : proto.PutResponse.t + status :=
  if negb (QuorumResult.is_success result) then inr (Unavailable (quorum_message "Write" result))
  else inl (proto.PutResponse.Mk true (option_map vc_to_proto (QuorumResult.value result))).

Definition put (now : Z) (io : write_outcome) (nd : node) (req : proto.PutRequest.t)
    (reply : Node.t -> proto.ReplicateRequest.t -> rpc_result proto.ReplicateResponse.t)
  : node * (proto.PutResponse.t + status) :=
  let '(e, d, result) :=
    ReplicationCoordinator.put nd.(coordinator) (ring_of nd) now io nd.(engine) nd.(store)
      (proto.PutRequest.key req) (proto.PutRequest.value req) (proto.PutRequest.ttl_ms req)
      (proto.PutRequest.write_quorum req) reply in
  (set_engine nd e d, put_reply result).

Definition delete (now : Z) (io : write_outcome) (nd : node) (req : proto.DeleteRequest.t)
    (reply : Node.t -> proto.DeleteInternalRequest.t -> rpc_result proto.DeleteInternalResponse.t)
  : node * (proto.DeleteResponse.t + status) :=
  let '(e, d, result) :=
    ReplicationCoordinator.delete nd.(coordinator) (ring_of nd) now io nd.(engine) nd.(store)
      (proto.DeleteRequest.key req) (proto.DeleteRequest.write_quorum req) reply in
  (set_engine nd e d, inl (proto.DeleteResponse.Mk (QuorumResult.is_success result))).

Definition key_value (p : string * VersionedValue.t) : proto.KeyValue.t :=
  proto.KeyValue.Mk p.1 (VersionedValue.value p.2)
    (Some (vc_to_proto (VersionedValue.vector_clock p.2))).

(** Only this node's table is scanned. A panic of the range iterator ends the handler. *)
Definition scan (at_ : string -> Z) (nd : node) (req : proto.ScanRequest.t)
  : outcome (proto.ScanResponse.t + status) :=
  let limit := if proto.ScanRequest.limit req =? 0 then 100 else proto.ScanRequest.limit req in
  match StorageEngine.scan at_ nd.(engine) (proto.ScanRequest.start_key req)
          (proto.ScanRequest.end_key req) (Z.to_N limit) with
  | Panic => Panic
  | Return results => Return (inl (proto.ScanResponse.Mk (key_value <$> results)))
  end.

End Handlers.
End KvServiceImpl.

Module InternalServiceImpl.
Section Handlers.
Context `{Crc32, Sha256, Json WalEntry.t, Bincode table}.

(** [engine.put(..)] and [engine.delete(..)] of this node, errors mapped to a status. *)
Definition engine_put (io : write_outcome) (nd : node) (key : string) (v : VersionedValue.t)
  : node * result io_error unit :=
  let '(e, d, r) := StorageEngine.put io nd.(engine) nd.(store) key v in (set_engine nd e d, r).

Definition engine_delete (now : Z) (io : write_outcome) (nd : node) (key : string)
  : node * result io_error unit :=
  let '(e, d, r) := StorageEngine.delete now io nd.(engine) nd.(store) key in (set_engine nd e d, r).

Definition replicate (now : Z) (io : write_outcome) (nd : node) (req : proto.ReplicateRequest.t)
  : node * (proto.ReplicateResponse.t + status) :=
  match option_map value_from_proto (proto.ReplicateRequest.value req) with
  | None => (nd, inr (InvalidArgument "missing value"))
  | Some versioned =>
    let '(nd, r) :=
      if proto.ReplicateRequest.is_delete req
      then engine_delete now io nd (proto.ReplicateRequest.key req)
      else engine_put io nd (proto.ReplicateRequest.key req) versioned in
    match r with
    | Err e => (nd, inr (Internal e))
    | Ok _ => (nd, inl (proto.ReplicateResponse.Mk true))
    end
  end.

Definition get_internal (nd : node) (req : proto.GetInternalRequest.t)
  : proto.GetInternalResponse.t + status :=
  match StorageEngine.get_raw nd.(engine) (proto.GetInternalRequest.key req) with
  | Some val => inl (proto.GetInternalResponse.Mk true (Some (value_to_proto val)))
  | None => inl (proto.GetInternalResponse.Mk false None)
  end.

Definition delete_internal (now : Z) (io : write_outcome) (nd : node)
    (req : proto.DeleteInternalRequest.t) : node * (proto.DeleteInternalResponse.t + status) :=
  let '(nd, r) := engine_delete now io nd (proto.DeleteInternalRequest.key req) in
  match r with
  | Err e => (nd, inr (Internal e))
  | Ok _ => (nd, inl (proto.DeleteInternalResponse.Mk true))
  end.

Definition gossip (at_ : nat -> Z) (nd : node) (msg : proto.GossipMessage.t)
  : node * (proto.GossipAck.t + status) :=
  let '(g, response_nodes) := GossipService.handle_gossip at_ nd.(gossip_service) msg in
  (set_gossip nd g, inl (proto.GossipAck.Mk response_nodes)).

(** The environment of one iteration of the two loops below. *)
Record write_env := Env { env_now : Z; env_io : write_outcome }.

Definition handoff_step (acc : node * Z) (p : write_env * proto.HintedWrite.t) : node * Z :=
  let '(nd, accepted) := acc in
  let '(env, hint) := p in
  match proto.HintedWrite.value hint with
  | None => (nd, accepted)
  | Some value =>
    let versioned := value_from_proto value in
    let '(nd, r) :=
      if proto.HintedWrite.is_delete hint
      then engine_delete (env_now env) (env_io env) nd (proto.HintedWrite.key hint)
      else engine_put (env_io env) nd (proto.HintedWrite.key hint) versioned in
    (nd, if is_ok r then wrap_u32 (accepted + 1) else accepted)
  end.

Definition hinted_handoff (env : nat -> write_env) (nd : node) (req : proto.HandoffRequest.t)
  : node * (proto.HandoffResponse.t + status) :=
  let '(nd, accepted) :=
    foldl handoff_step (nd, 0) (imap (fun i h => (env i, h)) (proto.HandoffRequest.hints req)) in
  (nd, inl (proto.HandoffResponse.Mk accepted)).

Definition transfer_step (acc : node * Z) (p : write_env * proto.KeyValue.t) : node * Z :=
  let '(nd, accepted) := acc in
  let '(env, kv) := p in
  let vc := clock_from (proto.KeyValue.vector_clock kv) in
  let versioned := VersionedValue.Value (proto.KeyValue.value kv) vc (now_ms (env_now env)) 0 false in
  let '(nd, r) := engine_put (env_io env) nd (proto.KeyValue.key kv) versioned in
  (nd, if is_ok r then wrap_u32 (accepted + 1) else accepted).

Definition transfer_keys (env : nat -> write_env) (nd : node) (req : proto.TransferRequest.t)
  : node * (proto.TransferResponse.t + status) :=
  let '(nd, accepted) :=
    foldl transfer_step (nd, 0) (imap (fun i kv => (env i, kv)) (proto.TransferRequest.pairs req)) in
  (nd, inl (proto.TransferResponse.Mk accepted)).

End Handlers.
End InternalServiceImpl.

(** ** Facts *)

Section Facts.
Context `{Crc32, Sha256, Json WalEntry.t, Bincode table}.

(** A successful engine write is what the table holds afterwards. *)
Lemma engine_put_stored io nd key v nd' :
  InternalServiceImpl.engine_put io nd key v = (nd', Ok tt) ->
  MemTable.data (StorageEngine.memtable (engine nd'))
  = <[key := v]> (MemTable.data (StorageEngine.memtable (engine nd))).
Proof.
  unfold InternalServiceImpl.engine_put, StorageEngine.put, StorageEngine.log_append.
  destruct (WriteAheadLog.append _ _ _ _ _) as [[w f] [s|err]]; [|done].
  intros [= <-]. cbn [set_engine engine]. by rewrite (proj1 (table_put_parts _ _ _)).
Qed.

Lemma put_stored io e d key v :
  is_ok (StorageEngine.put io e d key v).2 = true ->
  MemTable.data (StorageEngine.memtable (StorageEngine.put io e d key v).1.1)
  = <[key := v]> (MemTable.data (StorageEngine.memtable e)).
Proof.
  unfold StorageEngine.put, StorageEngine.log_append.
  destruct (WriteAheadLog.append _ _ _ _ _) as [[w f] [s|err]]; [|done].
  intros _. cbn [fst]. by rewrite (proj1 (table_put_parts _ _ _)).
Qed.

(** What a delete leaves: a tombstone one event after the stored clock. *)
Definition tombstone_of (now : Z) (e : StorageEngine.t) (key : string) : VersionedValue.t :=
  VersionedValue.tombstone now (ReplicationCoordinator.node_id e) (StorageEngine.clock_of e key).

Lemma delete_stored now io e d key :
  is_ok (StorageEngine.delete now io e d key).2 = true ->
  MemTable.data (StorageEngine.memtable (StorageEngine.delete now io e d key).1.1)
  = <[key := tombstone_of now e key]> (MemTable.data (StorageEngine.memtable e)).
Proof.
  unfold StorageEngine.delete, StorageEngine.log_append.
  by destruct (WriteAheadLog.append _ _ _ _ _) as [[w f] [s|err]].
Qed.

Lemma engine_delete_stored now io nd key nd' :
  InternalServiceImpl.engine_delete now io nd key = (nd', Ok tt) ->
  MemTable.data (StorageEngine.memtable (engine nd'))
  = <[key := tombstone_of now (engine nd) key]> (MemTable.data (StorageEngine.memtable (engine nd))).
Proof.
  unfold InternalServiceImpl.engine_delete. intros Hd.
  pose proof (delete_stored now io (engine nd) (store nd) key) as Hs.
  destruct (StorageEngine.delete now io (engine nd) (store nd) key) as [[e d] r].
  injection Hd as <- ->. by apply Hs.
Qed.

(** On a log that accepts writes, an engine write succeeds and leaves it so. *)
Lemma engine_put_ready `{!Crc32Laws, !JsonLaws WalEntry.t entry_wf} nd key v :
  log_ready (engine nd) (store nd) -> str_wf key -> value_wf v ->
  exists nd', InternalServiceImpl.engine_put WriteOk nd key v = (nd', Ok tt)
    /\ log_ready (engine nd') (store nd').
Proof.
  intros Hlog Hk Hv.
  destruct (log_append_ready (engine nd) (store nd) key v Hlog Hk Hv)
    as (w & d & n & Ha & _ & [? ? ? ?] & _).
  unfold InternalServiceImpl.engine_put, StorageEngine.put. rewrite Ha.
  eexists. split; [done|]. cbn [set_engine engine store].
  destruct (table_put_parts (StorageEngine.set_wal (engine nd) w) key v) as (_ & Hw & _).
  by split; rewrite ?Hw.
Qed.

(** The pair an iteration of a key transfer stores. *)
Definition transferred (p : InternalServiceImpl.write_env * proto.KeyValue.t)
  : string * VersionedValue.t :=
  (proto.KeyValue.key p.2,
   VersionedValue.Value (proto.KeyValue.value p.2) (clock_from (proto.KeyValue.vector_clock p.2))
     (now_ms (InternalServiceImpl.env_now p.1)) 0 false).

Lemma transfer_loop `{!Crc32Laws, !JsonLaws WalEntry.t entry_wf} l nd n :
  log_ready (engine nd) (store nd) ->
  Forall (fun p => InternalServiceImpl.env_io p.1 = WriteOk /\ str_wf (proto.KeyValue.key p.2)
    /\ clock_wf (clock_from (proto.KeyValue.vector_clock p.2))) l ->
  0 <= n -> n + Z.of_nat (length l) < 2 ^ 32 ->
  exists nd', foldl InternalServiceImpl.transfer_step (nd, n) l = (nd', n + Z.of_nat (length l))
    /\ MemTable.data (StorageEngine.memtable (engine nd'))
       = extend (MemTable.data (StorageEngine.memtable (engine nd))) (transferred <$> l).
Proof.
  revert nd n. induction l as [|[env kv] l IH]; intros nd n Hlog Hl Hn Hlt.
  { exists nd. cbn. split; [f_equal; lia|done]. }
  apply Forall_cons in Hl as [(Hio & Hk & Hc) Hl]. cbn [fst snd length] in *.
  destruct (engine_put_ready nd (proto.KeyValue.key kv) (transferred (env, kv)).2)
    as (nd1 & Hput & Hlog1); [done|done| |].
  { split_and!; [exact Hc|apply wrap_i64_range|unfold in_i64; cbn; lia]. }
  destruct (IH nd1 (n + 1) Hlog1 Hl) as (nd' & Hf & Hd); [lia|lia|].
  exists nd'. cbn [foldl]. unfold InternalServiceImpl.transfer_step at 2. rewrite Hio.
  unfold transferred in Hput. cbn [fst snd] in Hput. rewrite Hput. cbn [is_ok].
  rewrite wrap_u32_small by (unfold in_u32; lia). rewrite Hf. split; [f_equal; lia|].
  rewrite Hd, (engine_put_stored _ _ _ _ _ Hput). done.
Qed.

Lemma get_raw_data (e : StorageEngine.t) key :
  StorageEngine.get_raw e key = MemTable.data (StorageEngine.memtable e) !! key.
Proof. done. Qed.
End Facts.

(** ** Properties *)

Section Properties.
Context `{Crc32, Sha256, Json WalEntry.t, Bincode table}.

(** A put that is refused because too few replicas acknowledged it is not
    undone: the replica that coordinated it keeps the value, which later reads and
    reopens see, although the client was told that the write failed. *)
Theorem refused_put_is_kept now io nd req reply nd' message :
  Z.of_nat (length (HashRing.get_nodes (ring_of nd) (proto.PutRequest.key req))) < 2 ^ 32 ->
  HashRing.is_responsible (ring_of nd) (ReplicationCoordinator.node_id (engine nd))
    (proto.PutRequest.key req) = true ->
  let v := ReplicationCoordinator.versioned_value now (engine nd) (proto.PutRequest.key req)
             (proto.PutRequest.value req) (proto.PutRequest.ttl_ms req) in
  is_ok (StorageEngine.put io (engine nd) (store nd) (proto.PutRequest.key req) v).2 = true ->
  KvServiceImpl.put now io nd req reply = (nd', inr (Unavailable message)) ->
  StorageEngine.get_raw (engine nd') (proto.PutRequest.key req) = Some v.
Proof.
  intros Hlen Hresp v Hok. unfold KvServiceImpl.put, ReplicationCoordinator.put.
  fold v. unfold ReplicationCoordinator.put_begin. rewrite Hresp.
  pose proof (put_stored io (engine nd) (store nd) (proto.PutRequest.key req) v Hok) as Hst.
  destruct (StorageEngine.put io _ _ _ v) as [[e d] r]. intros [= <- _].
  rewrite get_raw_data. cbn [set_engine engine fst] in *. rewrite Hst. apply lookup_insert_eq.
Qed.

(** The clock of a put request, documented as the version to compare with, is
    ignored; and replication stores whatever it receives: a peer that is sent an older
    version overwrites a newer one that supersedes it. *)
Theorem versions_are_not_compared now io nd key value ttl w cas cas' reply v nd' :
  KvServiceImpl.put now io nd (proto.PutRequest.Mk key value ttl w cas) reply
    = KvServiceImpl.put now io nd (proto.PutRequest.Mk key value ttl w cas') reply
  /\ (InternalServiceImpl.replicate now io nd (ReplicationCoordinator.replicate_request key v)
        = (nd', inl (proto.ReplicateResponse.Mk true)) ->
      StorageEngine.get_raw (engine nd') key = Some (undeleted v)).
Proof.
  split; [done|]. unfold InternalServiceImpl.replicate. cbn.
  change (value_from_proto (to_proto_versioned v)) with (from_proto_versioned (to_proto_versioned v)).
  rewrite value_roundtrip. destruct (InternalServiceImpl.engine_put io nd key (undeleted v)) as [nd1 [[]|]] eqn:E;
    [|done].
  intros [= <-]. rewrite get_raw_data, (engine_put_stored _ _ _ _ _ E). apply lookup_insert_eq.
Qed.

(** A key that was deleted on its only replica reads through any other node
    as found, with an empty value and the tombstone's clock, until the tombstone
    expires: the reply of the replica does not say that the value is a tombstone. *)
Theorem deleted_key_is_found_remotely at_ nd owner n req t :
  let key := proto.GetRequest.key req in
  HashRing.get_nodes (ring_of nd) key = [n] ->
  Node.id n <> ReplicationCoordinator.node_id (engine nd) ->
  QuorumConfig.effective_read_quorum (ReplicationCoordinator.quorum (coordinator nd))
    (proto.GetRequest.read_quorum req) <= 1 ->
  StorageEngine.get_raw (engine owner) key = Some t -> VersionedValue.deleted t = true ->
  VersionedValue.value t = [] -> VersionedValue.is_expired (at_ O) t = false ->
  KvServiceImpl.get at_ nd req
    (fun _ r => match InternalServiceImpl.get_internal owner r with
                | inl resp => Replied resp | inr _ => RpcFailed end)
  = inl (proto.GetResponse.Mk true [] (Some (vc_to_proto (VersionedValue.vector_clock t)))).
Proof.
  intros key Hn Hid Hq Ht Hd Hv He. unfold KvServiceImpl.get. fold key.
  unfold ReplicationCoordinator.get.
  match goal with |- context [ReplicationCoordinator.get_finish ?c ?a ?q
      (ReplicationCoordinator.get_begin ?r ?e ?k) ?l] =>
    destruct (get_finish_counts c a r e k q l) as (Hs & _ & Hreq & Hval);
      [apply length_fmap|by rewrite Hn|] end.
  rewrite Hn in *. unfold KvServiceImpl.get_reply, QuorumResult.is_success.
  rewrite Hs, Hreq, (proj2 (Z.leb_le _ _)) by done. cbn [negb].
  assert (HashRing.is_responsible (ring_of nd) (ReplicationCoordinator.node_id (engine nd)) key = false) as Hr.
  { apply not_true_iff_false. rewrite is_responsible_spec, Hn. cbn.
    intros ?%list_elem_of_singleton. congruence. }
  rewrite Hval, Hr. unfold ReplicationCoordinator.peers. rewrite Hn, filter_cons, decide_True by done.
  assert (InternalServiceImpl.get_internal owner (ReplicationCoordinator.get_request key)
    = inl (proto.GetInternalResponse.Mk true (Some (value_to_proto t)))) as Hg.
  { unfold InternalServiceImpl.get_internal, ReplicationCoordinator.get_request.
    cbn [proto.GetInternalRequest.key]. by rewrite Ht. }
  cbn [fmap list_fmap app filter list_filter]. rewrite Hg.
  cbn [ReplicationCoordinator.read_value proto.GetInternalResponse.found
    proto.GetInternalResponse.value option_map].
  change (value_to_proto t) with (to_proto_versioned t).
  rewrite value_roundtrip. unfold ReplicationCoordinator.resolve_conflicts. cbn.
  unfold ReplicationCoordinator.resolve_step. cbn.
  change (VersionedValue.is_expired (at_ 0%nat) (undeleted t)) with (VersionedValue.is_expired (at_ 0%nat) t).
  rewrite He. cbn. by rewrite Hv.
Qed.

(** With a log that accepts writes, a key transfer stores every pair, in
    order, under the transferred clock and the receiver's time, and reports their
    number. *)
Theorem transfer_stores_every_pair `{!Crc32Laws, !JsonLaws WalEntry.t entry_wf}
    (nowf : nat -> Z) nd req :
  log_ready (engine nd) (store nd) ->
  Forall (fun kv => str_wf (proto.KeyValue.key kv)
           /\ clock_wf (clock_from (proto.KeyValue.vector_clock kv))) (proto.TransferRequest.pairs req) ->
  Z.of_nat (length (proto.TransferRequest.pairs req)) < 2 ^ 32 ->
  let '(nd', r) := InternalServiceImpl.transfer_keys
    (fun i => InternalServiceImpl.Env (nowf i) WriteOk) nd req in
  r = inl (proto.TransferResponse.Mk (Z.of_nat (length (proto.TransferRequest.pairs req))))
  /\ MemTable.data (StorageEngine.memtable (engine nd'))
     = extend (MemTable.data (StorageEngine.memtable (engine nd)))
         (imap (fun i kv => (proto.KeyValue.key kv,
            VersionedValue.Value (proto.KeyValue.value kv) (clock_from (proto.KeyValue.vector_clock kv))
              (now_ms (nowf i)) 0 false)) (proto.TransferRequest.pairs req)).
Proof.
  intros Hlog Hwf Hlen. unfold InternalServiceImpl.transfer_keys.
  set (l := imap _ _).
  destruct (transfer_loop l nd 0 Hlog) as (nd' & Hf & Hd); [|done|by unfold l; rewrite length_imap|].
  { apply Forall_lookup. intros i p. unfold l. rewrite list_lookup_imap. intros Hi.
    apply fmap_Some in Hi as (kv & Hkv & ->). split; [done|].
    rewrite Forall_lookup in Hwf. by apply (Hwf i). }
  rewrite Hf. unfold l in *. rewrite length_imap. split; [done|].
  rewrite Hd, fmap_imap. done.
Qed.
End Properties.

(** ** The properties at concrete nodes *)

Section Witnesses.
Import Toy.

(** A node with an empty store, given the other two as seeds. *)
Definition fresh_node (id addr : string) (seeds : list (string * string)) : node :=
  MkNode
    (StorageEngine.Engine (MemTable.new 100000)
      (WriteAheadLog.Log "./data/wal.log" (WriteAheadLog.Writer [] None) 0)
      (StorageConfig.Config "./data" 100000 300000 60000 3 id) false)
    (Disk (Some []) ∅)
    (foldl (fun g s => GossipService.add_seed 0 g s.1 s.2)
      (GossipService.new id addr (HashRing.new 3 3) GossipConfig.default) seeds)
    (ReplicationCoordinator.new QuorumConfig.default_strong).

Definition server_1 : node :=
  fresh_node "n1" "10.0.0.1:7000" [("n2", "10.0.0.2:7000"); ("n3", "10.0.0.3:7000")].
Definition server_2 : node :=
  fresh_node "n2" "10.0.0.2:7000" [("n1", "10.0.0.1:7000"); ("n3", "10.0.0.3:7000")].
Definition server_3 : node :=
  fresh_node "n3" "10.0.0.3:7000" [("n1", "10.0.0.1:7000"); ("n2", "10.0.0.2:7000")].

Definition put_key : proto.PutRequest.t := proto.PutRequest.Mk "key" [Byte.x61] 0 0 None.

Example refused_put_is_kept_witness :
  let nd' := (KvServiceImpl.put at_ms WriteOk server_1 put_key (fun _ _ => RpcTimedOut)).1 in
  StorageEngine.get_raw (engine nd') "key"
  = Some (ReplicationCoordinator.versioned_value at_ms (engine server_1) "key" [Byte.x61] 0).
Proof.
  intros nd'.
  apply (refused_put_is_kept at_ms WriteOk server_1 put_key (fun _ _ => RpcTimedOut) nd'
    "Write quorum not met: got 1/2 successes"); vm_compute; reflexivity.
Defined.

Example versions_are_not_compared_witness :
  StorageEngine.get_raw (engine (InternalServiceImpl.replicate 0 WriteOk server_1
    (ReplicationCoordinator.replicate_request "key" value_a)).1) "key" = Some value_a.
Proof.
  apply (versions_are_not_compared 0 WriteOk server_1 "key" [] 0 0 None None (fun _ _ => RpcFailed)
    value_a). vm_compute. reflexivity.
Defined.

(** A cluster of one replica per key: ["n2"] owns the key and deletes it. *)
Definition lone_ring : HashRing.t := HashRing.add_node (HashRing.new 3 1) (Node.Mk "n2" "10.0.0.2:7000").
Definition reader : node :=
  set_gossip server_1 (GossipService.set_ring (gossip_service server_1) lone_ring).
Definition owner : node := (InternalServiceImpl.engine_delete at_ms WriteOk server_2 "key").1.
Definition tomb : VersionedValue.t := VersionedValue.tombstone at_ms "n2" VectorClock.new.

Example deleted_key_is_found_remotely_witness :
  exists clock, KvServiceImpl.get (fun _ => at_ms) reader (proto.GetRequest.Mk "key" 1)
    (fun _ r => match InternalServiceImpl.get_internal owner r with
                | inl resp => Replied resp | inr _ => RpcFailed end)
  = inl (proto.GetResponse.Mk true [] clock).
Proof.
  eexists.
  apply (deleted_key_is_found_remotely (fun _ => at_ms) reader owner (Node.Mk "n2" "10.0.0.2:7000")
    (proto.GetRequest.Mk "key" 1) tomb); vm_compute; congruence.
Defined.

Definition transfer_1 : proto.TransferRequest.t :=
  proto.TransferRequest.Mk
    [proto.KeyValue.Mk "a" [Byte.x61] (Some (proto.VectorClock.Mk {["n9" := 4%N]}));
     proto.KeyValue.Mk "b" [] None].

Example transfer_stores_every_pair_witness :
  (InternalServiceImpl.transfer_keys (fun i => InternalServiceImpl.Env 5 WriteOk) server_1 transfer_1).2
  = inl (proto.TransferResponse.Mk 2).
Proof.
  pose proof (transfer_stores_every_pair (fun _ => 5) server_1 transfer_1) as Ht.
  destruct (InternalServiceImpl.transfer_keys _ server_1 transfer_1) as [nd' r].
  destruct Ht as [Hr _].
  - split; [by eexists|by split|by left|decided].
  - decided.
  - vm_compute. reflexivity.
  - cbn [snd]. rewrite Hr. reflexivity.
Defined.
End Witnesses.
