(* ===== verification/Cluster.v ===== *)
(** A cluster of nodes and the network between them: the handlers of Service.v of
    several nodes, connected by calls that may be lost on the way there or back.

    A node is known by its address. A coordinated put, delete or get of
    src/src/grpc/service.rs runs at one node; its calls to the peers are the
    [replicate], [delete_internal] and [get_internal] handlers of the nodes at their
    addresses. The peers are distinct nodes, so the order
    in which the concurrent calls take effect does not matter; they are run in the order
    of the preference list. *)

From S2P Require Import Prelude Bytes BTreeMap VectorClock Memtable Externals Wal Snapshot.
From S2P Require Import Engine EngineDurability EngineRace ConsistentHash Quorum Proto Coordinator Detector Service.
Open Scope Z_scope.

(** What the network does with a call. *)
Inductive delivery := Delivered | LostRequest | LostReply.

(** The circumstances of a call to one node: the network, and that node's clock and disk. *)
Record link := Link { l_delivery : delivery; l_now : Z; l_io : write_outcome }.

Abbreviation cluster := (gmap string node).

Section Network.
Context `{Crc32, Sha256, Json WalEntry.t, Bincode table}.

Definition rpc_reply {A} (dv : delivery) (r : A + status) : rpc_result A :=
  match dv with
  | Delivered => match r with inl resp => Replied resp | inr _ => RpcFailed end
  | LostRequest | LostReply => RpcTimedOut
  end.

(** One call that may change the called node; connecting to an address without a node
    fails. *)
Definition call_node {B} (l : link) (cl : cluster) (addr : string)
    (handler : node -> node * (B + status)) : cluster * rpc_result B :=
  match l_delivery l, cl !! addr with
  | LostRequest, _ => (cl, RpcTimedOut)
  | _, None => (cl, RpcFailed)
  | dv, Some nd => let '(nd, r) := handler nd in (<[addr := nd]> cl, rpc_reply dv r)
  end.

Definition call_replicate (l : link) (cl : cluster) (addr : string) (req : proto.ReplicateRequest.t)
  : cluster * rpc_result proto.ReplicateResponse.t :=
  call_node l cl addr (fun nd => InternalServiceImpl.replicate (l_now l) (l_io l) nd req).

Definition call_delete_internal (l : link) (cl : cluster) (addr : string)
    (req : proto.DeleteInternalRequest.t) : cluster * rpc_result proto.DeleteInternalResponse.t :=
  call_node l cl addr (fun nd => InternalServiceImpl.delete_internal (l_now l) (l_io l) nd req).

Definition call_get_internal (l : link) (cl : cluster) (addr : string)
    (req : proto.GetInternalRequest.t) : rpc_result proto.GetInternalResponse.t :=
  match l_delivery l, cl !! addr with
  | LostRequest, _ => RpcTimedOut
  | _, None => RpcFailed
  | dv, Some nd => rpc_reply dv (InternalServiceImpl.get_internal nd req)
  end.

(** The calls to a list of nodes, and their joined replies. *)
Definition call_step {B} (call : Node.t -> cluster -> cluster * rpc_result B)
    (acc : cluster * list (rpc_result B)) (n : Node.t) : cluster * list (rpc_result B) :=
  let '(cl, replies) := acc in
  let '(cl, reply) := call n cl in
  (cl, replies ++ [reply]).

Definition call_all {B} (call : Node.t -> cluster -> cluster * rpc_result B) (cl : cluster)
    (ns : list Node.t) : cluster * list (rpc_result B) :=
  foldl (call_step call) (cl, []) ns.

(** All the calls of a coordinated put. *)
Definition replicate_all (net : Node.t -> link) (req : proto.ReplicateRequest.t) (cl : cluster)
    (ns : list Node.t) : cluster * list (rpc_result proto.ReplicateResponse.t) :=
  call_all (fun n cl => call_replicate (net n) cl (Node.address n) req) cl ns.

(** All the calls of a coordinated delete. *)
Definition delete_all (net : Node.t -> link) (req : proto.DeleteInternalRequest.t) (cl : cluster)
    (ns : list Node.t) : cluster * list (rpc_result proto.DeleteInternalResponse.t) :=
  call_all (fun n cl => call_delete_internal (net n) cl (Node.address n) req) cl ns.

(** A client's put, at the node [nd] at address [a]. *)
Definition cluster_put (net : Node.t -> link) (now : Z) (io : write_outcome) (cl : cluster)
    (a : string) (nd : node) (req : proto.PutRequest.t) : cluster * (proto.PutResponse.t + status) :=
  let key := proto.PutRequest.key req in
  let v := ReplicationCoordinator.versioned_value now (engine nd) key
             (proto.PutRequest.value req) (proto.PutRequest.ttl_ms req) in
  let '(e, d, counts) :=
    ReplicationCoordinator.put_begin (ring_of nd) io (engine nd) (store nd) key v in
  let cl := <[a := set_engine nd e d]> cl in
  let '(cl, replies) :=
    replicate_all net (ReplicationCoordinator.replicate_request key v) cl
      (ReplicationCoordinator.peers (ring_of nd) (ReplicationCoordinator.node_id (engine nd)) key) in
  (cl, KvServiceImpl.put_reply
         (ReplicationCoordinator.put_finish (coordinator nd) (proto.PutRequest.write_quorum req)
            v counts replies)).

(** A client's delete, at the node [nd] at address [a]. *)
Definition cluster_delete (net : Node.t -> link) (now : Z) (io : write_outcome) (cl : cluster)
    (a : string) (nd : node) (req : proto.DeleteRequest.t)
  : cluster * (proto.DeleteResponse.t + status) :=
  let key := proto.DeleteRequest.key req in
  let '(e, d, counts) :=
    ReplicationCoordinator.delete_begin (ring_of nd) now io (engine nd) (store nd) key in
  let cl := <[a := set_engine nd e d]> cl in
  let '(cl, replies) :=
    delete_all net (ReplicationCoordinator.delete_request e key) cl
      (ReplicationCoordinator.peers (ring_of nd) (ReplicationCoordinator.node_id (engine nd)) key) in
  let result := ReplicationCoordinator.delete_finish (coordinator nd)
                  (proto.DeleteRequest.write_quorum req) counts replies in
  (cl, inl (proto.DeleteResponse.Mk (QuorumResult.is_success result))).

(** A client's get, at the node [nd]. *)
Definition cluster_get (net : Node.t -> link) (at_ : nat -> Z) (cl : cluster) (nd : node)
    (req : proto.GetRequest.t) : proto.GetResponse.t + status :=
  KvServiceImpl.get at_ nd req (fun n r => call_get_internal (net n) cl (Node.address n) r).
End Network.

(** ** Specification *)

Section Spec.
Context `{Crc32, Sha256, Json WalEntry.t, Bincode table}.

(** The replica [n] is there and satisfies [P]. *)
Definition at_replica (P : node -> Prop) (cl : cluster) (n : Node.t) : Prop :=
  match cl !! Node.address n with Some nd => P nd | None => False end.

#[export] Instance at_replica_dec P `{!forall nd, Decision (P nd)} cl n : Decision (at_replica P cl n).
Proof. unfold at_replica. destruct (cl !! Node.address n); apply _. Defined.

(** The replica [n] stores exactly [v] for the key. *)
Definition stores (key : string) (v : VersionedValue.t) (nd : node) : Prop :=
  StorageEngine.get_raw (engine nd) key = Some v.

#[export] Instance stores_dec key v nd : Decision (stores key v nd).
Proof. unfold stores; apply _. Defined.

Definition holds (cl : cluster) (key : string) (v : VersionedValue.t) : Node.t -> Prop :=
  at_replica (stores key v) cl.

#[export] Instance holds_dec cl key v n : Decision (holds cl key v n).
Proof. unfold holds; apply _. Defined.

(** The node stores a tombstone for the key, written at one of the [times]. *)
Definition buried_at (times : list Z) (key : string) (nd : node) : Prop :=
  match StorageEngine.get_raw (engine nd) key with
  | Some v => VersionedValue.deleted v = true /\ VersionedValue.value v = []
      /\ VersionedValue.ttl_ms v = 300000 /\ VersionedValue.timestamp_ms v ∈ times
  | None => False
  end.

#[export] Instance buried_at_dec times key nd : Decision (buried_at times key nd).
Proof. unfold buried_at. destruct (StorageEngine.get_raw _ _); apply _. Defined.

Definition buried (times : list Z) (cl : cluster) (key : string) : Node.t -> Prop :=
  at_replica (buried_at times key) cl.

#[export] Instance buried_dec times cl key n : Decision (buried times cl key n).
Proof. unfold buried; apply _. Defined.

(** The replica [n] answers a read: it is the reader, or it is there and the call gets
    through both ways. *)
Definition answers (net : Node.t -> link) (cl : cluster) (my_id : string) (n : Node.t) : Prop :=
  Node.id n = my_id \/ (l_delivery (net n) = Delivered /\ is_Some (cl !! Node.address n)).

#[export] Instance delivery_eq_dec : EqDecision delivery.
Proof. solve_decision. Defined.
#[export] Instance answers_dec net cl my_id n : Decision (answers net cl my_id n).
Proof. unfold answers; apply _. Defined.

#[export] Typeclasses Opaque stores buried_at at_replica holds buried answers.

(** The node at [a] is on the ring, if at all, at its own address, and no two replicas
    of the key share an address. *)
Definition well_addressed (a : string) (nd : node) (key : string) : Prop :=
  NoDup (Node.address <$> HashRing.get_nodes (ring_of nd) key)
  /\ forall n, n ∈ HashRing.get_nodes (ring_of nd) key ->
       Node.id n = ReplicationCoordinator.node_id (engine nd) -> Node.address n = a.
End Spec.

(** ** Facts *)

Section Facts.
Context `{Crc32, Sha256, Json WalEntry.t, Bincode table}.

(** A replica that acknowledged a put stores the value it was sent. *)
Lemma replicate_stores now io nd nd' key v resp :
  VersionedValue.deleted v = false ->
  InternalServiceImpl.replicate now io nd (ReplicationCoordinator.replicate_request key v)
    = (nd', inl resp) -> stores key v nd'.
Proof.
  intros Hlive. unfold InternalServiceImpl.replicate. cbn.
  change (value_from_proto (to_proto_versioned v)) with (from_proto_versioned (to_proto_versioned v)).
  rewrite value_roundtrip, undeleted_id by done.
  destruct (InternalServiceImpl.engine_put io nd key v) as [nd1 [[]|]] eqn:E; [|done].
  intros [= <- _]. unfold stores. rewrite get_raw_data, (engine_put_stored _ _ _ _ _ E).
  apply lookup_insert_eq.
Qed.

Lemma tombstone_buried times now e key nd :
  now_ms now ∈ times ->
  MemTable.data (StorageEngine.memtable (engine nd)) !! key = Some (tombstone_of now e key) ->
  buried_at times key nd.
Proof. intros Ht Hk. unfold buried_at. by rewrite get_raw_data, Hk. Qed.

(** A replica that acknowledged a delete stores its own tombstone. *)
Lemma delete_buries times now io nd nd' key vc resp :
  now_ms now ∈ times ->
  InternalServiceImpl.delete_internal now io nd (proto.DeleteInternalRequest.Mk key vc)
    = (nd', inl resp) -> buried_at times key nd'.
Proof.
  intros Ht. unfold InternalServiceImpl.delete_internal. cbn.
  destruct (InternalServiceImpl.engine_delete now io nd key) as [nd1 [[]|]] eqn:E; [|done].
  intros [= <- _]. apply (tombstone_buried _ now (engine nd)); [done|].
  rewrite (engine_delete_stored _ _ _ _ _ E). apply lookup_insert_eq.
Qed.

Lemma acks_app l1 l2 : acks (l1 ++ l2) = acks l1 + acks l2.
Proof. unfold acks. rewrite filter_app, length_app. lia. Qed.

Lemma at_replica_other P cl cl' n :
  cl' !! Node.address n = cl !! Node.address n -> at_replica P cl' n <-> at_replica P cl n.
Proof. intros E. unfold at_replica. by rewrite E. Qed.

(** One call touches the node at its address only, and removes none. *)
Section Call.
Context {B : Type} (l : link) (handler : node -> node * (B + status)).

Lemma call_node_other cl addr addr' :
  addr' <> addr -> (call_node l cl addr handler).1 !! addr' = cl !! addr'.
Proof.
  intros Hne. unfold call_node.
  destruct (l_delivery l), (cl !! addr) as [nd|]; try done;
    destruct (handler nd) as [nd' r]; cbn; by rewrite lookup_insert_ne.
Qed.

Lemma call_node_dom cl addr addr' :
  is_Some ((call_node l cl addr handler).1 !! addr') <-> is_Some (cl !! addr').
Proof.
  destruct (decide (addr' = addr)) as [->|Hne]; [|by rewrite call_node_other].
  unfold call_node.
  destruct (l_delivery l), (cl !! addr) as [nd|] eqn:E; cbn; rewrite ?E; try done;
    destruct (handler nd) as [nd' r]; cbn; rewrite lookup_insert_eq; split; eauto.
Qed.

Lemma call_node_replied cl addr resp :
  (call_node l cl addr handler).2 = Replied resp ->
  exists nd nd', handler nd = (nd', inl resp) /\ (call_node l cl addr handler).1 !! addr = Some nd'.
Proof.
  unfold call_node. destruct (l_delivery l), (cl !! addr) as [nd|]; try done;
    destruct (handler nd) as [nd' [r|st]] eqn:E; try done.
  cbn. intros [= ->]. exists nd, nd'. by rewrite lookup_insert_eq.
Qed.
End Call.

Section Calls.
Context {B : Type} (net : Node.t -> link) (handler : link -> node -> node * (B + status)).
Context (success : rpc_result B -> bool) (P : node -> Prop) `{!forall nd, Decision (P nd)}.
Context (targets : list Node.t).
Hypothesis success_replied : forall r, success r = true -> exists resp, r = Replied resp.
Hypothesis handler_ok : forall n nd nd' resp,
  n ∈ targets -> handler (net n) nd = (nd', inl resp) -> P nd'.

Let call (n : Node.t) (cl : cluster) := call_node (net n) cl (Node.address n) (handler (net n)).
Let acked (replies : list (rpc_result B)) : Z := acks (success <$> replies).
Let holders (cl : cluster) (ns : list Node.t) : Z :=
  Z.of_nat (length (filter (at_replica P cl) ns)).

(** Over a list of targets: replies in number, at least as many nodes with [P] as
    acknowledgements, and nothing else touched. *)
Lemma call_all_holds cl ns :
  ns ⊆ targets -> NoDup (Node.address <$> ns) ->
  let '(cl', replies) := call_all call cl ns in
  length replies = length ns
  /\ acked replies <= holders cl' ns
  /\ (forall addr, addr ∉ Node.address <$> ns -> cl' !! addr = cl !! addr)
  /\ (forall addr, is_Some (cl' !! addr) <-> is_Some (cl !! addr)).
Proof.
  induction ns as [|n ns IH] using rev_ind; intros Hsub Hnd; [done|].
  rewrite fmap_app in Hnd. apply NoDup_app in Hnd as (Hnd & Hdisj & _).
  unfold call_all in *. rewrite foldl_app. specialize (IH ltac:(set_solver) Hnd).
  destruct (foldl (call_step call) (cl, []) ns) as [cl1 replies].
  destruct IH as (Hlen & Hack & Hoth & Hdom). cbn [foldl call_step].
  pose proof (call_node_replied (net n) (handler (net n)) cl1 (Node.address n)) as Hh.
  pose proof (call_node_other (net n) (handler (net n)) cl1 (Node.address n)) as Ho.
  pose proof (call_node_dom (net n) (handler (net n)) cl1 (Node.address n)) as Hd.
  fold (call n cl1) in Hh, Ho, Hd. destruct (call n cl1) as [cl2 r]. cbn [fst snd] in *.
  assert (forall m, m ∈ ns -> Node.address m <> Node.address n) as Hne.
  { intros m Hm Heq. apply (Hdisj (Node.address m)); [by apply list_elem_of_fmap_2|].
    rewrite Heq. by left. }
  split_and!.
  - rewrite !length_app. cbn. lia.
  - unfold acked, holders in *. rewrite fmap_app, acks_app, filter_app, length_app.
    assert (length (filter (at_replica P cl2) ns) = length (filter (at_replica P cl1) ns)) as ->.
    { f_equal. apply list_filter_iff_elem. intros m Hm. apply at_replica_other, Ho. by apply Hne. }
    change (success <$> [r]) with [success r]. rewrite acks_cons, filter_cons, filter_nil.
    change (acks []) with 0.
    destruct (success r) eqn:Es; [|case_decide; cbn; lia].
    apply success_replied in Es as [resp ->]. destruct (Hh resp eq_refl) as (nd & nd' & Hc & Hnd').
    rewrite decide_True; [cbn; lia|]. unfold at_replica. rewrite Hnd'.
    apply (handler_ok n nd nd' resp); [|done]. apply Hsub, elem_of_app. right. by left.
  - intros addr Haddr. rewrite fmap_app, not_elem_of_app in Haddr. destruct Haddr as [Ha1 Ha2].
    rewrite Ho; [by apply Hoth|]. intros ->. apply Ha2. by left.
  - intros addr. by rewrite Hd.
Qed.
End Calls.
End Facts.

(** ** Quorums *)

Section Quorums.
Context `{Crc32, Sha256, Json WalEntry.t, Bincode table}.

(** Replicas of a key in a list, split into one identifier and the others. *)
Lemma filter_split (P : Node.t -> Prop) `{!forall n, Decision (P n)} (x : string) (l : list Node.t) :
  length (filter P l)
  = (length (filter P (filter (fun n => Node.id n = x) l))
     + length (filter P (filter (fun n => Node.id n <> x) l)))%nat.
Proof.
  induction l as [|n l IH]; [done|]. rewrite !filter_cons.
  destruct (decide (Node.id n = x)) as [Hx|Hx];
    [rewrite (decide_False (P:=Node.id n <> x)) by tauto|rewrite (decide_True (P:=Node.id n <> x)) by done];
    rewrite filter_cons; destruct (decide (P n)); cbn [length]; lia.
Qed.

Lemma filter_nonempty {A} (P : A -> Prop) `{!forall x, Decision (P x)} (l : list A) x :
  x ∈ l -> P x -> (1 <= length (filter P l))%nat.
Proof.
  intros Hx HP. assert (x ∈ filter P l) as Hin by by apply list_elem_of_filter.
  destruct (filter P l); [by apply not_elem_of_nil in Hin|cbn; lia].
Qed.

(** Two sub-lists that together are longer than the list share an element. *)
Lemma filters_meet {A} (P Q : A -> Prop) `{!forall x, Decision (P x), !forall x, Decision (Q x)}
    (l : list A) :
  (length l < length (filter P l) + length (filter Q l))%nat -> exists x, x ∈ l /\ P x /\ Q x.
Proof.
  induction l as [|x l IH]; cbn [length]; [cbn; lia|]. rewrite !filter_cons.
  destruct (decide (P x)) as [HP|HP], (decide (Q x)) as [HQ|HQ]; cbn [length]; intros Hlt;
    try (destruct IH as (y & Hy & HPQ); [lia|]; exists y; split; [by right|done]).
  exists x. split; [by left|done].
Qed.

(** Every acknowledgement a coordinated request counts, the local one included, is a
    replica that did what was asked. *)
Lemma quorum_holders {B} net (handler : link -> node -> node * (B + status))
    (success : rpc_result B -> bool) (P : node -> Prop) `{!forall nd, Decision (P nd)}
    cl a nd nd1 key ok :
  let my_id := ReplicationCoordinator.node_id (engine nd) in
  let nodes := HashRing.get_nodes (ring_of nd) key in
  let local := HashRing.is_responsible (ring_of nd) my_id key && ok in
  let ps := ReplicationCoordinator.peers (ring_of nd) my_id key in
  (forall r, success r = true -> exists resp, r = Replied resp) ->
  (forall n nd nd' resp, n ∈ nodes -> handler (net n) nd = (nd', inl resp) -> P nd') ->
  well_addressed a nd key -> (local = true -> P nd1) ->
  let '(cl', replies) :=
    call_all (fun n cl => call_node (net n) cl (Node.address n) (handler (net n))) (<[a := nd1]> cl) ps in
  length replies = length ps
  /\ (if local then 1 else 0) + acks (success <$> replies)
     <= Z.of_nat (length (filter (at_replica P cl') nodes)).
Proof.
  intros my_id nodes local ps Hsucc Hhandler [Hnd Hself] Hlocal.
  assert (ps ⊆ nodes) as Hsub by (intros n [Hn _]%elem_of_peers; done).
  assert (NoDup (Node.address <$> ps)) as Hps by by apply NoDup_fmap_filter.
  pose proof (call_all_holds net handler success P nodes Hsucc Hhandler (<[a := nd1]> cl) ps Hsub Hps)
    as Hall.
  destruct (call_all _ _ _) as [cl1 replies]. destruct Hall as (Hrl & Hack & Hoth & _).
  split; [done|]. rewrite (filter_split _ my_id), Nat2Z.inj_add.
  change (filter (fun n => Node.id n <> my_id) nodes) with ps. apply Z.add_le_mono; [|exact Hack].
  destruct local eqn:El; [|lia]. pose proof El as Er. apply andb_true_iff in Er as [Er _].
  apply is_responsible_spec, list_elem_of_fmap in Er as (n & Hn & Hin).
  assert (Node.address n = a) as Ha by by apply Hself.
  apply (inj_le 1), (filter_nonempty _ _ n); [by apply list_elem_of_filter|].
  unfold at_replica. rewrite Ha, Hoth, lookup_insert_eq; [by apply Hlocal|].
  intros Hin'. apply list_elem_of_fmap in Hin' as (m & Hm & Hmp).
  apply elem_of_peers in Hmp as [Hmin Hmid]. apply Hmid. rewrite Hn. f_equal.
  apply (NoDup_fmap_elem_inj Node.address nodes); [done|done|done|congruence].
Qed.

Lemma put_holders net now io cl a nd req :
  let key := proto.PutRequest.key req in
  let v := ReplicationCoordinator.versioned_value now (engine nd) key
             (proto.PutRequest.value req) (proto.PutRequest.ttl_ms req) in
  let nodes := HashRing.get_nodes (ring_of nd) key in
  Z.of_nat (length nodes) < 2 ^ 32 -> well_addressed a nd key ->
  forall cl' resp, cluster_put net now io cl a nd req = (cl', inl resp) ->
  QuorumConfig.effective_write_quorum (ReplicationCoordinator.quorum (coordinator nd))
    (proto.PutRequest.write_quorum req)
  <= Z.of_nat (length (filter (holds cl' key v) nodes)).
Proof.
  intros key v nodes Hlen Hadd cl' resp. unfold cluster_put. fold key v.
  pose proof (fun replies Hl => put_finish_counts (coordinator nd) (ring_of nd) io (engine nd)
    (store nd) key v (proto.PutRequest.write_quorum req) replies Hl Hlen) as Hc.
  destruct (ReplicationCoordinator.put_begin _ _ _ _ _ _) as [[e d] counts] eqn:Eb.
  unfold replicate_all, call_replicate.
  match goal with |- context [call_all ?c _ ?ps] =>
    pose proof (quorum_holders net
      (fun l nd => InternalServiceImpl.replicate (l_now l) (l_io l) nd
                     (ReplicationCoordinator.replicate_request key v))
      ReplicationCoordinator.replicate_success (stores key v) cl a nd (set_engine nd e d) key
      (is_ok (StorageEngine.put io (engine nd) (store nd) key v).2)) as Hq;
    cbn zeta in Hq; destruct (call_all c _ ps) as [cl1 replies] end.
  destruct Hq as [Hl Hq].
  { intros []; [by eexists|done..]. }
  { intros n nd0 nd0' resp0 _. by apply replicate_stores. }
  { done. }
  { intros [Hr Hok]%andb_true_iff. unfold ReplicationCoordinator.put_begin in Eb. rewrite Hr in Eb.
    unfold stores. cbn [set_engine engine]. rewrite get_raw_data.
    pose proof (put_stored _ _ _ _ _ Hok) as Hst.
    destruct (StorageEngine.put io _ _ key v) as [[e1 d1] r]. injection Eb as <- <- _. cbn [fst] in Hst.
    rewrite Hst. apply lookup_insert_eq. }
  destruct (Hc replies Hl) as (_ & Hs & _). rewrite <-Hs in Hq.
  unfold KvServiceImpl.put_reply. destruct (QuorumResult.is_success _) eqn:Eq; [|done].
  cbn [negb]. intros [= <- _]. etrans; [|exact Hq].
  unfold QuorumResult.is_success in Eq. apply Z.leb_le in Eq. etrans; [|exact Eq].
  unfold ReplicationCoordinator.put_finish. by destruct (foldl _ _ _).
Qed.

(** The same for deletes: the tombstones are written now, or at the time of the call. *)
Definition delete_times (net : Node.t -> link) (now : Z) (nodes : list Node.t) : list Z :=
  now_ms now :: ((fun n => now_ms (l_now (net n))) <$> nodes).

Lemma delete_holders net now io cl a nd req :
  let key := proto.DeleteRequest.key req in
  let nodes := HashRing.get_nodes (ring_of nd) key in
  Z.of_nat (length nodes) < 2 ^ 32 -> well_addressed a nd key ->
  forall cl', cluster_delete net now io cl a nd req = (cl', inl (proto.DeleteResponse.Mk true)) ->
  QuorumConfig.effective_write_quorum (ReplicationCoordinator.quorum (coordinator nd))
    (proto.DeleteRequest.write_quorum req)
  <= Z.of_nat (length (filter (buried (delete_times net now nodes) cl' key) nodes)).
Proof.
  intros key nodes Hlen Hadd cl'. unfold cluster_delete. fold key.
  pose proof (fun replies Hl => delete_finish_counts (coordinator nd) (ring_of nd) now io (engine nd)
    (store nd) key (proto.DeleteRequest.write_quorum req) replies Hl Hlen) as Hc.
  destruct (ReplicationCoordinator.delete_begin _ _ _ _ _ _) as [[e d] counts] eqn:Eb.
  unfold delete_all, call_delete_internal.
  match goal with |- context [call_all ?c _ ?ps] =>
    pose proof (quorum_holders net
      (fun l nd => InternalServiceImpl.delete_internal (l_now l) (l_io l) nd
                     (ReplicationCoordinator.delete_request e key))
      ReplicationCoordinator.delete_success (buried_at (delete_times net now nodes) key) cl a nd
      (set_engine nd e d) key
      (is_ok (StorageEngine.delete now io (engine nd) (store nd) key).2)) as Hq;
    cbn zeta in Hq; destruct (call_all c _ ps) as [cl1 replies] end.
  destruct Hq as [Hl Hq].
  { intros []; [by eexists|done..]. }
  { intros n nd0 nd0' resp0 Hn. apply delete_buries. right. apply list_elem_of_fmap. by exists n. }
  { done. }
  { intros [Hr Hok]%andb_true_iff. unfold ReplicationCoordinator.delete_begin in Eb. rewrite Hr in Eb.
    apply (tombstone_buried _ now (engine nd)); [by left|]. cbn [set_engine engine].
    pose proof (delete_stored _ _ _ _ _ Hok) as Hst.
    destruct (StorageEngine.delete now io _ _ key) as [[e1 d1] r]. injection Eb as <- <- _.
    cbn [fst] in Hst. rewrite Hst. apply lookup_insert_eq. }
  destruct (Hc replies Hl) as (_ & Hs & Hreq & _). rewrite <-Hs in Hq.
  intros [= <- Eq]. etrans; [|exact Hq].
  unfold QuorumResult.is_success in Eq. apply Z.leb_le in Eq. by rewrite Hreq in Eq.
Qed.

(** What the resolution of a get at [nd] works on. *)
Definition read_responses (net : Node.t -> link) (cl : cluster) (nd : node) (key : string)
  : list (option VersionedValue.t) :=
  (if HashRing.is_responsible (ring_of nd) (ReplicationCoordinator.node_id (engine nd)) key
   then [StorageEngine.get_raw (engine nd) key] else [])
  ++ ((fun n => ReplicationCoordinator.read_value
         (call_get_internal (net n) cl (Node.address n) (ReplicationCoordinator.get_request key)))
        <$> ReplicationCoordinator.peers (ring_of nd) (ReplicationCoordinator.node_id (engine nd)) key).

(** Another node on the list that answers contributes what it stores; a tombstone
    arrives as a live value. *)
Lemma remote_contributes net cl nd m key v n :
  n ∈ HashRing.get_nodes (ring_of nd) key ->
  Node.id n <> ReplicationCoordinator.node_id (engine nd) ->
  l_delivery (net n) = Delivered -> cl !! Node.address n = Some m ->
  StorageEngine.get_raw (engine m) key = Some v ->
  Some (undeleted v) ∈ read_responses net cl nd key.
Proof.
  intros Hn Hid Hd Hm Hv. unfold read_responses. apply elem_of_app. right.
  apply list_elem_of_fmap. exists n. split; [|by apply elem_of_peers].
  unfold call_get_internal. rewrite Hd, Hm.
  unfold InternalServiceImpl.get_internal, ReplicationCoordinator.get_request.
  cbn -[StorageEngine.get_raw]. rewrite Hv. cbn.
  change (value_to_proto v) with (to_proto_versioned v). by rewrite value_roundtrip.
Qed.

(** A replica that holds a live value and answers contributes it. *)
Lemma holder_contributes net cl b nd key v n :
  well_addressed b nd key -> cl !! b = Some nd -> VersionedValue.deleted v = false ->
  n ∈ HashRing.get_nodes (ring_of nd) key -> holds cl key v n ->
  answers net cl (ReplicationCoordinator.node_id (engine nd)) n ->
  Some v ∈ read_responses net cl nd key.
Proof.
  intros [_ Hself] Hb Hlive Hn Hh Ha. unfold holds, at_replica, stores in Hh.
  destruct (decide (Node.id n = ReplicationCoordinator.node_id (engine nd))) as [Hid|Hid].
  - unfold read_responses. apply elem_of_app. left.
    rewrite (proj2 (is_responsible_spec _ _ _)) by (rewrite <-Hid; by apply list_elem_of_fmap_2).
    rewrite (Hself n Hn Hid), Hb in Hh. rewrite Hh. by left.
  - destruct Ha as [?|[Hd _]]; [done|]. destruct (cl !! Node.address n) as [m|] eqn:Hm; [|done].
    rewrite <-(undeleted_id v) by done. by eapply remote_contributes.
Qed.

(** A live value among the responses is a candidate, so something is returned, and
    nothing that it supersedes. *)
Lemma read_sees at_ v values :
  Some v ∈ values -> VersionedValue.deleted v = false ->
  (forall i, VersionedValue.is_expired (at_ i) v = false) ->
  exists r, ReplicationCoordinator.resolve_conflicts at_ values = Some r
    /\ (clocks_agree (candidates at_ values) ->
        VersionedValue.timestamp_ms v <= VersionedValue.timestamp_ms r /\ ~ supersedes v r).
Proof.
  intros Hin Hlive Hfresh.
  assert (v ∈ candidates at_ values) as Hc.
  { unfold candidates. apply list_elem_of_fmap.
    assert (v ∈ omap id values) as [i Hi]%list_elem_of_lookup
      by (apply list_elem_of_omap; by exists (Some v)).
    exists (i, v). split; [done|]. apply list_elem_of_filter. split; [by split|].
    apply elem_of_lookup_imap. by exists i, v. }
  destruct (ReplicationCoordinator.resolve_conflicts at_ values) as [r|] eqn:E.
  - exists r. split; [done|]. intros Hag. by eapply resolve_best.
  - rewrite resolve_candidates, foldl_choose_None in E. destruct E as [_ E].
    rewrite E in Hc. by apply not_elem_of_nil in Hc.
Qed.
End Quorums.

Section Resolution.
Context `{Crc32, Sha256, Json WalEntry.t, Bincode table}.

(** The reply to a get whose read quorum the list satisfies is that of the resolution. *)
Lemma cluster_get_resolves net at_ cl nd req :
  let key := proto.GetRequest.key req in
  let nodes := HashRing.get_nodes (ring_of nd) key in
  Z.of_nat (length nodes) < 2 ^ 32 ->
  QuorumConfig.effective_read_quorum (ReplicationCoordinator.quorum (coordinator nd))
    (proto.GetRequest.read_quorum req) <= Z.of_nat (length nodes) ->
  cluster_get net at_ cl nd req
  = inl (match ReplicationCoordinator.resolve_conflicts at_ (read_responses net cl nd key) with
         | Some r => proto.GetResponse.Mk true (VersionedValue.value r)
                       (Some (vc_to_proto (VersionedValue.vector_clock r)))
         | None => proto.GetResponse.Mk false [] None
         end).
Proof.
  intros key nodes Hlen Hrq. subst nodes. unfold cluster_get, KvServiceImpl.get. fold key.
  match goal with |- context [ReplicationCoordinator.get ?c ?rg ?t ?e ?k ?q ?f] =>
    destruct (get_finish_counts c t rg e k q
      ((fun n => f n (ReplicationCoordinator.get_request k))
         <$> ReplicationCoordinator.peers rg (ReplicationCoordinator.node_id e) k))
      as (Hs & _ & Hreq & Hval); [apply length_fmap|done|] end.
  unfold ReplicationCoordinator.get, KvServiceImpl.get_reply, QuorumResult.is_success.
  rewrite Hs, Hreq, (proj2 (Z.leb_le _ _) Hrq). cbn [negb].
  rewrite <-list_fmap_compose in Hval. unfold read_responses.
  rewrite Hval. by destruct (ReplicationCoordinator.resolve_conflicts _ _).
Qed.

(** A replica other than the reader that answers. *)
Definition remote_answers (net : Node.t -> link) (cl : cluster) (my_id : string) (n : Node.t) : Prop :=
  Node.id n <> my_id /\ l_delivery (net n) = Delivered.

#[export] Instance remote_answers_dec net cl my_id n : Decision (remote_answers net cl my_id n).
Proof. unfold remote_answers; apply _. Defined.
#[export] Typeclasses Opaque remote_answers.
End Resolution.

(** ** Properties *)

Section Properties.
Context `{Crc32, Sha256, Json WalEntry.t, Bincode table}.

(** A put that is acknowledged to the client is stored by at least as many
    replicas of the key as the write quorum asks for, whatever requests and replies the
    network loses. *)
Theorem acknowledged_put_is_replicated net now io cl a nd req cl' resp :
  let key := proto.PutRequest.key req in
  let v := ReplicationCoordinator.versioned_value now (engine nd) key
             (proto.PutRequest.value req) (proto.PutRequest.ttl_ms req) in
  let nodes := HashRing.get_nodes (ring_of nd) key in
  Z.of_nat (length nodes) < 2 ^ 32 -> well_addressed a nd key ->
  cluster_put net now io cl a nd req = (cl', inl resp) ->
  QuorumConfig.effective_write_quorum (ReplicationCoordinator.quorum (coordinator nd))
    (proto.PutRequest.write_quorum req)
  <= Z.of_nat (length (filter (holds cl' key v) nodes)).
Proof. intros. by eapply put_holders. Qed.


(** Deleted keys are found. After a delete that the client was told succeeded,
    and until the tombstones expire, a get at any node with the same preference list
    finds the key, provided that so many other replicas answer that they and the write
    quorum together outnumber the replicas: a tombstone travels as a live empty value. *)
Theorem deleted_keys_are_found net now io cl a nd req cl' net' at_ nd' greq :
  let key := proto.DeleteRequest.key req in
  let nodes := HashRing.get_nodes (ring_of nd) key in
  Z.of_nat (length nodes) < 2 ^ 32 -> well_addressed a nd key ->
  cluster_delete net now io cl a nd req = (cl', inl (proto.DeleteResponse.Mk true)) ->
  proto.GetRequest.key greq = key -> HashRing.get_nodes (ring_of nd') key = nodes ->
  Z.of_nat (length nodes)
    < QuorumConfig.effective_write_quorum (ReplicationCoordinator.quorum (coordinator nd))
        (proto.DeleteRequest.write_quorum req)
      + Z.of_nat (length (filter (remote_answers net' cl' (ReplicationCoordinator.node_id (engine nd'))) nodes)) ->
  (forall t i, t ∈ delete_times net now nodes -> now_ms (at_ i) <= wrap_i64 (t + 300000)) ->
  QuorumConfig.effective_read_quorum (ReplicationCoordinator.quorum (coordinator nd'))
    (proto.GetRequest.read_quorum greq) <= Z.of_nat (length nodes) ->
  exists value clock,
    cluster_get net' at_ cl' nd' greq = inl (proto.GetResponse.Mk true value clock).
Proof.
  intros key nodes Hlen Ha Hdel Hkey Hsame Hover Hfresh Hrq.
  pose proof (delete_holders net now io cl a nd req Hlen Ha cl' Hdel) as Hw. fold key nodes in Hw.
  destruct (filters_meet (buried (delete_times net now nodes) cl' key)
    (remote_answers net' cl' (ReplicationCoordinator.node_id (engine nd'))) nodes)
    as (n & Hn & Hb & Hid & Hd); [lia|].
  unfold buried, at_replica in Hb. destruct (cl' !! Node.address n) as [m|] eqn:Hm; [|done].
  unfold buried_at in Hb. destruct (StorageEngine.get_raw (engine m) key) as [v|] eqn:Hv; [|done].
  destruct Hb as (_ & _ & Httl & Hts). rewrite <-Hsame in Hn.
  pose proof (remote_contributes net' cl' nd' m key v n Hn Hid Hd Hm Hv) as Hin.
  destruct (read_sees at_ (undeleted v) _ Hin eq_refl) as (r & Hr & _).
  { intros i. unfold VersionedValue.is_expired. cbn. rewrite Httl. cbn.
    apply Z.ltb_ge. by apply Hfresh. }
  pose proof (cluster_get_resolves net' at_ cl' nd' greq) as Hget. cbn zeta in Hget.
  rewrite Hkey, Hsame in Hget.
  rewrite Hget, Hr by done. by eexists _, _.
Qed.
End Properties.

(** ** The properties at a concrete cluster *)

Section Witnesses.
Import Toy.

Definition cluster_3 : cluster :=
  {["10.0.0.1:7000" := server_1; "10.0.0.2:7000" := server_2; "10.0.0.3:7000" := server_3]}.

(** The reply of ["n2"] is lost, ["n3"] answers. *)
Definition net_1 (n : Node.t) : link :=
  Link (if bool_decide (Node.id n = "n2") then LostReply else Delivered) at_ms WriteOk.
Definition net_2 (n : Node.t) : link := Link Delivered at_ms WriteOk.

Definition cluster_after : cluster :=
  (cluster_put net_1 at_ms WriteOk cluster_3 "10.0.0.1:7000" server_1 put_key).1.
Definition server_2_after : node := default server_2 (cluster_after !! "10.0.0.2:7000").

Lemma server_1_addressed : well_addressed "10.0.0.1:7000" server_1 "key".
Proof.
  split; [decided|].
  assert (Forall (fun n => Node.id n = "n1" -> Node.address n = "10.0.0.1:7000")
    (HashRing.get_nodes (ring_of server_1) "key")) as Hall by decided.
  rewrite Forall_forall in Hall. exact Hall.
Qed.

Lemma server_2_addressed : well_addressed "10.0.0.2:7000" server_2_after "key".
Proof.
  split; [decided|].
  assert (Forall (fun n => Node.id n = "n2" -> Node.address n = "10.0.0.2:7000")
    (HashRing.get_nodes (ring_of server_2_after) "key")) as Hall by decided.
  rewrite Forall_forall in Hall. exact Hall.
Qed.

Lemma put_acknowledged :
  cluster_put net_1 at_ms WriteOk cluster_3 "10.0.0.1:7000" server_1 put_key
  = (cluster_after, inl (proto.PutResponse.Mk true
      (Some (proto.VectorClock.Mk {["n1" := 1%N]})))).
Proof. vm_compute. reflexivity. Qed.

(** Answers that carry one timestamp cannot contradict causality. *)
Lemma clocks_agree_same_time t l :
  Forall (fun v => VersionedValue.timestamp_ms v = t) l -> clocks_agree l.
Proof.
  intros Hall v w Hv Hw _. rewrite Forall_forall in Hall. by rewrite (Hall v Hv), (Hall w Hw).
Qed.

Lemma replicas_few :
  Z.of_nat (length (HashRing.get_nodes (ring_of server_1) (proto.PutRequest.key put_key))) < 2 ^ 32.
Proof. vm_compute. reflexivity. Qed.

(** Two replicas are asked for. *)
Example acknowledged_put_is_replicated_witness :
  exists v, 2 <= Z.of_nat (length (filter (holds cluster_after (proto.PutRequest.key put_key) v)
    (HashRing.get_nodes (ring_of server_1) (proto.PutRequest.key put_key)))).
Proof.
  pose proof (acknowledged_put_is_replicated net_1 at_ms WriteOk cluster_3 "10.0.0.1:7000" server_1
    put_key cluster_after _ replicas_few server_1_addressed put_acknowledged) as Hack.
  assert (QuorumConfig.effective_write_quorum (ReplicationCoordinator.quorum (coordinator server_1))
    (proto.PutRequest.write_quorum put_key) = 2) as Hw by (vm_compute; reflexivity).
  rewrite Hw in Hack. eexists. exact Hack.
Defined.


(** The put key is deleted again, at another node and everywhere. *)
Definition delete_key : proto.DeleteRequest.t := proto.DeleteRequest.Mk "key" 0.
Definition cluster_deleted : cluster :=
  (cluster_delete net_2 at_ms WriteOk cluster_after "10.0.0.2:7000" server_2_after delete_key).1.
Definition server_1_deleted : node := default server_1 (cluster_deleted !! "10.0.0.1:7000").

Lemma delete_acknowledged :
  cluster_delete net_2 at_ms WriteOk cluster_after "10.0.0.2:7000" server_2_after delete_key
  = (cluster_deleted, inl (proto.DeleteResponse.Mk true)).
Proof. vm_compute. reflexivity. Qed.

Lemma replicas_few_2 :
  Z.of_nat (length (HashRing.get_nodes (ring_of server_2_after) (proto.DeleteRequest.key delete_key)))
  < 2 ^ 32.
Proof. vm_compute. reflexivity. Qed.

Example deleted_keys_are_found_witness :
  exists value clock, cluster_get net_2 (fun _ => at_ms) cluster_deleted server_1_deleted
      (proto.GetRequest.Mk "key" 0) = inl (proto.GetResponse.Mk true value clock).
Proof.
  pose proof (deleted_keys_are_found net_2 at_ms WriteOk cluster_after "10.0.0.2:7000"
    server_2_after delete_key cluster_deleted net_2 (fun _ => at_ms) server_1_deleted
    (proto.GetRequest.Mk "key" 0) replicas_few_2 server_2_addressed delete_acknowledged) as Hfound.
  assert (HashRing.get_nodes (ring_of server_1_deleted) (proto.DeleteRequest.key delete_key)
    = HashRing.get_nodes (ring_of server_2_after) (proto.DeleteRequest.key delete_key)) as Hsame
    by (vm_compute; reflexivity).
  specialize (Hfound eq_refl Hsame). apply Hfound.
  - vm_compute. reflexivity.
  - assert (Forall (fun t => now_ms at_ms <= wrap_i64 (t + 300000))
      (delete_times net_2 at_ms (HashRing.get_nodes (ring_of server_2_after)
         (proto.DeleteRequest.key delete_key)))) as Hall by decided.
    intros t i Ht. rewrite Forall_forall in Hall. exact (Hall t Ht).
  - vm_compute. congruence.
Defined.
End Witnesses.
