(* ===== verification/Server.v ===== *)
(** The server process (src/src/bin/server.rs): its arguments, the seed list, and the
    start-up that opens the engine and wires the components of a node.

    Argument parsing (clap) produces [Args.t]. [main] opens the engine, wires the
    components, and reads the address to listen on, in this order; its result is what the
    process then serves, or the error it ends with. The background tasks it spawns are
    the operations of Engine.v and Detector.v; serving is the stubs of Rpc.v. *)

From S2P Require Import Prelude Bytes BTreeMap VectorClock Memtable Externals Wal Snapshot.
From S2P Require Import Engine ConsistentHash Quorum Proto Coordinator Detector Service SocketAddr.
From Stdlib Require Import Strings.Byte.
Open Scope Z_scope.

Module Args.
Record t := Mk {
  node_id : string;
  listen : string;
  advertise : string;
  data_dir : string;
  seeds : string;
  replication_factor : Z;
  read_quorum : Z;
  write_quorum : Z;
  memtable_mb : Z;
  vnodes : Z
}.

(** Every argument left out. *)
Definition default : t :=
  Mk "node-0" "0.0.0.0:50051" "127.0.0.1:50051" "./data" "" 3 2 2 64 150.
End Args.

Section Operations.
Context `{Crc32, Sha256, Json WalEntry.t, Bincode table}.

Definition storage_config (args : Args.t) : StorageConfig.t :=
  StorageConfig.Config (Args.data_dir args)
    (wrap_u64 (wrap_u64 (Args.memtable_mb args * 1024) * 1024))
    (300 * 1000) (60 * 1000) 3 (Args.node_id args).

(** One piece of the seed list; pieces that are not of the form [id=addr] are skipped. *)
Definition parse_seed (seed : string) : option (string * string) :=
  match str_split Byte.x3d seed with
  | [id; addr] => Some (str_trim id, str_trim addr)
  | _ => None
  end.

Definition parse_seeds (seeds : string) : list (string * string) :=
  if bool_decide (seeds = "") then [] else omap parse_seed (str_split Byte.x2c seeds).

(** [now i] is the [Instant] read for the [i]-th seed. *)
Definition register_seeds (now : nat -> Z) (g : GossipService.t) (l : list (string * string))
  : GossipService.t :=
  foldl (fun g '(i, (id, addr)) => GossipService.add_seed (now i) g id addr) g (imap pair l).

Definition start_gossip (args : Args.t) (now : nat -> Z) : GossipService.t :=
  let ring := HashRing.new (Z.to_N (Args.vnodes args)) (Z.to_N (Args.replication_factor args)) in
  let gossip :=
    GossipService.new (Args.node_id args) (Args.advertise args) ring GossipConfig.default in
  register_seeds now gossip (parse_seeds (Args.seeds args)).

Definition quorum_config (args : Args.t) : QuorumConfig.t :=
  QuorumConfig.Config (Args.replication_factor args) (Args.read_quorum args)
    (Args.write_quorum args).

Definition start (args : Args.t) (now : nat -> Z) (d : disk) : disk * result io_error node :=
  let '(d, r) := StorageEngine.open (storage_config args) d in
  match r with
  | Err e => (d, Err e)
  | Ok engine =>
    let coordinator := ReplicationCoordinator.new (quorum_config args) in
    (d, Ok (MkNode engine d (start_gossip args now) coordinator))
  end.

(** The errors [main] ends with, before it serves. *)
Inductive main_error :=
| IoError (e : io_error)
| AddrParseError.

(** The listen address is parsed last: by then the engine is open and recovered. *)
Definition main (args : Args.t) (now : nat -> Z) (d : disk)
  : disk * result main_error (socket_addr * node) :=
  let '(d, r) := start args now d in
  match r with
  | Err e => (d, Err (IoError e))
  | Ok nd =>
    match parse_socket_addr (Args.listen args) with
    | Some addr => (d, Ok (addr, nd))
    | None => (d, Err AddrParseError)
    end
  end.
End Operations.

(** ** The seed list *)

(** An identifier or address that survives the format of the list. *)
Definition seed_word (w : string) : Prop :=
  (Byte.x2c ∉ bytes_of_string w) /\ (Byte.x3d ∉ bytes_of_string w)
  /\ from_option is_white_piece false (head (char_pieces (bytes_of_string w))) = false
  /\ from_option is_white_piece false (last (char_pieces (bytes_of_string w))) = false.

#[export] Instance seed_word_dec w : Decision (seed_word w).
Proof. unfold seed_word; apply _. Defined.

Definition seed_wf (s : string * string) : Prop := seed_word s.1 /\ seed_word s.2.

#[export] Instance seed_wf_dec s : Decision (seed_wf s).
Proof. unfold seed_wf; apply _. Defined.

Definition seed_text (s : string * string) : string := s.1 +:+ "=" +:+ s.2.

(** [id=addr,id=addr]. *)
Fixpoint seeds_text (l : list (string * string)) : string :=
  match l with
  | [] => ""
  | [s] => seed_text s
  | s :: l => seed_text s +:+ "," +:+ seeds_text l
  end.

Lemma str_split_word sep w : sep ∉ bytes_of_string w -> str_split sep w = [w].
Proof.
  intros Hw. unfold str_split. rewrite split_bytes_piece by done. cbn.
  by rewrite string_of_bytes_of_string.
Qed.

Lemma str_split_app sep c w rest :
  bytes_of_string c = [sep] -> sep ∉ bytes_of_string w ->
  str_split sep (w +:+ c +:+ rest) = w :: str_split sep rest.
Proof.
  intros Hc Hw. unfold str_split. rewrite !bytes_of_string_app, Hc. cbn [app].
  rewrite split_bytes_app by done. cbn. by rewrite string_of_bytes_of_string.
Qed.

Lemma parse_seed_text s : seed_wf s -> parse_seed (seed_text s) = Some s.
Proof.
  destruct s as [id addr]. intros [(_ & Hi & Hih & Hil) (_ & Ha & Hah & Hal)]. cbn [fst snd] in *.
  unfold parse_seed, seed_text. cbn [fst snd].
  rewrite (str_split_app _ "="), str_split_word by done.
  by rewrite !str_trim_id.
Qed.

Lemma seed_text_no_comma s : seed_wf s -> Byte.x2c ∉ bytes_of_string (seed_text s).
Proof.
  intros [(Hi & _) (Ha & _)]. unfold seed_text.
  rewrite !bytes_of_string_app, !not_elem_of_app. split_and!; [done| |done].
  change (bytes_of_string "=") with [Byte.x3d]. by intros ?%list_elem_of_singleton.
Qed.

Lemma seed_text_nonempty s : seed_text s <> "".
Proof.
  intros E%(f_equal bytes_of_string). unfold seed_text in E. rewrite !bytes_of_string_app in E.
  apply app_eq_nil in E as [_ E]. done.
Qed.

(** A list of seeds is read back from its text. *)
Lemma parse_seeds_text l : Forall seed_wf l -> parse_seeds (seeds_text l) = l.
Proof.
  intros Hl. unfold parse_seeds.
  enough (l <> [] -> seeds_text l <> ""
    /\ omap parse_seed (str_split Byte.x2c (seeds_text l)) = l) as Hgo.
  { destruct l as [|s l]; [done|]. destruct Hgo as [Hne Hsome]; [done|].
    by rewrite bool_decide_false. }
  intros Hne. induction Hl as [|s l Hs Hl IH]; [done|].
  pose proof (seed_text_no_comma s Hs) as Hc. destruct l as [|s' l].
  - cbn [seeds_text]. split; [apply seed_text_nonempty|].
    rewrite str_split_word by done. cbn. by rewrite parse_seed_text.
  - destruct IH as [_ IH]; [done|].
    change (seeds_text (s :: s' :: l)) with (seed_text s +:+ "," +:+ seeds_text (s' :: l)). split.
    + intros E%(f_equal bytes_of_string). rewrite !bytes_of_string_app in E.
      apply app_eq_nil in E as [_ E]. done.
    + rewrite (str_split_app _ ",") by done. cbn [omap list_omap]. fold (omap (M:=list) parse_seed).
      rewrite parse_seed_text by done. by rewrite IH.
Qed.

(** ** Facts *)

Section Facts.
Import GossipService.
Context `{Crc32, Sha256, Json WalEntry.t, Bincode table}.
Implicit Types (g : GossipService.t) (l : list (string * string)).

Lemma register_snoc now g l s :
  register_seeds now g (l ++ [s])
  = add_seed (now (length l)) (register_seeds now g l) s.1 s.2.
Proof.
  unfold register_seeds. rewrite imap_app, foldl_app. destruct s. cbn. by rewrite Nat.add_0_r.
Qed.

Lemma register_id now g l : node_id (register_seeds now g l) = node_id g.
Proof. induction l as [|s l IH] using rev_ind; [done|]. by rewrite register_snoc. Qed.

Lemma register_ok now g l :
  node_id g ∉ l.*1 -> gossip_ok g -> gossip_ok (register_seeds now g l).
Proof.
  intros Hn Hok. induction l as [|s l IH] using rev_ind; [done|].
  rewrite fmap_app, not_elem_of_app in Hn. destruct Hn as [Hn Hs].
  rewrite register_snoc. apply add_seed_ok; [by apply IH|].
  rewrite register_id. intros Heq. apply Hs. rewrite <-Heq. by left.
Qed.

Definition seed_node (s : string * string) : Node.t := Node.Mk s.1 s.2.

Lemma register_ring now g l :
  ring (register_seeds now g l) = apply_ops (ring g) (AddNode <$> (seed_node <$> l)).
Proof.
  induction l as [|s l IH] using rev_ind; [done|].
  rewrite register_snoc, !fmap_app. cbn [fmap list_fmap]. rewrite apply_ops_snoc, <-IH. done.
Qed.

(** Every seed is a peer that is alive, at an address it was listed with. *)
Lemma register_peers now g l id :
  match peers (register_seeds now g l) !! id with
  | Some p => peers g !! id = Some p /\ id ∉ l.*1
      \/ (id, PeerState.address p) ∈ l /\ PeerState.status p = NodeStatus.Alive
         /\ peer_version p = (0, 0) /\ PeerState.node_id p = id
         /\ exists i, (i < length l)%nat /\ PeerState.last_seen p = now i
  | None => peers g !! id = None /\ id ∉ l.*1
  end.
Proof.
  induction l as [|[id' addr] l IH] using rev_ind.
  { cbn. destruct (peers g !! id) as [p|]; [left|]; (split; [done|apply not_elem_of_nil]). }
  rewrite register_snoc, fmap_app. cbn [add_seed peers set_ring set_peers fst snd].
  destruct (decide (id' = id)) as [->|Hne].
  - rewrite lookup_insert_eq. right. split_and!; try done.
    + apply elem_of_app. right. by left.
    + exists (length l). rewrite length_app. cbn. split; [lia|done].
  - rewrite lookup_insert_ne by done.
    assert (id ∉ [(id', addr)].*1) as Hx by (by intros ->%list_elem_of_singleton).
    destruct (peers (register_seeds now g l) !! id) as [p|].
    + destruct IH as [[? ?]|(? & ? & ? & ? & i & ? & ?)]; [left|right].
      * split; [done|]. by apply not_elem_of_app.
      * split_and!; try done; [apply elem_of_app; by left|].
        exists i. rewrite length_app. split; [lia|done].
    + destruct IH. split; [done|]. by apply not_elem_of_app.
Qed.
End Facts.

(** *** A node that is its own peer *)

Section SelfPeer.
Import GossipService.
Context `{Sha256}.
Implicit Types (g : GossipService.t) (id : string).

(** The node has itself in its peer table, last seen at [t0], its status at least as bad
    as [r]; once it is dead it is off its own ring. *)
Record self_peered id (t0 : Z) (r : nat) g : Prop := SelfPeered {
  sp_id : node_id g = id;
  sp_keyed : keyed g;
  sp_peer : exists q, peers g !! id = Some q /\ PeerState.last_seen q = t0
    /\ (r <= rank (PeerState.status q))%nat
    /\ (PeerState.status q = NodeStatus.Dead ->
        forall h n, HashRing.ring (ring g) !! h = Some n -> Node.id n <> id)
}.

(** Entries about other nodes leave it alone. *)
Lemma self_peered_other id t0 r g id' p ring' :
  self_peered id t0 r g -> id' <> id -> PeerState.node_id p = id' ->
  (forall h n, HashRing.ring ring' !! h = Some n ->
     Node.id n = id' \/ HashRing.ring (ring g) !! h = Some n) ->
  self_peered id t0 r (set_peers (set_ring g ring') (<[id' := p]> (peers g))).
Proof.
  intros [Hid Hk (q & Hq & Ht & Hr & Hoff)] Hne Hp Hring. split; [done| |]; cbn.
  - intros k p' Hl. cbn in Hl. apply lookup_insert_Some in Hl as [[<- <-]|[_ Hp']]; [done|by apply Hk].
  - exists q. rewrite lookup_insert_ne by done. split_and!; try done.
    intros Hd h n [Hn|Hn]%Hring; [congruence|by apply (Hoff Hd h)].
Qed.

Lemma self_peered_add id t0 r g id' p n :
  self_peered id t0 r g -> id' <> id -> PeerState.node_id p = id' -> Node.id n = id' ->
  self_peered id t0 r
    (set_peers (set_ring g (HashRing.add_node (ring g) n)) (<[id' := p]> (peers g))).
Proof.
  intros Hs Hne Hp Hn. apply self_peered_other; [done..|].
  intros h m. rewrite add_node_lookup. case_decide; [intros [= <-]; by left|by right].
Qed.

Lemma handle_entry_self_peered id t0 r now g ns :
  self_peered id t0 r g -> self_peered id t0 r (handle_entry now g ns).
Proof.
  intros Hs. unfold handle_entry. destruct (should_update _ ns); [|done].
  case_bool_decide as Hid; [done|]. cbn [andb negb]. rewrite (sp_id _ _ _ _ Hs) in Hid.
  destruct (status_from (proto.NodeState.status ns)).
  - by apply (self_peered_add id t0 r g).
  - apply (self_peered_other id t0 r g _ _ (ring g)); [done..|by right].
  - apply (self_peered_other id t0 r g); [done..|]. intros h n [Hn _]%remove_node_lookup. by right.
Qed.

Lemma check_self_peered id t0 r suspect dead now g :
  self_peered id t0 r g ->
  self_peered id t0 r (check_failures suspect dead now g)
  /\ (suspect < elapsed now t0 -> self_peered id t0 (Nat.max r 1) (check_failures suspect dead now g))
  /\ (r = 1%nat -> dead < elapsed now t0 -> self_peered id t0 2 (check_failures suspect dead now g)).
Proof.
  intros [Hid Hk (q & Hq & Ht & Hr & Hoff)].
  destruct (check_failures_spec suspect dead now g Hk) as (Hid' & _ & Hp & Hring).
  set (g' := check_failures suspect dead now g) in *.
  assert (keyed g') as Hk'.
  { intros k p. rewrite Hp. intros (p0 & Hp0 & ->)%fmap_Some.
    rewrite (proj1 (check_peer_keeps suspect dead now p0)). by apply Hk. }
  specialize (Hp id). rewrite Hq in Hp. cbn [fmap option_fmap option_map] in Hp.
  destruct (check_peer_keeps suspect dead now q) as (_ & _ & _ & Hls).
  assert (forall r', (r' <= rank (PeerState.status (check_peer suspect dead now q).1))%nat ->
    self_peered id t0 r' g') as Hgo.
  { intros r' Hr'. split; [congruence|done|]. eexists. split_and!; [exact Hp|congruence|done|].
    intros Hd h n [Hn Hall]%Hring Heq. subst id. rewrite Heq in Hall. specialize (Hall q Hq).
    unfold check_peer in Hd, Hall. destruct (PeerState.status q) eqn:Es.
    - destruct (suspect <? _); cbn in Hd; [done|congruence].
    - destruct (dead <? _); cbn in Hd; [done|congruence].
    - by apply (Hoff eq_refl h n). }
  destruct (check_peer_rank suspect dead now q r Hr) as (Hr1 & Hr2 & Hr3). rewrite Ht in Hr2, Hr3.
  split_and!.
  - by apply Hgo.
  - intros Hlt. apply Hgo. specialize (Hr2 Hlt). lia.
  - intros -> Hlt. apply Hgo. by apply Hr3.
Qed.

Lemma steps_self_peered id t0 r g g' :
  rtc gossip_step g g' -> self_peered id t0 r g -> self_peered id t0 r g'.
Proof.
  induction 1 as [|g1 g2 g3 Hst _ IH]; [done|]. intros Hs. apply IH. clear IH g3.
  destruct Hst as [g now id' addr Hne|g at_ msg|g suspect dead now|Hrng g].
  - rewrite (sp_id _ _ _ _ Hs) in Hne. by apply (self_peered_add id t0 r g).
  - apply (merge_states_ind (self_peered id t0 r)); [done|].
    intros now s ns _. apply handle_entry_self_peered.
  - by apply check_self_peered.
  - rewrite gossip_round_state. by destruct Hs.
Qed.

(** At start-up, when the seed list names the node. *)
Lemma start_self_peered args now :
  Args.node_id args ∈ (parse_seeds (Args.seeds args)).*1 ->
  exists i, (i < length (parse_seeds (Args.seeds args)))%nat
    /\ self_peered (Args.node_id args) (now i) 0 (start_gossip args now).
Proof.
  intros Hin. unfold start_gossip. set (l := parse_seeds (Args.seeds args)) in *.
  set (g := GossipService.new _ _ _ _).
  pose proof (register_peers now g l (Args.node_id args)) as Hp.
  destruct (peers (register_seeds now g l) !! Args.node_id args) as [q|] eqn:Hq; [|by destruct Hp].
  destruct Hp as [[_ ?]|(_ & Hst & _ & _ & i & Hi & Ht)]; [done|].
  exists i. split; [done|]. split.
  - by rewrite register_id.
  - intros k p Hk. pose proof (register_peers now g l k) as Hk'. rewrite Hk in Hk'.
    destruct Hk' as [[He _]|(_ & _ & _ & ? & _)]; [|done]. by cbn in He; apply lookup_empty_Some in He.
  - exists q. split_and!; [done|done|lia|]. by rewrite Hst.
Qed.

Lemma self_peered_dead id t0 g :
  self_peered id t0 2 g ->
  peer_status g id = Some NodeStatus.Dead
  /\ forall key, HashRing.is_responsible (ring g) id key = false.
Proof.
  intros [Hid Hk (q & Hq & Ht & Hr & Hoff)].
  apply rank_dead in Hr as Hd.
  unfold peer_status. rewrite Hq. cbn. rewrite Hd. split; [done|].
  intros key. apply not_true_iff_false. intros Hin%is_responsible_spec.
  apply list_elem_of_fmap in Hin as (n & Hn & (h & Hl)%elem_of_get_nodes). by apply (Hoff Hd h n).
Qed.
End SelfPeer.

(** *** A node alone *)

Section Alone.
Context `{Crc32, Sha256, Json WalEntry.t, Bincode table}.

(** A node started without seeds calls nobody. *)
Lemma start_alone_peers args now d d' nd key :
  start args now d = (d', Ok nd) -> parse_seeds (Args.seeds args) = [] ->
  ReplicationCoordinator.peers (ring_of nd) (ReplicationCoordinator.node_id (engine nd)) key = []
  /\ ReplicationCoordinator.quorum (coordinator nd) = quorum_config args.
Proof.
  unfold start. intros Hs Hseeds.
  pose proof (open_recovers (storage_config args) d) as Ho.
  destruct (recovered d) as [m|err]; [|by rewrite Ho in Hs].
  destruct Ho as (e & Heq & _ & _ & Hcfg & _). rewrite Heq in Hs. injection Hs as <- <-.
  split; [|done]. unfold start_gossip. rewrite Hseeds.
  unfold ReplicationCoordinator.node_id, ring_of. cbn [engine gossip_service]. rewrite Hcfg.
  destruct (ReplicationCoordinator.peers _ _ _) as [|n l] eqn:El; [done|exfalso].
  assert (n ∈ n :: l) as Hin by by left. rewrite <-El in Hin.
  apply elem_of_peers in Hin as [(h & Hn)%elem_of_get_nodes Hne].
  destruct (ok_members _ (new_ok (Args.node_id args) (Args.advertise args) (Z.to_N (Args.vnodes args))
    (Z.to_N (Args.replication_factor args)) GossipConfig.default) h n Hn) as [?|(p & Hp & _)]; [done|].
  cbn in Hp. by apply lookup_empty_Some in Hp.
Qed.
End Alone.

(** ** Properties *)

Section Properties.
Context `{Crc32, Sha256, Json WalEntry.t, Bincode table}.


(** A node that finds itself in its seed list falls off its own ring. It ignores
    what others say about it, so its entry about itself is never refreshed: whatever it
    receives and sends, two failure checks after the timeouts declare it dead, and from
    then on it is never again responsible for a key in its own eyes. *)
Theorem self_seeded_node_leaves_its_ring args now now1 now2 g1 g2 g3 :
  let id := Args.node_id args in
  let cfg := GossipConfig.default in
  let l := parse_seeds (Args.seeds args) in
  id ∈ l.*1 ->
  rtc gossip_step (start_gossip args now) g1 ->
  (forall i, (i < length l)%nat ->
     GossipConfig.suspect_timeout cfg < GossipService.elapsed now1 (now i)) ->
  rtc gossip_step (GossipService.check_failures (GossipConfig.suspect_timeout cfg)
    (GossipConfig.dead_timeout cfg) now1 g1) g2 ->
  (forall i, (i < length l)%nat ->
     GossipConfig.dead_timeout cfg < GossipService.elapsed now2 (now i)) ->
  rtc gossip_step (GossipService.check_failures (GossipConfig.suspect_timeout cfg)
    (GossipConfig.dead_timeout cfg) now2 g2) g3 ->
  GossipService.peer_status g3 id = Some NodeStatus.Dead
  /\ forall key, HashRing.is_responsible (GossipService.ring g3) id key = false.
Proof.
  intros id cfg l Hin Hst1 Hs Hst2 Hd Hst3.
  destruct (start_self_peered args now Hin) as (i & Hi & Hst0).
  eapply steps_self_peered in Hst1; [|exact Hst0].
  destruct (check_self_peered _ _ _ (GossipConfig.suspect_timeout cfg)
    (GossipConfig.dead_timeout cfg) now1 _ Hst1) as (_ & Hs1 & _).
  eapply steps_self_peered in Hst2; [|exact (Hs1 (Hs i Hi))].
  destruct (check_self_peered _ _ _ (GossipConfig.suspect_timeout cfg)
    (GossipConfig.dead_timeout cfg) now2 _ Hst2) as (_ & _ & Hd2).
  eapply steps_self_peered in Hst3; [|exact (Hd2 eq_refl (Hd i Hi))].
  by eapply self_peered_dead.
Qed.

End Properties.

(** ** The properties at concrete arguments *)

Section Witnesses.
Import Toy.

Definition args_2 : Args.t :=
  Args.Mk "node-1" "0.0.0.0:50052" "127.0.0.1:50052" "./data/node-1" "node-0=127.0.0.1:50051"
    3 2 2 64 3.

(** White space around a word is dropped, other malformed pieces are skipped. *)
Example parse_seeds_examples :
  parse_seeds "node-0=127.0.0.1:50051,node-1=127.0.0.1:50052"
    = [("node-0", "127.0.0.1:50051"); ("node-1", "127.0.0.1:50052")]
  /\ parse_seeds " a = x , b=y=z,,c" = [("a", "x")] /\ parse_seeds "" = [].
Proof. split_and!; vm_compute; reflexivity. Qed.

Example listen_examples :
  parse_socket_addr "0.0.0.0:50051" = Some (V4 [0; 0; 0; 0] 50051)%N
  /\ parse_socket_addr "[::1]:80" = Some (V6 [0; 0; 0; 0; 0; 0; 0; 1] 0 80)%N
  /\ parse_socket_addr "[fe80::1%2]:80" = Some (V6 [65152; 0; 0; 0; 0; 0; 0; 1] 2 80)%N
  /\ parse_socket_addr "[::ffff:127.0.0.1]:80" = Some (V6 [0; 0; 0; 0; 0; 65535; 32512; 1] 0 80)%N
  /\ parse_socket_addr "localhost:50051" = None /\ parse_socket_addr "127.0.0.1" = None
  /\ parse_socket_addr "127.0.0.01:80" = None /\ parse_socket_addr "127.0.0.1:65536" = None
  /\ parse_socket_addr "256.0.0.1:80" = None /\ parse_socket_addr "[1:2:3]:80" = None.
Proof. split_and!; vm_compute; reflexivity. Qed.



(** The same seed list for every node, this one included. *)
Definition args_self : Args.t :=
  Args.Mk "node-0" "0.0.0.0:50051" "127.0.0.1:50051" "./data/node-0"
    "node-0=127.0.0.1:50051,node-1=127.0.0.1:50052" 3 2 2 64 3.

Example self_seeded_node_leaves_its_ring_witness :
  let g1 := start_gossip args_self (fun _ => 1000) in
  let g2 := GossipService.check_failures 5000 15000 7000 g1 in
  let g3 := GossipService.check_failures 5000 15000 17000 g2 in
  HashRing.is_responsible (GossipService.ring g3) "node-0" "key" = false.
Proof.
  intros g1 g2 g3.
  apply (self_seeded_node_leaves_its_ring args_self (fun _ => 1000) 7000 17000 g1 g2 g3).
  - decided.
  - apply rtc_refl.
  - intros i _. vm_compute. reflexivity.
  - apply rtc_refl.
  - intros i _. vm_compute. reflexivity.
  - apply rtc_refl.
Defined.
End Witnesses.
