(* ===== verification/GossipNet.v ===== *)
(** Membership across a network of nodes: the gossip services of several processes
    (Detector.v), started with their arguments (Server.v) and connected by messages that
    may be delayed, lost, duplicated and reordered.

    A node is known by the address it advertises. [net_run] executes a history of
    events. The theorems follow one weakness of the protocol through the system: a node
    describes itself with an empty address. *)

From S2P Require Import Prelude Bytes BTreeMap VectorClock Memtable Externals Wal Snapshot.
From S2P Require Import Engine ConsistentHash Quorum Proto Coordinator Detector Service Cluster Server.
Open Scope Z_scope.

(** The running gossip services, and every message sent so far with its target. *)
Record gossip_net := Net {
  services : gmap string GossipService.t;
  sent : list (string * proto.GossipMessage.t)
}.

Inductive net_event :=
(** a process is started, or restarted with nothing remembered *)
| Start (args : Args.t) (now : nat -> Z)
(** the node at the address runs one gossip round *)
| Round (addr : string)
(** the [i]-th message sent arrives; it may arrive never, late or again *)
| Deliver (i : nat) (at_ : nat -> Z)
(** the node at the address runs its failure check *)
| Check (addr : string) (now : Z).

Section Network.
Context `{Sha256, Rng}.

(** The check of [GossipService::start], with the configured timeouts. *)
Definition run_check (now : Z) (g : GossipService.t) : GossipService.t :=
  GossipService.check_failures (GossipConfig.suspect_timeout (GossipService.config g))
    (GossipConfig.dead_timeout (GossipService.config g)) now g.

Definition set_service (net : gossip_net) (a : string) (g : GossipService.t) : gossip_net :=
  Net (<[a := g]> net.(services)) net.(sent).

Definition net_step (net : gossip_net) (ev : net_event) : gossip_net :=
  match ev with
  | Start args now => set_service net (Args.advertise args) (start_gossip args now)
  | Round a =>
    match net.(services) !! a with
    | None => net
    | Some g =>
      let '(g, messages) := GossipService.gossip_round g in
      Net (<[a := g]> net.(services)) (net.(sent) ++ messages)
    end
  | Deliver i at_ =>
    match net.(sent) !! i with
    | None => net
    | Some (target, msg) =>
      match net.(services) !! target with
      | None => net
      | Some g => set_service net target (GossipService.handle_gossip at_ g msg).1
      end
    end
  | Check a now =>
    match net.(services) !! a with
    | None => net
    | Some g => set_service net a (run_check now g)
    end
  end.

Definition net_run (net : gossip_net) (es : list net_event) : gossip_net := foldl net_step net es.
End Network.

Definition no_net : gossip_net := Net ∅ [].

(** No process is started with itself as a seed. *)
Definition event_ok (ev : net_event) : Prop :=
  match ev with
  | Start args _ => Args.node_id args ∉ (parse_seeds (Args.seeds args)).*1
  | _ => True
  end.

#[export] Instance event_ok_dec ev : Decision (event_ok ev).
Proof. destruct ev; cbn; apply _. Defined.

(** The event does not replace the node at the address. *)
Definition keeps (a : string) (ev : net_event) : Prop :=
  match ev with Start args _ => Args.advertise args <> a | _ => True end.

#[export] Instance keeps_dec a ev : Decision (keeps a ev).
Proof. destruct ev; cbn; apply _. Defined.

(** What can be known of a node: nothing beyond its seed entry, or news without an
    address. *)
Definition news_ok (version : Z * Z) (address : string) : Prop :=
  version = (0, 0) \/ (address = "" /\ version_le (0, 0) version).

Record service_ok `{Sha256} (g : GossipService.t) : Prop := ServiceOk {
  so_ok : gossip_ok g;
  so_generation : GossipService.generation g = 1;
  so_config : GossipService.config g = GossipConfig.default;
  so_news : forall k p, GossipService.peers g !! k = Some p ->
    news_ok (peer_version p) (PeerState.address p)
}.

Definition message_ok (msg : proto.GossipMessage.t) : Prop :=
  forall ns, ns ∈ proto.GossipMessage.nodes msg ->
    news_ok (state_version ns) (proto.NodeState.address ns).

Record net_ok `{Sha256} (net : gossip_net) : Prop := NetOk {
  net_services : forall a g, services net !! a = Some g -> service_ok g;
  net_sent : forall target msg, (target, msg) ∈ sent net -> message_ok msg
}.

(** ** Facts *)

Section Facts.
Import GossipService.
Context `{Sha256}.
Implicit Types (g : GossipService.t) (p : PeerState.t).

Lemma config_handle_entry now g ns : config (handle_entry now g ns) = config g.
Proof. unfold handle_entry. by repeat case_match. Qed.

Lemma config_check suspect dead now g : config (check_failures suspect dead now g) = config g.
Proof.
  unfold check_failures. generalize (map_to_list (peers g)) as l. intros l. revert g.
  induction l as [|[k p] l IH]; intros g; cbn [foldl]; [done|].
  rewrite IH. unfold check_step. by destruct (check_peer _ _ _ _) as [? []].
Qed.

Lemma generation_check suspect dead now g :
  generation (check_failures suspect dead now g) = generation g.
Proof. apply check_loop_generation. Qed.

(** News replace an entry only when they are about the node itself, without address. *)
Lemma news_replace p ns :
  news_ok (peer_version p) (PeerState.address p) ->
  news_ok (state_version ns) (proto.NodeState.address ns) ->
  should_update (Some p) ns = true -> proto.NodeState.address ns = "".
Proof.
  intros Hp [Hns|[? _]] Hu; [|done]. exfalso.
  assert (should_update (Some p) ns = false) as Hf; [|congruence].
  apply should_update_false. rewrite Hns. destruct Hp as [-> |[_ ?]]; [|done].
  apply (reflexivity (R:=version_le)).
Qed.

Lemma handle_entry_service_ok now g ns :
  news_ok (state_version ns) (proto.NodeState.address ns) ->
  service_ok g -> service_ok (handle_entry now g ns).
Proof.
  intros Hns [Hok Hgen Hcfg Hnews]. split.
  - by apply handle_entry_ok.
  - by rewrite handle_entry_generation.
  - by rewrite config_handle_entry.
  - intros k p. destruct (handle_entry_cases now g ns) as [[-> _]|(_ & _ & ->)]; [by apply Hnews|].
    intros [[<- <-]|[_ Hp]]%lookup_insert_Some; [exact Hns|by apply (Hnews k)].
Qed.

Lemma gossip_service_ok at_ g msg :
  message_ok msg -> service_ok g -> service_ok (handle_gossip at_ g msg).1.
Proof.
  intros Hm Hok. apply (merge_states_ind service_ok); [done|].
  intros now s ns Hin. apply handle_entry_service_ok. by apply Hm.
Qed.

Lemma check_service_ok now g : service_ok g -> service_ok (run_check now g).
Proof.
  intros [Hok Hgen Hcfg Hnews]. unfold run_check.
  destruct (check_failures_spec (GossipConfig.suspect_timeout (config g))
    (GossipConfig.dead_timeout (config g)) now g (ok_keys _ Hok)) as (_ & Hok' & Hp & _).
  split.
  - by apply Hok'.
  - by rewrite generation_check.
  - by rewrite config_check.
  - intros k p. rewrite Hp. intros (q & Hq & ->)%fmap_Some.
    destruct (check_peer_keeps (GossipConfig.suspect_timeout (config g))
      (GossipConfig.dead_timeout (config g)) now q) as (_ & -> & -> & _). by apply (Hnews k).
Qed.

Lemma round_service_ok `{Rng} g : service_ok g -> service_ok (gossip_round g).1.
Proof.
  rewrite gossip_round_state. intros [Hok Hgen Hcfg Hnews]. split; try done.
  by apply set_heartbeat_ok.
Qed.

(** A node passes on what it knows, and speaks of itself without an address. *)
Lemma build_message_ok g : service_ok g -> message_ok (build_gossip_message g).
Proof.
  intros [_ Hgen _ Hnews] ns. cbn. intros [Hin| ->%list_elem_of_singleton]%elem_of_app.
  - apply list_elem_of_fmap in Hin as (p & -> & Hp).
    apply list_elem_of_fmap in Hp as ([k q] & -> & Hkq%elem_of_map_to_list). by apply (Hnews k).
  - right. split; [done|]. unfold version_le. cbn. rewrite Hgen. lia.
Qed.

Lemma round_messages_ok `{Rng} g target msg :
  service_ok g -> (target, msg) ∈ (gossip_round g).2 -> message_ok msg.
Proof.
  intros Hok Hin. apply round_service_ok in Hok. rewrite gossip_round_state in Hok.
  unfold gossip_round in Hin. case_match; cbn in Hin; [by apply not_elem_of_nil in Hin|].
  apply list_elem_of_fmap in Hin as (p & [= -> ->] & _). by apply build_message_ok.
Qed.

Lemma start_service_ok args now :
  Args.node_id args ∉ (parse_seeds (Args.seeds args)).*1 -> service_ok (start_gossip args now).
Proof.
  intros Hself. unfold start_gossip. set (l := parse_seeds _) in *. set (g := new _ _ _ _).
  assert (generation (register_seeds now g l) = 1
    /\ config (register_seeds now g l) = GossipConfig.default) as [Hgen Hcfg].
  { clear. induction l as [|s l IH] using rev_ind; [done|]. by rewrite register_snoc. }
  split; [|done|done|].
  - apply register_ok; [done|apply new_ok].
  - intros k p Hp. pose proof (register_peers now g l k) as Hk. rewrite Hp in Hk.
    destruct Hk as [[He _]|(_ & _ & Hv & _)]; [|by left].
    cbn in He. by apply lookup_empty_Some in He.
Qed.

Lemma set_service_ok net a g : net_ok net -> service_ok g -> net_ok (set_service net a g).
Proof.
  intros [Hs Hm] Hg. split; [|done]. intros a' g'. cbn.
  intros [[_ <-]|[_ Hl]]%lookup_insert_Some; [done|by apply (Hs a')].
Qed.

Lemma net_step_ok `{Rng} net ev : event_ok ev -> net_ok net -> net_ok (net_step net ev).
Proof.
  intros Hev Hok. destruct ev as [args now|a|i at_|a now]; cbn.
  - apply set_service_ok; [done|]. by apply start_service_ok.
  - destruct (services net !! a) as [g|] eqn:Hg; [|done].
    pose proof (net_services _ Hok a g Hg) as Hso.
    pose proof (round_service_ok g Hso) as Hr. pose proof (fun t m => round_messages_ok g t m Hso) as Hm.
    destruct (gossip_round g) as [g' out]. cbn [fst snd] in *. split; cbn.
    + intros a' g0 [[_ <-]|[_ Hl]]%lookup_insert_Some; [done|by apply (net_services _ Hok a')].
    + intros t m [Hin|Hin]%elem_of_app; [by apply (net_sent _ Hok t)|by apply (Hm t)].
  - destruct (sent net !! i) as [[target msg]|] eqn:Hi; [|done].
    destruct (services net !! target) as [g|] eqn:Hg; [|done].
    apply set_service_ok; [done|]. apply gossip_service_ok; [|by eapply net_services].
    apply (net_sent _ Hok target). by eapply list_elem_of_lookup_2.
  - destruct (services net !! a) as [g|] eqn:Hg; [|done].
    apply set_service_ok; [done|]. apply check_service_ok. by eapply net_services.
Qed.

Lemma no_net_ok : net_ok no_net.
Proof. split; cbn; [by intros a g ?%lookup_empty_Some|by intros t m ?%not_elem_of_nil]. Qed.

Lemma net_run_ok `{Rng} net es : Forall event_ok es -> net_ok net -> net_ok (net_run net es).
Proof.
  intros Hes. revert net. induction Hes as [|ev es Hev _ IH]; intros net Hok; [done|].
  apply IH. by apply net_step_ok.
Qed.
End Facts.

(** *** Addresses fade *)

Section Fading.
Import GossipService.
Context `{Sha256}.
Implicit Types (g : GossipService.t) (p : PeerState.t).

(** What becomes of a peer known from a seed entry received at [t0]: either its address
    is lost, or nothing was heard of it since, and its status is at least as bad as [r]. *)
Definition faded (t0 : Z) (r : nat) p : Prop :=
  PeerState.address p = ""
  \/ (peer_version p = (0, 0) /\ PeerState.last_seen p = t0 /\ (r <= rank (PeerState.status p))%nat).

Definition fading (k : string) (t0 : Z) (r : nat) g : Prop :=
  service_ok g /\ exists p, peers g !! k = Some p /\ faded t0 r p.

Lemma handle_entry_fading k t0 r now g ns :
  news_ok (state_version ns) (proto.NodeState.address ns) ->
  fading k t0 r g -> fading k t0 r (handle_entry now g ns).
Proof.
  intros Hns [Hok (p & Hp & Hf)]. split; [by apply handle_entry_service_ok|].
  destruct (handle_entry_cases now g ns) as [[-> _]|(_ & Hu & ->)]; [by exists p|].
  rewrite lookup_insert. case_decide as Hk; [|by exists p]. eexists. split; [done|].
  left. cbn. subst k. rewrite Hp in Hu. apply (news_replace p); [|done..].
  by apply (so_news _ Hok (proto.NodeState.node_id ns)).
Qed.

Lemma gossip_fading k t0 r at_ g msg :
  message_ok msg -> fading k t0 r g -> fading k t0 r (handle_gossip at_ g msg).1.
Proof.
  intros Hm Hf. apply (merge_states_ind (fading k t0 r)); [done|].
  intros now s ns Hin. apply handle_entry_fading. by apply Hm.
Qed.

Lemma check_fading k t0 r now g :
  fading k t0 r g ->
  fading k t0 r (run_check now g)
  /\ (GossipConfig.suspect_timeout GossipConfig.default < elapsed now t0 ->
      fading k t0 1 (run_check now g))
  /\ ((1 <= r)%nat -> GossipConfig.dead_timeout GossipConfig.default < elapsed now t0 ->
      fading k t0 2 (run_check now g)).
Proof.
  intros [Hok (p & Hp & Hf)].
  assert (forall r', (PeerState.address p <> "" ->
      (r' <= rank (PeerState.status (check_peer (GossipConfig.suspect_timeout GossipConfig.default)
               (GossipConfig.dead_timeout GossipConfig.default) now p).1))%nat) ->
    fading k t0 r' (run_check now g)) as Hgo.
  { intros r' Hr'. split; [by apply check_service_ok|].
    unfold run_check. rewrite (so_config _ Hok).
    destruct (check_failures_spec (GossipConfig.suspect_timeout GossipConfig.default)
      (GossipConfig.dead_timeout GossipConfig.default) now g (ok_keys _ (so_ok _ Hok)))
      as (_ & _ & Hps & _).
    rewrite Hps, Hp. eexists. split; [done|].
    destruct (check_peer_keeps (GossipConfig.suspect_timeout GossipConfig.default)
      (GossipConfig.dead_timeout GossipConfig.default) now p) as (_ & Ha & Hv & Hl).
    unfold faded. rewrite Ha, Hv, Hl.
    destruct (decide (PeerState.address p = "")) as [?|Hne]; [by left|right].
    destruct Hf as [?|(? & ? & _)]; [done|]. split_and!; [done|done|]. by apply Hr'. }
  split_and!.
  - apply Hgo. intros Hne. destruct Hf as [?|(_ & _ & Hr)]; [done|]. by apply check_peer_rank.
  - intros Hlt. apply Hgo. intros Hne. destruct Hf as [?|(_ & Ht & Hr)]; [done|].
    rewrite <-Ht in Hlt. by apply (check_peer_rank _ _ _ _ _ Hr).
  - intros H1 Hlt. apply Hgo. intros Hne. destruct Hf as [?|(_ & Ht & Hr)]; [done|].
    rewrite <-Ht in Hlt. by apply (check_peer_rank _ _ _ _ _ Hr).
Qed.

(** The node at [a] has such a peer. *)
Definition net_fading (a k : string) (t0 : Z) (r : nat) (net : gossip_net) : Prop :=
  net_ok net /\ exists g, services net !! a = Some g /\ fading k t0 r g.

Lemma set_service_fading a k t0 r net b g g' :
  net_fading a k t0 r net -> services net !! b = Some g -> service_ok g' ->
  (fading k t0 r g -> fading k t0 r g') -> net_fading a k t0 r (set_service net b g').
Proof.
  intros [Hok (g0 & Hg & Hf)] Hb Hg' Himp. split; [by apply set_service_ok|]. cbn.
  rewrite lookup_insert. case_decide as Hab; [|by exists g0]. subst b. exists g'. split; [done|].
  apply Himp. congruence.
Qed.

Lemma net_step_fading `{Rng} a k t0 r net ev :
  event_ok ev -> keeps a ev -> net_fading a k t0 r net -> net_fading a k t0 r (net_step net ev).
Proof.
  intros Hev Hkeep Hnet. pose proof (net_step_ok net ev Hev (proj1 Hnet)) as Hok'.
  destruct ev as [args now|b|i at_|b now]; cbn in Hkeep, Hok' |- *.
  - destruct Hnet as [_ (g & Hg & Hf)]. split; [done|]. exists g.
    cbn [set_service services]. by rewrite lookup_insert_ne.
  - destruct (services net !! b) as [g|] eqn:Hb; [|done].
    pose proof (gossip_round_state g) as Hst. pose proof (round_service_ok g) as Hr.
    destruct (gossip_round g) as [g' out]. cbn [fst] in *. split; [done|].
    destruct (set_service_fading a k t0 r net b g g' Hnet Hb) as [_ ?].
    + apply Hr. by eapply (net_services _ (proj1 Hnet)).
    + intros [Hso (p & Hp & Hf)]. split; [by apply Hr|]. subst g'. by exists p.
    + done.
  - destruct (sent net !! i) as [[target msg]|] eqn:Hi; [|done].
    destruct (services net !! target) as [g|] eqn:Hb; [|done].
    assert (message_ok msg) as Hm.
    { apply (net_sent _ (proj1 Hnet) target). by eapply list_elem_of_lookup_2. }
    apply (set_service_fading a k t0 r net target g); [done|done| |by apply gossip_fading].
    apply gossip_service_ok; [done|]. by eapply (net_services _ (proj1 Hnet)).
  - destruct (services net !! b) as [g|] eqn:Hb; [|done].
    apply (set_service_fading a k t0 r net b g); [done|done| |by apply check_fading].
    apply check_service_ok. by eapply (net_services _ (proj1 Hnet)).
Qed.

Lemma net_run_fading `{Rng} a k t0 r net es :
  Forall event_ok es -> Forall (keeps a) es ->
  net_fading a k t0 r net -> net_fading a k t0 r (net_run net es).
Proof.
  intros Hes. revert net. induction Hes as [|ev es Hev _ IH]; intros net Hk Hnet; [done|].
  apply Forall_cons in Hk as [Hk1 Hk]. apply IH; [done|]. by apply net_step_fading.
Qed.

(** A check at [a] after the timeouts. *)
Lemma net_check_fading `{Rng} a k t0 r net now :
  net_fading a k t0 r net ->
  (GossipConfig.suspect_timeout GossipConfig.default < elapsed now t0 ->
   net_fading a k t0 1 (net_step net (Check a now)))
  /\ ((1 <= r)%nat -> GossipConfig.dead_timeout GossipConfig.default < elapsed now t0 ->
      net_fading a k t0 2 (net_step net (Check a now))).
Proof.
  intros [Hok (g & Hg & Hf)]. destruct (check_fading k t0 r now g Hf) as (_ & H1 & H2).
  pose proof (net_step_ok net (Check a now) I Hok) as Hok'. cbn in Hok' |- *. rewrite Hg in Hok' |- *.
  split; intros; (split; [done|]); cbn [set_service services]; rewrite lookup_insert_eq; eauto.
Qed.
End Fading.

(** *** Calls to nowhere *)

Section Unreachable.
Context `{Crc32, Sha256, Json WalEntry.t, Bincode table}.

(** Calls to an address where no node is change nothing and are not acknowledged. *)
Lemma replicate_all_nowhere net req cl ns :
  cl !! "" = None -> (forall n, n ∈ ns -> Node.address n = "") ->
  exists replies, replicate_all net req cl ns = (cl, replies) /\ length replies = length ns
    /\ acks (ReplicationCoordinator.replicate_success <$> replies) = 0.
Proof.
  intros Hno. induction ns as [|n ns IH] using rev_ind; intros Hns; [by exists []|].
  destruct IH as (replies & Hr & Hl & Ha); [intros m Hm; apply Hns, elem_of_app; by left|].
  unfold replicate_all, call_all in *. rewrite foldl_app, Hr. cbn [foldl call_step].
  rewrite (Hns n) by (apply elem_of_app; right; by left).
  unfold call_replicate, call_node. rewrite Hno.
  destruct (l_delivery (net n)); (eexists; split; [done|]);
    rewrite !length_app, fmap_app, acks_app, Ha, Hl; done.
Qed.
End Unreachable.

(** ** Properties *)

Section Properties.
Context `{Sha256, Rng}.

(** News travel without an address. Whatever processes are started and
    restarted and whatever the network does with their messages, all that any node
    knows of a peer is its seed entry, or an entry with the empty address; and a live
    peer of which anything was heard is on the ring at the empty address. *)
Theorem own_news_carries_no_address es a g k p :
  Forall event_ok es -> services (net_run no_net es) !! a = Some g ->
  GossipService.peers g !! k = Some p ->
  (peer_version p = (0, 0) \/ PeerState.address p = "")
  /\ (PeerState.status p = NodeStatus.Alive -> peer_version p <> (0, 0) ->
      forall key n, n ∈ HashRing.get_nodes (GossipService.ring g) key -> Node.id n = k ->
        Node.address n = "").
Proof.
  intros Hes Hg Hp. pose proof (net_services _ (net_run_ok no_net es Hes no_net_ok) a g Hg) as Hso.
  pose proof (so_news _ Hso k p Hp) as Hnews. split; [destruct Hnews as [?|[? _]]; auto|].
  intros Hst Hv key n (h & Hn)%elem_of_get_nodes Hid. subst k.
  rewrite (ok_addresses _ (so_ok _ Hso) h n p Hn Hp Hst). by destruct Hnews as [?|[? _]].
Qed.

(** C14: addresses fade. In any network, take a peer that a node can reach at
    some time. Whatever happens afterwards, as long as the node keeps running: after a
    failure check past the suspect timeout and another one past the dead timeout,
    counted from when the peer was learned, the node has either lost the peer's address
    or declared the peer dead and taken it off its ring. *)
Theorem reachable_peers_expire es0 es1 es2 es3 a g k p now1 now2 :
  let cfg := GossipConfig.default in
  let es := es1 ++ Check a now1 :: es2 ++ Check a now2 :: es3 in
  Forall event_ok (es0 ++ es) -> Forall (keeps a) es ->
  services (net_run no_net es0) !! a = Some g -> GossipService.peers g !! k = Some p ->
  PeerState.address p <> "" ->
  GossipConfig.suspect_timeout cfg < GossipService.elapsed now1 (PeerState.last_seen p) ->
  GossipConfig.dead_timeout cfg < GossipService.elapsed now2 (PeerState.last_seen p) ->
  exists g' p', services (net_run no_net (es0 ++ es)) !! a = Some g'
    /\ GossipService.peers g' !! k = Some p'
    /\ (PeerState.address p' = ""
        \/ PeerState.status p' = NodeStatus.Dead
           /\ forall key, HashRing.is_responsible (GossipService.ring g') k key = false).
Proof.
  intros cfg es [He0 He]%Forall_app Hk Hg Hp Haddr Hs Hd.
  pose proof (net_run_ok no_net es0 He0 no_net_ok) as Hok.
  assert (net_fading a k (PeerState.last_seen p) 0 (net_run no_net es0)) as Hf.
  { split; [done|]. exists g. split; [done|]. split; [by apply (net_services _ Hok a)|].
    exists p. split; [done|]. right. split_and!; [|done|lia].
    by destruct (so_news _ (net_services _ Hok a g Hg) k p Hp) as [?|[? _]]. }
  unfold es in *. apply Forall_app in He as [He1 [_ He]%Forall_cons].
  apply Forall_app in He as [He2 [_ He3]%Forall_cons].
  apply Forall_app in Hk as [Hk1 [_ Hk]%Forall_cons]. apply Forall_app in Hk as [Hk2 [_ Hk3]%Forall_cons].
  unfold net_run. rewrite foldl_app. fold (net_run no_net es0). rewrite foldl_app. cbn [foldl].
  rewrite foldl_app. cbn [foldl].
  apply (net_run_fading a k _ 0 _ es1) in Hf; [|done..].
  apply (proj1 (net_check_fading a k _ 0 _ now1 Hf)) in Hs.
  apply (net_run_fading a k _ 1 _ es2) in Hs; [|done..].
  apply (proj2 (net_check_fading a k _ 1 _ now2 Hs) (le_n 1)) in Hd.
  apply (net_run_fading a k _ 2 _ es3) in Hd; [|done..].
  destruct Hd as [_ (g' & Hg' & Hso & p' & Hp' & Hf')]. exists g', p'. split_and!; [done|done|].
  destruct Hf' as [?|(_ & _ & Hr%rank_dead)]; [by left|right]. split; [done|].
  intros key. apply not_true_iff_false. intros Hin%is_responsible_spec.
  apply list_elem_of_fmap in Hin as (n & -> & (h & Hn)%elem_of_get_nodes).
  destruct (ok_members _ (so_ok _ Hso) h n Hn) as [Heq|(q & Hq & Hnd)]; [|congruence].
  rewrite Heq, (ok_self _ (so_ok _ Hso)) in Hp'. done.
Qed.

(** Membership gossip defeats replication. Once a node has heard of all its
    peers, and none has been declared suspect or dead, it refuses every put that needs
    a second replica, however well the network works. *)
Theorem heard_peers_refuse_writes `{Crc32, Json WalEntry.t, Bincode table}
    es a nd net now io cl req :
  let key := proto.PutRequest.key req in
  Forall event_ok es -> services (net_run no_net es) !! a = Some (gossip_service nd) ->
  GossipService.node_id (gossip_service nd) = ReplicationCoordinator.node_id (engine nd) ->
  (forall k p, GossipService.peers (gossip_service nd) !! k = Some p ->
     PeerState.status p = NodeStatus.Alive /\ peer_version p <> (0, 0)) ->
  a <> "" -> cl !! "" = None -> Z.of_nat (length (HashRing.get_nodes (ring_of nd) key)) < 2 ^ 32 ->
  2 <= QuorumConfig.effective_write_quorum (ReplicationCoordinator.quorum (coordinator nd))
         (proto.PutRequest.write_quorum req) ->
  exists cl' msg, cluster_put net now io cl a nd req = (cl', inr (Unavailable msg)).
Proof.
  intros key Hes Hg Hid Hheard Ha Hno Hlen Hw.
  pose proof (net_services _ (net_run_ok no_net es Hes no_net_ok) a _ Hg) as Hso.
  assert (forall n, n ∈ ReplicationCoordinator.peers (ring_of nd)
    (ReplicationCoordinator.node_id (engine nd)) key -> Node.address n = "") as Hempty.
  { intros n [(h & Hn)%elem_of_get_nodes Hne]%elem_of_peers. unfold ring_of in Hn.
    destruct (ok_members _ (so_ok _ Hso) h n Hn) as [?|(p & Hp & _)]; [congruence|].
    destruct (Hheard _ p Hp) as [Hst Hv].
    rewrite (ok_addresses _ (so_ok _ Hso) h n p Hn Hp Hst).
    by destruct (so_news _ Hso _ p Hp) as [?|[? _]]. }
  unfold cluster_put. fold key. set (v := ReplicationCoordinator.versioned_value _ _ _ _ _).
  pose proof (fun replies Hl => put_finish_counts (coordinator nd) (ring_of nd) io (engine nd)
    (store nd) key v (proto.PutRequest.write_quorum req) replies Hl Hlen) as Hc.
  destruct (ReplicationCoordinator.put_begin _ _ _ _ _ _) as [[e d] counts].
  destruct (replicate_all_nowhere net (ReplicationCoordinator.replicate_request key v)
    (<[a := set_engine nd e d]> cl) _ ltac:(by rewrite lookup_insert_ne) Hempty)
    as (replies & -> & Hl & Hacks).
  destruct (Hc replies Hl) as (_ & Hs & _). rewrite Hacks in Hs.
  unfold KvServiceImpl.put_reply. set (q := ReplicationCoordinator.put_finish _ _ _ _ _) in *.
  assert (QuorumResult.required q
    = QuorumConfig.effective_write_quorum (ReplicationCoordinator.quorum (coordinator nd))
        (proto.PutRequest.write_quorum req)) as Hreq.
  { unfold q, ReplicationCoordinator.put_finish. by destruct (foldl _ _ _). }
  assert (QuorumResult.is_success q = false) as ->; [|by eexists _, _].
  unfold QuorumResult.is_success. rewrite Hreq. apply Z.leb_gt.
  destruct (_ && _) in Hs; lia.
Qed.
End Properties.

(** ** The properties at a concrete network *)

Section Witnesses.
Import Toy.

#[local] Instance first_targets : Rng := fun amount l => take amount l.

(** Two nodes started as the README starts them (with three virtual nodes each). *)
Definition readme_0 : Args.t :=
  Args.Mk "node-0" "0.0.0.0:50051" "127.0.0.1:50051" "./data/node-0" "" 3 2 2 64 3.

Definition addr_0 : string := Args.advertise readme_0.
Definition addr_1 : string := Args.advertise args_2.

Definition started : list net_event :=
  [Start readme_0 (fun _ => 1000); Start args_2 (fun _ => 1000)].
(** Node 1 sends to node 0, which then sends to the address it knows of node 1. *)
Definition exchange : list net_event :=
  [Round addr_1; Deliver 0 (fun _ => 2000); Round addr_0; Deliver 1 (fun _ => 2000)].

Definition service_at (a : string) (net : gossip_net) : GossipService.t :=
  default (start_gossip readme_0 (fun _ => 0)) (services net !! a).

Definition net_2_nodes : gossip_net := net_run no_net (started ++ exchange).

(** Node 0 answers to the empty address, where nobody is. *)
Example reply_goes_nowhere : (sent net_2_nodes).*1 = [addr_0; ""].
Proof. vm_compute. reflexivity. Qed.

Definition known_1 : PeerState.t := PeerState.State "node-1" "" NodeStatus.Alive 1 1 2000.
Definition seed_0 : PeerState.t := PeerState.State "node-0" addr_0 NodeStatus.Alive 0 0 1000.

Example own_news_carries_no_address_witness :
  Forall (fun n => Node.id n = "node-1" -> Node.address n = "")
    (HashRing.get_nodes (GossipService.ring (service_at addr_0 net_2_nodes)) "key").
Proof.
  destruct (own_news_carries_no_address (started ++ exchange) addr_0 (service_at addr_0 net_2_nodes)
    "node-1" known_1) as [_ Hring]; [decided|vm_compute; reflexivity|vm_compute; reflexivity|].
  apply Forall_forall. apply Hring; [reflexivity|]. vm_compute. congruence.
Defined.

(** Node 1 never hears from node 0 and gives it up. *)
Example reachable_peers_expire_witness :
  exists g' p', services (net_run no_net (started ++ exchange
      ++ Check addr_1 7000 :: [Round addr_1] ++ Check addr_1 17000 :: [])) !! addr_1 = Some g'
    /\ GossipService.peers g' !! "node-0" = Some p'
    /\ (PeerState.address p' = ""
        \/ PeerState.status p' = NodeStatus.Dead
           /\ forall key, HashRing.is_responsible (GossipService.ring g') "node-0" key = false).
Proof.
  apply (reachable_peers_expire started exchange [Round addr_1] [] addr_1
    (service_at addr_1 (net_run no_net started)) "node-0" seed_0 7000 17000).
  - decided.
  - decided.
  - vm_compute. reflexivity.
  - vm_compute. reflexivity.
  - vm_compute. congruence.
  - vm_compute. reflexivity.
  - vm_compute. reflexivity.
Defined.

(** Node 0 with the peers it has heard of, and a put with the default write quorum. *)
Definition heard_node : node :=
  set_gossip (fresh_node "node-0" addr_0 []) (service_at addr_0 net_2_nodes).

Example heard_peers_refuse_writes_witness :
  exists cl' msg, cluster_put net_2 at_ms WriteOk {[addr_0 := heard_node]} addr_0 heard_node put_key
    = (cl', inr (Unavailable msg)).
Proof.
  apply (heard_peers_refuse_writes (started ++ exchange) addr_0 heard_node net_2 at_ms WriteOk
    {[addr_0 := heard_node]} put_key).
  - decided.
  - vm_compute. reflexivity.
  - vm_compute. reflexivity.
  - assert (map_Forall (fun _ p => PeerState.status p = NodeStatus.Alive /\ peer_version p <> (0, 0))
      (GossipService.peers (gossip_service heard_node))) as Hall by decided.
    intros k p Hp. exact (Hall k p Hp).
  - vm_compute. congruence.
  - vm_compute. reflexivity.
  - vm_compute. reflexivity.
  - vm_compute. congruence.
Defined.
End Witnesses.
