(* ===== verification/Rpc.v ===== *)
(** The generated gRPC stubs (the client and server modules of src/src/grpc/rkv.rs): the
    construction and configuration of clients and servers, the path each client method
    calls, and the dispatch of a server on the path of a request.

    tonic and prost are parameters: a codec for every message type ([Prost]), and the
    client and server machinery that the generated code configures and calls ([Tonic]),
    compression included. The traits that the generated servers call are records of
    handlers; the services of a node (Service.v) are one implementation. A server is
    itself something a client can call ([GrpcService]). The [GrpcMethod] extension of a
    request, which only interceptors see, is left out. *)

From S2P Require Import Prelude Bytes BTreeMap VectorClock Memtable Externals Wal Snapshot.
From S2P Require Import Engine ConsistentHash Quorum Proto Coordinator Detector Service.
Open Scope Z_scope.

(** The status of a call as the client sees it: returned by a handler, made by the
    generated code, or made by tonic (undecodable, too large, connection lost). *)
Inductive rpc_status :=
| FromHandler (s : status)
| Unimplemented
| Unknown (message : string)
| FromTonic (code : Z).

Inductive http_reply := Message (body : list byte) | Trailers (s : rpc_status).

(** A handler: the shared state, the request; it may panic. *)
Definition handler (S A B : Type) : Type := S -> A -> outcome (S * (B + status)).

(** prost: the derived encoding of a message type. *)
Class Prost (A : Type) := {
  encode_message : A -> list byte;
  decode_message : list byte -> option A
}.

(** [tonic::client::GrpcService]: what a client sends its requests through, a path and a
    body at a time. *)
Class GrpcService (T S : Type) := {
  transport_ready : T -> result string unit;
  transport_call : T -> S -> string -> list byte -> outcome (S * http_reply)
}.

(** tonic: compression settings, [transport::Endpoint], [client::Grpc], [server::Grpc]
    and intercepted services. *)
Class Tonic := {
  CompressionEncoding : Type;
  EnabledCompressionEncodings : Type;
  no_encodings : EnabledCompressionEncodings;
  enable : EnabledCompressionEncodings -> CompressionEncoding -> EnabledCompressionEncodings;

  Channel : Type;
  endpoint_connect : string -> result string Channel;
  InterceptedService : Type -> Type -> Type;
  intercepted_new {T F : Type} : T -> F -> InterceptedService T F;

  client_grpc : Type -> Type;
  grpc_new {T : Type} : T -> client_grpc T;
  grpc_with_origin {T : Type} : T -> string -> client_grpc T;
  grpc_send_compressed {T : Type} : client_grpc T -> CompressionEncoding -> client_grpc T;
  grpc_accept_compressed {T : Type} : client_grpc T -> CompressionEncoding -> client_grpc T;
  grpc_max_decoding {T : Type} : client_grpc T -> Z -> client_grpc T;
  grpc_max_encoding {T : Type} : client_grpc T -> Z -> client_grpc T;
  grpc_ready {T S : Type} `{!GrpcService T S} : client_grpc T -> result string unit;
  grpc_unary {A B T S : Type} `{!Prost A, !Prost B, !GrpcService T S} :
    client_grpc T -> S -> A -> string -> outcome (S * (B + rpc_status));

  server_grpc : Type;
  server_grpc_new : server_grpc;
  apply_compression_config :
    server_grpc -> EnabledCompressionEncodings -> EnabledCompressionEncodings -> server_grpc;
  apply_max_message_size_config : server_grpc -> option Z -> option Z -> server_grpc;
  server_unary {A B S : Type} `{!Prost A, !Prost B} :
    server_grpc -> handler S A B -> S -> list byte -> outcome (S * http_reply)
}.

(** [KvServiceClient]. *)
Module KvServiceClient.
Section Client.
Context `{Tonic} {T : Type}.

Record t := Client { inner : client_grpc T }.

Definition new (inner : T) : t := let inner := grpc_new inner in Client inner.

Definition with_origin (inner : T) (origin : string) : t :=
  let inner := grpc_with_origin inner origin in Client inner.

Definition send_compressed (self : t) (encoding : CompressionEncoding) : t :=
  Client (grpc_send_compressed (inner self) encoding).

Definition accept_compressed (self : t) (encoding : CompressionEncoding) : t :=
  Client (grpc_accept_compressed (inner self) encoding).

Definition max_decoding_message_size (self : t) (limit : Z) : t :=
  Client (grpc_max_decoding (inner self) limit).

Definition max_encoding_message_size (self : t) (limit : Z) : t :=
  Client (grpc_max_encoding (inner self) limit).
End Client.
Arguments t {_} T.

Section Connected.
Context `{Tonic}.

Definition connect (dst : string) : result string (t Channel) :=
  match endpoint_connect dst with
  | Err e => Err e
  | Ok conn => Ok (new conn)
  end.

Definition with_interceptor {T F} (inner : T) (interceptor : F) : t (InterceptedService T F) :=
  new (intercepted_new inner interceptor).
End Connected.

Section Methods.
Context `{Tonic} {T S : Type} `{!GrpcService T S}.
Context `{!Prost proto.GetRequest.t, !Prost proto.GetResponse.t}.
Context `{!Prost proto.PutRequest.t, !Prost proto.PutResponse.t}.
Context `{!Prost proto.DeleteRequest.t, !Prost proto.DeleteResponse.t}.
Context `{!Prost proto.ScanRequest.t, !Prost proto.ScanResponse.t}.

Definition get (self : t T) (st : S) (request : proto.GetRequest.t)
  : outcome (S * (proto.GetResponse.t + rpc_status)) :=
  match grpc_ready (inner self) with
  | Err e => Return (st, inr (Unknown ("Service was not ready: " +:+ e)))
  | Ok _ => grpc_unary (inner self) st request "/rkv.KvService/Get"
  end.

Definition put (self : t T) (st : S) (request : proto.PutRequest.t)
  : outcome (S * (proto.PutResponse.t + rpc_status)) :=
  match grpc_ready (inner self) with
  | Err e => Return (st, inr (Unknown ("Service was not ready: " +:+ e)))
  | Ok _ => grpc_unary (inner self) st request "/rkv.KvService/Put"
  end.

Definition delete (self : t T) (st : S) (request : proto.DeleteRequest.t)
  : outcome (S * (proto.DeleteResponse.t + rpc_status)) :=
  match grpc_ready (inner self) with
  | Err e => Return (st, inr (Unknown ("Service was not ready: " +:+ e)))
  | Ok _ => grpc_unary (inner self) st request "/rkv.KvService/Delete"
  end.

Definition scan (self : t T) (st : S) (request : proto.ScanRequest.t)
  : outcome (S * (proto.ScanResponse.t + rpc_status)) :=
  match grpc_ready (inner self) with
  | Err e => Return (st, inr (Unknown ("Service was not ready: " +:+ e)))
  | Ok _ => grpc_unary (inner self) st request "/rkv.KvService/Scan"
  end.
End Methods.
End KvServiceClient.

(** [InternalServiceClient]. *)
Module InternalServiceClient.
Section Client.
Context `{Tonic} {T : Type}.

Record t := Client { inner : client_grpc T }.

Definition new (inner : T) : t := let inner := grpc_new inner in Client inner.

Definition with_origin (inner : T) (origin : string) : t :=
  let inner := grpc_with_origin inner origin in Client inner.

Definition send_compressed (self : t) (encoding : CompressionEncoding) : t :=
  Client (grpc_send_compressed (inner self) encoding).

Definition accept_compressed (self : t) (encoding : CompressionEncoding) : t :=
  Client (grpc_accept_compressed (inner self) encoding).

Definition max_decoding_message_size (self : t) (limit : Z) : t :=
  Client (grpc_max_decoding (inner self) limit).

Definition max_encoding_message_size (self : t) (limit : Z) : t :=
  Client (grpc_max_encoding (inner self) limit).
End Client.
Arguments t {_} T.

Section Connected.
Context `{Tonic}.

Definition connect (dst : string) : result string (t Channel) :=
  match endpoint_connect dst with
  | Err e => Err e
  | Ok conn => Ok (new conn)
  end.

Definition with_interceptor {T F} (inner : T) (interceptor : F) : t (InterceptedService T F) :=
  new (intercepted_new inner interceptor).
End Connected.

Section Methods.
Context `{Tonic} {T S : Type} `{!GrpcService T S}.
Context `{!Prost proto.ReplicateRequest.t, !Prost proto.ReplicateResponse.t}.
Context `{!Prost proto.GetInternalRequest.t, !Prost proto.GetInternalResponse.t}.
Context `{!Prost proto.DeleteInternalRequest.t, !Prost proto.DeleteInternalResponse.t}.
Context `{!Prost proto.GossipMessage.t, !Prost proto.GossipAck.t}.
Context `{!Prost proto.HandoffRequest.t, !Prost proto.HandoffResponse.t}.
Context `{!Prost proto.TransferRequest.t, !Prost proto.TransferResponse.t}.

Definition replicate (self : t T) (st : S) (request : proto.ReplicateRequest.t)
  : outcome (S * (proto.ReplicateResponse.t + rpc_status)) :=
  match grpc_ready (inner self) with
  | Err e => Return (st, inr (Unknown ("Service was not ready: " +:+ e)))
  | Ok _ => grpc_unary (inner self) st request "/rkv.InternalService/Replicate"
  end.

Definition get_internal (self : t T) (st : S) (request : proto.GetInternalRequest.t)
  : outcome (S * (proto.GetInternalResponse.t + rpc_status)) :=
  match grpc_ready (inner self) with
  | Err e => Return (st, inr (Unknown ("Service was not ready: " +:+ e)))
  | Ok _ => grpc_unary (inner self) st request "/rkv.InternalService/GetInternal"
  end.

Definition delete_internal (self : t T) (st : S) (request : proto.DeleteInternalRequest.t)
  : outcome (S * (proto.DeleteInternalResponse.t + rpc_status)) :=
  match grpc_ready (inner self) with
  | Err e => Return (st, inr (Unknown ("Service was not ready: " +:+ e)))
  | Ok _ => grpc_unary (inner self) st request "/rkv.InternalService/DeleteInternal"
  end.

Definition gossip (self : t T) (st : S) (request : proto.GossipMessage.t)
  : outcome (S * (proto.GossipAck.t + rpc_status)) :=
  match grpc_ready (inner self) with
  | Err e => Return (st, inr (Unknown ("Service was not ready: " +:+ e)))
  | Ok _ => grpc_unary (inner self) st request "/rkv.InternalService/Gossip"
  end.

Definition hinted_handoff (self : t T) (st : S) (request : proto.HandoffRequest.t)
  : outcome (S * (proto.HandoffResponse.t + rpc_status)) :=
  match grpc_ready (inner self) with
  | Err e => Return (st, inr (Unknown ("Service was not ready: " +:+ e)))
  | Ok _ => grpc_unary (inner self) st request "/rkv.InternalService/HintedHandoff"
  end.

Definition transfer_keys (self : t T) (st : S) (request : proto.TransferRequest.t)
  : outcome (S * (proto.TransferResponse.t + rpc_status)) :=
  match grpc_ready (inner self) with
  | Err e => Return (st, inr (Unknown ("Service was not ready: " +:+ e)))
  | Ok _ => grpc_unary (inner self) st request "/rkv.InternalService/TransferKeys"
  end.
End Methods.
End InternalServiceClient.

(** [trait KvService] and [KvServiceServer]. *)
Module KvServiceServer.
Section Server.
Context `{Tonic} {S : Type}.
Context `{!Prost proto.GetRequest.t, !Prost proto.GetResponse.t}.
Context `{!Prost proto.PutRequest.t, !Prost proto.PutResponse.t}.
Context `{!Prost proto.DeleteRequest.t, !Prost proto.DeleteResponse.t}.
Context `{!Prost proto.ScanRequest.t, !Prost proto.ScanResponse.t}.

Record KvService := MkKvService {
  kv_get : handler S proto.GetRequest.t proto.GetResponse.t;
  kv_put : handler S proto.PutRequest.t proto.PutResponse.t;
  kv_delete : handler S proto.DeleteRequest.t proto.DeleteResponse.t;
  kv_scan : handler S proto.ScanRequest.t proto.ScanResponse.t
}.

Record t := Server {
  inner : KvService;
  accept_compression_encodings : EnabledCompressionEncodings;
  send_compression_encodings : EnabledCompressionEncodings;
  max_decoding : option Z;
  max_encoding : option Z
}.

Definition from_arc (inner : KvService) : t := Server inner no_encodings no_encodings None None.

Definition new (inner : KvService) : t := from_arc inner.

Definition with_interceptor {F} (inner : KvService) (interceptor : F) : InterceptedService t F :=
  intercepted_new (new inner) interceptor.

Definition accept_compressed (self : t) (encoding : CompressionEncoding) : t :=
  Server (inner self) (enable (accept_compression_encodings self) encoding)
    (send_compression_encodings self) (max_decoding self) (max_encoding self).

Definition send_compressed (self : t) (encoding : CompressionEncoding) : t :=
  Server (inner self) (accept_compression_encodings self)
    (enable (send_compression_encodings self) encoding) (max_decoding self) (max_encoding self).

Definition max_decoding_message_size (self : t) (limit : Z) : t :=
  Server (inner self) (accept_compression_encodings self) (send_compression_encodings self)
    (Some limit) (max_encoding self).

Definition max_encoding_message_size (self : t) (limit : Z) : t :=
  Server (inner self) (accept_compression_encodings self) (send_compression_encodings self)
    (max_decoding self) (Some limit).

Definition poll_ready (self : t) : result string unit := Ok tt.

(** The configured [server::Grpc] of an arm. *)
Definition grpc (self : t) : server_grpc :=
  apply_max_message_size_config
    (apply_compression_config server_grpc_new (accept_compression_encodings self)
       (send_compression_encodings self))
    (max_decoding self) (max_encoding self).

(** The arms of [call]. *)
Definition get_svc (self : t) (st : S) (body : list byte) : outcome (S * http_reply) :=
  server_unary (grpc self) (kv_get (inner self)) st body.
Definition put_svc (self : t) (st : S) (body : list byte) : outcome (S * http_reply) :=
  server_unary (grpc self) (kv_put (inner self)) st body.
Definition delete_svc (self : t) (st : S) (body : list byte) : outcome (S * http_reply) :=
  server_unary (grpc self) (kv_delete (inner self)) st body.
Definition scan_svc (self : t) (st : S) (body : list byte) : outcome (S * http_reply) :=
  server_unary (grpc self) (kv_scan (inner self)) st body.

(** The arm of every other path. *)
Definition unimplemented (st : S) : outcome (S * http_reply) := Return (st, Trailers Unimplemented).

Definition call (self : t) (st : S) (path : string) (body : list byte) : outcome (S * http_reply) :=
  if String.eqb path "/rkv.KvService/Get" then get_svc self st body
  else if String.eqb path "/rkv.KvService/Put" then put_svc self st body
  else if String.eqb path "/rkv.KvService/Delete" then delete_svc self st body
  else if String.eqb path "/rkv.KvService/Scan" then scan_svc self st body
  else unimplemented st.

Definition clone (self : t) : t :=
  Server (inner self) (accept_compression_encodings self) (send_compression_encodings self)
    (max_decoding self) (max_encoding self).

#[global] Instance service : GrpcService t S :=
  {| transport_ready := poll_ready; transport_call := call |}.
End Server.
Arguments KvService : clear implicits.
Arguments t {_} S.

Definition SERVICE_NAME : string := "rkv.KvService".
Definition NAME : string := SERVICE_NAME.
End KvServiceServer.

(** [trait InternalService] and [InternalServiceServer]. *)
Module InternalServiceServer.
Section Server.
Context `{Tonic} {S : Type}.
Context `{!Prost proto.ReplicateRequest.t, !Prost proto.ReplicateResponse.t}.
Context `{!Prost proto.GetInternalRequest.t, !Prost proto.GetInternalResponse.t}.
Context `{!Prost proto.DeleteInternalRequest.t, !Prost proto.DeleteInternalResponse.t}.
Context `{!Prost proto.GossipMessage.t, !Prost proto.GossipAck.t}.
Context `{!Prost proto.HandoffRequest.t, !Prost proto.HandoffResponse.t}.
Context `{!Prost proto.TransferRequest.t, !Prost proto.TransferResponse.t}.

Record InternalService := MkInternalService {
  is_replicate : handler S proto.ReplicateRequest.t proto.ReplicateResponse.t;
  is_get_internal : handler S proto.GetInternalRequest.t proto.GetInternalResponse.t;
  is_delete_internal : handler S proto.DeleteInternalRequest.t proto.DeleteInternalResponse.t;
  is_gossip : handler S proto.GossipMessage.t proto.GossipAck.t;
  is_hinted_handoff : handler S proto.HandoffRequest.t proto.HandoffResponse.t;
  is_transfer_keys : handler S proto.TransferRequest.t proto.TransferResponse.t
}.

Record t := Server {
  inner : InternalService;
  accept_compression_encodings : EnabledCompressionEncodings;
  send_compression_encodings : EnabledCompressionEncodings;
  max_decoding : option Z;
  max_encoding : option Z
}.

Definition from_arc (inner : InternalService) : t := Server inner no_encodings no_encodings None None.

Definition new (inner : InternalService) : t := from_arc inner.

Definition with_interceptor {F} (inner : InternalService) (interceptor : F) : InterceptedService t F :=
  intercepted_new (new inner) interceptor.

Definition accept_compressed (self : t) (encoding : CompressionEncoding) : t :=
  Server (inner self) (enable (accept_compression_encodings self) encoding)
    (send_compression_encodings self) (max_decoding self) (max_encoding self).

Definition send_compressed (self : t) (encoding : CompressionEncoding) : t :=
  Server (inner self) (accept_compression_encodings self)
    (enable (send_compression_encodings self) encoding) (max_decoding self) (max_encoding self).

Definition max_decoding_message_size (self : t) (limit : Z) : t :=
  Server (inner self) (accept_compression_encodings self) (send_compression_encodings self)
    (Some limit) (max_encoding self).

Definition max_encoding_message_size (self : t) (limit : Z) : t :=
  Server (inner self) (accept_compression_encodings self) (send_compression_encodings self)
    (max_decoding self) (Some limit).

Definition poll_ready (self : t) : result string unit := Ok tt.

(** The configured [server::Grpc] of an arm. *)
Definition grpc (self : t) : server_grpc :=
  apply_max_message_size_config
    (apply_compression_config server_grpc_new (accept_compression_encodings self)
       (send_compression_encodings self))
    (max_decoding self) (max_encoding self).

(** The arms of [call]. *)
Definition replicate_svc (self : t) (st : S) (body : list byte) : outcome (S * http_reply) :=
  server_unary (grpc self) (is_replicate (inner self)) st body.
Definition get_internal_svc (self : t) (st : S) (body : list byte) : outcome (S * http_reply) :=
  server_unary (grpc self) (is_get_internal (inner self)) st body.
Definition delete_internal_svc (self : t) (st : S) (body : list byte) : outcome (S * http_reply) :=
  server_unary (grpc self) (is_delete_internal (inner self)) st body.
Definition gossip_svc (self : t) (st : S) (body : list byte) : outcome (S * http_reply) :=
  server_unary (grpc self) (is_gossip (inner self)) st body.
Definition hinted_handoff_svc (self : t) (st : S) (body : list byte) : outcome (S * http_reply) :=
  server_unary (grpc self) (is_hinted_handoff (inner self)) st body.
Definition transfer_keys_svc (self : t) (st : S) (body : list byte) : outcome (S * http_reply) :=
  server_unary (grpc self) (is_transfer_keys (inner self)) st body.

(** The arm of every other path. *)
Definition unimplemented (st : S) : outcome (S * http_reply) := Return (st, Trailers Unimplemented).

Definition call (self : t) (st : S) (path : string) (body : list byte) : outcome (S * http_reply) :=
  if String.eqb path "/rkv.InternalService/Replicate" then replicate_svc self st body
  else if String.eqb path "/rkv.InternalService/GetInternal" then get_internal_svc self st body
  else if String.eqb path "/rkv.InternalService/DeleteInternal" then delete_internal_svc self st body
  else if String.eqb path "/rkv.InternalService/Gossip" then gossip_svc self st body
  else if String.eqb path "/rkv.InternalService/HintedHandoff" then hinted_handoff_svc self st body
  else if String.eqb path "/rkv.InternalService/TransferKeys" then transfer_keys_svc self st body
  else unimplemented st.

Definition clone (self : t) : t :=
  Server (inner self) (accept_compression_encodings self) (send_compression_encodings self)
    (max_decoding self) (max_encoding self).

#[global] Instance service : GrpcService t S :=
  {| transport_ready := poll_ready; transport_call := call |}.
End Server.
Arguments InternalService : clear implicits.
Arguments t {_} S.

Definition SERVICE_NAME : string := "rkv.InternalService".
Definition NAME : string := SERVICE_NAME.
End InternalServiceServer.

(** ** The services of a node behind the stubs *)

Section Implementation.
Context `{Crc32, Sha256, Json WalEntry.t, Bincode table}.

(** What the environment gives a call: the clock, the operating system's answers, and
    what becomes of the calls to other nodes. *)
Record call_env := CallEnv {
  ce_now : Z;
  ce_io : write_outcome;
  ce_at : nat -> Z;
  ce_scan_at : string -> Z;
  ce_writes : nat -> InternalServiceImpl.write_env;
  ce_read : Node.t -> proto.GetInternalRequest.t -> rpc_result proto.GetInternalResponse.t;
  ce_replicate : Node.t -> proto.ReplicateRequest.t -> rpc_result proto.ReplicateResponse.t;
  ce_delete : Node.t -> proto.DeleteInternalRequest.t -> rpc_result proto.DeleteInternalResponse.t
}.

(** [impl KvService for KvServiceImpl]. *)
Definition kv_service_impl (c : call_env) : KvServiceServer.KvService node := KvServiceServer.MkKvService
  (fun nd req => Return (nd, KvServiceImpl.get (ce_at c) nd req (ce_read c)))
  (fun nd req => Return (KvServiceImpl.put (ce_now c) (ce_io c) nd req (ce_replicate c)))
  (fun nd req => Return (KvServiceImpl.delete (ce_now c) (ce_io c) nd req (ce_delete c)))
  (fun nd req => match KvServiceImpl.scan (ce_scan_at c) nd req with
                 | Panic => Panic | Return r => Return (nd, r) end).

(** [impl InternalService for InternalServiceImpl]. *)
Definition internal_service_impl (c : call_env) : InternalServiceServer.InternalService node := InternalServiceServer.MkInternalService
  (fun nd req => Return (InternalServiceImpl.replicate (ce_now c) (ce_io c) nd req))
  (fun nd req => Return (nd, InternalServiceImpl.get_internal nd req))
  (fun nd req => Return (InternalServiceImpl.delete_internal (ce_now c) (ce_io c) nd req))
  (fun nd req => Return (InternalServiceImpl.gossip (ce_at c) nd req))
  (fun nd req => Return (InternalServiceImpl.hinted_handoff (ce_writes c) nd req))
  (fun nd req => Return (InternalServiceImpl.transfer_keys (ce_writes c) nd req)).
End Implementation.

(** ** What the stubs rely on *)

(** Message size limits in bytes; [None] is tonic's default, as the generated
    documentation gives it. *)
Record limits := Limits { l_decoding : option Z; l_encoding : option Z }.

Definition decoding_limit (l : limits) : Z := default (4 * 1024 * 1024) (l_decoding l).
Definition encoding_limit (l : limits) : Z := default (2 ^ 64 - 1) (l_encoding l).

(** A client without compression has a transport and limits, which the builders set.
    Within the limits and without compression, a decoded request reaches the handler,
    whose answer or status is sent back, and a decoded answer or a status reaches the
    caller. *)
Class TonicLaws `{Tonic} := {
  client_transport {T : Type} : client_grpc T -> T;
  client_limits {T : Type} : client_grpc T -> limits;
  client_plain {T : Type} : client_grpc T -> Prop;
  grpc_new_spec {T : Type} (transport : T) :
    client_transport (grpc_new transport) = transport
    /\ client_limits (grpc_new transport) = Limits None None /\ client_plain (grpc_new transport);
  grpc_max_decoding_spec {T : Type} (g : client_grpc T) (limit : Z) :
    client_transport (grpc_max_decoding g limit) = client_transport g
    /\ client_limits (grpc_max_decoding g limit) = Limits (Some limit) (l_encoding (client_limits g))
    /\ (client_plain g -> client_plain (grpc_max_decoding g limit));
  grpc_max_encoding_spec {T : Type} (g : client_grpc T) (limit : Z) :
    client_transport (grpc_max_encoding g limit) = client_transport g
    /\ client_limits (grpc_max_encoding g limit) = Limits (l_decoding (client_limits g)) (Some limit)
    /\ (client_plain g -> client_plain (grpc_max_encoding g limit));
  grpc_ready_spec {T S : Type} `{!GrpcService T S} (g : client_grpc T) :
    grpc_ready g = transport_ready (client_transport g);
  grpc_unary_spec {A B T S : Type} `{!Prost A, !Prost B, !GrpcService T S} (g : client_grpc T)
      (st st' : S) (path : string) (req : A) (reply : http_reply) :
    client_plain g -> vec_len (encode_message req) <= encoding_limit (client_limits g) ->
    transport_call (client_transport g) st path (encode_message req) = Return (st', reply) ->
    match reply with
    | Message body => forall resp : B, decode_message body = Some resp ->
        vec_len body <= decoding_limit (client_limits g) ->
        grpc_unary g st req path = Return (st', inl resp)
    | Trailers s => grpc_unary g st req path = Return (st', @inr B _ s)
    end;
  server_unary_spec {A B S : Type} `{!Prost A, !Prost B} (decoding encoding : option Z)
      (h : handler S A B) (st st' : S) (body : list byte) (req : A) (r : B + status) :
    decode_message body = Some req -> vec_len body <= decoding_limit (Limits decoding encoding) ->
    h st req = Return (st', r) ->
    let g := apply_max_message_size_config
               (apply_compression_config server_grpc_new no_encodings no_encodings) decoding encoding in
    match r with
    | inl resp => vec_len (encode_message resp) <= encoding_limit (Limits decoding encoding) ->
        server_unary g h st body = Return (st', Message (encode_message resp))
    | inr s => server_unary g h st body = Return (st', Trailers (FromHandler s))
    end
}.

(** ** Facts *)

Section Facts.
Context `{Tonic, !TonicLaws}.

(** The message survives the codec and is within both sides' limits. *)
Definition survives {A} `{!Prost A} (from to : limits) (a : A) : Prop :=
  decode_message (encode_message a) = Some a
  /\ vec_len (encode_message a) <= encoding_limit from
  /\ vec_len (encode_message a) <= decoding_limit to.

(** The call gives what the handler gives, when request and answer survive the wire. *)
Definition reaches {A B S} `{!Prost A, !Prost B} (lc ls : limits) (h : handler S A B) (st : S)
    (req : A) (got : outcome (S * (B + rpc_status))) : Prop :=
  forall st' r, h st req = Return (st', r) -> survives lc ls req ->
  (forall resp, r = inl resp -> survives ls lc resp) ->
  got = Return (st', match r with inl resp => inl resp | inr s => inr (FromHandler s) end).

Lemma unary_reaches {A B T S} `{!Prost A, !Prost B, !GrpcService T S} (g : client_grpc T)
    decoding encoding (h : handler S A B) st req path :
  client_plain g ->
  (forall body, transport_call (client_transport g) st path body
    = server_unary (apply_max_message_size_config
        (apply_compression_config server_grpc_new no_encodings no_encodings) decoding encoding) h st body) ->
  reaches (client_limits g) (Limits decoding encoding) h st req (grpc_unary g st req path).
Proof.
  intros Hplain Ht st' r Hh (Hd & He & Hm) Hresp.
  pose proof (server_unary_spec decoding encoding h st st' (encode_message req) req r Hd Hm Hh) as Hs.
  destruct r as [resp|s].
  - destruct (Hresp resp eq_refl) as (Hd' & He' & Hm'). cbn zeta in Hs.
    apply (grpc_unary_spec g st st' path req (Message (encode_message resp)) Hplain He); [|done..].
    rewrite Ht. by apply Hs.
  - apply (grpc_unary_spec g st st' path req (Trailers (FromHandler s)) Hplain He). by rewrite Ht.
Qed.
End Facts.

(** ** Properties *)

Definition kv_paths : list string :=
  ["/rkv.KvService/Get"; "/rkv.KvService/Put"; "/rkv.KvService/Delete"; "/rkv.KvService/Scan"].
Definition internal_paths : list string :=
  ["/rkv.InternalService/Replicate"; "/rkv.InternalService/GetInternal";
   "/rkv.InternalService/DeleteInternal"; "/rkv.InternalService/Gossip";
   "/rkv.InternalService/HintedHandoff"; "/rkv.InternalService/TransferKeys"].

Section Properties.
Context `{Tonic, !TonicLaws} {S : Type}.
Context `{!Prost proto.GetRequest.t, !Prost proto.GetResponse.t}.
Context `{!Prost proto.PutRequest.t, !Prost proto.PutResponse.t}.
Context `{!Prost proto.DeleteRequest.t, !Prost proto.DeleteResponse.t}.
Context `{!Prost proto.ScanRequest.t, !Prost proto.ScanResponse.t}.
Context `{!Prost proto.ReplicateRequest.t, !Prost proto.ReplicateResponse.t}.
Context `{!Prost proto.GetInternalRequest.t, !Prost proto.GetInternalResponse.t}.
Context `{!Prost proto.DeleteInternalRequest.t, !Prost proto.DeleteInternalResponse.t}.
Context `{!Prost proto.GossipMessage.t, !Prost proto.GossipAck.t}.
Context `{!Prost proto.HandoffRequest.t, !Prost proto.HandoffResponse.t}.
Context `{!Prost proto.TransferRequest.t, !Prost proto.TransferResponse.t}.

(** The server compresses nothing. *)
Definition kv_plain (srv : KvServiceServer.t S) : Prop :=
  KvServiceServer.accept_compression_encodings srv = no_encodings
  /\ KvServiceServer.send_compression_encodings srv = no_encodings.
Definition internal_plain (srv : InternalServiceServer.t S) : Prop :=
  InternalServiceServer.accept_compression_encodings srv = no_encodings
  /\ InternalServiceServer.send_compression_encodings srv = no_encodings.

Definition kv_limits (srv : KvServiceServer.t S) : limits :=
  Limits (KvServiceServer.max_decoding srv) (KvServiceServer.max_encoding srv).
Definition internal_limits (srv : InternalServiceServer.t S) : limits :=
  Limits (InternalServiceServer.max_decoding srv) (InternalServiceServer.max_encoding srv).

(** The limits of a client. *)
Definition kv_client_limits {T} (c : KvServiceClient.t T) : limits :=
  client_limits (KvServiceClient.inner c).
Definition internal_client_limits {T} (c : InternalServiceClient.t T) : limits :=
  client_limits (InternalServiceClient.inner c).

(** One call of a client whose transport is the server itself. *)
Lemma kv_call_reaches {A B} `{!Prost A, !Prost B} (srv : KvServiceServer.t S)
    (c : KvServiceClient.t (KvServiceServer.t S)) (h : handler S A B) st req path :
  kv_plain srv -> client_plain (KvServiceClient.inner c) ->
  client_transport (KvServiceClient.inner c) = srv ->
  (forall body, KvServiceServer.call srv st path body = server_unary (KvServiceServer.grpc srv) h st body) ->
  reaches (kv_client_limits c) (kv_limits srv) h st req
    (match grpc_ready (KvServiceClient.inner c) with
     | Err e => Return (st, inr (Unknown ("Service was not ready: " +:+ e)))
     | Ok _ => grpc_unary (KvServiceClient.inner c) st req path
     end).
Proof.
  intros [Ha Hs] Hp <- Hcall. rewrite grpc_ready_spec. apply unary_reaches; [done|].
  intros body. etrans; [apply Hcall|]. unfold KvServiceServer.grpc. by rewrite Ha, Hs.
Qed.

Lemma internal_call_reaches {A B} `{!Prost A, !Prost B} (srv : InternalServiceServer.t S)
    (c : InternalServiceClient.t (InternalServiceServer.t S)) (h : handler S A B) st req path :
  internal_plain srv -> client_plain (InternalServiceClient.inner c) ->
  client_transport (InternalServiceClient.inner c) = srv ->
  (forall body, InternalServiceServer.call srv st path body
     = server_unary (InternalServiceServer.grpc srv) h st body) ->
  reaches (internal_client_limits c) (internal_limits srv) h st req
    (match grpc_ready (InternalServiceClient.inner c) with
     | Err e => Return (st, inr (Unknown ("Service was not ready: " +:+ e)))
     | Ok _ => grpc_unary (InternalServiceClient.inner c) st req path
     end).
Proof.
  intros [Ha Hs] Hp <- Hcall. rewrite grpc_ready_spec. apply unary_reaches; [done|].
  intros body. etrans; [apply Hcall|]. unfold InternalServiceServer.grpc. by rewrite Ha, Hs.
Qed.

(** C38: every client method reaches exactly the handler of the same name and gets
    its answer or status back, for any implementation of the two services and any
    configured message size limits that the messages are within, without compression;
    every other path is answered as unimplemented, and the two services have no path in
    common. *)
Theorem calls_reach_their_handlers (srv : KvServiceServer.t S) (isrv : InternalServiceServer.t S)
    (c : KvServiceClient.t (KvServiceServer.t S))
    (ic : InternalServiceClient.t (InternalServiceServer.t S)) (st : S) :
  kv_plain srv -> internal_plain isrv ->
  client_plain (KvServiceClient.inner c) -> client_transport (KvServiceClient.inner c) = srv ->
  client_plain (InternalServiceClient.inner ic) ->
  client_transport (InternalServiceClient.inner ic) = isrv ->
  let svc := KvServiceServer.inner srv in
  let isvc := InternalServiceServer.inner isrv in
  let lc := kv_client_limits c in let ls := kv_limits srv in
  let ilc := internal_client_limits ic in let ils := internal_limits isrv in
  ((forall req, reaches lc ls (KvServiceServer.kv_get svc) st req (KvServiceClient.get c st req))
   /\ (forall req, reaches lc ls (KvServiceServer.kv_put svc) st req (KvServiceClient.put c st req))
   /\ (forall req, reaches lc ls (KvServiceServer.kv_delete svc) st req (KvServiceClient.delete c st req))
   /\ (forall req, reaches lc ls (KvServiceServer.kv_scan svc) st req (KvServiceClient.scan c st req)))
  /\ ((forall req, reaches ilc ils (InternalServiceServer.is_replicate isvc) st req
         (InternalServiceClient.replicate ic st req))
      /\ (forall req, reaches ilc ils (InternalServiceServer.is_get_internal isvc) st req
            (InternalServiceClient.get_internal ic st req))
      /\ (forall req, reaches ilc ils (InternalServiceServer.is_delete_internal isvc) st req
            (InternalServiceClient.delete_internal ic st req))
      /\ (forall req, reaches ilc ils (InternalServiceServer.is_gossip isvc) st req
            (InternalServiceClient.gossip ic st req))
      /\ (forall req, reaches ilc ils (InternalServiceServer.is_hinted_handoff isvc) st req
            (InternalServiceClient.hinted_handoff ic st req))
      /\ (forall req, reaches ilc ils (InternalServiceServer.is_transfer_keys isvc) st req
            (InternalServiceClient.transfer_keys ic st req)))
  /\ (forall path body, path ∉ kv_paths ->
        KvServiceServer.call srv st path body = KvServiceServer.unimplemented st)
  /\ (forall path body, path ∉ internal_paths ->
        InternalServiceServer.call isrv st path body = InternalServiceServer.unimplemented st)
  /\ (forall path, path ∈ kv_paths -> path ∉ internal_paths).
Proof.
  intros [Ha Hs] [Hia His] Hp Ht Hip Hit svc isvc lc ls ilc ils. split_and!.
  1-4: intros req; apply kv_call_reaches; by try split.
  1-6: intros req; apply internal_call_reaches; by try split.
  - intros path body Hpath. unfold KvServiceServer.call, kv_paths in *.
    rewrite !not_elem_of_cons in Hpath. destruct Hpath as (? & ? & ? & ? & _).
    by rewrite !(proj2 (String.eqb_neq _ _)).
  - intros path body Hpath. unfold InternalServiceServer.call, internal_paths in *.
    rewrite !not_elem_of_cons in Hpath. destruct Hpath as (? & ? & ? & ? & ? & ? & _).
    by rewrite !(proj2 (String.eqb_neq _ _)).
  - apply Forall_forall. decided.
Qed.

(** A client's builders set what they say and keep the rest. *)
Lemma kv_client_built {T} (transport : T) d e :
  let c := KvServiceClient.max_encoding_message_size
             (KvServiceClient.max_decoding_message_size (KvServiceClient.new transport) d) e in
  client_plain (KvServiceClient.inner c) /\ client_transport (KvServiceClient.inner c) = transport
  /\ kv_client_limits c = Limits (Some d) (Some e).
Proof.
  intros c. unfold c, kv_client_limits, KvServiceClient.max_encoding_message_size,
    KvServiceClient.max_decoding_message_size, KvServiceClient.new. cbn [KvServiceClient.inner].
  destruct (grpc_new_spec transport) as (Ht & Hl & Hp).
  destruct (grpc_max_decoding_spec (grpc_new transport) d) as (Ht1 & Hl1 & Hp1).
  destruct (grpc_max_encoding_spec (grpc_max_decoding (grpc_new transport) d) e) as (Ht2 & Hl2 & Hp2).
  rewrite Ht2, Ht1, Hl2, Hl1. auto.
Qed.
End Properties.

(** ** The property at concrete messages *)

(** One concrete codec for every message type, and a unary call that decodes, runs and
    encodes. It is not a model of prost and tonic. *)
Section Instances.

#[local] Instance VectorClock_eq_dec : EqDecision proto.VectorClock.t.
Proof. solve_decision. Defined.
#[local] Instance VectorClock_countable : Countable proto.VectorClock.t :=
  inj_countable' (fun m => proto.VectorClock.clocks m) (fun x0 => proto.VectorClock.Mk x0)
    (fun '(proto.VectorClock.Mk _) => eq_refl).
#[local] Instance VersionedValue_eq_dec : EqDecision proto.VersionedValue.t.
Proof. solve_decision. Defined.
#[local] Instance VersionedValue_countable : Countable proto.VersionedValue.t :=
  inj_countable' (fun m => (proto.VersionedValue.value m, proto.VersionedValue.vector_clock m, proto.VersionedValue.timestamp_ms m, proto.VersionedValue.ttl_ms m)) (fun '(x0, x1, x2, x3) => proto.VersionedValue.Mk x0 x1 x2 x3)
    (fun '(proto.VersionedValue.Mk _ _ _ _) => eq_refl).
#[local] Instance GetRequest_eq_dec : EqDecision proto.GetRequest.t.
Proof. solve_decision. Defined.
#[local] Instance GetRequest_countable : Countable proto.GetRequest.t :=
  inj_countable' (fun m => (proto.GetRequest.key m, proto.GetRequest.read_quorum m)) (fun '(x0, x1) => proto.GetRequest.Mk x0 x1)
    (fun '(proto.GetRequest.Mk _ _) => eq_refl).
#[local] Instance GetResponse_eq_dec : EqDecision proto.GetResponse.t.
Proof. solve_decision. Defined.
#[local] Instance GetResponse_countable : Countable proto.GetResponse.t :=
  inj_countable' (fun m => (proto.GetResponse.found m, proto.GetResponse.value m, proto.GetResponse.vector_clock m)) (fun '(x0, x1, x2) => proto.GetResponse.Mk x0 x1 x2)
    (fun '(proto.GetResponse.Mk _ _ _) => eq_refl).
#[local] Instance PutRequest_eq_dec : EqDecision proto.PutRequest.t.
Proof. solve_decision. Defined.
#[local] Instance PutRequest_countable : Countable proto.PutRequest.t :=
  inj_countable' (fun m => (proto.PutRequest.key m, proto.PutRequest.value m, proto.PutRequest.ttl_ms m, proto.PutRequest.write_quorum m, proto.PutRequest.vector_clock m)) (fun '(x0, x1, x2, x3, x4) => proto.PutRequest.Mk x0 x1 x2 x3 x4)
    (fun '(proto.PutRequest.Mk _ _ _ _ _) => eq_refl).
#[local] Instance PutResponse_eq_dec : EqDecision proto.PutResponse.t.
Proof. solve_decision. Defined.
#[local] Instance PutResponse_countable : Countable proto.PutResponse.t :=
  inj_countable' (fun m => (proto.PutResponse.success m, proto.PutResponse.vector_clock m)) (fun '(x0, x1) => proto.PutResponse.Mk x0 x1)
    (fun '(proto.PutResponse.Mk _ _) => eq_refl).
#[local] Instance DeleteRequest_eq_dec : EqDecision proto.DeleteRequest.t.
Proof. solve_decision. Defined.
#[local] Instance DeleteRequest_countable : Countable proto.DeleteRequest.t :=
  inj_countable' (fun m => (proto.DeleteRequest.key m, proto.DeleteRequest.write_quorum m)) (fun '(x0, x1) => proto.DeleteRequest.Mk x0 x1)
    (fun '(proto.DeleteRequest.Mk _ _) => eq_refl).
#[local] Instance DeleteResponse_eq_dec : EqDecision proto.DeleteResponse.t.
Proof. solve_decision. Defined.
#[local] Instance DeleteResponse_countable : Countable proto.DeleteResponse.t :=
  inj_countable' (fun m => proto.DeleteResponse.success m) (fun x0 => proto.DeleteResponse.Mk x0)
    (fun '(proto.DeleteResponse.Mk _) => eq_refl).
#[local] Instance ScanRequest_eq_dec : EqDecision proto.ScanRequest.t.
Proof. solve_decision. Defined.
#[local] Instance ScanRequest_countable : Countable proto.ScanRequest.t :=
  inj_countable' (fun m => (proto.ScanRequest.start_key m, proto.ScanRequest.end_key m, proto.ScanRequest.limit m)) (fun '(x0, x1, x2) => proto.ScanRequest.Mk x0 x1 x2)
    (fun '(proto.ScanRequest.Mk _ _ _) => eq_refl).
#[local] Instance KeyValue_eq_dec : EqDecision proto.KeyValue.t.
Proof. solve_decision. Defined.
#[local] Instance KeyValue_countable : Countable proto.KeyValue.t :=
  inj_countable' (fun m => (proto.KeyValue.key m, proto.KeyValue.value m, proto.KeyValue.vector_clock m)) (fun '(x0, x1, x2) => proto.KeyValue.Mk x0 x1 x2)
    (fun '(proto.KeyValue.Mk _ _ _) => eq_refl).
#[local] Instance ScanResponse_eq_dec : EqDecision proto.ScanResponse.t.
Proof. solve_decision. Defined.
#[local] Instance ScanResponse_countable : Countable proto.ScanResponse.t :=
  inj_countable' (fun m => proto.ScanResponse.pairs m) (fun x0 => proto.ScanResponse.Mk x0)
    (fun '(proto.ScanResponse.Mk _) => eq_refl).
#[local] Instance ReplicateRequest_eq_dec : EqDecision proto.ReplicateRequest.t.
Proof. solve_decision. Defined.
#[local] Instance ReplicateRequest_countable : Countable proto.ReplicateRequest.t :=
  inj_countable' (fun m => (proto.ReplicateRequest.key m, proto.ReplicateRequest.value m, proto.ReplicateRequest.is_delete m)) (fun '(x0, x1, x2) => proto.ReplicateRequest.Mk x0 x1 x2)
    (fun '(proto.ReplicateRequest.Mk _ _ _) => eq_refl).
#[local] Instance ReplicateResponse_eq_dec : EqDecision proto.ReplicateResponse.t.
Proof. solve_decision. Defined.
#[local] Instance ReplicateResponse_countable : Countable proto.ReplicateResponse.t :=
  inj_countable' (fun m => proto.ReplicateResponse.success m) (fun x0 => proto.ReplicateResponse.Mk x0)
    (fun '(proto.ReplicateResponse.Mk _) => eq_refl).
#[local] Instance GetInternalRequest_eq_dec : EqDecision proto.GetInternalRequest.t.
Proof. solve_decision. Defined.
#[local] Instance GetInternalRequest_countable : Countable proto.GetInternalRequest.t :=
  inj_countable' (fun m => proto.GetInternalRequest.key m) (fun x0 => proto.GetInternalRequest.Mk x0)
    (fun '(proto.GetInternalRequest.Mk _) => eq_refl).
#[local] Instance GetInternalResponse_eq_dec : EqDecision proto.GetInternalResponse.t.
Proof. solve_decision. Defined.
#[local] Instance GetInternalResponse_countable : Countable proto.GetInternalResponse.t :=
  inj_countable' (fun m => (proto.GetInternalResponse.found m, proto.GetInternalResponse.value m)) (fun '(x0, x1) => proto.GetInternalResponse.Mk x0 x1)
    (fun '(proto.GetInternalResponse.Mk _ _) => eq_refl).
#[local] Instance DeleteInternalRequest_eq_dec : EqDecision proto.DeleteInternalRequest.t.
Proof. solve_decision. Defined.
#[local] Instance DeleteInternalRequest_countable : Countable proto.DeleteInternalRequest.t :=
  inj_countable' (fun m => (proto.DeleteInternalRequest.key m, proto.DeleteInternalRequest.vector_clock m)) (fun '(x0, x1) => proto.DeleteInternalRequest.Mk x0 x1)
    (fun '(proto.DeleteInternalRequest.Mk _ _) => eq_refl).
#[local] Instance DeleteInternalResponse_eq_dec : EqDecision proto.DeleteInternalResponse.t.
Proof. solve_decision. Defined.
#[local] Instance DeleteInternalResponse_countable : Countable proto.DeleteInternalResponse.t :=
  inj_countable' (fun m => proto.DeleteInternalResponse.success m) (fun x0 => proto.DeleteInternalResponse.Mk x0)
    (fun '(proto.DeleteInternalResponse.Mk _) => eq_refl).
#[local] Instance NodeState_eq_dec : EqDecision proto.NodeState.t.
Proof. solve_decision. Defined.
#[local] Instance NodeState_countable : Countable proto.NodeState.t :=
  inj_countable' (fun m => (proto.NodeState.node_id m, proto.NodeState.address m, proto.NodeState.status m, proto.NodeState.heartbeat m, proto.NodeState.generation m)) (fun '(x0, x1, x2, x3, x4) => proto.NodeState.Mk x0 x1 x2 x3 x4)
    (fun '(proto.NodeState.Mk _ _ _ _ _) => eq_refl).
#[local] Instance GossipMessage_eq_dec : EqDecision proto.GossipMessage.t.
Proof. solve_decision. Defined.
#[local] Instance GossipMessage_countable : Countable proto.GossipMessage.t :=
  inj_countable' (fun m => (proto.GossipMessage.sender_id m, proto.GossipMessage.nodes m)) (fun '(x0, x1) => proto.GossipMessage.Mk x0 x1)
    (fun '(proto.GossipMessage.Mk _ _) => eq_refl).
#[local] Instance GossipAck_eq_dec : EqDecision proto.GossipAck.t.
Proof. solve_decision. Defined.
#[local] Instance GossipAck_countable : Countable proto.GossipAck.t :=
  inj_countable' (fun m => proto.GossipAck.nodes m) (fun x0 => proto.GossipAck.Mk x0)
    (fun '(proto.GossipAck.Mk _) => eq_refl).
#[local] Instance HintedWrite_eq_dec : EqDecision proto.HintedWrite.t.
Proof. solve_decision. Defined.
#[local] Instance HintedWrite_countable : Countable proto.HintedWrite.t :=
  inj_countable' (fun m => (proto.HintedWrite.key m, proto.HintedWrite.value m, proto.HintedWrite.is_delete m)) (fun '(x0, x1, x2) => proto.HintedWrite.Mk x0 x1 x2)
    (fun '(proto.HintedWrite.Mk _ _ _) => eq_refl).
#[local] Instance HandoffRequest_eq_dec : EqDecision proto.HandoffRequest.t.
Proof. solve_decision. Defined.
#[local] Instance HandoffRequest_countable : Countable proto.HandoffRequest.t :=
  inj_countable' (fun m => (proto.HandoffRequest.target_node_id m, proto.HandoffRequest.hints m)) (fun '(x0, x1) => proto.HandoffRequest.Mk x0 x1)
    (fun '(proto.HandoffRequest.Mk _ _) => eq_refl).
#[local] Instance HandoffResponse_eq_dec : EqDecision proto.HandoffResponse.t.
Proof. solve_decision. Defined.
#[local] Instance HandoffResponse_countable : Countable proto.HandoffResponse.t :=
  inj_countable' (fun m => proto.HandoffResponse.accepted m) (fun x0 => proto.HandoffResponse.Mk x0)
    (fun '(proto.HandoffResponse.Mk _) => eq_refl).
#[local] Instance TransferRequest_eq_dec : EqDecision proto.TransferRequest.t.
Proof. solve_decision. Defined.
#[local] Instance TransferRequest_countable : Countable proto.TransferRequest.t :=
  inj_countable' (fun m => proto.TransferRequest.pairs m) (fun x0 => proto.TransferRequest.Mk x0)
    (fun '(proto.TransferRequest.Mk _) => eq_refl).
#[local] Instance TransferResponse_eq_dec : EqDecision proto.TransferResponse.t.
Proof. solve_decision. Defined.
#[local] Instance TransferResponse_countable : Countable proto.TransferResponse.t :=
  inj_countable' (fun m => proto.TransferResponse.accepted m) (fun x0 => proto.TransferResponse.Mk x0)
    (fun '(proto.TransferResponse.Mk _) => eq_refl).

#[local] Instance plain_prost {A} `{Countable A} : Prost A :=
  {| encode_message := Toy.enc A; decode_message := Toy.dec A |}.

#[local] Instance plain_tonic : Tonic := {|
  CompressionEncoding := unit;
  EnabledCompressionEncodings := unit;
  no_encodings := tt;
  enable _ _ := tt;
  Channel := unit;
  endpoint_connect _ := Err "no network";
  InterceptedService T F := (T * F)%type;
  intercepted_new T F t f := (t, f);
  client_grpc T := (T * limits)%type;
  grpc_new T t := (t, Limits None None);
  grpc_with_origin T t _ := (t, Limits None None);
  grpc_send_compressed T g _ := g;
  grpc_accept_compressed T g _ := g;
  grpc_max_decoding T g n := (g.1, Limits (Some n) (l_encoding g.2));
  grpc_max_encoding T g n := (g.1, Limits (l_decoding g.2) (Some n));
  grpc_ready T S _ g := transport_ready g.1;
  grpc_unary A B T S _ _ _ g st req path :=
    if vec_len (encode_message req) <=? encoding_limit g.2 then
      match transport_call g.1 st path (encode_message req) with
      | Panic => Panic
      | Return (st, Trailers s) => Return (st, inr s)
      | Return (st, Message body) =>
        if vec_len body <=? decoding_limit g.2 then
          match decode_message body with
          | Some resp => Return (st, inl resp)
          | None => Return (st, inr (FromTonic 13))
          end
        else Return (st, inr (FromTonic 11))
      end
    else Return (st, inr (FromTonic 11));
  server_grpc := limits;
  server_grpc_new := Limits None None;
  apply_compression_config g _ _ := g;
  apply_max_message_size_config _ d e := Limits d e;
  server_unary A B S _ _ l h st body :=
    if vec_len body <=? decoding_limit l then
      match decode_message body with
      | None => Return (st, Trailers (FromTonic 13))
      | Some req =>
        match h st req with
        | Panic => Panic
        | Return (st, inr s) => Return (st, Trailers (FromHandler s))
        | Return (st, inl resp) =>
          if vec_len (encode_message resp) <=? encoding_limit l
          then Return (st, Message (encode_message resp))
          else Return (st, Trailers (FromTonic 11))
        end
      end
    else Return (st, Trailers (FromTonic 11))
|}.

#[local] Instance plain_tonic_laws : TonicLaws.
Proof.
  refine {| client_transport T g := g.1; client_limits T g := g.2; client_plain T g := True |}; try done.
  - intros A B T S ? ? ? g st st' path req reply _ He Hs. unfold grpc_unary; cbn.
    rewrite (proj2 (Z.leb_le _ _) He), Hs.
    destruct reply as [body|s]; [|done]. intros resp Hd Hl.
    by rewrite (proj2 (Z.leb_le _ _) Hl), Hd.
  - intros A B S ? ? d e h st st' body req r Hd Hl Hh g.
    assert (forall s', server_unary g h s' body
      = if vec_len body <=? decoding_limit (Limits d e) then
          match decode_message body with
          | None => Return (s', Trailers (FromTonic 13))
          | Some req =>
            match h s' req with
            | Panic => Panic
            | Return (s', inr s) => Return (s', Trailers (FromHandler s))
            | Return (s', inl resp) =>
              if vec_len (encode_message resp) <=? encoding_limit (Limits d e)
              then Return (s', Message (encode_message resp))
              else Return (s', Trailers (FromTonic 11))
            end
          end
        else Return (s', Trailers (FromTonic 11))) as Hg by done.
    rewrite Hg, (proj2 (Z.leb_le _ _) Hl), Hd, Hh.
    destruct r as [resp|s]; [|done]. intros He. by rewrite (proj2 (Z.leb_le _ _) He).
Defined.

Lemma plain_survives {A} `{Countable A} (from to : limits) (a : A) :
  vec_len (encode_message a) <= encoding_limit from ->
  vec_len (encode_message a) <= decoding_limit to -> survives from to a.
Proof. intros ? ?. split; [apply Toy.dec_enc|done]. Qed.

Definition env_1 : call_env :=
  CallEnv 5 WriteOk (fun _ => 5) (fun _ => 5) (fun _ => InternalServiceImpl.Env 5 WriteOk)
    (fun _ _ => RpcTimedOut) (fun _ _ => RpcTimedOut) (fun _ _ => RpcTimedOut).

Import Toy.

Definition kv_server_1 : KvServiceServer.t node := KvServiceServer.new (kv_service_impl env_1).
Definition internal_server_1 : InternalServiceServer.t node :=
  InternalServiceServer.new (internal_service_impl env_1).

Definition small_client : KvServiceClient.t (KvServiceServer.t node) :=
  KvServiceClient.max_encoding_message_size
    (KvServiceClient.max_decoding_message_size (KvServiceClient.new kv_server_1) 1000) 1000.

(** A put at a node that reaches no other node, by a client with small limits: the
    refusal arrives at the client. *)
Example calls_reach_their_handlers_witness :
  exists nd', KvServiceClient.put small_client server_1 put_key
    = Return (nd', inr (FromHandler (Unavailable "Write quorum not met: got 1/2 successes"))).
Proof.
  destruct (calls_reach_their_handlers kv_server_1 internal_server_1
    small_client (InternalServiceClient.new internal_server_1) server_1)
    as [(_ & Hput & _) _]; try done.
  eexists. apply (Hput put_key _ (inr (Unavailable "Write quorum not met: got 1/2 successes"))).
  - vm_compute. reflexivity.
  - apply plain_survives; vm_compute; congruence.
  - intros resp Hr. discriminate Hr.
Defined.
End Instances.
