(* ===== verification/Cli.v ===== *)
(** The command-line client (src/src/bin/cli.rs): the requests each command makes and
    the lines it prints.

    Argument parsing (clap) produces a [Command.t]; the connection is a record of the
    four client methods (Rpc.v) over the state of whatever serves them. The figures of
    the benchmark that depend on the clock are given as text. *)

From S2P Require Import Prelude Bytes Numerals BTreeMap VectorClock Memtable Externals Wal Snapshot.
From S2P Require Import Engine ConsistentHash Quorum Proto Coordinator Detector Service Rpc.
Open Scope Z_scope.

(** ** Text of byte sequences *)

(** The UTF-8 bytes of U+FFFD. *)
Definition replacement : list byte := [Byte.xef; Byte.xbf; Byte.xbd].

Definition in_bytes (lo hi : Z) (b : byte) : bool := (lo <=? Z_of_byte b) && (Z_of_byte b <=? hi).

(** The second bytes that may follow the first byte of a longer character. *)
Definition second_of_3 (b0 b1 : byte) : bool :=
  (in_bytes 0xE0 0xE0 b0 && in_bytes 0xA0 0xBF b1)
  || (in_bytes 0xE1 0xEC b0 && in_bytes 0x80 0xBF b1)
  || (in_bytes 0xED 0xED b0 && in_bytes 0x80 0x9F b1)
  || (in_bytes 0xEE 0xEF b0 && in_bytes 0x80 0xBF b1).

Definition second_of_4 (b0 b1 : byte) : bool :=
  (in_bytes 0xF0 0xF0 b0 && in_bytes 0x90 0xBF b1)
  || (in_bytes 0xF1 0xF3 b0 && in_bytes 0x80 0xBF b1)
  || (in_bytes 0xF4 0xF4 b0 && in_bytes 0x80 0x8F b1).

(** [String::from_utf8_lossy]: every maximal ill-formed piece becomes U+FFFD. *)
Fixpoint utf8_lossy (bs : list byte) : list byte :=
  match bs with
  | [] => []
  | b0 :: r0 =>
    if in_bytes 0x00 0x7F b0 then b0 :: utf8_lossy r0
    else if in_bytes 0xC2 0xDF b0 then
      match r0 with
      | b1 :: r1 =>
        if is_cont b1 then b0 :: b1 :: utf8_lossy r1 else replacement ++ utf8_lossy r0
      | [] => replacement
      end
    else if in_bytes 0xE0 0xEF b0 then
      match r0 with
      | b1 :: r1 =>
        if second_of_3 b0 b1 then
          match r1 with
          | b2 :: r2 =>
            if is_cont b2 then b0 :: b1 :: b2 :: utf8_lossy r2 else replacement ++ utf8_lossy r1
          | [] => replacement
          end
        else replacement ++ utf8_lossy r0
      | [] => replacement
      end
    else if in_bytes 0xF0 0xF4 b0 then
      match r0 with
      | b1 :: r1 =>
        if second_of_4 b0 b1 then
          match r1 with
          | b2 :: r2 =>
            if is_cont b2 then
              match r2 with
              | b3 :: r3 =>
                if is_cont b3 then b0 :: b1 :: b2 :: b3 :: utf8_lossy r3
                else replacement ++ utf8_lossy r2
              | [] => replacement
              end
            else replacement ++ utf8_lossy r1
          | [] => replacement
          end
        else replacement ++ utf8_lossy r0
      | [] => replacement
      end
    else replacement ++ utf8_lossy r0
  end.

Definition show_nat (n : nat) : string := pretty (N.of_nat n).

(** [{:?}] of a [Vec<u8>]. *)
Fixpoint debug_items (bs : list byte) : string :=
  match bs with
  | [] => ""
  | [b] => pretty (Z.to_N (Z_of_byte b))
  | b :: bs => pretty (Z.to_N (Z_of_byte b)) +:+ ", " +:+ debug_items bs
  end.
Definition debug_bytes (bs : list byte) : string := "[" +:+ debug_items bs +:+ "]".

(** ** The commands *)

Module Command.
Inductive t :=
| Get (key : string) (quorum : Z)
| Put (key value : string) (ttl quorum : Z)
| Delete (key : string) (quorum : Z)
| Scan (start end_ : string) (limit : Z)
| Bench (count : N) (value_size : nat).
End Command.

Section Client.
Context {S : Type}.

(** The connected client: the reply to each request, and the state it leaves. *)
Record KvClient := MkKvClient {
  c_get : S -> proto.GetRequest.t -> S * (proto.GetResponse.t + rpc_status);
  c_put : S -> proto.PutRequest.t -> S * (proto.PutResponse.t + rpc_status);
  c_delete : S -> proto.DeleteRequest.t -> S * (proto.DeleteResponse.t + rpc_status);
  c_scan : S -> proto.ScanRequest.t -> S * (proto.ScanResponse.t + rpc_status)
}.

(** What a run prints, and the error it exits with. *)
Definition run_result : Type := S * (list string * option rpc_status).

Definition ok_lines (st : S) (lines : list string) : run_result := (st, (lines, None)).

Definition get_lines (resp : proto.GetResponse.t) : list string :=
  if proto.GetResponse.found resp then
    if utf8_valid (proto.GetResponse.value resp)
    then [string_of_bytes (proto.GetResponse.value resp)]
    else [debug_bytes (proto.GetResponse.value resp) +:+ " ("
            +:+ show_nat (length (proto.GetResponse.value resp)) +:+ " bytes)"]
  else ["(not found)"].

Definition success_lines (success : bool) : list string := [if success then "OK" else "FAILED"].

Definition scan_line (kv : proto.KeyValue.t) : string :=
  proto.KeyValue.key kv +:+ " = " +:+ string_of_bytes (utf8_lossy (proto.KeyValue.value kv)).

Definition scan_lines (resp : proto.ScanResponse.t) : list string :=
  match proto.ScanResponse.pairs resp with
  | [] => ["(no results)"]
  | pairs => (scan_line <$> pairs)
               ++ ["--- " +:+ show_nat (length pairs) +:+ " results ---"]
  end.

(** [client.method(request).await?] and the printing of the reply. *)
Definition print_reply {R} (r : S * (R + rpc_status)) (show : R -> list string) : run_result :=
  match r with
  | (st, inl resp) => ok_lines st (show resp)
  | (st, inr e) => (st, ([], Some e))
  end.

(** [found] is an [i32]. *)
Definition wrap_i32 (z : Z) : Z := (z + 2 ^ 31) `mod` 2 ^ 32 - 2 ^ 31.

Definition bench_key (i : N) : string := "bench:" +:+ pad_8 i.

(** The two loops of the benchmark over the keys; the first failed call ends the run. *)
Fixpoint bench_writes (client : KvClient) (st : S) (value : list byte) (keys : list N)
  : S * option rpc_status :=
  match keys with
  | [] => (st, None)
  | i :: keys =>
    match c_put client st (proto.PutRequest.Mk (bench_key i) value 0 0 None) with
    | (st, inl _) => bench_writes client st value keys
    | (st, inr e) => (st, Some e)
    end
  end.

Fixpoint bench_reads (client : KvClient) (st : S) (found : Z) (keys : list N)
  : S * (Z + rpc_status) :=
  match keys with
  | [] => (st, inl found)
  | i :: keys =>
    match c_get client st (proto.GetRequest.Mk (bench_key i) 0) with
    | (st, inl resp) =>
      bench_reads client st (if proto.GetResponse.found resp then wrap_i32 (found + 1) else found) keys
    | (st, inr e) => (st, inr e)
    end
  end.

(** [writes] and [reads] are the clock-dependent parts of the result lines. *)
Definition bench (client : KvClient) (st : S) (count : N) (value_size : nat) (writes reads : string)
  : run_result :=
  let value := replicate value_size Byte.x78 in
  let keys := N.of_nat <$> seq 0 (N.to_nat count) in
  let line_1 := "Writing " +:+ pretty count +:+ " keys (" +:+ show_nat value_size +:+ " byte values)..." in
  let '(st, e) := bench_writes client st value keys in
  match e with
  | Some e => (st, ([line_1], Some e))
  | None =>
    let line_2 := "Writes: " +:+ writes in
    let line_3 := "Reading " +:+ pretty count +:+ " keys..." in
    match bench_reads client st 0 keys with
    | (st, inr e) => (st, ([line_1; line_2; line_3], Some e))
    | (st, inl found) =>
      let line_4 := "Reads:  " +:+ reads +:+ ", " +:+ pretty found +:+ "/"
                      +:+ pretty count +:+ " found" in
      ok_lines st [line_1; line_2; line_3; line_4]
    end
  end.

(** [main], from the connected client on. *)
Definition run (client : KvClient) (st : S) (timings : string * string) (command : Command.t)
  : run_result :=
  match command with
  | Command.Get key quorum =>
    print_reply (c_get client st (proto.GetRequest.Mk key quorum)) get_lines
  | Command.Put key value ttl quorum =>
    print_reply (c_put client st (proto.PutRequest.Mk key (bytes_of_string value) ttl quorum None))
      (fun resp => success_lines (proto.PutResponse.success resp))
  | Command.Delete key quorum =>
    print_reply (c_delete client st (proto.DeleteRequest.Mk key quorum))
      (fun resp => success_lines (proto.DeleteResponse.success resp))
  | Command.Scan start end_ limit =>
    print_reply (c_scan client st (proto.ScanRequest.Mk start end_ limit)) scan_lines
  | Command.Bench count value_size => bench client st count value_size timings.1 timings.2
  end.
End Client.
Arguments KvClient : clear implicits.

(** ** Facts *)

Section Lossy.

Lemma cont_bits_range b : is_cont b = true -> cont_bits b = Z_of_byte b - 0x80 /\ 0 <= cont_bits b < 64.
Proof.
  unfold is_cont, cont_bits. rewrite andb_true_iff, !Z.leb_le. intros [Hlo Hhi].
  change 0x3F with (Z.ones 6). rewrite Z.land_ones by lia. change (2 ^ 6) with 64.
  pose proof (Z.mod_pos_bound (Z_of_byte b) 64 ltac:(lia)).
  split; [|lia]. pose proof (Z.div_mod (Z_of_byte b) 64 ltac:(lia)). lia.
Qed.

Lemma in_bytes_spec lo hi b : in_bytes lo hi b = true <-> lo <= Z_of_byte b <= hi.
Proof. unfold in_bytes. rewrite andb_true_iff, !Z.leb_le. lia. Qed.

Lemma in_bytes_false lo hi b : ~ lo <= Z_of_byte b <= hi -> in_bytes lo hi b = false.
Proof. intros Hn. apply not_true_iff_false. by rewrite in_bytes_spec. Qed.

(** A decoded character of three bytes starts with a permitted pair. *)
Lemma second_of_3_decoded b0 b1 b2 :
  0xE0 <= Z_of_byte b0 <= 0xEF -> is_cont b1 = true -> is_cont b2 = true ->
  let c := Z.shiftl (Z.land (Z_of_byte b0) 0x0F) 12 + Z.shiftl (cont_bits b1) 6 + cont_bits b2 in
  0x800 <= c -> is_scalar c = true -> second_of_3 b0 b1 = true.
Proof.
  intros H0 H1 H2 c. pose proof (cont_bits_range b1 H1) as [E1 R1].
  pose proof (cont_bits_range b2 H2) as [E2 R2].
  assert (c = (Z_of_byte b0 - 0xE0) * 4096 + cont_bits b1 * 64 + cont_bits b2) as ->.
  { unfold c. rewrite !Z.shiftl_mul_pow2 by lia. change 0x0F with (Z.ones 4).
    rewrite Z.land_ones by lia. change (2 ^ 4) with 16. change (2 ^ 12) with 4096. change (2 ^ 6) with 64.
    pose proof (Z.mod_pos_bound (Z_of_byte b0) 16 ltac:(lia)).
    pose proof (Z.div_mod (Z_of_byte b0) 16 ltac:(lia)). lia. }
  unfold is_scalar. rewrite orb_true_iff, andb_true_iff, Z.ltb_lt, !Z.leb_le.
  unfold second_of_3. rewrite !orb_true_iff, !andb_true_iff, !in_bytes_spec. lia.
Qed.

Lemma second_of_4_decoded b0 b1 b2 b3 :
  0xF0 <= Z_of_byte b0 <= 0xF4 -> is_cont b1 = true -> is_cont b2 = true -> is_cont b3 = true ->
  let c := Z.shiftl (Z.land (Z_of_byte b0) 0x07) 18 + Z.shiftl (cont_bits b1) 12
           + Z.shiftl (cont_bits b2) 6 + cont_bits b3 in
  0x10000 <= c -> is_scalar c = true -> second_of_4 b0 b1 = true.
Proof.
  intros H0 H1 H2 H3 c. pose proof (cont_bits_range b1 H1) as [E1 R1].
  pose proof (cont_bits_range b2 H2) as [E2 R2]. pose proof (cont_bits_range b3 H3) as [E3 R3].
  assert (c = (Z_of_byte b0 - 0xF0) * 262144 + cont_bits b1 * 4096 + cont_bits b2 * 64 + cont_bits b3) as ->.
  { unfold c. rewrite !Z.shiftl_mul_pow2 by lia. change 0x07 with (Z.ones 3).
    rewrite Z.land_ones by lia. change (2 ^ 3) with 8. change (2 ^ 18) with 262144.
    change (2 ^ 12) with 4096. change (2 ^ 6) with 64.
    pose proof (Z.mod_pos_bound (Z_of_byte b0) 8 ltac:(lia)).
    pose proof (Z.div_mod (Z_of_byte b0) 8 ltac:(lia)). lia. }
  unfold is_scalar. rewrite orb_true_iff, andb_true_iff, Z.ltb_lt, !Z.leb_le.
  unfold second_of_4. rewrite !orb_true_iff, !andb_true_iff, !in_bytes_spec. lia.
Qed.
End Lossy.

(** Printing loses nothing of text: valid UTF-8 is printed as it is. *)
Theorem utf8_lossy_id bs : utf8_valid bs = true -> utf8_lossy bs = bs.
Proof.
  unfold utf8_valid. enough (forall n bs, (length bs <= n)%nat -> is_Some (utf8_decode bs) ->
    utf8_lossy bs = bs) as Hn.
  { intros Hv. apply (Hn (length bs)); [done|]. by destruct (utf8_decode bs). }
  clear bs. induction n as [|n IH]; intros [|b0 r0] Hl Hd; cbn [length] in Hl; try done; [lia|].
  cbn [utf8_decode] in Hd. cbn [utf8_lossy]. pose proof (Z_of_byte_range b0) as R0.
  destruct (Z.ltb_spec (Z_of_byte b0) 0x80) as [H1|H1].
  { rewrite (proj2 (in_bytes_spec _ _ _)) by lia. apply fmap_is_Some in Hd. f_equal. apply IH; [lia|done]. }
  rewrite in_bytes_false by lia.
  destruct ((0xC2 <=? Z_of_byte b0) && (Z_of_byte b0 <=? 0xDF)) eqn:H2.
  { change (in_bytes 0xC2 0xDF b0 = true) in H2. rewrite H2.
    destruct r0 as [|b1 r1]; [by destruct Hd|]. destruct (is_cont b1); [|by destruct Hd].
    apply fmap_is_Some in Hd. do 2 f_equal. apply IH; [cbn in Hl; lia|done]. }
  change (in_bytes 0xC2 0xDF b0 = false) in H2. rewrite H2.
  destruct ((0xE0 <=? Z_of_byte b0) && (Z_of_byte b0 <=? 0xEF)) eqn:H3.
  { change (in_bytes 0xE0 0xEF b0 = true) in H3. rewrite H3. apply in_bytes_spec in H3.
    destruct r0 as [|b1 [|b2 r2]]; [by destruct Hd..|].
    destruct (is_cont b1) eqn:C1; [|by destruct Hd]. destruct (is_cont b2) eqn:C2; [|by destruct Hd].
    cbn [andb] in Hd. case_match eqn:Hc; [|by destruct Hd]. apply andb_true_iff in Hc as [Hc1 Hc2].
    apply Z.leb_le in Hc1. rewrite (second_of_3_decoded b0 b1 b2) by done.
    apply fmap_is_Some in Hd. do 3 f_equal. apply IH; [cbn in Hl; lia|done]. }
  change (in_bytes 0xE0 0xEF b0 = false) in H3. rewrite H3.
  destruct ((0xF0 <=? Z_of_byte b0) && (Z_of_byte b0 <=? 0xF4)) eqn:H4; [|by destruct Hd].
  change (in_bytes 0xF0 0xF4 b0 = true) in H4. rewrite H4. apply in_bytes_spec in H4.
  destruct r0 as [|b1 [|b2 [|b3 r3]]]; [by destruct Hd..|].
  destruct (is_cont b1) eqn:C1; [|by destruct Hd]. destruct (is_cont b2) eqn:C2; [|by destruct Hd].
  destruct (is_cont b3) eqn:C3; [|by destruct Hd].
  cbn [andb] in Hd. case_match eqn:Hc; [|by destruct Hd]. apply andb_true_iff in Hc as [Hc1 Hc2].
  apply Z.leb_le in Hc1. rewrite (second_of_4_decoded b0 b1 b2 b3) by done.
  apply fmap_is_Some in Hd. do 4 f_equal. apply IH; [cbn in Hl; lia|done].
Qed.

(** ** The benchmark on a store that keeps what it acknowledges *)

Section Bench.
Context {S : Type} (client : KvClient S) (kept : S -> gset string -> Prop).

(** An acknowledged put is kept beside what was kept before, and kept keys are found. *)
Hypothesis put_keeps : forall st st' ks req resp,
  kept st ks -> c_put client st req = (st', inl resp) ->
  kept st' ({[proto.PutRequest.key req]} ∪ ks).
Hypothesis get_finds : forall st st' ks req resp,
  kept st ks -> proto.GetRequest.key req ∈ ks -> c_get client st req = (st', inl resp) ->
  proto.GetResponse.found resp = true /\ kept st' ks.

Lemma bench_writes_keeps keys st st' value ks :
  kept st ks -> bench_writes client st value keys = (st', None) ->
  exists ks', kept st' ks' /\ ks ⊆ ks' /\ forall i, i ∈ keys -> bench_key i ∈ ks'.
Proof.
  revert st ks. induction keys as [|i keys IH]; intros st ks Hk; cbn [bench_writes].
  { intros [= <-]. exists ks. split_and!; [done|done|by intros i ?%not_elem_of_nil]. }
  destruct (c_put client st _) as [st1 [resp|e]] eqn:E; [|done]. intros Hw.
  destruct (IH st1 _ (put_keeps _ _ _ _ _ Hk E) Hw) as (ks' & Hk' & Hsub & Hall).
  exists ks'. split_and!; [done|set_solver|].
  intros j [->|Hj]%elem_of_cons; [|by apply Hall]. cbn in Hsub. set_solver.
Qed.

Lemma bench_reads_finds keys st st' n found ks :
  kept st ks -> (forall i, i ∈ keys -> bench_key i ∈ ks) ->
  0 <= n -> n + Z.of_nat (length keys) < 2 ^ 31 ->
  bench_reads client st n keys = (st', inl found) -> found = n + Z.of_nat (length keys).
Proof.
  revert st n. induction keys as [|i keys IH]; intros st n Hk Hall Hn Hlt; cbn [bench_reads length].
  { intros [= _ <-]. lia. }
  destruct (c_get client st _) as [st1 [resp|e]] eqn:E; [|done].
  destruct (get_finds st st1 ks (proto.GetRequest.Mk (bench_key i) 0) resp Hk
    (Hall i ltac:(by left)) E) as [-> Hk1]. cbn [length] in Hlt.
  assert (wrap_i32 (n + 1) = n + 1) as ->.
  { unfold wrap_i32. rewrite Z.mod_small; lia. }
  intros Hr. rewrite (IH st1 (n + 1) Hk1 ltac:(intros j ?; apply Hall; by right) ltac:(lia) ltac:(lia) Hr).
  lia.
Qed.

(** A benchmark that runs to its end reports every key found. *)
Theorem bench_finds_every_key st ks count value_size writes reads st' lines :
  kept st ks -> Z.of_N count < 2 ^ 31 ->
  bench client st count value_size writes reads = (st', (lines, None)) ->
  last lines = Some ("Reads:  " +:+ reads +:+ ", " +:+ pretty (Z.of_N count) +:+ "/"
                       +:+ pretty count +:+ " found").
Proof.
  intros Hk Hlt. unfold bench.
  destruct (bench_writes _ _ _ _) as [st1 [e|]] eqn:Ew; [done|].
  destruct (bench_writes_keeps _ _ _ _ _ Hk Ew) as (ks' & Hk' & _ & Hall).
  destruct (bench_reads _ _ _ _) as [st2 [found|e]] eqn:Er; [|done]. intros [= _ <-].
  apply (bench_reads_finds _ _ _ _ _ _ Hk' Hall) in Er; [|done|];
    rewrite length_fmap, length_seq in *; [|lia].
  subst found. by replace (0 + Z.of_nat (N.to_nat count)) with (Z.of_N count) by lia.
Qed.
End Bench.

(** A put at a node prints "OK" or exits with the refusal; "FAILED" is never printed. *)
Theorem put_prints_ok_or_fails `{Crc32, Sha256, Json WalEntry.t, Bincode table}
    (client : KvClient node) now io reply nd timings key value ttl quorum :
  (forall nd req, c_put client nd req
     = let '(nd', r) := KvServiceImpl.put now io nd req reply in
       (nd', match r with inl resp => inl resp | inr s => inr (FromHandler s) end)) ->
  let '(_, (lines, e)) := run client nd timings (Command.Put key value ttl quorum) in
  (lines = ["OK"] /\ e = None) \/ (lines = [] /\ exists msg, e = Some (FromHandler (Unavailable msg))).
Proof.
  intros Hput. cbn [run]. rewrite Hput. unfold KvServiceImpl.put.
  destruct (ReplicationCoordinator.put _ _ _ _ _ _ _ _ _ _ _) as [[e d] q].
  unfold KvServiceImpl.put_reply. destruct (QuorumResult.is_success q); cbn [negb print_reply].
  - by left.
  - right. split; [done|]. by eexists.
Qed.

Example cli_examples :
  get_lines (proto.GetResponse.Mk true (bytes_of_string "value") None) = ["value"]
  /\ get_lines (proto.GetResponse.Mk true [Byte.xff; Byte.x01] None) = ["[255, 1] (2 bytes)"]
  /\ bench_key 42 = "bench:00000042"
  /\ utf8_lossy [Byte.x61; Byte.xe2; Byte.x82; Byte.x62] = [Byte.x61] ++ replacement ++ [Byte.x62].
Proof. split_and!; vm_compute; reflexivity. Qed.
