(* ===== verification/System.v ===== *)
(** The running system: the processes of several machines with everything that is in
    flight between them (src/src/grpc/service.rs, src/src/replication/coordinator.rs,
    src/src/gossip/detector.rs, src/src/bin/server.rs).

    Cluster.v runs a coordinated request and its calls as one event. Here every event is
    one step of one process: a client's request is accepted, its local half runs, a peer
    serves one of its calls, the coordinator receives the reply or gives up waiting, the
    last reply completes it, a background task runs, a process crashes or is started
    again. Calls are served at most once, at any later time (also after the caller gave
    up) or never; gossip messages may also be repeated. Each machine has its own clock.

    The engine's operations are atomic here; their interleaving inside one process is
    the subject of EngineRace.v. [s_writes] is a ghost: the history of the values stored,
    to which the theorems compare the tables. *)

From S2P Require Import Prelude Bytes BTreeMap VectorClock Memtable Externals Wal Snapshot.
From S2P Require Import Engine EngineDurability EngineRace ConsistentHash Quorum Proto Coordinator.
From S2P Require Import SocketAddr Detector Service Cluster Server GossipNet.
Open Scope Z_scope.

(** The calls between nodes, and what their handlers return. *)
Inductive request :=
| Replicate (r : proto.ReplicateRequest.t)
| DeleteInternal (r : proto.DeleteInternalRequest.t)
| GetInternal (r : proto.GetInternalRequest.t).

Inductive response :=
| Replicated (r : proto.ReplicateResponse.t)
| DeletedInternal (r : proto.DeleteInternalResponse.t)
| GotInternal (r : proto.GetInternalResponse.t).

(** One future of a coordinator's [join_all]: the request on its way to an address, what
    the handler there returned once it ran, and what the future resolved to. *)
Record call := Call {
  c_target : string;
  c_request : request;
  c_served : option (response + status);
  c_reply : option (rpc_result response)
}.

Definition new_call (r : request) (n : Node.t) : call := Call (Node.address n) r None None.

Inductive client_request :=
| ClientPut (r : proto.PutRequest.t)
| ClientDelete (r : proto.DeleteRequest.t)
| ClientGet (r : proto.GetRequest.t).

Inductive client_reply :=
| PutReply (r : proto.PutResponse.t + status)
| DeleteReply (r : proto.DeleteResponse.t + status)
| GetReply (r : proto.GetResponse.t + status).

(** What an operation knows after its local half. *)
Inductive local :=
| Counted (counts : Z * Z)
| Read (responses : list (option VersionedValue.t) * Z).

Inductive stage :=
| Begun
| Waiting (l : local)
| Finished (l : local) (r : client_reply)
| Aborted.

(** A client's request at the coordinator of a process. [o_value] is the value of a
    put, computed when it begins. *)
Record operation := Op {
  o_address : string;
  o_coordinator : ReplicationCoordinator.t;
  o_request : client_request;
  o_nodes : list Node.t;
  o_value : option VersionedValue.t;
  o_stage : stage;
  o_calls : list call
}.

Definition set_stage (op : operation) (s : stage) (calls : list call) : operation :=
  Op (o_address op) (o_coordinator op) (o_request op) (o_nodes op) (o_value op) s calls.

(** One item of a bulk request to a node: what an iteration of the loops of
    [hinted_handoff] and [transfer_keys] takes. *)
Inductive bulk_write :=
| Hint (h : proto.HintedWrite.t)
| Pair (kv : proto.KeyValue.t).

Definition bulk_key (b : bulk_write) : string :=
  match b with Hint h => proto.HintedWrite.key h | Pair kv => proto.KeyValue.key kv end.

Record system := System {
  s_clocks : gmap string Z;
  s_nodes : gmap string node;
  s_disks : gmap string disk;
  s_ops : list operation;
  s_sent : list (string * proto.GossipMessage.t);
  s_writes : list (string * (string * VersionedValue.t));
  s_bulk : list bulk_write
}.

Definition no_system : system := System ∅ ∅ ∅ [] [] [] [].

Inductive event :=
(** the clock of a machine moves *)
| Tick (a : string) (t : Z)
(** a process starts on its machine's disk; a running one is replaced *)
| Launch (args : Args.t)
| Crash (a : string)
(** a client's request is accepted; its local half runs; its calls are answered *)
| Begin (a : string) (r : client_request)
| Proceed (i : nat) (io : write_outcome)
| Serve (i j : nat) (io : write_outcome)
| Answer (i j : nat)
| Drop (i j : nat)
| Expire (i j : nat)
| Finish (i : nat)
(** an item of a bulk request is taken *)
| Bulk (a : string) (b : bulk_write) (io : write_outcome)
(** the background tasks *)
| Flush (a : string) (woken : bool)
| Reap (a : string)
| GossipRound (a : string)
| GossipDeliver (i : nat)
| CheckPeers (a : string).

Section Steps.
Context `{Crc32, Sha256, Json WalEntry.t, Bincode table, Rng}.

Definition clock_at (sys : system) (a : string) : Z := default 0 (s_clocks sys !! a).

Definition disk_at (sys : system) (a : string) : disk :=
  match s_nodes sys !! a with
  | Some nd => store nd
  | None => default (Disk None ∅) (s_disks sys !! a)
  end.

Definition set_node (sys : system) (a : string) (nd : node) : system :=
  System (s_clocks sys) (<[a := nd]> (s_nodes sys)) (s_disks sys) (s_ops sys) (s_sent sys)
    (s_writes sys) (s_bulk sys).
Definition set_op (sys : system) (i : nat) (op : operation) : system :=
  System (s_clocks sys) (s_nodes sys) (s_disks sys) (<[i := op]> (s_ops sys)) (s_sent sys)
    (s_writes sys) (s_bulk sys).
Definition add_sent (sys : system) (l : list (string * proto.GossipMessage.t)) : system :=
  System (s_clocks sys) (s_nodes sys) (s_disks sys) (s_ops sys) (s_sent sys ++ l) (s_writes sys)
    (s_bulk sys).

(** The note of a write to [key] at [a] that left the node in state [nd]. *)
Definition noted (a key : string) (nd : node) : list (string * (string * VersionedValue.t)) :=
  option_list ((fun v => (a, (key, v))) <$> StorageEngine.get_raw (engine nd) key).
#[global] Arguments noted : simpl never.
Definition note (sys : system) (l : list (string * (string * VersionedValue.t))) : system :=
  System (s_clocks sys) (s_nodes sys) (s_disks sys) (s_ops sys) (s_sent sys) (s_writes sys ++ l)
    (s_bulk sys).

Definition add_bulk (sys : system) (b : bulk_write) : system :=
  System (s_clocks sys) (s_nodes sys) (s_disks sys) (s_ops sys) (s_sent sys) (s_writes sys)
    (s_bulk sys ++ [b]).

(** A process ends: its requests to others stay on their way, its clients get no reply. *)
Definition abort (a : string) (op : operation) : operation :=
  if bool_decide (o_address op = a) then
    match o_stage op with
    | Finished _ _ => op
    | _ => set_stage op Aborted (o_calls op)
    end
  else op.

Definition stop (sys : system) (a : string) (d : disk) : system :=
  System (s_clocks sys) (delete a (s_nodes sys)) (<[a := d]> (s_disks sys))
    (abort a <$> s_ops sys) (s_sent sys) (s_writes sys) (s_bulk sys).

Definition launch (sys : system) (args : Args.t) : system :=
  let a := Args.advertise args in
  let '(d, r) := main args (fun _ => clock_at sys a) (disk_at sys a) in
  let sys := stop sys a d in
  match r with Ok (_, nd) => set_node sys a nd | Err _ => sys end.

Definition request_key (r : client_request) : string :=
  match r with
  | ClientPut r => proto.PutRequest.key r
  | ClientDelete r => proto.DeleteRequest.key r
  | ClientGet r => proto.GetRequest.key r
  end.

(** The start of [put], [get] and [delete] of the coordinator: the preference list, and
    for a put the value to write. *)
Definition begin_op (now : Z) (a : string) (nd : node) (r : client_request) : operation :=
  let nodes := HashRing.get_nodes (ring_of nd) (request_key r) in
  let value :=
    match r with
    | ClientPut req =>
      Some (ReplicationCoordinator.versioned_value now (engine nd) (proto.PutRequest.key req)
              (proto.PutRequest.value req) (proto.PutRequest.ttl_ms req))
    | _ => None
    end in
  Op a (coordinator nd) r nodes value Begun [].

(** The local half: this node's write or read, then the calls to the other nodes of the
    list. The last component is the key of a write that succeeded. *)
Definition proceed_op (now : Z) (io : write_outcome) (nd : node) (op : operation)
  : node * operation * option string :=
  let my_id := ReplicationCoordinator.node_id (engine nd) in
  let peers := filter (fun n => Node.id n <> my_id) (o_nodes op) in
  match o_request op, o_value op with
  | ClientPut req, Some v =>
    let key := proto.PutRequest.key req in
    let '(e, d, counts) :=
      ReplicationCoordinator.put_begin (ring_of nd) io (engine nd) (store nd) key v in
    (set_engine nd e d,
     set_stage op (Waiting (Counted counts))
       (new_call (Replicate (ReplicationCoordinator.replicate_request key v)) <$> peers),
     if 0 <? counts.1 then Some key else None)
  | ClientDelete req, _ =>
    let key := proto.DeleteRequest.key req in
    let '(e, d, counts) :=
      ReplicationCoordinator.delete_begin (ring_of nd) now io (engine nd) (store nd) key in
    (set_engine nd e d,
     set_stage op (Waiting (Counted counts))
       (new_call (DeleteInternal (ReplicationCoordinator.delete_request e key)) <$> peers),
     if 0 <? counts.1 then Some key else None)
  | ClientGet req, _ =>
    let key := proto.GetRequest.key req in
    (nd,
     set_stage op (Waiting (Read (ReplicationCoordinator.get_begin (ring_of nd) (engine nd) key)))
       (new_call (GetInternal (ReplicationCoordinator.get_request key)) <$> peers),
     None)
  | ClientPut _, None => (nd, op, None)
  end.

(** A node serves a call. *)
Definition handle (now : Z) (io : write_outcome) (nd : node) (r : request)
  : node * (response + status) :=
  match r with
  | Replicate r =>
    let '(nd, x) := InternalServiceImpl.replicate now io nd r in (nd, sum_map Replicated id x)
  | DeleteInternal r =>
    let '(nd, x) := InternalServiceImpl.delete_internal now io nd r in
    (nd, sum_map DeletedInternal id x)
  | GetInternal r => (nd, sum_map GotInternal id (InternalServiceImpl.get_internal nd r))
  end.

(** The key that a served call wrote. *)
Definition written (r : request) (x : response + status) : option string :=
  match r, x with
  | Replicate r, inl _ => Some (proto.ReplicateRequest.key r)
  | DeleteInternal r, inl _ => Some (proto.DeleteInternalRequest.key r)
  | _, _ => None
  end.

Definition rpc_map {A B} (f : A -> option B) (r : rpc_result A) : rpc_result B :=
  match r with
  | Replied x => match f x with Some y => Replied y | None => RpcFailed end
  | RpcFailed => RpcFailed
  | RpcTimedOut => RpcTimedOut
  end.

(** Calls and replies are typed: each kind of call has its kind of reply. *)
Definition as_replicated (x : response) : option proto.ReplicateResponse.t :=
  match x with Replicated r => Some r | _ => None end.
Definition as_deleted (x : response) : option proto.DeleteInternalResponse.t :=
  match x with DeletedInternal r => Some r | _ => None end.
Definition as_got (x : response) : option proto.GetInternalResponse.t :=
  match x with GotInternal r => Some r | _ => None end.

(** The reply to the client once every call has resolved. *)
Definition finish_op (now : Z) (op : operation) (l : local) (replies : list (rpc_result response))
  : option client_reply :=
  let self := o_coordinator op in
  match o_request op, o_value op, l with
  | ClientPut req, Some v, Counted counts =>
    Some (PutReply (KvServiceImpl.put_reply
      (ReplicationCoordinator.put_finish self (proto.PutRequest.write_quorum req) v counts
         (rpc_map as_replicated <$> replies))))
  | ClientDelete req, _, Counted counts =>
    Some (DeleteReply (inl (proto.DeleteResponse.Mk (QuorumResult.is_success
      (ReplicationCoordinator.delete_finish self (proto.DeleteRequest.write_quorum req) counts
         (rpc_map as_deleted <$> replies))))))
  | ClientGet req, _, Read local =>
    Some (GetReply (KvServiceImpl.get_reply
      (ReplicationCoordinator.get_finish self (fun _ => now) (proto.GetRequest.read_quorum req) local
         (rpc_map as_got <$> replies))))
  | _, _, _ => None
  end.

(** The call [j] of the operation [i]. *)
Definition call_of (sys : system) (i j : nat) : option (operation * call) :=
  op ← s_ops sys !! i; c ← o_calls op !! j; Some (op, c).

Definition set_call (sys : system) (i j : nat) (op : operation) (c : call) : system :=
  set_op sys i (set_stage op (o_stage op) (<[j := c]> (o_calls op))).

(** The future of a call resolves, once. *)
Definition resolve (sys : system) (i j : nat) (r : call -> option (rpc_result response)) : system :=
  match call_of sys i j with
  | Some (op, Call target req served None) =>
    match r (Call target req served None) with
    | Some r => set_call sys i j op (Call target req served (Some r))
    | None => sys
    end
  | _ => sys
  end.

(** The reply of the handler, if it ran, reaches the caller. *)
Definition answer_of (c : call) : option (rpc_result response) :=
  option_map (rpc_reply Delivered) (c_served c).

Definition proceed (sys : system) (i : nat) (io : write_outcome) : system :=
  match s_ops sys !! i with
  | Some op =>
    match o_stage op, s_nodes sys !! o_address op with
    | Begun, Some nd =>
      let a := o_address op in
      let '(nd, op, key) := proceed_op (clock_at sys a) io nd op in
      note (set_op (set_node sys a nd) i op) (from_option (fun k => noted a k nd) [] key)
    | _, _ => sys
    end
  | None => sys
  end.

Definition serve (sys : system) (i j : nat) (io : write_outcome) : system :=
  match call_of sys i j with
  | Some (op, Call a req None reply) =>
    match s_nodes sys !! a with
    | Some nd =>
      let '(nd, x) := handle (clock_at sys a) io nd req in
      note (set_call (set_node sys a nd) i j op (Call a req (Some x) reply))
        (from_option (fun k => noted a k nd) [] (written req x))
    | None => sys
    end
  | _ => sys
  end.

Definition finish (sys : system) (i : nat) : system :=
  match s_ops sys !! i with
  | Some op =>
    match o_stage op, mapM c_reply (o_calls op) with
    | Waiting l, Some replies =>
      match finish_op (clock_at sys (o_address op)) op l replies with
      | Some r => set_op sys i (set_stage op (Finished l r) (o_calls op))
      | None => sys
      end
    | _, _ => sys
    end
  | None => sys
  end.

(** An iteration of a bulk handler: the node afterwards, and whether the item counts as
    accepted. *)
Definition bulk_iteration (now : Z) (io : write_outcome) (nd : node) (b : bulk_write) : node * bool :=
  let env := InternalServiceImpl.Env now io in
  let '(nd, accepted) :=
    match b with
    | Hint h => InternalServiceImpl.handoff_step (nd, 0) (env, h)
    | Pair kv => InternalServiceImpl.transfer_step (nd, 0) (env, kv)
    end in
  (nd, 0 <? accepted).

Definition bulk (sys : system) (a : string) (b : bulk_write) (io : write_outcome) : system :=
  match s_nodes sys !! a with
  | Some nd =>
    let '(nd, accepted) := bulk_iteration (clock_at sys a) io nd b in
    add_bulk (note (set_node sys a nd) (if accepted then noted a (bulk_key b) nd else [])) b
  | None => sys
  end.

(** A step of one node that only changes the node. *)
Definition local_step (sys : system) (a : string) (f : Z -> node -> node) : system :=
  match s_nodes sys !! a with
  | Some nd => set_node sys a (f (clock_at sys a) nd)
  | None => sys
  end.

Definition flush_node (woken : bool) (now : Z) (nd : node) : node :=
  let '(e, d) := StorageEngine.flush_task woken now (engine nd) (store nd) in set_engine nd e d.
Definition reap_node (now : Z) (nd : node) : node :=
  set_engine nd (StorageEngine.reap_task (fun _ => now) (engine nd)) (store nd).
Definition check_node (now : Z) (nd : node) : node :=
  set_gossip nd (run_check now (gossip_service nd)).

Definition gossip_round_at (sys : system) (a : string) : system :=
  match s_nodes sys !! a with
  | Some nd =>
    let '(g, messages) := GossipService.gossip_round (gossip_service nd) in
    add_sent (set_node sys a (set_gossip nd g)) messages
  | None => sys
  end.

Definition gossip_deliver (sys : system) (i : nat) : system :=
  match s_sent sys !! i with
  | Some (target, msg) =>
    local_step sys target (fun now nd => (InternalServiceImpl.gossip (fun _ => now) nd msg).1)
  | None => sys
  end.

Definition sys_step (sys : system) (ev : event) : system :=
  match ev with
  | Tick a t =>
    System (<[a := t]> (s_clocks sys)) (s_nodes sys) (s_disks sys) (s_ops sys) (s_sent sys)
      (s_writes sys) (s_bulk sys)
  | Launch args => launch sys args
  | Crash a =>
    match s_nodes sys !! a with Some nd => stop sys a (store nd) | None => sys end
  | Begin a r =>
    match s_nodes sys !! a with
    | Some nd =>
      System (s_clocks sys) (s_nodes sys) (s_disks sys)
        (s_ops sys ++ [begin_op (clock_at sys a) a nd r]) (s_sent sys) (s_writes sys) (s_bulk sys)
    | None => sys
    end
  | Proceed i io => proceed sys i io
  | Serve i j io => serve sys i j io
  | Answer i j =>
    resolve sys i j answer_of
  | Drop i j => resolve sys i j (fun _ => Some RpcFailed)
  | Expire i j => resolve sys i j (fun _ => Some RpcTimedOut)
  | Finish i => finish sys i
  | Bulk a b io => bulk sys a b io
  | Flush a woken => local_step sys a (flush_node woken)
  | Reap a => local_step sys a reap_node
  | GossipRound a => gossip_round_at sys a
  | GossipDeliver i => gossip_deliver sys i
  | CheckPeers a => local_step sys a check_node
  end.

Definition sys_run (sys : system) (es : list event) : system := foldl sys_step sys es.
End Steps.

(** ** Specification *)

Section Spec.
Context `{Crc32, Sha256, Json WalEntry.t, Bincode table, Rng}.

(** What the histories of the theorems are made of: clocks that do not run backwards,
    requests with valid strings and fields in the range of their types (which every Rust
    value has), disks that accept writes, and processes that are not their own seeds. *)
Definition client_ok (r : client_request) : Prop :=
  str_wf (request_key r)
  /\ match r with ClientPut r => in_i64 (proto.PutRequest.ttl_ms r) | _ => True end.

Definition bulk_ok (b : bulk_write) : Prop :=
  str_wf (bulk_key b)
  /\ match b with
    | Hint h => match proto.HintedWrite.value h with Some v => value_wf (value_from_proto v) | None => True end
    | Pair kv => clock_wf (clock_from (proto.KeyValue.vector_clock kv))
    end.

Definition event_ok (sys : system) (ev : event) : Prop :=
  match ev with
  | Tick a t => clock_ok t /\ clock_at sys a <= t
  | Launch args =>
    clock_ok (clock_at sys (Args.advertise args)) /\ str_wf (Args.node_id args)
    /\ Args.node_id args ∉ (parse_seeds (Args.seeds args)).*1
  | Begin _ r => client_ok r
  | Proceed _ io | Serve _ _ io => io = WriteOk
  | Bulk _ b io => bulk_ok b /\ io = WriteOk
  | _ => True
  end.

#[export] Instance write_outcome_eq_dec : EqDecision write_outcome.
Proof. solve_decision. Defined.
#[export] Instance clock_ok_dec t : Decision (clock_ok t).
Proof. unfold clock_ok; apply _. Defined.
#[export] Instance client_ok_dec r : Decision (client_ok r).
Proof. unfold client_ok, in_i64; destruct r; apply _. Defined.
#[export] Instance bulk_ok_dec b : Decision (bulk_ok b).
Proof. unfold bulk_ok; destruct b; [destruct (proto.HintedWrite.value _)|]; apply _. Defined.
#[export] Instance event_ok_dec sys ev : Decision (event_ok sys ev).
Proof. destruct ev; cbn; apply _. Defined.

Fixpoint run_ok (sys : system) (es : list event) : Prop :=
  match es with
  | [] => True
  | ev :: es => event_ok sys ev /\ run_ok (sys_step sys ev) es
  end.

(** The same as a boolean, to evaluate. *)
Fixpoint run_okb (sys : system) (es : list event) : bool :=
  match es with
  | [] => true
  | ev :: es => if decide (event_ok sys ev) then run_okb (sys_step sys ev) es else false
  end.

Lemma run_okb_ok sys es : run_okb sys es = true -> run_ok sys es.
Proof.
  revert sys. induction es as [|ev es IH]; intros sys; cbn; [done|].
  case_decide; [|done]. intros Hes. split; [done|by apply IH].
Qed.

(** The systems of such histories (of fewer events than the log has numbers). *)
Definition reachable (sys : system) : Prop :=
  exists es, run_ok no_system es /\ Z.of_nat (length es) < 2 ^ 64 - 1 /\ sys_run no_system es = sys.

(** The writes that the machine at [a] stored, oldest first. *)
Definition writes_to (sys : system) (a : string) : list (string * VersionedValue.t) :=
  (filter (fun w => w.1 = a) (s_writes sys)).*2.

(** What a node should answer: the contents of a map to which its writes were made. *)
Definition expected (sys : system) (a : string) : table := extend ∅ (writes_to sys a).

(** An engine that was started on an empty disk, and its disk. *)
Definition pristine (w : world) : Prop :=
  contents w = ∅ /\ recovered (w_disk w) = Ok ∅.

(** A running engine with its disk, after the writes [l] since the machine was new. *)
Definition lived (l : list (string * VersionedValue.t)) (t : Z) (e : StorageEngine.t) (d : disk)
  : Prop :=
  exists w0 t', durable_world w0 /\ pristine w0 /\ numbered w0 = 0
    /\ history l w0 (World t' e d) /\ t' <= t /\ clock_ok t.

Record machine_ok (sys : system) (a : string) : Prop := MachineOk {
  mo_running : forall nd, s_nodes sys !! a = Some nd ->
    lived (writes_to sys a) (clock_at sys a) (engine nd) (store nd);
  mo_stopped : s_nodes sys !! a = None ->
    match s_disks sys !! a with
    | Some d => exists e, lived (writes_to sys a) (clock_at sys a) e d
    | None => writes_to sys a = []
    end
}.

Definition request_ok (r : request) : Prop :=
  match r with
  | Replicate r => exists key v, r = ReplicationCoordinator.replicate_request key v
      /\ str_wf key /\ value_wf v /\ VersionedValue.deleted v = false
  | DeleteInternal r => str_wf (proto.DeleteInternalRequest.key r)
  | GetInternal _ => True
  end.

Record operation_ok (op : operation) : Prop := OperationOk {
  oo_request : client_ok (o_request op);
  oo_value : forall v, o_value op = Some v -> value_wf v /\ VersionedValue.deleted v = false;
  oo_calls : Forall (fun c => request_ok (c_request c)) (o_calls op)
}.

(** The invariant of the system after at most [n] events. *)
Record sys_ok (n : Z) (sys : system) : Prop := SysOk {
  sys_machines : forall a, machine_ok sys a;
  sys_gossip : forall a nd, s_nodes sys !! a = Some nd ->
    gossip_ok (gossip_service nd)
    /\ GossipService.node_id (gossip_service nd) = ReplicationCoordinator.node_id (engine nd);
  sys_ops : Forall operation_ok (s_ops sys);
  sys_count : Z.of_nat (length (s_writes sys)) <= n
}.
End Spec.

(** ** Facts *)

Section Lived.
Import StorageEngine.
Context `{Crc32, !Crc32Laws, Json WalEntry.t, !JsonLaws WalEntry.t entry_wf}.
Context `{Bincode table, !BincodeLaws table data_wf}.
Implicit Types (l : list (string * VersionedValue.t)) (e : t) (d : disk).

Lemma lived_sound l t e d :
  lived l t e d ->
  durable t e d /\ same_view t (MemTable.data (memtable e)) (extend ∅ l)
  /\ 0 <= WriteAheadLog.sequence (wal e) <= Z.of_nat (length l).
Proof.
  intros (w0 & t' & Hw & Hc & Hn & Hh & Hle & Hok).
  destruct (history_sound _ _ _ Hh Hw) as [Hd Hv]. rewrite (proj1 Hc) in Hv.
  unfold durable_world, contents in *. cbn [w_time w_engine w_disk] in *.
  destruct (history_sequence _ _ _ Hh Hw) as [Hs1 Hs2]; [lia|].
  unfold numbered in *. cbn [w_engine] in *. split_and!; [by eapply durable_mono| |lia|lia].
  eapply same_view_mono; [|exact Hv]. apply now_ms_mono; [apply Hd|done|done].
Qed.

Lemma lived_mono l t t1 e d : lived l t e d -> t <= t1 -> clock_ok t1 -> lived l t1 e d.
Proof. intros (w0 & t' & ? & ? & ? & ? & ? & _) ? ?. exists w0, t'. split_and!; try done; lia. Qed.

(** Another step, at the machine's time. *)
Lemma lived_step l o t e d e' d' :
  lived l t e d ->
  (forall t', t' <= t -> clock_ok t -> engine_step o (World t' e d) (World t e' d')) ->
  lived (l ++ option_list o) t e' d'.
Proof.
  intros (w0 & t' & Hw & Hc & Hn & Hh & Hle & Hok) Hst. exists w0, t. split_and!; try done.
  eapply history_snoc; [exact Hh|]. by apply Hst.
Qed.

Lemma lived_log_open l t e d :
  lived l t e d -> Z.of_nat (length l) < 2 ^ 64 - 1 -> log_open e.
Proof. intros Hl Hlt. destruct (lived_sound _ _ _ _ Hl) as (_ & _ & ?). unfold log_open. lia. Qed.

(** A put or delete of a machine that has room in its log succeeds. *)
Lemma lived_put l t e d k v :
  lived l t e d -> Z.of_nat (length l) < 2 ^ 64 - 1 -> str_wf k -> value_wf v ->
  exists e' d', put WriteOk e d k v = (e', d', Ok tt) /\ lived (l ++ [(k, v)]) t e' d'
    /\ get_raw e' k = Some v /\ config e' = config e.
Proof.
  intros Hl Hlt Hk Hv. pose proof (lived_log_open _ _ _ _ Hl Hlt) as Ho.
  destruct (lived_sound _ _ _ _ Hl) as (Hd & _ & _).
  destruct (put_durable t e d k v Hd Hk Hv Ho) as (e' & d' & Hp & _ & Hm).
  exists e', d'. split_and!; [done| | |].
  - apply (lived_step l (Some (k, v)) t e d e' d' Hl). intros t' ? ?. by eapply step_put.
  - unfold get_raw, MemTable.get_raw. rewrite Hm. apply lookup_insert_eq.
  - revert Hp. unfold put, log_append. destruct (WriteAheadLog.append _ _ _ _ _) as [[w f] [s|err]]; [|done].
    intros [= <- _]. by rewrite (proj2 (proj2 (table_put_parts _ _ _))).
Qed.

Lemma lived_delete l t e d k :
  lived l t e d -> Z.of_nat (length l) < 2 ^ 64 - 1 -> str_wf k ->
  exists e' d' v, delete t WriteOk e d k = (e', d', Ok tt) /\ lived (l ++ [(k, v)]) t e' d'
    /\ get_raw e' k = Some v /\ config e' = config e.
Proof.
  intros Hl Hlt Hk. pose proof (lived_log_open _ _ _ _ Hl Hlt) as Ho.
  destruct (lived_sound _ _ _ _ Hl) as (Hd & _ & _).
  destruct (delete_durable t t e d k Hd Hk Ho) as (e' & d' & Hp & _ & Hm).
  assert (get_raw e' k = Some (VersionedValue.tombstone t (StorageConfig.node_id (config e)) (clock_of e k)))
    as Hg by (unfold get_raw, MemTable.get_raw; rewrite Hm; apply lookup_insert_eq).
  eexists e', d', _. split_and!; [done| |exact Hg|].
  - match goal with |- lived (l ++ [(k, ?v)]) _ _ _ =>
      apply (lived_step l (Some (k, v)) t e d e' d' Hl) end.
    intros t' ? ?. eapply step_delete; [split; [eassumption|reflexivity]|done..].
  - revert Hp. unfold delete, log_append. destruct (WriteAheadLog.append _ _ _ _ _) as [[w f] [s|err]]; [|done].
    by intros [= <- _].
Qed.

Lemma flush_task_config woken now e d : config (flush_task woken now e d).1 = config e.
Proof.
  unfold flush_task, flush, flush_truncate.
  destruct woken; case_bool_decide; try done; by destruct (flush_save _ _ _).
Qed.

Lemma lived_flush l t e d woken :
  lived l t e d -> lived l t (flush_task woken t e d).1 (flush_task woken t e d).2.
Proof.
  intros Hl. rewrite <-(app_nil_r l). apply (lived_step l None t e d); [done|]. intros t' ? ?.
  eapply (step_flush t' t t e d woken); [lia|done|]. by destruct (flush_task woken t e d).
Qed.

Lemma lived_reap l t e d : lived l t e d -> lived l t (reap_task (fun _ => t) e) d.
Proof.
  intros Hl. rewrite <-(app_nil_r l). apply (lived_step l None t e d); [done|]. intros t' ? ?.
  by apply step_reap.
Qed.

(** A restart, and a first start. *)
Lemma lived_open l t e d cfg :
  lived l t e d -> str_wf (StorageConfig.node_id cfg) -> (1 <= StorageConfig.max_snapshots cfg)%nat ->
  exists e', open cfg d = (d, Ok e') /\ lived l t e' d.
Proof.
  intros Hl Hn Hk. destruct (lived_sound _ _ _ _ Hl) as (Hd & _ & _).
  destruct (open_durable t t cfg e d Hd) as (e' & Ho & _ & _); [apply Hd|lia|done..|].
  exists e'. split; [done|]. rewrite <-(app_nil_r l). apply (lived_step l None t e d); [done|].
  intros t' ? ?. by apply (step_crash t' t e d cfg).
Qed.

Lemma lived_fresh t cfg :
  clock_ok t -> str_wf (StorageConfig.node_id cfg) -> (1 <= StorageConfig.max_snapshots cfg)%nat ->
  exists e d, open cfg (Disk None ∅) = (d, Ok e) /\ lived [] t e d.
Proof.
  intros Hok Hn Hk. destruct (open_fresh t cfg) as (e & d & Ho & Hd & Hm & Hs & Hr); [done..|].
  exists e, d. split; [done|]. exists (World t e d), t. split_and!; try done. apply history_nil.
Qed.
End Lived.

(** *** The steps of one node *)

Section NodeSteps.
Context `{Crc32, !Crc32Laws, Sha256, Json WalEntry.t, !JsonLaws WalEntry.t entry_wf}.
Context `{Bincode table, !BincodeLaws table data_wf}.
Implicit Types (l w : list (string * VersionedValue.t)) (nd : node) (op : operation).

(** From [nd] to [nd'], a node lived on and stored the writes [w]. *)
Record wrote (l : list (string * VersionedValue.t)) (t : Z) (nd nd' : node)
    (w : list (string * VersionedValue.t)) : Prop := Wrote {
  wr_lived : lived (l ++ w) t (engine nd') (store nd');
  wr_gossip : gossip_service nd' = gossip_service nd;
  wr_id : ReplicationCoordinator.node_id (engine nd') = ReplicationCoordinator.node_id (engine nd);
  wr_few : (length w <= 1)%nat
}.

Lemma wrote_nothing l t nd : lived l t (engine nd) (store nd) -> wrote l t nd nd [].
Proof. intros Hl. split; [by rewrite app_nil_r|done|done|cbn; lia]. Qed.

Lemma set_engine_id nd : set_engine nd (engine nd) (store nd) = nd.
Proof. by destruct nd. Qed.

Lemma noted_some a k nd v :
  StorageEngine.get_raw (engine nd) k = Some v -> noted a k nd = pair a <$> [(k, v)].
Proof. unfold noted. by intros ->. Qed.

Lemma engine_put_wrote a l t nd k v :
  lived l t (engine nd) (store nd) -> Z.of_nat (length l) < 2 ^ 64 - 1 -> str_wf k -> value_wf v ->
  exists nd', InternalServiceImpl.engine_put WriteOk nd k v = (nd', Ok tt)
    /\ wrote l t nd nd' [(k, v)] /\ noted a k nd' = pair a <$> [(k, v)].
Proof.
  intros Hl Hlt Hk Hv. destruct (lived_put l t _ _ k v Hl Hlt Hk Hv) as (e & d & Hp & Hl' & Hg & Hc).
  exists (set_engine nd e d). unfold InternalServiceImpl.engine_put. rewrite Hp. split; [done|]. split.
  - split; try done. unfold ReplicationCoordinator.node_id. cbn. by rewrite Hc.
  - by apply noted_some.
Qed.

Lemma engine_delete_wrote a l t nd k :
  lived l t (engine nd) (store nd) -> Z.of_nat (length l) < 2 ^ 64 - 1 -> str_wf k ->
  exists nd' v, InternalServiceImpl.engine_delete t WriteOk nd k = (nd', Ok tt)
    /\ wrote l t nd nd' [(k, v)] /\ noted a k nd' = pair a <$> [(k, v)].
Proof.
  intros Hl Hlt Hk. destruct (lived_delete l t _ _ k Hl Hlt Hk) as (e & d & v & Hp & Hl' & Hg & Hc).
  exists (set_engine nd e d), v. unfold InternalServiceImpl.engine_delete. rewrite Hp. split; [done|].
  split.
  - split; try done. unfold ReplicationCoordinator.node_id. cbn. by rewrite Hc.
  - by apply noted_some.
Qed.

(** Serving a call. *)
Lemma handle_wrote a l t nd r :
  lived l t (engine nd) (store nd) -> Z.of_nat (length l) < 2 ^ 64 - 1 -> request_ok r ->
  exists w, wrote l t nd (handle t WriteOk nd r).1 w
    /\ from_option (fun k => noted a k (handle t WriteOk nd r).1) [] (written r (handle t WriteOk nd r).2)
       = pair a <$> w.
Proof.
  intros Hl Hlt Hr. destruct r as [r|r|r]; cbn [handle].
  - destruct Hr as (k & v & [= ->] & Hk & Hv & Hlive).
    destruct (engine_put_wrote a l t nd k v Hl Hlt Hk Hv) as (nd' & Hp & Hw & Hn).
    unfold InternalServiceImpl.replicate, ReplicationCoordinator.replicate_request.
    cbn [proto.ReplicateRequest.value proto.ReplicateRequest.is_delete proto.ReplicateRequest.key option_map].
    change (value_from_proto (to_proto_versioned v)) with (from_proto_versioned (to_proto_versioned v)).
    rewrite value_roundtrip, undeleted_id, Hp by done. by exists [(k, v)].
  - destruct (engine_delete_wrote a l t nd (proto.DeleteInternalRequest.key r) Hl Hlt Hr)
      as (nd' & v & Hp & Hw & Hn).
    unfold InternalServiceImpl.delete_internal. rewrite Hp. by eexists.
  - exists []. split; [by apply wrote_nothing|done].
Qed.

(** An item of a bulk request. *)
Lemma bulk_wrote a l t nd b :
  lived l t (engine nd) (store nd) -> Z.of_nat (length l) < 2 ^ 64 - 1 -> bulk_ok b ->
  let '(nd', accepted) := bulk_iteration t WriteOk nd b in
  exists w, wrote l t nd nd' w /\ (if accepted then noted a (bulk_key b) nd' else []) = pair a <$> w.
Proof.
  intros Hl Hlt [Hk Hb]. unfold bulk_iteration.
  destruct b as [h|kv]; cbn [bulk_key InternalServiceImpl.handoff_step InternalServiceImpl.transfer_step
    InternalServiceImpl.env_now InternalServiceImpl.env_io] in *.
  - destruct (proto.HintedWrite.value h) as [v|];
      [|exists []; split; [by apply wrote_nothing|done]].
    destruct (proto.HintedWrite.is_delete h).
    + destruct (engine_delete_wrote a l t nd (proto.HintedWrite.key h) Hl Hlt Hk) as (nd' & w & -> & Hw & Hn).
      by eexists.
    + destruct (engine_put_wrote a l t nd (proto.HintedWrite.key h) _ Hl Hlt Hk Hb) as (nd' & -> & Hw & Hn).
      by eexists.
  - destruct (engine_put_wrote a l t nd (proto.KeyValue.key kv)
      (VersionedValue.Value (proto.KeyValue.value kv) (clock_from (proto.KeyValue.vector_clock kv))
        (now_ms t) 0 false) Hl Hlt Hk) as (nd' & -> & Hw & Hn); [|by eexists].
    split_and!; [exact Hb|apply wrap_i64_range|unfold in_i64; cbn; lia].
Qed.

Lemma put_begin_wrote a l t nd ring k v :
  lived l t (engine nd) (store nd) -> Z.of_nat (length l) < 2 ^ 64 - 1 -> str_wf k -> value_wf v ->
  let '(e, d, counts) :=
    ReplicationCoordinator.put_begin ring WriteOk (engine nd) (store nd) k v in
  exists w, wrote l t nd (set_engine nd e d) w
    /\ from_option (fun k => noted a k (set_engine nd e d)) []
         (if 0 <? counts.1 then Some k else None) = pair a <$> w.
Proof.
  intros Hl Hlt Hk Hv. unfold ReplicationCoordinator.put_begin.
  destruct (HashRing.is_responsible ring _ k).
  - destruct (engine_put_wrote a l t nd k v Hl Hlt Hk Hv) as (nd' & Hp & Hw & Hn).
    unfold InternalServiceImpl.engine_put in Hp.
    destruct (StorageEngine.put WriteOk _ _ k v) as [[e d] r]. injection Hp as <- ->.
    exists [(k, v)]. by split.
  - exists []. rewrite set_engine_id. split; [by apply wrote_nothing|done].
Qed.

Lemma delete_begin_wrote a l t nd ring k :
  lived l t (engine nd) (store nd) -> Z.of_nat (length l) < 2 ^ 64 - 1 -> str_wf k ->
  let '(e, d, counts) :=
    ReplicationCoordinator.delete_begin ring t WriteOk (engine nd) (store nd) k in
  exists w, wrote l t nd (set_engine nd e d) w
    /\ from_option (fun k => noted a k (set_engine nd e d)) []
         (if 0 <? counts.1 then Some k else None) = pair a <$> w.
Proof.
  intros Hl Hlt Hk. unfold ReplicationCoordinator.delete_begin.
  destruct (HashRing.is_responsible ring _ k).
  - destruct (engine_delete_wrote a l t nd k Hl Hlt Hk) as (nd' & v & Hp & Hw & Hn).
    unfold InternalServiceImpl.engine_delete in Hp.
    destruct (StorageEngine.delete t WriteOk _ _ k) as [[e d] r]. injection Hp as <- ->.
    exists [(k, v)]. by split.
  - exists []. rewrite set_engine_id. split; [by apply wrote_nothing|done].
Qed.

(** The calls of an operation are well formed, and so are the ones it adds. *)
Lemma new_calls_ok r (ns : list Node.t) :
  request_ok r -> Forall (fun c => request_ok (c_request c)) (new_call r <$> ns).
Proof. intros Hr. apply Forall_fmap, Forall_forall. by intros n _. Qed.

Lemma set_stage_ok op s calls :
  operation_ok op -> Forall (fun c => request_ok (c_request c)) calls ->
  operation_ok (set_stage op s calls).
Proof. intros [] ?. by split. Qed.

Lemma proceed_wrote a l t nd op :
  lived l t (engine nd) (store nd) -> Z.of_nat (length l) < 2 ^ 64 - 1 -> operation_ok op ->
  let '(nd', op', key) := proceed_op t WriteOk nd op in
  operation_ok op' /\ exists w, wrote l t nd nd' w
    /\ from_option (fun k => noted a k nd') [] key = pair a <$> w.
Proof.
  intros Hl Hlt Hop. pose proof (oo_request _ Hop) as [Hk _]. pose proof (oo_value _ Hop) as Hval.
  unfold proceed_op. destruct (o_request op) as [req|req|req]; cbn [request_key] in Hk.
  - destruct (o_value op) as [v|].
    + destruct (Hval v eq_refl) as [Hv Hlive].
      pose proof (put_begin_wrote a l t nd (ring_of nd) (proto.PutRequest.key req) v Hl Hlt Hk Hv) as Hw.
      destruct (ReplicationCoordinator.put_begin _ _ _ _ _ _) as [[e d] counts]. split; [|exact Hw].
      apply set_stage_ok; [done|]. apply new_calls_ok. by exists (proto.PutRequest.key req), v.
    + split; [done|]. exists []. split; [by apply wrote_nothing|done].
  - pose proof (delete_begin_wrote a l t nd (ring_of nd) (proto.DeleteRequest.key req) Hl Hlt Hk) as Hw.
    destruct (ReplicationCoordinator.delete_begin _ _ _ _ _ _) as [[e d] counts]. split; [|exact Hw].
    apply set_stage_ok; [done|]. by apply new_calls_ok.
  - split; [|exists []; split; [by apply wrote_nothing|done]].
    apply set_stage_ok; [done|]. by apply new_calls_ok.
Qed.

Lemma begin_ok l t a nd r :
  lived l t (engine nd) (store nd) -> client_ok r -> operation_ok (begin_op t a nd r).
Proof.
  intros Hl [Hk Hr]. destruct (lived_sound _ _ _ _ Hl) as (Hd & _ & _).
  unfold begin_op. split; cbn; [by split| |done].
  destruct r as [req|req|req]; [|done..]. intros v [= <-]. split; [|done].
  unfold ReplicationCoordinator.versioned_value, ReplicationCoordinator.node_id.
  apply versioned_wf; [apply Hd|apply Hd|done].
Qed.
End NodeSteps.

(** *** The invariant *)

Section Invariant.
Context `{Crc32, !Crc32Laws, Sha256, Json WalEntry.t, !JsonLaws WalEntry.t entry_wf}.
Context `{Bincode table, !BincodeLaws table data_wf, Rng}.
Implicit Types (sys : system) (nd : node) (op : operation).

Lemma writes_to_app sys sys' a b w :
  s_writes sys' = s_writes sys ++ (pair a <$> w) ->
  writes_to sys' b = writes_to sys b ++ (if bool_decide (a = b) then w else []).
Proof.
  intros Hw. unfold writes_to. rewrite Hw, filter_app, fmap_app. f_equal.
  clear Hw. case_bool_decide as Hab; induction w as [|x w IH]; [done| |done|];
    rewrite fmap_cons, filter_cons; cbn [fst].
  - rewrite decide_True, fmap_cons by done. cbn [snd]. by f_equal.
  - by rewrite decide_False.
Qed.

(** One node wrote; every other machine is as before. *)
Lemma machines_step sys sys' a nd' w :
  (forall b, machine_ok sys b) ->
  s_clocks sys' = s_clocks sys -> s_disks sys' = s_disks sys ->
  s_nodes sys' = <[a := nd']> (s_nodes sys) -> s_writes sys' = s_writes sys ++ (pair a <$> w) ->
  lived (writes_to sys a ++ w) (clock_at sys a) (engine nd') (store nd') ->
  forall b, machine_ok sys' b.
Proof.
  intros Hm Hc Hd Hn Hw Hl b. pose proof (writes_to_app sys sys' a b w Hw) as Hwb.
  unfold clock_at in *. destruct (decide (a = b)) as [<-|Hne].
  - rewrite bool_decide_true in Hwb by done. split; rewrite Hn, lookup_insert_eq; [|done].
    intros nd [= <-]. unfold clock_at. by rewrite Hwb, Hc.
  - rewrite bool_decide_false, app_nil_r in Hwb by done. destruct (Hm b) as [Hr Hs].
    split; rewrite Hn, lookup_insert_ne, ?Hd, Hwb by done; unfold clock_at in *; rewrite Hc; done.
Qed.

(** A step that leaves the machines alone. *)
Lemma machines_same sys sys' :
  (forall b, machine_ok sys b) -> s_clocks sys' = s_clocks sys -> s_disks sys' = s_disks sys ->
  s_nodes sys' = s_nodes sys -> s_writes sys' = s_writes sys -> forall b, machine_ok sys' b.
Proof.
  intros Hm Hc Hd Hn Hw b. destruct (Hm b) as [Hr Hs].
  split; unfold clock_at, writes_to in *; by rewrite ?Hn, ?Hd, ?Hw, ?Hc.
Qed.

Lemma writes_to_length sys a : (length (writes_to sys a) <= length (s_writes sys))%nat.
Proof. unfold writes_to. rewrite length_fmap. apply length_filter. Qed.

(** A step of the node at [a] that stored [w], with changes to the operations and the
    messages. *)
Lemma sys_ok_wrote n sys sys' a nd nd' w :
  sys_ok n sys -> s_nodes sys !! a = Some nd ->
  wrote (writes_to sys a) (clock_at sys a) nd nd' w ->
  s_clocks sys' = s_clocks sys -> s_disks sys' = s_disks sys ->
  s_nodes sys' = <[a := nd']> (s_nodes sys) -> s_writes sys' = s_writes sys ++ (pair a <$> w) ->
  Forall operation_ok (s_ops sys') -> sys_ok (n + 1) sys'.
Proof.
  intros [Hm Hg Ho Hc] Ha [Hl Hgs Hid Hfew] Hck Hd Hn Hw Hops. split.
  - by eapply machines_step.
  - intros b ndb. rewrite Hn. intros [[<- <-]|[_ Hb]]%lookup_insert_Some; [|by eapply Hg].
    rewrite Hgs, Hid. exact (Hg a nd Ha).
  - done.
  - rewrite Hw, length_app, length_fmap. lia.
Qed.

(** A step of the gossip service of the node at [a]. *)
Lemma sys_ok_gossip n sys sys' a nd g :
  sys_ok n sys -> s_nodes sys !! a = Some nd ->
  gossip_ok g -> GossipService.node_id g = GossipService.node_id (gossip_service nd) ->
  s_clocks sys' = s_clocks sys -> s_disks sys' = s_disks sys ->
  s_nodes sys' = <[a := set_gossip nd g]> (s_nodes sys) -> s_writes sys' = s_writes sys ->
  s_ops sys' = s_ops sys -> sys_ok (n + 1) sys'.
Proof.
  intros [Hm Hg Ho Hc] Ha Hok Hid Hck Hd Hn Hw Hops. split.
  - eapply (machines_step sys sys' a (set_gossip nd g) []); try done.
    + by rewrite Hw, app_nil_r.
    + rewrite app_nil_r. exact (mo_running _ _ (Hm a) nd Ha).
  - intros b ndb. rewrite Hn. intros [[<- <-]|[_ Hb]]%lookup_insert_Some; [|by eapply Hg].
    split; [done|]. etrans; [exact Hid|]. exact (proj2 (Hg a nd Ha)).
  - by rewrite Hops.
  - rewrite Hw. lia.
Qed.

(** A step that changes operations only. *)
Lemma sys_ok_ops n sys sys' :
  sys_ok n sys -> s_clocks sys' = s_clocks sys -> s_disks sys' = s_disks sys ->
  s_nodes sys' = s_nodes sys -> s_writes sys' = s_writes sys ->
  Forall operation_ok (s_ops sys') -> sys_ok (n + 1) sys'.
Proof.
  intros [Hm Hg Ho Hc] Hck Hd Hn Hw Hops. split; [by eapply machines_same| |done|rewrite Hw; lia].
  intros a nd. rewrite Hn. apply Hg.
Qed.

Lemma sys_op n sys i op : sys_ok n sys -> s_ops sys !! i = Some op -> operation_ok op.
Proof. intros Hok. pose proof (sys_ops _ _ Hok) as Ho. rewrite Forall_lookup in Ho. apply Ho. Qed.

Lemma sys_lived n sys a nd :
  sys_ok n sys -> n < 2 ^ 64 - 1 -> s_nodes sys !! a = Some nd ->
  lived (writes_to sys a) (clock_at sys a) (engine nd) (store nd)
  /\ Z.of_nat (length (writes_to sys a)) < 2 ^ 64 - 1.
Proof.
  intros Hok Hn Ha. split; [by apply (mo_running _ _ (sys_machines _ _ Hok a))|].
  pose proof (sys_count _ _ Hok). pose proof (writes_to_length sys a). lia.
Qed.

(** *** Every event keeps the invariant *)

Lemma tick_ok n sys a t : sys_ok n sys -> event_ok sys (Tick a t) -> sys_ok (n + 1) (sys_step sys (Tick a t)).
Proof.
  intros [Hm Hg Ho Hc] [Hck Hle]. split; cbn; try done; [|lia].
  intros b. destruct (Hm b) as [Hr Hs]. unfold clock_at, writes_to in *. cbn.
  destruct (decide (a = b)) as [<-|Hne].
  - split; unfold clock_at, writes_to; cbn; rewrite lookup_insert_eq; cbn.
    + intros nd Hnd. eapply lived_mono; [by apply Hr|done|done].
    + intros Hnone. specialize (Hs Hnone). destruct (s_disks sys !! a); [|done].
      destruct Hs as [e He]. exists e. by eapply lived_mono.
  - split; unfold clock_at, writes_to; cbn; by rewrite lookup_insert_ne.
Qed.

Lemma abort_ok a op : operation_ok op -> operation_ok (abort a op).
Proof.
  intros Hop. unfold abort. case_bool_decide; [|done].
  destruct (o_stage op); try done; (apply set_stage_ok; [done|by apply Hop]).
Qed.

Lemma stop_ok n sys a d e :
  sys_ok n sys -> lived (writes_to sys a) (clock_at sys a) e d -> sys_ok n (stop sys a d).
Proof.
  intros [Hm Hg Ho Hc] Hl. split; cbn; try done.
  - intros b. destruct (Hm b) as [Hr Hs]. destruct (decide (a = b)) as [<-|Hne].
    + split; cbn; rewrite ?lookup_delete_eq, ?lookup_insert_eq; [done|]. intros _. by exists e.
    + split; cbn; by rewrite lookup_delete_ne, ?lookup_insert_ne by done.
  - intros b nd [_ Hb]%lookup_delete_Some. by eapply Hg.
  - apply Forall_fmap. eapply Forall_impl; [exact Ho|]. intros op. apply abort_ok.
Qed.

(** The machine at [a] has a disk that a process can be started on. *)
Lemma start_disk n sys args :
  sys_ok n sys -> event_ok sys (Launch args) ->
  let a := Args.advertise args in
  exists e d, StorageEngine.open (storage_config args) (disk_at sys a) = (d, Ok e)
    /\ lived (writes_to sys a) (clock_at sys a) e d.
Proof.
  intros Hok (Hck & Hid & _) a. destruct (sys_machines _ _ Hok a) as [Hr Hs]. unfold disk_at.
  destruct (s_nodes sys !! a) as [nd|].
  - destruct (lived_open _ _ _ _ (storage_config args) (Hr nd eq_refl) Hid) as (e & Ho & Hl); [cbn; lia|].
    by exists e, (store nd).
  - specialize (Hs eq_refl). destruct (s_disks sys !! a) as [d|]; cbn [default].
    + destruct Hs as [e0 He].
      destruct (lived_open _ _ _ _ (storage_config args) He Hid) as (e & Ho & Hl); [cbn; lia|].
      by exists e, d.
    + rewrite Hs.
      destruct (lived_fresh (clock_at sys a) (storage_config args) Hck Hid) as (e & d & Ho & Hl); [cbn; lia|].
      by exists e, d.
Qed.

Lemma open_config cfg d d' e :
  StorageEngine.open cfg d = (d', Ok e) -> StorageEngine.config e = cfg.
Proof.
  unfold StorageEngine.open. destruct (WriteAheadLog.open _ _) as [w f].
  destruct (SnapshotManager.load_latest _) as [s|err]; [|done]. by intros [= _ <-].
Qed.

Lemma start_gossip_id args now :
  GossipService.node_id (start_gossip args now) = Args.node_id args.
Proof. unfold start_gossip. by rewrite register_id. Qed.

Lemma launch_ok n sys args :
  sys_ok n sys -> event_ok sys (Launch args) -> sys_ok (n + 1) (launch sys args).
Proof.
  intros Hok Hev. destruct (start_disk n sys args Hok Hev) as (e & d & Ho & Hl).
  destruct Hev as (_ & _ & Hself). unfold launch, main, start. rewrite Ho.
  destruct (parse_socket_addr _) as [addr|];
    [|apply (sys_ok_ops n (stop sys (Args.advertise args) d)); try done; by eapply stop_ok].
  destruct (stop_ok n sys (Args.advertise args) d e Hok Hl) as [Hm Hg Hops Hc].
  set (a := Args.advertise args) in *. set (nd := MkNode _ _ _ _). split; try done; [| |cbn in *; lia].
  - eapply (machines_step _ _ a nd []); try done; cbn [s_writes set_node]; rewrite app_nil_r; done.
  - intros b ndb. cbn [s_nodes set_node]. intros [[_ <-]|[_ Hb]]%lookup_insert_Some; [|by eapply Hg].
    split; [apply so_ok; by apply start_service_ok|]. cbn [nd gossip_service engine].
    rewrite start_gossip_id. unfold ReplicationCoordinator.node_id. by rewrite (open_config _ _ _ _ Ho).
Qed.

Lemma set_call_ok op j c :
  operation_ok op -> request_ok (c_request c) ->
  operation_ok (set_stage op (o_stage op) (<[j := c]> (o_calls op))).
Proof. intros Hop Hc. apply set_stage_ok; [done|]. apply Forall_insert; [apply Hop|done]. Qed.

Lemma call_of_some sys i j op c :
  call_of sys i j = Some (op, c) -> s_ops sys !! i = Some op /\ o_calls op !! j = Some c.
Proof.
  unfold call_of. destruct (s_ops sys !! i) as [o|]; [|done]. cbn.
  destruct (o_calls o !! j) as [c'|] eqn:E; [|done]. cbn. by intros [= -> ->].
Qed.

Lemma call_request_ok n sys i j op c :
  sys_ok n sys -> call_of sys i j = Some (op, c) -> operation_ok op /\ request_ok (c_request c).
Proof.
  intros Hok [Hi Hj]%call_of_some. pose proof (sys_op _ _ _ _ Hok Hi) as Hop. split; [done|].
  pose proof (oo_calls _ Hop) as Hc. rewrite Forall_lookup in Hc. by apply (Hc j).
Qed.

Lemma resolve_ok n sys i j r : sys_ok n sys -> sys_ok (n + 1) (resolve sys i j r).
Proof.
  intros Hok. unfold resolve.
  assert (sys_ok (n + 1) sys) as Hsame by (apply (sys_ok_ops n sys); try done; apply Hok).
  destruct (call_of sys i j) as [[op [tgt req srv [rep|]]]|] eqn:Hc; [done| |done].
  destruct (r _) as [rep|]; [|done]. destruct (call_request_ok _ _ _ _ _ _ Hok Hc) as [Hop Hreq].
  apply (sys_ok_ops n sys); try done. cbn. apply Forall_insert; [apply Hok|]. by apply set_call_ok.
Qed.

Lemma proceed_ok n sys i :
  sys_ok n sys -> n < 2 ^ 64 - 1 -> sys_ok (n + 1) (proceed sys i WriteOk).
Proof.
  intros Hok Hn. unfold proceed.
  assert (sys_ok (n + 1) sys) as Hsame by (apply (sys_ok_ops n sys); try done; apply Hok).
  destruct (s_ops sys !! i) as [op|] eqn:Hi; [|done]. destruct (o_stage op); try done.
  destruct (s_nodes sys !! o_address op) as [nd|] eqn:Ha; [|done].
  destruct (sys_lived _ _ _ _ Hok Hn Ha) as [Hl Hlt].
  pose proof (proceed_wrote (o_address op) _ _ _ op Hl Hlt (sys_op _ _ _ _ Hok Hi)) as Hw.
  destruct (proceed_op _ _ _ _) as [[nd' op'] key]. destruct Hw as (Hop & w & Hw & Hn').
  eapply (sys_ok_wrote n sys _ (o_address op)); try done; cbn; [by rewrite Hn'|].
  apply Forall_insert; [apply Hok|done].
Qed.

Lemma serve_ok n sys i j :
  sys_ok n sys -> n < 2 ^ 64 - 1 -> sys_ok (n + 1) (serve sys i j WriteOk).
Proof.
  intros Hok Hn. unfold serve.
  assert (sys_ok (n + 1) sys) as Hsame by (apply (sys_ok_ops n sys); try done; apply Hok).
  destruct (call_of sys i j) as [[op [a req [srv|] rep]]|] eqn:Hc; [done| |done].
  destruct (s_nodes sys !! a) as [nd|] eqn:Ha; [|done].
  destruct (sys_lived _ _ _ _ Hok Hn Ha) as [Hl Hlt].
  destruct (call_request_ok _ _ _ _ _ _ Hok Hc) as [Hop Hreq].
  destruct (handle_wrote a _ _ nd req Hl Hlt Hreq) as (w & Hw & Hn').
  destruct (handle (clock_at sys a) WriteOk nd req) as [nd' x]. cbn [fst snd] in *.
  eapply (sys_ok_wrote n sys _ a); try done; cbn; [by rewrite Hn'|].
  apply Forall_insert; [apply Hok|]. by apply set_call_ok.
Qed.

Lemma bulk_step_ok n sys a b :
  sys_ok n sys -> bulk_ok b -> n < 2 ^ 64 - 1 -> sys_ok (n + 1) (bulk sys a b WriteOk).
Proof.
  intros Hok Hb Hn. unfold bulk.
  destruct (s_nodes sys !! a) as [nd|] eqn:Ha.
  - destruct (sys_lived _ _ _ _ Hok Hn Ha) as [Hl Hlt].
    pose proof (bulk_wrote a _ _ nd b Hl Hlt Hb) as Hw.
    destruct (bulk_iteration _ _ _ _) as [nd' accepted]. destruct Hw as (w & Hw & Hn').
    eapply (sys_ok_wrote n sys _ a); try done; cbn; [by rewrite Hn'|apply Hok].
  - apply (sys_ok_ops n sys); try done. apply Hok.
Qed.

Lemma finish_ok n sys i : sys_ok n sys -> sys_ok (n + 1) (finish sys i).
Proof.
  intros Hok. unfold finish.
  assert (sys_ok (n + 1) sys) as Hsame by (apply (sys_ok_ops n sys); try done; apply Hok).
  destruct (s_ops sys !! i) as [op|] eqn:Hi; [|done]. destruct (o_stage op) as [|l|l r|]; try done.
  destruct (mapM c_reply (o_calls op)) as [replies|]; [|done].
  destruct (finish_op _ op l replies) as [r|]; [|done].
  pose proof (sys_op _ _ _ _ Hok Hi) as Hop.
  apply (sys_ok_ops n sys); try done. cbn. apply Forall_insert; [apply Hok|].
  by apply set_stage_ok; [|apply Hop].
Qed.

Lemma local_step_ok n sys a f :
  sys_ok n sys -> n < 2 ^ 64 - 1 ->
  (forall l t nd, lived l t (engine nd) (store nd) -> wrote l t nd (f t nd) []) ->
  sys_ok (n + 1) (local_step sys a f).
Proof.
  intros Hok Hn Hf. unfold local_step.
  destruct (s_nodes sys !! a) as [nd|] eqn:Ha.
  - destruct (sys_lived _ _ _ _ Hok Hn Ha) as [Hl _].
    eapply (sys_ok_wrote n sys _ a nd _ []); try done; [by apply Hf| |apply Hok].
    cbn. by rewrite app_nil_r.
  - apply (sys_ok_ops n sys); try done. apply Hok.
Qed.

Lemma flush_wrote woken l t nd :
  lived l t (engine nd) (store nd) -> wrote l t nd (flush_node woken t nd) [].
Proof.
  intros Hl. pose proof (lived_flush _ _ _ _ woken Hl) as Hf.
  pose proof (flush_task_config woken t (engine nd) (store nd)) as Hc. unfold flush_node.
  destruct (StorageEngine.flush_task woken t (engine nd) (store nd)) as [e d]. cbn in *.
  split; [by rewrite app_nil_r|done| |cbn; lia]. unfold ReplicationCoordinator.node_id. cbn. by rewrite Hc.
Qed.

Lemma reap_wrote l t nd : lived l t (engine nd) (store nd) -> wrote l t nd (reap_node t nd) [].
Proof. intros Hl. split; [rewrite app_nil_r; by apply lived_reap|done|done|cbn; lia]. Qed.

Lemma gossip_local_ok n sys a (f : Z -> GossipService.t -> GossipService.t) :
  sys_ok n sys ->
  (forall t g, gossip_ok g -> gossip_ok (f t g) /\ GossipService.node_id (f t g) = GossipService.node_id g) ->
  sys_ok (n + 1) (local_step sys a (fun t nd => set_gossip nd (f t (gossip_service nd)))).
Proof.
  intros Hok Hf. unfold local_step. destruct (s_nodes sys !! a) as [nd|] eqn:Ha.
  - destruct (Hf (clock_at sys a) (gossip_service nd)) as [Hg Hid]; [by eapply sys_gossip|].
    by eapply (sys_ok_gossip n sys _ a nd).
  - apply (sys_ok_ops n sys); try done. apply Hok.
Qed.

Lemma gossip_round_ok n sys a : sys_ok n sys -> sys_ok (n + 1) (gossip_round_at sys a).
Proof.
  intros Hok. unfold gossip_round_at. destruct (s_nodes sys !! a) as [nd|] eqn:Ha.
  - pose proof (gossip_round_state (gossip_service nd)) as Hr.
    destruct (GossipService.gossip_round (gossip_service nd)) as [g messages]. cbn [fst] in Hr. subst g.
    apply (sys_ok_gossip n sys _ a nd (GossipService.set_heartbeat (gossip_service nd)
      (wrap_u64 (GossipService.heartbeat_counter (gossip_service nd) + 1)))); try done.
    apply set_heartbeat_ok. by eapply sys_gossip.
  - apply (sys_ok_ops n sys); try done. apply Hok.
Qed.

Lemma sys_step_ok n sys ev :
  sys_ok n sys -> event_ok sys ev -> n < 2 ^ 64 - 1 -> sys_ok (n + 1) (sys_step sys ev).
Proof.
  intros Hok Hev Hn.
  assert (sys_ok (n + 1) sys) as Hsame by (apply (sys_ok_ops n sys); try done; apply Hok).
  destruct ev as [a t|args|a|a r|i io|i j io|i j|i j|i j|i|a b io|a woken|a|a|i|a]; cbn [sys_step].
  - by apply tick_ok.
  - by apply launch_ok.
  - destruct (s_nodes sys !! a) as [nd|] eqn:Ha; [|done].
    destruct (sys_lived _ _ _ _ Hok Hn Ha) as [Hl _]. by eapply stop_ok.
  - destruct (s_nodes sys !! a) as [nd|] eqn:Ha; [|done].
    destruct (sys_lived _ _ _ _ Hok Hn Ha) as [Hl _].
    apply (sys_ok_ops n sys); try done. cbn. apply Forall_app. split; [apply Hok|].
    apply Forall_singleton. by eapply begin_ok.
  - cbn in Hev. subst io. by apply proceed_ok.
  - cbn in Hev. subst io. by apply serve_ok.
  - by apply resolve_ok.
  - by apply resolve_ok.
  - by apply resolve_ok.
  - by apply finish_ok.
  - destruct Hev as [Hb ->]. by apply bulk_step_ok.
  - apply local_step_ok; [done|done|]. apply flush_wrote.
  - apply local_step_ok; [done|done|]. apply reap_wrote.
  - by apply gossip_round_ok.
  - unfold gossip_deliver. destruct (s_sent sys !! i) as [[target msg]|]; [|done].
    apply (gossip_local_ok n sys target (fun now g => (GossipService.handle_gossip (fun _ => now) g msg).1)
      Hok). intros t g Hg. split; [by apply merge_states_ok|apply merge_states_id].
  - apply (gossip_local_ok n sys a run_check Hok). intros t g Hg. unfold run_check.
    destruct (check_failures_spec (GossipConfig.suspect_timeout (GossipService.config g))
      (GossipConfig.dead_timeout (GossipService.config g)) t g (ok_keys _ Hg)) as (Hid & Hg' & _).
    split; [by apply Hg'|exact Hid].
Qed.

Lemma no_system_ok : sys_ok 0 no_system.
Proof.
  split; cbn; [|by intros a nd ?%lookup_empty_Some|done|done].
  intros a. split; cbn; [by intros nd ?%lookup_empty_Some|by intros _; rewrite lookup_empty].
Qed.

Lemma sys_run_ok n sys es :
  sys_ok n sys -> run_ok sys es -> n + Z.of_nat (length es) < 2 ^ 64 ->
  sys_ok (n + Z.of_nat (length es)) (sys_run sys es).
Proof.
  revert n sys. induction es as [|ev es IH]; intros n sys Hok Hes Hn; cbn [length sys_run foldl] in *.
  { by rewrite Z.add_0_r. }
  destruct Hes as [Hev Hes]. replace (n + Z.of_nat (S (length es))) with (n + 1 + Z.of_nat (length es)) by lia.
  apply IH; [|done|lia]. apply sys_step_ok; [done|done|lia].
Qed.
End Invariant.

(** ** Properties *)

Section Properties.
Context `{Crc32, !Crc32Laws, Sha256, Json WalEntry.t, !JsonLaws WalEntry.t entry_wf}.
Context `{Bincode table, !BincodeLaws table data_wf, Rng}.

(** The invariant holds after every history that starts with nothing. *)
Lemma reachable_ok sys : reachable sys -> exists n, n < 2 ^ 64 - 1 /\ sys_ok n sys.
Proof.
  intros (es & Hes & Hn & <-). exists (Z.of_nat (length es)). split; [done|].
  apply (sys_run_ok 0); [apply no_system_ok|done|lia].
Qed.

(** A running node of a reachable system, and its table as its writes describe it. *)
Lemma reachable_lived sys a nd :
  reachable sys -> s_nodes sys !! a = Some nd ->
  lived (writes_to sys a) (clock_at sys a) (engine nd) (store nd).
Proof. intros (n & _ & Hok)%reachable_ok Ha. exact (mo_running _ _ (sys_machines _ _ Hok a) nd Ha). Qed.

Lemma lived_reads l t e d : lived l t e d -> serves t e (extend ∅ l).
Proof.
  intros Hl. destruct (lived_sound _ _ _ _ Hl) as (Hd & Hv & _).
  apply same_view_serves; [apply Hd|exact Hv].
Qed.

(** C10: whatever the nodes, their clients, the network and crashes do, every
    running node is well formed: its table holds values in the range of their Rust types
    under valid keys and is accounted to the byte, its disk recovers, its membership
    table and ring agree, and every request that is in flight carries well-formed
    values. *)
Theorem reachable_systems_are_well_formed sys :
  reachable sys ->
  (forall a nd, s_nodes sys !! a = Some nd ->
     data_wf (MemTable.data (StorageEngine.memtable (engine nd)))
     /\ size_ok (StorageEngine.memtable (engine nd))
     /\ durable (clock_at sys a) (engine nd) (store nd)
     /\ gossip_ok (gossip_service nd)
     /\ GossipService.node_id (gossip_service nd) = ReplicationCoordinator.node_id (engine nd))
  /\ Forall operation_ok (s_ops sys).
Proof.
  intros Hr. destruct (reachable_ok _ Hr) as (n & _ & Hok). split; [|apply Hok].
  intros a nd Ha. destruct (lived_sound _ _ _ _ (reachable_lived _ _ _ Hr Ha)) as (Hd & _).
  destruct (sys_gossip _ _ Hok a nd Ha). split_and!; try done; apply Hd.
Qed.


End Properties.

(** ** The properties at a concrete system *)

Section Witnesses.
Import Toy.

#[local] Instance prefix_targets : Rng := fun amount l => take amount l.

Definition args_of (id addr seeds : string) : Args.t :=
  Args.Mk id "0.0.0.0:50051" addr "./data" seeds 3 2 2 64 3.
Definition args_a : Args.t := args_of "a" "h1:1" "b=h2:1,c=h3:1".
Definition args_b : Args.t := args_of "b" "h2:1" "a=h1:1,c=h3:1".
Definition args_c : Args.t := args_of "c" "h3:1" "a=h1:1,b=h2:1".

(** Three machines with running nodes. *)
Definition boot : list event :=
  [Tick "h1:1" at_ms; Tick "h2:1" at_ms; Tick "h3:1" at_ms; Launch args_a; Launch args_b; Launch args_c].

(** A put at ["h1:1"], of which one call is answered and the other times out; then the
    node crashes, and the late call is served. *)
Definition one_put : list event :=
  [Begin "h1:1" (ClientPut put_key); Proceed 0 WriteOk; Serve 0 0 WriteOk; Answer 0 0; Expire 0 1;
   Finish 0; Flush "h3:1" false; Crash "h1:1"; Serve 0 1 WriteOk; GossipRound "h2:1"; GossipDeliver 0;
   Reap "h3:1"; CheckPeers "h3:1"].

Definition es_1 : list event := boot ++ one_put.
Definition sys_1 : system := sys_run no_system es_1.

Lemma reachable_1 : reachable sys_1.
Proof.
  exists es_1. split; [|split; [vm_compute; reflexivity|unfold sys_1; reflexivity]].
  apply run_okb_ok. vm_compute. reflexivity.
Qed.

Example sys_1_writes : (s_writes sys_1).*1 = ["h1:1"; "h3:1"; "h2:1"].
Proof. vm_compute. reflexivity. Qed.

Example reachable_systems_are_well_formed_witness : Forall operation_ok (s_ops sys_1).
Proof. apply (reachable_systems_are_well_formed sys_1 reachable_1). Defined.


End Witnesses.
