(* ===== verification/SystemSteps.v ===== *)
(** What one event of the running system (System.v) does to one client operation, to the
    history of writes, and to the operations as a whole: the case analysis over the events
    that the theorems about operations share. *)

From S2P Require Import Prelude Bytes BTreeMap VectorClock Memtable Externals Wal Snapshot.
From S2P Require Import Engine EngineDurability EngineRace ConsistentHash Quorum Proto Coordinator.
From S2P Require Import SocketAddr Detector Service Cluster Server GossipNet System.
Open Scope Z_scope.

(** ** The steps of an operation *)

(** The event ends the process at [a]. *)
Definition kills (a : string) (ev : event) : Prop :=
  match ev with Crash b => b = a | Launch args => Args.advertise args = a | _ => False end.

#[export] Instance kills_dec a ev : Decision (kills a ev).
Proof. destruct ev; cbn; apply _. Defined.

(** The event resolves call [j] of operation [i]. *)
Definition resolves (i j : nat) (ev : event) : Prop :=
  ev = Answer i j \/ ev = Drop i j \/ ev = Expire i j.

Section Steps.
Context `{Crc32, Sha256, Json WalEntry.t, Bincode table, Rng}.
Implicit Types (sys : system) (nd : node) (op : operation).

(** What the event [ev] may do to the operation [op], which is number [i]. *)
Inductive op_step sys (ev : event) (i : nat) op : operation -> Prop :=
| op_stays :
    (forall j c, ev = Expire i j -> o_calls op !! j = Some c -> is_Some (c_reply c)) ->
    op_step sys ev i op op
| op_aborts :
    kills (o_address op) ev -> op_step sys ev i op (set_stage op Aborted (o_calls op))
| op_proceeds io nd nd' op' key :
    ev = Proceed i io -> o_stage op = Begun -> s_nodes sys !! o_address op = Some nd ->
    proceed_op (clock_at sys (o_address op)) io nd op = (nd', op', key) ->
    from_option (fun k => noted (o_address op) k nd') [] key ⊆ s_writes (sys_step sys ev) ->
    op_step sys ev i op op'
| op_served j c io nd nd' x :
    ev = Serve i j io -> o_calls op !! j = Some c -> c_served c = None ->
    s_nodes sys !! c_target c = Some nd ->
    handle (clock_at sys (c_target c)) io nd (c_request c) = (nd', x) ->
    from_option (fun k => noted (c_target c) k nd') [] (written (c_request c) x)
      ⊆ s_writes (sys_step sys ev) ->
    op_step sys ev i op (set_stage op (o_stage op)
      (<[j := Call (c_target c) (c_request c) (Some x) (c_reply c)]> (o_calls op)))
| op_resolves j c r :
    resolves i j ev -> o_calls op !! j = Some c -> c_reply c = None ->
    (forall x, r = Replied x -> c_served c = Some (inl x)) ->
    op_step sys ev i op (set_stage op (o_stage op)
      (<[j := Call (c_target c) (c_request c) (c_served c) (Some r)]> (o_calls op)))
| op_finishes l replies r :
    ev = Finish i -> o_stage op = Waiting l -> mapM c_reply (o_calls op) = Some replies ->
    finish_op (clock_at sys (o_address op)) op l replies = Some r ->
    op_step sys ev i op (set_stage op (Finished l r) (o_calls op)).

Lemma op_stays_idle sys ev i op :
  (forall j, ev <> Expire i j) -> op_step sys ev i op op.
Proof. intros Hne. apply op_stays. intros j c Hev. by destruct (Hne j). Qed.

(** An operation of the list is replaced. *)
Lemma step_insert sys ev i i' op op0 op1 (l : list operation) :
  l !! i = Some op -> l !! i' = Some op0 ->
  (i' = i -> op_step sys ev i op0 op1) -> (i' <> i -> op_step sys ev i op op) ->
  exists op', <[i' := op1]> l !! i = Some op' /\ op_step sys ev i op op'.
Proof.
  intros Hi Hi' Hst Hne. destruct (decide (i' = i)) as [->|Hd].
  - simplify_eq. exists op1. split; [|auto]. apply list_lookup_insert_eq. by apply lookup_lt_Some in Hi.
  - exists op. rewrite list_lookup_insert_ne by done. auto.
Qed.

Lemma step_abort sys ev a i op :
  kills a ev -> s_ops sys !! i = Some op ->
  exists op', (abort a <$> s_ops sys) !! i = Some op' /\ op_step sys ev i op op'.
Proof.
  intros Hk Hi. exists (abort a op). rewrite list_lookup_fmap, Hi. split; [done|].
  assert (op_step sys ev i op op) as Hsame by (apply op_stays_idle; by intros j ->).
  unfold abort. case_bool_decide; [|done]. subst a.
  destruct (o_stage op); done || by apply op_aborts.
Qed.

Lemma step_resolve sys ev i i' j f op :
  s_ops sys !! i = Some op -> resolves i' j ev ->
  (forall c x, f c = Some (Replied x) -> c_served c = Some (inl x)) ->
  (ev = Expire i' j -> forall c, f c <> None) ->
  exists op', s_ops (resolve sys i' j f) !! i = Some op' /\ op_step sys ev i op op'.
Proof.
  intros Hi Hev Hf Hnone. unfold resolve.
  assert (forall k, ev = Expire i k -> i' = i /\ k = j) as Hk
    by (intros k ->; destruct Hev as [?|[?|[= -> ->]]]; done).
  assert ((forall c, i' = i -> ev = Expire i' j -> o_calls op !! j = Some c -> is_Some (c_reply c)) ->
    exists op', s_ops sys !! i = Some op' /\ op_step sys ev i op op') as Hsame.
  { intros Hc. exists op. split; [done|]. apply op_stays. intros k c Hek Hj.
    destruct (Hk k Hek) as [-> ->]. eauto. }
  destruct (call_of sys i' j) as [[op0 [tgt req srv [rep|]]]|] eqn:Hc.
  - apply Hsame. intros c -> _ Hj. apply call_of_some in Hc as [Hi0 Hj0]. simplify_eq. by eexists.
  - destruct (f _) as [rep|] eqn:Ef; [|apply Hsame; intros c -> Hx _; by destruct (Hnone Hx (Call tgt req srv None))].
    apply call_of_some in Hc as [Hi0 Hj0]. apply (step_insert _ _ _ _ _ op0); [done|done| |].
    + intros ->. apply (op_resolves _ _ _ _ j (Call tgt req srv None)); [done|done|done|].
      intros x ->. by apply Hf in Ef.
    + intros Hne. apply op_stays_idle. intros k Hek. by destruct (Hk k Hek).
  - apply Hsame. intros c -> _ Hj. unfold call_of in Hc. rewrite Hi in Hc. cbn in Hc. by rewrite Hj in Hc.
Qed.

Lemma resolve_length sys i j f : length (s_ops (resolve sys i j f)) = length (s_ops sys).
Proof.
  unfold resolve. destruct (call_of sys i j) as [[op [tgt req srv [rep|]]]|]; [done| |done].
  destruct (f _); [apply length_insert|done].
Qed.

(** Served replies reach their callers. *)
Lemma answer_of_served c x : answer_of c = Some (Replied x) -> c_served c = Some (inl x).
Proof. destruct c as [tgt req [[y|st]|] rep]; cbn; congruence. Qed.

Lemma bulk_ops sys a b io : s_ops (bulk sys a b io) = s_ops sys.
Proof. unfold bulk. destruct (s_nodes sys !! a); [|done]. by destruct (bulk_iteration _ _ _ _). Qed.

Lemma local_step_ops sys a f : s_ops (local_step sys a f) = s_ops sys.
Proof. unfold local_step. by destruct (s_nodes sys !! a). Qed.

Lemma gossip_ops sys a : s_ops (gossip_round_at sys a) = s_ops sys.
Proof. unfold gossip_round_at. destruct (s_nodes sys !! a); [|done]. by destruct (GossipService.gossip_round _). Qed.

Lemma gossip_deliver_ops sys i : s_ops (gossip_deliver sys i) = s_ops sys.
Proof. unfold gossip_deliver. destruct (s_sent sys !! i) as [[tgt msg]|]; [apply local_step_ops|done]. Qed.

(** The two steps in which a handler runs. *)
Lemma step_proceed sys i i' io op :
  s_ops sys !! i = Some op ->
  exists op', s_ops (proceed sys i' io) !! i = Some op' /\ op_step sys (Proceed i' io) i op op'.
Proof.
  intros Hi. pose proof (op_stays_idle sys (Proceed i' io) i op ltac:(done)) as Hsame.
  assert (forall s, s = sys_step sys (Proceed i' io) ->
    s_ops s !! i = Some op \/ exists op', s_ops s !! i = Some op' /\ op_step sys (Proceed i' io) i op op') as Hs;
    [|by destruct (Hs _ eq_refl) as [?|?]; [exists op|]].
  intros s Hs. pose proof Hs as Hs'. cbn [sys_step] in Hs'. unfold proceed in Hs'.
  destruct (s_ops sys !! i') as [op0|] eqn:Hi'; [|left; by rewrite Hs'].
  destruct (o_stage op0) eqn:Hst; [|left; by rewrite Hs'..].
  destruct (s_nodes sys !! o_address op0) as [nd|] eqn:Ha; [|left; by rewrite Hs'].
  destruct (proceed_op _ _ _ _) as [[nd' op1] key] eqn:Hp. right.
  rewrite Hs'. apply (step_insert _ _ _ _ _ op0); [done|done| |done].
  intros ->. eapply op_proceeds; [done..|]. rewrite <-Hs, Hs'. cbn. set_solver.
Qed.

Lemma step_serve sys i i' j io op :
  s_ops sys !! i = Some op ->
  exists op', s_ops (serve sys i' j io) !! i = Some op' /\ op_step sys (Serve i' j io) i op op'.
Proof.
  intros Hi. pose proof (op_stays_idle sys (Serve i' j io) i op ltac:(done)) as Hsame.
  assert (forall s, s = sys_step sys (Serve i' j io) ->
    s_ops s !! i = Some op \/ exists op', s_ops s !! i = Some op' /\ op_step sys (Serve i' j io) i op op') as Hs;
    [|by destruct (Hs _ eq_refl) as [?|?]; [exists op|]].
  intros s Hs. pose proof Hs as Hs'. cbn [sys_step] in Hs'. unfold serve in Hs'.
  destruct (call_of sys i' j) as [[op0 [a req [srv|] rep]]|] eqn:Hc; [left; by rewrite Hs'| |left; by rewrite Hs'].
  destruct (s_nodes sys !! a) as [nd|] eqn:Ha; [|left; by rewrite Hs'].
  destruct (handle _ _ _ _) as [nd' x] eqn:Hh. apply call_of_some in Hc as [Hi' Hj]. right.
  rewrite Hs'. apply (step_insert _ _ _ _ _ op0); [done|done| |done].
  intros ->. eapply (op_served _ _ _ _ j (Call a req None rep)); [done..|]. rewrite <-Hs, Hs'. cbn. set_solver.
Qed.

Lemma step_finish sys i i' op :
  s_ops sys !! i = Some op ->
  exists op', s_ops (finish sys i') !! i = Some op' /\ op_step sys (Finish i') i op op'.
Proof.
  intros Hi. pose proof (op_stays_idle sys (Finish i') i op ltac:(done)) as Hsame.
  assert (exists op', s_ops sys !! i = Some op' /\ op_step sys (Finish i') i op op') as Hid by by exists op.
  unfold finish. destruct (s_ops sys !! i') as [op0|] eqn:Hi'; [|done].
  destruct (o_stage op0) as [|l| |] eqn:Hst; try done.
  destruct (mapM c_reply (o_calls op0)) as [replies|] eqn:Hm; [|done].
  destruct (finish_op _ _ _ _) as [r|] eqn:Hf; [|done].
  apply (step_insert _ _ _ _ _ op0); [done|done| |done]. intros ->. by eapply op_finishes.
Qed.

(** Every event takes every operation one step on. *)
Lemma sys_step_op sys ev i op :
  s_ops sys !! i = Some op ->
  exists op', s_ops (sys_step sys ev) !! i = Some op' /\ op_step sys ev i op op'.
Proof.
  intros Hi.
  assert ((forall i j, ev <> Expire i j) -> exists op', s_ops sys !! i = Some op' /\ op_step sys ev i op op') as Hsame.
  { intros Hne. exists op. split; [done|]. by apply op_stays_idle. }
  destruct ev as [a t|args|a|a r|i' io|i' j io|i' j|i' j|i' j|i'|a b io|a woken|a|a|i'|a]; cbn [sys_step];
    rewrite ?local_step_ops, ?bulk_ops, ?gossip_ops, ?gossip_deliver_ops; try by apply Hsame.
  - unfold launch. destruct (main _ _ _) as [d [[addr nd]|err]]; by apply step_abort.
  - destruct (s_nodes sys !! a); [by apply step_abort|by apply Hsame].
  - destruct (s_nodes sys !! a) as [nd|]; [|by apply Hsame]. cbn.
    rewrite lookup_app_l; [by apply Hsame|by apply lookup_lt_Some in Hi].
  - by apply step_proceed.
  - by apply step_serve.
  - apply step_resolve; [done|by left|apply answer_of_served|done].
  - apply step_resolve; [done|by right; left|done|done].
  - apply step_resolve; [done|by right; right|done|done].
  - by apply step_finish.
Qed.

(** Operations that were not there before have just begun. *)
Lemma sys_step_new sys ev i op' :
  s_ops sys !! i = None -> s_ops (sys_step sys ev) !! i = Some op' ->
  exists a nd r, ev = Begin a r /\ s_nodes sys !! a = Some nd /\ op' = begin_op (clock_at sys a) a nd r.
Proof.
  intros Hi. apply lookup_ge_None in Hi.
  assert (forall l, length l = length (s_ops sys) -> l !! i = Some op' ->
    exists a nd r, ev = Begin a r /\ s_nodes sys !! a = Some nd /\ op' = begin_op (clock_at sys a) a nd r) as Hno
    by (intros l Hl Hl'%lookup_lt_Some; lia).
  destruct ev as [a t|args|a|a r|i' io|i' j io|i' j|i' j|i' j|i'|a b io|a woken|a|a|i'|a]; cbn [sys_step];
    rewrite ?local_step_ops, ?bulk_ops, ?gossip_ops, ?gossip_deliver_ops; try by apply Hno.
  - unfold launch. destruct (main _ _ _) as [d [[addr nd]|err]]; apply Hno; apply length_fmap.
  - destruct (s_nodes sys !! a); apply Hno; [apply length_fmap|done].
  - destruct (s_nodes sys !! a) as [nd|] eqn:Ha; [|by apply Hno]. cbn.
    intros [Hl|[_ Hl]]%lookup_app_Some; [by apply (Hno _ eq_refl)|].
    apply list_lookup_singleton_Some in Hl as [_ <-]. by exists a, nd, r.
  - apply Hno. unfold proceed. destruct (s_ops sys !! i') as [op|]; [|done].
    destruct (o_stage op), (s_nodes sys !! o_address op); try done.
    destruct (proceed_op _ _ _ _) as [[nd' op1] key]. apply length_insert.
  - apply Hno. unfold serve. destruct (call_of sys i' j) as [[op [a req [srv|] rep]]|]; [done| |done].
    destruct (s_nodes sys !! a); [|done]. destruct (handle _ _ _ _). apply length_insert.
  - apply Hno, resolve_length.
  - apply Hno, resolve_length.
  - apply Hno, resolve_length.
  - apply Hno. unfold finish. destruct (s_ops sys !! i') as [op|]; [|done]. destruct (o_stage op); try done.
    destruct (mapM c_reply (o_calls op)); [|done]. destruct (finish_op _ _ _ _); [apply length_insert|done].
Qed.

(** Properties of all operations, by their steps. *)
Lemma step_forall (P P' : operation -> Prop) sys ev :
  Forall P (s_ops sys) ->
  (forall i op op', P op -> op_step sys ev i op op' -> P' op') ->
  (forall a nd r, ev = Begin a r -> s_nodes sys !! a = Some nd -> P' (begin_op (clock_at sys a) a nd r)) ->
  Forall P' (s_ops (sys_step sys ev)).
Proof.
  rewrite !Forall_lookup. intros HP Hst Hb i op' Hi'. destruct (s_ops sys !! i) as [op|] eqn:Hi.
  - destruct (sys_step_op sys ev i op Hi) as (op1 & Hi1 & Hop). simplify_eq. eauto.
  - destruct (sys_step_new sys ev i op' Hi Hi') as (a & nd & r & -> & Ha & ->). eauto.
Qed.

(** The history of writes only grows. *)
Lemma sys_step_writes sys ev : s_writes sys `prefix_of` s_writes (sys_step sys ev).
Proof.
  assert (forall a f, s_writes (local_step sys a f) = s_writes sys) as Hloc.
  { intros a f. unfold local_step. by destruct (s_nodes sys !! a). }
  assert (forall i j f, s_writes (resolve sys i j f) = s_writes sys) as Hres.
  { intros i j f. unfold resolve. destruct (call_of sys i j) as [[op [tgt req srv [rep|]]]|]; [done| |done].
    by destruct (f _). }
  destruct ev as [a t|args|a|a r|i io|i j io|i j|i j|i j|i|a b io|a woken|a|a|i|a]; cbn [sys_step];
    rewrite ?Hloc, ?Hres; try done.
  - unfold launch. by destruct (main _ _ _) as [d [[addr nd]|err]].
  - by destruct (s_nodes sys !! a).
  - by destruct (s_nodes sys !! a).
  - unfold proceed. destruct (s_ops sys !! i) as [op|]; [|done].
    destruct (o_stage op), (s_nodes sys !! o_address op); try done.
    destruct (proceed_op _ _ _ _) as [[nd' op'] key]. by eexists.
  - unfold serve. destruct (call_of sys i j) as [[op [a req [srv|] rep]]|]; [done| |done].
    destruct (s_nodes sys !! a); [|done]. destruct (handle _ _ _ _). by eexists.
  - unfold finish. destruct (s_ops sys !! i) as [op|]; [|done]. destruct (o_stage op); try done.
    destruct (mapM c_reply (o_calls op)); [|done]. by destruct (finish_op _ _ _ _).
  - unfold bulk. destruct (s_nodes sys !! a); [|done]. destruct (bulk_iteration _ _ _ _). by eexists.
  - unfold gossip_round_at. destruct (s_nodes sys !! a); [|done]. by destruct (GossipService.gossip_round _).
  - unfold gossip_deliver. destruct (s_sent sys !! i) as [[tgt msg]|]; [by rewrite Hloc|done].
Qed.

Lemma sys_step_stored sys ev : s_writes sys ⊆ s_writes (sys_step sys ev).
Proof. destruct (sys_step_writes sys ev) as [w ->]. set_solver. Qed.

(** Only a tick moves a clock. *)
Lemma step_clock sys ev b :
  clock_at (sys_step sys ev) b
  = match ev with Tick a t => if decide (a = b) then t else clock_at sys b | _ => clock_at sys b end.
Proof.
  unfold clock_at.
  assert (forall a f, s_clocks (local_step sys a f) = s_clocks sys) as Hloc.
  { intros a f. unfold local_step. by destruct (s_nodes sys !! a). }
  assert (forall i j f, s_clocks (resolve sys i j f) = s_clocks sys) as Hres.
  { intros i j f. unfold resolve. destruct (call_of sys i j) as [[op [tgt req srv [rep|]]]|]; [done| |done].
    by destruct (f _). }
  destruct ev as [a t|args|a|a r|i io|i j io|i j|i j|i j|i|a b' io|a woken|a|a|i|a]; cbn [sys_step];
    rewrite ?Hloc, ?Hres; try done.
  - cbn. case_decide as Hd; [subst a; by rewrite lookup_insert_eq|by rewrite lookup_insert_ne].
  - unfold launch. by destruct (main _ _ _) as [d [[addr nd]|err]].
  - by destruct (s_nodes sys !! a).
  - by destruct (s_nodes sys !! a).
  - unfold proceed. destruct (s_ops sys !! i) as [op|]; [|done].
    destruct (o_stage op), (s_nodes sys !! o_address op); try done.
    by destruct (proceed_op _ _ _ _) as [[nd' op'] key].
  - unfold serve. destruct (call_of sys i j) as [[op [a req [srv|] rep]]|]; [done| |done].
    destruct (s_nodes sys !! a); [|done]. by destruct (handle _ _ _ _).
  - unfold finish. destruct (s_ops sys !! i) as [op|]; [|done]. destruct (o_stage op); try done.
    destruct (mapM c_reply (o_calls op)); [|done]. by destruct (finish_op _ _ _ _).
  - unfold bulk. destruct (s_nodes sys !! a); [|done]. by destruct (bulk_iteration _ _ _ _).
  - unfold gossip_round_at. destruct (s_nodes sys !! a); [|done]. by destruct (GossipService.gossip_round _).
  - unfold gossip_deliver. destruct (s_sent sys !! i) as [[tgt msg]|]; [by rewrite Hloc|done].
Qed.

(** An operation keeps its request. *)
Lemma op_step_request sys ev i op op' : op_step sys ev i op op' -> o_request op' = o_request op.
Proof.
  intros []; try done.
  match goal with Hp : proceed_op _ _ _ _ = _ |- _ => revert Hp end. unfold proceed_op.
  destruct (o_request op) as [req|req|req] eqn:Hr.
  - destruct (o_value op); [|by intros [= _ <- _]].
    destruct (ReplicationCoordinator.put_begin _ _ _ _ _ _) as [[e d] counts]. by intros [= _ <- _].
  - destruct (ReplicationCoordinator.delete_begin _ _ _ _ _ _) as [[e d] counts]. by intros [= _ <- _].
  - by intros [= _ <- _].
Qed.
End Steps.
