(* ===== verification/SystemOps.v ===== *)
(** Client operations in the running system (System.v): what an acknowledgement means
    when requests are late, lost or concurrent, that every operation returns, and that
    the calls of one operation served at once are the atomic operation of Cluster.v. *)

From S2P Require Import Prelude Bytes BTreeMap VectorClock Memtable Externals Wal Snapshot.
From S2P Require Import Engine EngineDurability EngineRace ConsistentHash Quorum Proto Coordinator.
From S2P Require Import SocketAddr Detector Service Cluster Server GossipNet System SystemSteps.
Open Scope Z_scope.

(** ** Acknowledgements *)

(** The machine at [a] stored [v] for the key at some time. *)
Definition stored (sys : system) (a key : string) (v : VersionedValue.t) : Prop :=
  (a, (key, v)) ∈ s_writes sys.

(** The machine at [a] stored a tombstone for the key at some time. *)
Definition buried (sys : system) (a key : string) : Prop :=
  exists v, stored sys a key v /\ VersionedValue.deleted v = true.

(** A reply is what the handler returned, and the handlers of writes return normally only
    after they stored the value or a tombstone. *)
Record call_true (sys : system) (c : call) : Prop := CallTrue {
  ct_reply : forall x, c_reply c = Some (Replied x) -> c_served c = Some (inl x);
  ct_served : forall key v x,
    c_request c = Replicate (ReplicationCoordinator.replicate_request key v) ->
    VersionedValue.deleted v = false -> c_served c = Some (inl x) -> stored sys (c_target c) key v;
  ct_deleted : forall r x, c_request c = DeleteInternal r -> c_served c = Some (inl x) ->
    buried sys (c_target c) (proto.DeleteInternalRequest.key r)
}.

Definition stage_local (s : stage) : option local :=
  match s with Waiting l | Finished l _ => Some l | Begun | Aborted => None end.

Section Acknowledgements.
Context `{Crc32, Sha256, Json WalEntry.t, Bincode table, Rng}.

(** A put or delete at any stage: its calls carry its request, its local count is that of
    its own write, which makes [P] true of the machine, and its reply was computed from
    the replies. *)
Record write_true (op : operation) (P : string -> Prop) (carries : request -> Prop)
    (reply : Z * Z -> list (rpc_result response) -> client_reply) : Prop := WriteTrue {
  wt_calls : Forall (fun c => carries (c_request c)) (o_calls op);
  wt_local : forall l, stage_local (o_stage op) = Some l ->
    l = Counted (0, 0) \/ l = Counted (0, 1) \/ (l = Counted (1, 0) /\ P (o_address op));
  wt_reply : forall counts r, o_stage op = Finished (Counted counts) r ->
    exists replies, c_reply <$> o_calls op = Some <$> replies /\ r = reply counts replies
}.

Definition put_true (sys : system) (op : operation) (req : proto.PutRequest.t) (v : VersionedValue.t) : Prop :=
  write_true op (fun a => stored sys a (proto.PutRequest.key req) v)
    (fun r => r = Replicate (ReplicationCoordinator.replicate_request (proto.PutRequest.key req) v))
    (fun counts replies => PutReply (KvServiceImpl.put_reply
       (ReplicationCoordinator.put_finish (o_coordinator op) (proto.PutRequest.write_quorum req)
          v counts (rpc_map as_replicated <$> replies)))).

Definition delete_true (sys : system) (op : operation) (req : proto.DeleteRequest.t) : Prop :=
  write_true op (fun a => buried sys a (proto.DeleteRequest.key req))
    (fun r => exists clock, r = DeleteInternal (proto.DeleteInternalRequest.Mk (proto.DeleteRequest.key req) clock))
    (fun counts replies => DeleteReply (inl (proto.DeleteResponse.Mk (QuorumResult.is_success
       (ReplicationCoordinator.delete_finish (o_coordinator op) (proto.DeleteRequest.write_quorum req)
          counts (rpc_map as_deleted <$> replies)))))).

Record op_true (sys : system) (op : operation) : Prop := OpTrue {
  ot_calls : Forall (call_true sys) (o_calls op);
  ot_value : forall req, o_request op = ClientPut req ->
    exists v, o_value op = Some v /\ VersionedValue.deleted v = false;
  ot_put : forall req v, o_request op = ClientPut req -> o_value op = Some v -> put_true sys op req v;
  ot_delete : forall req, o_request op = ClientDelete req -> delete_true sys op req
}.

Definition sys_true (sys : system) : Prop := Forall (op_true sys) (s_ops sys).

(** Histories only grow. *)
Lemma buried_mono sys sys' a key : s_writes sys ⊆ s_writes sys' -> buried sys a key -> buried sys' a key.
Proof. intros Hw (v & Hs & Hd). exists v. split; [by apply Hw|done]. Qed.

Lemma call_true_mono sys sys' c :
  s_writes sys ⊆ s_writes sys' -> call_true sys c -> call_true sys' c.
Proof.
  intros Hw [Hr Hs Hd]. split; [done|intros; unfold stored in *; by eapply Hw, Hs|].
  intros. by eapply buried_mono, Hd.
Qed.

Lemma write_true_mono op (P P' : string -> Prop) carries reply :
  (forall a, P a -> P' a) -> write_true op P carries reply -> write_true op P' carries reply.
Proof. intros HP [Hc Hl Hr]. split; [done| |done]. intros l Hst. destruct (Hl l Hst) as [?|[?|[? ?]]]; auto. Qed.

Lemma op_true_mono sys sys' op : s_writes sys ⊆ s_writes sys' -> op_true sys op -> op_true sys' op.
Proof.
  intros Hw [Hc Hov Hp Hd]. split; [|done| |].
  - eapply Forall_impl; [exact Hc|]. intros c. by apply call_true_mono.
  - intros req v Hr Hv. eapply write_true_mono; [|by apply Hp]. intros a. apply Hw.
  - intros req Hr. eapply write_true_mono; [|by apply Hd]. intros a. by apply buried_mono.
Qed.

Lemma sys_true_op sys i op : sys_true sys -> s_ops sys !! i = Some op -> op_true sys op.
Proof. unfold sys_true. rewrite Forall_lookup. eauto. Qed.

(** A stage that knows of nothing is true of everything. *)
Lemma set_aborted_true sys op : op_true sys op -> op_true sys (set_stage op Aborted (o_calls op)).
Proof.
  intros [Hc Hov Hp Hd]. split; [done|done| |].
  - intros req v Hr Hv. by destruct (Hp req v Hr Hv).
  - intros req Hr. by destruct (Hd req Hr).
Qed.

(** A resolved call stays resolved. *)
Lemma replies_insert (calls : list call) j c c' replies :
  c_reply <$> calls = Some <$> replies -> calls !! j = Some c ->
  (is_Some (c_reply c) -> c_reply c' = c_reply c) ->
  c_reply <$> <[j := c']> calls = Some <$> replies.
Proof.
  intros Hm Hj Hrep. rewrite <-Hm, list_fmap_insert. apply list_insert_id.
  assert ((c_reply <$> calls) !! j = Some (c_reply c)) as Hl by by rewrite list_lookup_fmap, Hj.
  rewrite Hl. f_equal. symmetry. apply Hrep.
  rewrite Hm, list_lookup_fmap in Hl. destruct (replies !! j) as [x|]; cbn in Hl; [|done].
  exists x. congruence.
Qed.

(** A call changes, its request and address stay. *)
Lemma set_call_write_true op j c c' P carries reply :
  write_true op P carries reply -> o_calls op !! j = Some c -> c_request c' = c_request c ->
  (is_Some (c_reply c) -> c_reply c' = c_reply c) ->
  write_true (set_stage op (o_stage op) (<[j := c']> (o_calls op))) P carries reply.
Proof.
  intros [Hcalls Hlocal Hreply] Hj Hreq Hrep. split; cbn; [|done|].
  - apply Forall_insert; [done|]. rewrite Forall_lookup in Hcalls. rewrite Hreq. by apply (Hcalls j).
  - intros counts r Hs. destruct (Hreply counts r Hs) as (replies & Hm & ->). exists replies.
    split; [|done]. by apply (replies_insert _ j c).
Qed.

Lemma set_call_true sys op j c c' :
  op_true sys op -> o_calls op !! j = Some c -> c_request c' = c_request c ->
  (is_Some (c_reply c) -> c_reply c' = c_reply c) -> call_true sys c' ->
  op_true sys (set_stage op (o_stage op) (<[j := c']> (o_calls op))).
Proof.
  intros [Hc Hov Hp Hd] Hj Hreq Hrep Hc'. split; cbn; [by apply Forall_insert|done| |].
  - intros req v Hr Hv. eapply (set_call_write_true op); [by apply Hp|done..].
  - intros req Hr. eapply (set_call_write_true op); [by apply Hd|done..].
Qed.

(** The local half of a put. *)
Lemma put_begin_true sys ring io nd a key v :
  let '(e, d, counts) := ReplicationCoordinator.put_begin ring io (engine nd) (store nd) key v in
  from_option (fun k => noted a k (set_engine nd e d)) [] (if 0 <? counts.1 then Some key else None)
    ⊆ s_writes sys ->
  Counted counts = Counted (0, 0) \/ Counted counts = Counted (0, 1)
  \/ (Counted counts = Counted (1, 0) /\ stored sys a key v).
Proof.
  unfold ReplicationCoordinator.put_begin. destruct (HashRing.is_responsible ring _ key); [|by left].
  pose proof (put_stored io (engine nd) (store nd) key v) as Hst.
  destruct (StorageEngine.put io _ _ key v) as [[e d] [[]|err]]; cbn in *; [|by right; left].
  change (wrap_u32 (0 + 1)) with 1. cbn. intros Hw. right. right. split; [done|]. apply Hw.
  rewrite (noted_some a key _ v); [by left|].
  rewrite get_raw_data. cbn. rewrite Hst by done. apply lookup_insert_eq.
Qed.

(** The local half of a delete. *)
Lemma delete_begin_true sys ring now io nd a key :
  let '(e, d, counts) := ReplicationCoordinator.delete_begin ring now io (engine nd) (store nd) key in
  from_option (fun k => noted a k (set_engine nd e d)) [] (if 0 <? counts.1 then Some key else None)
    ⊆ s_writes sys ->
  Counted counts = Counted (0, 0) \/ Counted counts = Counted (0, 1)
  \/ (Counted counts = Counted (1, 0) /\ buried sys a key).
Proof.
  unfold ReplicationCoordinator.delete_begin. destruct (HashRing.is_responsible ring _ key); [|by left].
  pose proof (delete_stored now io (engine nd) (store nd) key) as Hst.
  destruct (StorageEngine.delete now io _ _ key) as [[e d] [[]|err]]; cbn in *; [|by right; left].
  change (wrap_u32 (0 + 1)) with 1. cbn. intros Hw. right. right. split; [done|].
  exists (tombstone_of now (engine nd) key). split; [|done]. apply Hw.
  rewrite (noted_some a key _ (tombstone_of now (engine nd) key)); [by left|].
  rewrite get_raw_data. cbn. rewrite Hst by done. apply lookup_insert_eq.
Qed.

Lemma new_calls_true sys r (ns : list Node.t) : Forall (call_true sys) (new_call r <$> ns).
Proof. apply Forall_fmap, Forall_forall. intros n _. by split. Qed.

(** A write that has just sent its calls. *)
Lemma sent_write_true op r (ns : list Node.t) counts (P : string -> Prop) (carries : request -> Prop) reply :
  carries r ->
  Counted counts = Counted (0, 0) \/ Counted counts = Counted (0, 1)
  \/ (Counted counts = Counted (1, 0) /\ P (o_address op)) ->
  write_true (set_stage op (Waiting (Counted counts)) (new_call r <$> ns)) P carries reply.
Proof.
  intros Hr Hl. split; cbn; [|by intros l [= <-]|done]. apply Forall_fmap, Forall_forall. by intros n _.
Qed.

Lemma proceed_true sys now io nd op :
  op_true sys op -> o_stage op = Begun ->
  let '(nd', op', key) := proceed_op now io nd op in
  from_option (fun k => noted (o_address op) k nd') [] key ⊆ s_writes sys -> op_true sys op'.
Proof.
  intros Hop Hst. unfold proceed_op.
  destruct (o_request op) as [req|req|req] eqn:Hreq.
  - destruct (o_value op) as [v|] eqn:Hv; [|by intros _].
    pose proof (put_begin_true sys (ring_of nd) io nd (o_address op) (proto.PutRequest.key req) v) as Hb.
    destruct (ReplicationCoordinator.put_begin _ _ _ _ _ _) as [[e d] counts]. intros Hw. specialize (Hb Hw).
    split; cbn [set_stage o_calls o_request o_value]; [by apply new_calls_true| | |congruence].
    + rewrite Hreq. intros req' _. by apply (ot_value _ _ Hop req).
    + rewrite Hreq, Hv. intros req' v' [= <-] [= <-]. by apply sent_write_true.
  - pose proof (delete_begin_true sys (ring_of nd) now io nd (o_address op) (proto.DeleteRequest.key req)) as Hb.
    destruct (ReplicationCoordinator.delete_begin _ _ _ _ _ _) as [[e d] counts]. intros Hw. specialize (Hb Hw).
    split; cbn [set_stage o_calls o_request o_value]; [by apply new_calls_true|congruence..|].
    rewrite Hreq. intros req' [= <-]. apply sent_write_true; [by eexists|done].
  - intros _. split; cbn; [by apply new_calls_true|congruence..].
Qed.

(** A served call. *)
Lemma handle_true sys now io nd a req rep :
  let '(nd', x) := handle now io nd req in
  from_option (fun k => noted a k nd') [] (written req x) ⊆ s_writes sys ->
  (forall y, rep <> Some (Replied y)) -> call_true sys (Call a req (Some x) rep).
Proof.
  destruct (handle now io nd req) as [nd' x] eqn:E. intros Hw Hrep. split; cbn.
  - intros y Hy. by destruct (Hrep y).
  - intros key v y -> Hlive [= ->]. apply Hw. cbn [handle] in E.
    pose proof (replicate_stores now io nd nd' key v) as Hst.
    destruct (InternalServiceImpl.replicate now io nd _) as [nd1 [r|st]]; [|done].
    injection E as -> _. cbn. rewrite (noted_some a key _ v); [by left|]. by apply (Hst r Hlive).
  - intros r y -> [= ->]. cbn [handle] in E. unfold InternalServiceImpl.delete_internal in E.
    pose proof (engine_delete_stored now io nd (proto.DeleteInternalRequest.key r)) as Hst.
    destruct (InternalServiceImpl.engine_delete _ _ _ _) as [nd1 [[]|err]]; [|done].
    injection E as -> <-. cbn in Hw.
    exists (tombstone_of now (engine nd) (proto.DeleteInternalRequest.key r)). split; [|done]. apply Hw.
    rewrite (noted_some a _ _ (tombstone_of now (engine nd) (proto.DeleteInternalRequest.key r))); [by left|].
    rewrite get_raw_data, (Hst nd' eq_refl). apply lookup_insert_eq.
Qed.

(** *** Every step keeps the records true *)

Lemma mapM_replies (l : list call) replies :
  mapM c_reply l = Some replies -> c_reply <$> l = Some <$> replies.
Proof.
  revert replies. induction l as [|c l IH]; intros replies; cbn; [by intros [= <-]|].
  destruct (c_reply c); [|done]. cbn. destruct (mapM c_reply l) as [rs|]; [|done].
  intros [= <-]. cbn. by rewrite (IH rs).
Qed.

Lemma elem_of_replies (calls : list call) (replies : list (rpc_result response)) r :
  c_reply <$> calls = Some <$> replies -> r ∈ replies <-> exists c, c ∈ calls /\ c_reply c = Some r.
Proof.
  intros Hm. rewrite <-(list_elem_of_fmap_inj Some), <-Hm, list_elem_of_fmap. naive_solver.
Qed.

Lemma finish_write_true op l r P carries reply replies :
  write_true op P carries reply -> o_stage op = Waiting l -> c_reply <$> o_calls op = Some <$> replies ->
  (forall counts, l = Counted counts -> r = reply counts replies) ->
  write_true (set_stage op (Finished l r) (o_calls op)) P carries reply.
Proof.
  intros [Hc Hl _] Hst Hm Hr. rewrite Hst in Hl. split; cbn; [done|done|].
  intros counts r' [= -> <-]. exists replies. auto.
Qed.

Lemma finish_true sys op l replies r now :
  op_true sys op -> o_stage op = Waiting l -> mapM c_reply (o_calls op) = Some replies ->
  finish_op now op l replies = Some r -> op_true sys (set_stage op (Finished l r) (o_calls op)).
Proof.
  intros [Hc Hov Hp Hd] Hst Hm%mapM_replies Hf. unfold finish_op in Hf.
  split; cbn; [exact Hc|exact Hov| |].
  - intros req v Hr Hv. eapply finish_write_true; [by apply Hp|done|done|]. intros counts ->.
    rewrite Hr, Hv in Hf. by injection Hf as <-.
  - intros req Hr. eapply finish_write_true; [by apply Hd|done|done|]. intros counts ->.
    rewrite Hr in Hf. by injection Hf as <-.
Qed.

Lemma begin_true sys t a nd r : op_true sys (begin_op t a nd r).
Proof.
  split; [done|intros req; cbn; intros ->; by eexists| |]; cbn; intros; by split.
Qed.

Lemma op_step_true sys ev i op op' :
  op_true sys op -> op_step sys ev i op op' -> op_true (sys_step sys ev) op'.
Proof.
  intros Hop%(op_true_mono _ _ _ (sys_step_stored sys ev)) Hst.
  destruct Hst as [_|_|io nd nd' op' key Hev Hst Ha Hp Hw|j c io nd nd' x Hev Hj Hs Ha Hh Hw
    |j c r Hev Hj Hrep Hr|l replies r Hev Hst Hm Hf].
  - done.
  - by apply set_aborted_true.
  - pose proof (proceed_true _ (clock_at sys (o_address op)) io nd op Hop Hst) as Ht.
    rewrite Hp in Ht. by apply Ht.
  - pose proof (ot_calls _ _ Hop) as Hcs. rewrite Forall_lookup in Hcs. destruct (Hcs j c Hj) as [Hrep _ _].
    eapply set_call_true; [done|exact Hj|done|done|].
    pose proof (handle_true (sys_step sys ev) (clock_at sys (c_target c)) io nd (c_target c) (c_request c)
      (c_reply c)) as Ht. rewrite Hh in Ht. apply Ht; [done|].
    intros y Hy. apply Hrep in Hy. congruence.
  - pose proof (ot_calls _ _ Hop) as Hcs. rewrite Forall_lookup in Hcs. destruct (Hcs j c Hj) as [_ Hsrv Hdel].
    eapply set_call_true; [done|exact Hj|done|by rewrite Hrep; intros []|].
    split; cbn; [|exact Hsrv|exact Hdel]. by intros x [= ->]; apply Hr.
  - by eapply finish_true.
Qed.

Lemma sys_step_true sys ev : sys_true sys -> sys_true (sys_step sys ev).
Proof.
  intros Ht. apply (step_forall _ _ _ _ Ht); [intros i op op'; apply op_step_true|intros; apply begin_true].
Qed.

Lemma sys_run_true sys es : sys_true sys -> sys_true (sys_run sys es).
Proof. revert sys. induction es as [|ev es IH]; intros sys Ht; [done|]. by apply IH, sys_step_true. Qed.

(** *** Counting *)

Section Counting.
(** Which replies count as a success. *)
Context (accepts : response -> bool).

Definition acknowledged (c : call) : Prop := exists x, c_reply c = Some (Replied x) /\ accepts x = true.

#[export] Instance acknowledged_dec c : Decision (acknowledged c).
Proof.
  unfold acknowledged. destruct (c_reply c) as [[x| |]|]; [|right; naive_solver..].
  destruct (accepts x) eqn:E; [left; by exists x|right]. intros (y & [= <-] & Hy). congruence.
Defined.

Definition counts_as (r : rpc_result response) : bool :=
  match r with Replied x => accepts x | _ => false end.

Lemma acks_acknowledged (calls : list call) replies :
  c_reply <$> calls = Some <$> replies ->
  acks (counts_as <$> replies) = Z.of_nat (length (filter acknowledged calls)).
Proof.
  revert replies. induction calls as [|c calls IH]; intros [|r replies]; cbn [fmap list_fmap]; try done.
  intros [= Hc Hr]. rewrite acks_cons, (IH replies Hr), filter_cons.
  assert (acknowledged c <-> counts_as r = true) as Ha.
  { unfold acknowledged. rewrite Hc. destruct r; naive_solver. }
  destruct (counts_as r).
  - rewrite decide_True by by apply Ha. cbn [length]. lia.
  - rewrite decide_False; [lia|]. by intros ?%Ha.
Qed.

(** The machines that a write of [op] reached, when their addresses are distinct. *)
Lemma reached_machines op P carries reply counts r replies :
  write_true op P carries reply -> o_stage op = Finished (Counted counts) r ->
  c_reply <$> o_calls op = Some <$> replies ->
  (forall c, c ∈ o_calls op -> acknowledged c -> P (c_target c)) ->
  NoDup (o_address op :: (c_target <$> o_calls op)) -> Z.of_nat (length (o_calls op)) < 2 ^ 32 - 1 ->
  exists machines, NoDup machines /\ machines ⊆ o_address op :: (c_target <$> o_calls op)
    /\ (foldl ReplicationCoordinator.tally counts (counts_as <$> replies)).1 = Z.of_nat (length machines)
    /\ Forall P machines.
Proof.
  intros [_ Hl _] Hst Hm HP [Ha Hnd]%NoDup_cons Hlen. rewrite Hst in Hl. specialize (Hl _ eq_refl).
  pose proof (acks_acknowledged _ _ Hm) as Hacks.
  assert (length (counts_as <$> replies) = length (o_calls op)) as Hlo.
  { apply (f_equal length) in Hm. rewrite !length_fmap in *. done. }
  assert (sublist (c_target <$> filter acknowledged (o_calls op)) (c_target <$> o_calls op)) as Hsub
    by apply fmap_sublist, sublist_filter.
  assert (Forall P (c_target <$> filter acknowledged (o_calls op))) as Hrem.
  { apply Forall_fmap, Forall_forall. intros c [Hack Hin]%list_elem_of_filter. by apply HP. }
  assert (c_target <$> filter acknowledged (o_calls op) ⊆ c_target <$> o_calls op) as Hsubset
    by (intros x Hx; by eapply elem_of_sublist).
  assert (NoDup (c_target <$> filter acknowledged (o_calls op))) as Hndr by by eapply sublist_NoDup.
  destruct Hl as [[= ->]|[[= ->]|[[= ->] Hown]]]; rewrite foldl_tally by lia.
  1,2: exists (c_target <$> filter acknowledged (o_calls op)); rewrite (length_fmap c_target);
    split_and!; [done|set_solver|cbn [fst]; lia|done].
  - exists (o_address op :: (c_target <$> filter acknowledged (o_calls op))). cbn [length].
    rewrite (length_fmap c_target). split_and!; [|set_solver|cbn [fst]; lia|by apply Forall_cons].
    apply NoDup_cons. split; [|done]. intros Hin. apply Ha. by apply Hsubset.
Qed.
End Counting.

(** Which replies the two kinds of writes count. *)
Definition put_accepted (x : response) : bool :=
  ReplicationCoordinator.replicate_success (rpc_map as_replicated (Replied x)).
Definition delete_accepted (x : response) : bool :=
  ReplicationCoordinator.delete_success (rpc_map as_deleted (Replied x)).

(** The machines of an acknowledged put, and of an acknowledged delete. *)
Lemma put_machines sys op req v l resp :
  op_true sys op -> o_request op = ClientPut req -> o_value op = Some v ->
  o_stage op = Finished l (PutReply (inl resp)) ->
  NoDup (o_address op :: (c_target <$> o_calls op)) ->
  Z.of_nat (length (o_calls op)) < 2 ^ 32 - 1 ->
  exists machines, NoDup machines /\ machines ⊆ o_address op :: (c_target <$> o_calls op)
    /\ QuorumConfig.effective_write_quorum (ReplicationCoordinator.quorum (o_coordinator op))
         (proto.PutRequest.write_quorum req) <= Z.of_nat (length machines)
    /\ Forall (fun a => stored sys a (proto.PutRequest.key req) v) machines.
Proof.
  intros Hop Hr Hv Hst Hnd Hlen. pose proof (ot_put _ _ Hop req v Hr Hv) as Hw.
  destruct (ot_value _ _ Hop req Hr) as (v' & Hv' & Hlive). simplify_eq.
  assert (exists counts, l = Counted counts) as [counts ->]
    by (destruct (wt_local _ _ _ _ Hw l) as [->|[->|[-> _]]]; [by rewrite Hst|by eexists..]).
  destruct (wt_reply _ _ _ _ Hw _ _ Hst) as (replies & Hm & Heq). injection Heq as Heq.
  destruct (reached_machines put_accepted op _ _ _ _ _ replies Hw Hst Hm) as (m & Hm1 & Hm2 & Hq & Hs);
    [|done|done|].
  - intros c Hin (x & Hx & _). pose proof (wt_calls _ _ _ _ Hw) as Hcarry. pose proof (ot_calls _ _ Hop) as Hct.
    rewrite Forall_forall in Hcarry, Hct. destruct (Hct c Hin) as [Hrep Hsrv _].
    by apply (Hsrv _ v x); [apply Hcarry| |apply Hrep].
  - exists m. split_and!; [done..| |done]. rewrite <-Hq.
    unfold KvServiceImpl.put_reply, QuorumResult.is_success, ReplicationCoordinator.put_finish in Heq.
    rewrite <-list_fmap_compose in Heq.
    rewrite (list_fmap_ext _ (counts_as put_accepted) replies) in Heq by (intros j [x| |] _; done).
    destruct (foldl _ _ _) as [s f]. cbn in Heq |- *.
    match type of Heq with context [?a <=? ?b] => destruct (Z.leb_spec a b) end; [done|discriminate].
Qed.

Lemma delete_machines sys op req l :
  op_true sys op -> o_request op = ClientDelete req ->
  o_stage op = Finished l (DeleteReply (inl (proto.DeleteResponse.Mk true))) ->
  NoDup (o_address op :: (c_target <$> o_calls op)) ->
  Z.of_nat (length (o_calls op)) < 2 ^ 32 - 1 ->
  exists machines, NoDup machines /\ machines ⊆ o_address op :: (c_target <$> o_calls op)
    /\ QuorumConfig.effective_write_quorum (ReplicationCoordinator.quorum (o_coordinator op))
         (proto.DeleteRequest.write_quorum req) <= Z.of_nat (length machines)
    /\ Forall (fun a => buried sys a (proto.DeleteRequest.key req)) machines.
Proof.
  intros Hop Hr Hst Hnd Hlen. pose proof (ot_delete _ _ Hop req Hr) as Hw.
  assert (exists counts, l = Counted counts) as [counts ->]
    by (destruct (wt_local _ _ _ _ Hw l) as [->|[->|[-> _]]]; [by rewrite Hst|by eexists..]).
  destruct (wt_reply _ _ _ _ Hw _ _ Hst) as (replies & Hm & Heq). injection Heq as Heq.
  destruct (reached_machines delete_accepted op _ _ _ _ _ replies Hw Hst Hm) as (m & Hm1 & Hm2 & Hq & Hs);
    [|done|done|].
  - intros c Hin (x & Hx & _). pose proof (wt_calls _ _ _ _ Hw) as Hcarry. pose proof (ot_calls _ _ Hop) as Hct.
    rewrite Forall_forall in Hcarry, Hct. destruct (Hct c Hin) as [Hrep _ Hdel], (Hcarry c Hin) as [clock Hc].
    exact (Hdel _ x Hc (Hrep x Hx)).
  - exists m. split_and!; [done..| |done]. rewrite <-Hq.
    unfold QuorumResult.is_success, ReplicationCoordinator.delete_finish in Heq.
    rewrite <-list_fmap_compose in Heq.
    rewrite (list_fmap_ext _ (counts_as delete_accepted) replies) in Heq by (intros j [x| |] _; done).
    destruct (foldl _ _ _) as [s f]. cbn in Heq |- *. symmetry in Heq. by apply Z.leb_le in Heq.
Qed.
End Acknowledgements.

(** ** The life of an operation *)

(** What one event does to call [j] of operation [i]. *)
Record call_next (ev : event) (i j : nat) (c c' : call) : Prop := CallNext {
  cn_target : c_target c' = c_target c;
  cn_request : c_request c' = c_request c;
  cn_served : c_served c' = c_served c \/ exists io, ev = Serve i j io;
  cn_reply : is_Some (c_reply c) -> c_reply c' = c_reply c;
  cn_expire : ev = Expire i j -> is_Some (c_reply c')
}.

(** What one event does to an operation that has sent its calls. *)
Record op_next (ev : event) (i : nat) (op op' : operation) : Prop := OpNext {
  on_address : o_address op' = o_address op;
  on_coordinator : o_coordinator op' = o_coordinator op;
  on_request : o_request op' = o_request op;
  on_value : o_value op' = o_value op;
  on_length : length (o_calls op') = length (o_calls op);
  on_calls : forall j c, o_calls op !! j = Some c ->
    exists c', o_calls op' !! j = Some c' /\ call_next ev i j c c';
  on_stage : o_stage op' = o_stage op
    \/ (ev = Finish i /\ exists l r, o_stage op = Waiting l /\ o_stage op' = Finished l r)
    \/ (kills (o_address op) ev /\ o_stage op' = Aborted)
}.

Section Life.
Context `{Crc32, Sha256, Json WalEntry.t, Bincode table, Rng}.

Lemma call_next_same ev i j c : (ev = Expire i j -> is_Some (c_reply c)) -> call_next ev i j c c.
Proof. intros He. split; auto. Qed.

Lemma op_next_same ev i op :
  (forall j, ev = Expire i j -> forall c, o_calls op !! j = Some c -> is_Some (c_reply c)) ->
  op_next ev i op op.
Proof. intros He. split; auto. intros j c Hj. exists c. split; [done|]. apply call_next_same; eauto. Qed.

Lemma op_next_call ev i j op c c' :
  o_calls op !! j = Some c -> call_next ev i j c c' ->
  (forall j', ev = Expire i j' -> j' = j) ->
  op_next ev i op (set_stage op (o_stage op) (<[j := c']> (o_calls op))).
Proof.
  intros Hj Hc Hne. split; cbn; auto; [apply length_insert|]. intros j0 c0 Hj0.
  assert (j < length (o_calls op))%nat as Hlt by by apply lookup_lt_Some in Hj.
  destruct (decide (j = j0)) as [<-|Hd].
  - exists c'. rewrite list_lookup_insert_eq by done. split; [done|]. by simplify_eq.
  - exists c0. rewrite list_lookup_insert_ne by done. split; [done|]. apply call_next_same.
    intros E. by apply Hne in E.
Qed.

Lemma op_next_stage ev i op s :
  (forall j, ev <> Expire i j) ->
  (ev = Finish i /\ exists l r, o_stage op = Waiting l /\ s = Finished l r)
  \/ (kills (o_address op) ev /\ s = Aborted) ->
  op_next ev i op (set_stage op s (o_calls op)).
Proof.
  intros Hne Hs. split; cbn; auto. intros j c Hj. exists c. split; [done|]. apply call_next_same.
  intros E. by destruct (Hne j).
Qed.

(** No event but its own loses or changes an operation that has sent its calls. *)
Lemma op_step_next sys ev i op op' : o_stage op <> Begun -> op_step sys ev i op op' -> op_next ev i op op'.
Proof.
  intros Hbegun Hst.
  destruct Hst as [Hx|Hk|io nd nd' op' key Hev Hst Ha Hp Hw|j c io nd nd' x -> Hj Hs Ha Hh Hw
    |j c r Hev Hj Hrep Hr|l replies r -> Hst Hm Hf].
  - apply op_next_same. eauto.
  - apply op_next_stage; [by intros j ->|by right].
  - done.
  - eapply op_next_call; [exact Hj| |done]. split; cbn; try done. right. by exists io.
  - eapply op_next_call; [exact Hj| |].
    + split; cbn; [done|done|by left|by rewrite Hrep; intros []|by eexists].
    + intros k ->. by destruct Hev as [?|[?|[= ->]]].
  - apply op_next_stage; [done|left]. split; [done|by exists l, r].
Qed.

Lemma sys_step_next sys ev i op :
  s_ops sys !! i = Some op -> o_stage op <> Begun ->
  exists op', s_ops (sys_step sys ev) !! i = Some op' /\ op_next ev i op op'.
Proof.
  intros Hi Hst. destruct (sys_step_op sys ev i op Hi) as (op' & Hi' & Hop). exists op'.
  split; [done|]. by eapply op_step_next.
Qed.

(** A call that has resolved. *)
Definition answered (op : operation) (j : nat) : Prop :=
  exists c, o_calls op !! j = Some c /\ is_Some (c_reply c).

Lemma op_next_answered ev i op op' j : op_next ev i op op' -> answered op j -> answered op' j.
Proof.
  intros Hn (c & Hj & Hr). destruct (on_calls _ _ _ _ Hn j c Hj) as (c' & Hj' & Hc).
  exists c'. split; [done|]. by rewrite (cn_reply _ _ _ _ _ Hc).
Qed.

(** While its process runs, an operation waits or has returned, and calls that timed
    out stay resolved. *)
Lemma sys_run_waits sys es i op l :
  s_ops sys !! i = Some op -> o_stage op = Waiting l \/ (exists r, o_stage op = Finished l r) ->
  Forall (fun ev => ~ kills (o_address op) ev) es ->
  exists op', s_ops (sys_run sys es) !! i = Some op'
    /\ (o_stage op' = Waiting l \/ exists r, o_stage op' = Finished l r)
    /\ o_address op' = o_address op /\ o_request op' = o_request op /\ o_value op' = o_value op
    /\ length (o_calls op') = length (o_calls op)
    /\ (forall j, answered op j -> answered op' j)
    /\ (forall j, (j < length (o_calls op))%nat -> Expire i j ∈ es -> answered op' j).
Proof.
  revert sys op. induction es as [|ev es IH]; intros sys op Hi Hst Hk.
  { exists op. split_and!; try done. by intros j _ ?%not_elem_of_nil. }
  apply Forall_cons in Hk as [Hk Hks].
  destruct (sys_step_next sys ev i op Hi) as (op1 & Hi1 & Hn); [destruct Hst as [->|[r ->]]; done|].
  pose proof (on_address _ _ _ _ Hn) as Ha. pose proof (on_length _ _ _ _ Hn) as Hlen.
  destruct (IH (sys_step sys ev) op1 Hi1) as (op' & Hi' & Hst' & Ha' & Hr' & Hv' & Hl' & Hans & Hexp).
  { destruct (on_stage _ _ _ _ Hn) as [->|[(_ & l1 & r & Hs & ->)|[? _]]]; [done| |done].
    right. exists r. destruct Hst as [Hs'|[r' Hs']]; congruence. }
  { by rewrite Ha. }
  exists op'. rewrite Ha', Hr', Hv', Hl'.
  split_and!; [done|done|done|apply Hn|apply Hn|done| |].
  - intros j Hj. by eapply Hans, op_next_answered.
  - intros j Hj [<-|Hin]%elem_of_cons; [|apply Hexp; [lia|done]].
    apply Hans. apply lookup_lt_is_Some in Hj as [c Hj].
    destruct (on_calls _ _ _ _ Hn j c Hj) as (c' & Hj' & Hc). exists c'. split; [done|].
    by apply (cn_expire _ _ _ _ _ Hc).
Qed.

Lemma answered_all (calls : list call) :
  (forall j, (j < length calls)%nat -> exists c, calls !! j = Some c /\ is_Some (c_reply c)) ->
  is_Some (mapM c_reply calls).
Proof.
  intros Hall. apply mapM_is_Some, Forall_lookup. intros j c Hj.
  destruct (Hall j) as (c' & Hj' & Hr); [by apply lookup_lt_Some in Hj|]. by simplify_eq.
Qed.

(** What an operation knows fits its request. *)
Definition fits (op : operation) (l : local) : Prop :=
  match o_request op, l with
  | ClientPut _, Counted _ => is_Some (o_value op)
  | ClientDelete _, Counted _ => True
  | ClientGet _, Read _ => True
  | _, _ => False
  end.

Lemma finish_op_fits now op l replies : fits op l -> is_Some (finish_op now op l replies).
Proof.
  unfold fits, finish_op. destruct (o_request op), l; try (intros [v ->] || intros []); by eexists.
Qed.

Lemma proceed_op_waits now io nd op :
  (forall req, o_request op = ClientPut req -> is_Some (o_value op)) ->
  exists nd' op' key l, proceed_op now io nd op = (nd', op', key)
    /\ o_stage op' = Waiting l /\ fits op' l /\ o_address op' = o_address op
    /\ (length (o_calls op') <= length (o_nodes op))%nat.
Proof.
  intros Hv. unfold proceed_op. destruct (o_request op) as [req|req|req] eqn:Hr.
  - destruct (Hv req eq_refl) as [v Hval]. rewrite Hval.
    destruct (ReplicationCoordinator.put_begin _ _ _ _ _ _) as [[e d] counts]. eexists _, _, _, _.
    split; [done|]. split; [done|]. unfold fits. cbn. rewrite Hr, Hval, length_fmap.
    split_and!; [by eexists|done|apply length_filter].
  - destruct (ReplicationCoordinator.delete_begin _ _ _ _ _ _) as [[e d] counts]. eexists _, _, _, _.
    split; [done|]. split; [done|]. unfold fits. cbn. rewrite Hr, length_fmap.
    split_and!; [done|done|apply length_filter].
  - eexists _, _, _, _. split; [done|]. split; [done|]. unfold fits. cbn. rewrite Hr, length_fmap.
    split_and!; [done|done|apply length_filter].
Qed.

Lemma sys_run_app sys es es' : sys_run sys (es ++ es') = sys_run (sys_run sys es) es'.
Proof. apply foldl_app. Qed.

(** Once every call has resolved, the next step of the operation returns. *)
Lemma finish_returns sys i op l :
  s_ops sys !! i = Some op -> o_stage op = Waiting l -> fits op l ->
  (forall j, (j < length (o_calls op))%nat -> answered op j) ->
  exists op' r, s_ops (finish sys i) !! i = Some op' /\ o_stage op' = Finished l r.
Proof.
  intros Hi Hst Hfit Hall. unfold finish. rewrite Hi, Hst.
  destruct (answered_all (o_calls op) Hall) as [replies ->].
  destruct (finish_op_fits (clock_at sys (o_address op)) op l replies Hfit) as [r ->].
  exists (set_stage op (Finished l r) (o_calls op)), r. split; [|done]. cbn.
  apply list_lookup_insert_eq. by apply lookup_lt_Some in Hi.
Qed.
(** A request that is on its way stays so until it is served. *)
Lemma sys_run_unserved sys es i j op c :
  call_of sys i j = Some (op, c) -> o_stage op <> Begun -> c_served c = None ->
  Forall (fun ev => forall io, ev <> Serve i j io) es ->
  exists op' c', call_of (sys_run sys es) i j = Some (op', c')
    /\ c_target c' = c_target c /\ c_request c' = c_request c /\ c_served c' = None.
Proof.
  revert sys op c. induction es as [|ev es IH]; intros sys op c Hc Hst Hs Hes; [by exists op, c|].
  apply Forall_cons in Hes as [Hev Hes]. apply call_of_some in Hc as [Hi Hj].
  destruct (sys_step_next sys ev i op Hi Hst) as (op1 & Hi1 & Hn).
  destruct (on_calls _ _ _ _ Hn j c Hj) as (c1 & Hj1 & [Ht Hr Hs1 _ _]).
  destruct (IH (sys_step sys ev) op1 c1) as (op' & c' & Hc' & Ht' & Hr' & Hs'); [| | |done|].
  - unfold call_of. rewrite Hi1. cbn. by rewrite Hj1.
  - destruct (on_stage _ _ _ _ Hn) as [->|[(_ & l & r & _ & ->)|[_ ->]]]; done.
  - destruct Hs1 as [->|[io ->]]; [done|]. by destruct (Hev io).
  - exists op', c'. split_and!; [done|congruence..].
Qed.
End Life.

(** ** Properties *)

(** What some history leads to, with failing disks and clocks that jump. *)
Definition executed `{Crc32, Sha256, Json WalEntry.t, Bincode table, Rng} (sys : system) : Prop :=
  exists es, sys_run no_system es = sys.

Section Properties.
Context `{Crc32, Sha256, Json WalEntry.t, Bincode table, Rng}.

Lemma executed_true sys : executed sys -> sys_true sys.
Proof. intros [es <-]. apply sys_run_true. constructor. Qed.


(** C9: every client request returns: an operation that a process has accepted
    takes at most two steps of its own and one per call, a reply or the timeout, and
    then has replied to its client, whatever the rest of the system does in between,
    as long as the process keeps running. *)
Theorem operations_return sys i op io es :
  executed sys -> s_ops sys !! i = Some op -> o_stage op = Begun ->
  is_Some (s_nodes sys !! o_address op) ->
  Forall (fun ev => ~ kills (o_address op) ev) es ->
  (forall j, (j < length (o_nodes op))%nat -> Expire i j ∈ es) ->
  exists op' l r, s_ops (sys_run sys (Proceed i io :: es ++ [Finish i])) !! i = Some op'
    /\ o_stage op' = Finished l r.
Proof.
  intros Hex Hi Hst [nd Hnd] Hk Hes. apply executed_true in Hex.
  destruct (proceed_op_waits (clock_at sys (o_address op)) io nd op) as (nd' & op1 & key & l & Hp & Hst1 & Hfit & Ha & Hlen).
  { intros req Hr. destruct (ot_value _ _ (sys_true_op _ _ _ Hex Hi) req Hr) as (v & -> & _). by eexists. }
  change (Proceed i io :: es ++ [Finish i]) with ([Proceed i io] ++ es ++ [Finish i]).
  rewrite !sys_run_app. set (sys1 := sys_run sys [Proceed i io]).
  assert (s_ops sys1 !! i = Some op1) as Hi1.
  { unfold sys1, sys_run. cbn [foldl sys_step]. unfold proceed. rewrite Hi, Hst, Hnd, Hp.
    apply list_lookup_insert_eq. by apply lookup_lt_Some in Hi. }
  destruct (sys_run_waits sys1 es i op1 l Hi1 (or_introl Hst1)) as
    (op2 & Hi2 & Hst2 & _ & Hr2 & Hv2 & Hlen2 & _ & Hexp); [by rewrite Ha|].
  set (sys2 := sys_run sys1 es) in *. unfold sys_run. cbn [foldl sys_step].
  destruct Hst2 as [Hst2|[r Hst2]].
  - destruct (finish_returns sys2 i op2 l Hi2 Hst2) as (op3 & r & Hi3 & Hst3).
    { unfold fits in *. by rewrite Hr2, Hv2. }
    { intros j Hj. rewrite Hlen2 in Hj. apply Hexp; [done|]. apply Hes. lia. }
    by exists op3, l, r.
  - exists op2, l, r. split; [|done]. unfold finish. by rewrite Hi2, Hst2.
Qed.
End Properties.

Section Late.
Context `{Crc32, !Crc32Laws, Sha256, Json WalEntry.t, !JsonLaws WalEntry.t entry_wf}.
Context `{Bincode table, !BincodeLaws table data_wf, Rng}.

(** A request carries one value. *)
Lemma replicate_request_inj k1 v1 k2 v2 :
  VersionedValue.deleted v1 = false -> VersionedValue.deleted v2 = false ->
  ReplicationCoordinator.replicate_request k1 v1 = ReplicationCoordinator.replicate_request k2 v2 ->
  k1 = k2 /\ v1 = v2.
Proof.
  intros Hl1 Hl2 Heq. split; [exact (f_equal proto.ReplicateRequest.key Heq)|].
  assert (Some (to_proto_versioned v1) = Some (to_proto_versioned v2)) as Hv%(inj Some)
    by exact (f_equal proto.ReplicateRequest.value Heq).
  by rewrite <-(undeleted_id v1), <-(undeleted_id v2), <-!value_roundtrip, Hv.
Qed.

(** C7: replication requests are not ordered: a request of a put stays on its way
    whatever happens meanwhile, the timeout of its call, later puts of the same key that
    are acknowledged, crashes and restarts included, and when it arrives it replaces
    whatever the replica holds by then with its own, older value. *)
Theorem late_requests_overwrite sys es sys' i j op c key v nd :
  call_of sys i j = Some (op, c) -> o_stage op <> Begun -> c_served c = None ->
  c_request c = Replicate (ReplicationCoordinator.replicate_request key v) ->
  VersionedValue.deleted v = false ->
  Forall (fun ev => forall io, ev <> Serve i j io) es -> sys_run sys es = sys' -> reachable sys' ->
  s_nodes sys' !! c_target c = Some nd ->
  exists nd', s_nodes (sys_step sys' (Serve i j WriteOk)) !! c_target c = Some nd'
    /\ StorageEngine.get_raw (engine nd') key = Some v
    /\ s_writes (sys_step sys' (Serve i j WriteOk)) = s_writes sys' ++ [(c_target c, (key, v))].
Proof.
  intros Hc Hst Hs Hr Hlive Hes Hrun Hreach Hnd.
  destruct (sys_run_unserved sys es i j op c Hc Hst Hs Hes) as (op' & [a req srv rep] & Hc' & Ht & Hr' & Hs').
  rewrite Hrun in Hc'. cbn in Ht, Hr', Hs'. subst a srv. rewrite Hr in Hr'. subst req.
  destruct (reachable_ok _ Hreach) as (n & Hn & Hok).
  destruct (sys_lived _ _ _ _ Hok Hn Hnd) as [Hl Hlt].
  destruct (call_request_ok _ _ _ _ _ _ Hok Hc') as [_ (k2 & v2 & Heq & Hk & Hv & Hlive2)].
  apply replicate_request_inj in Heq as [-> ->]; [|done..].
  destruct (engine_put_wrote (c_target c) _ _ nd k2 v2 Hl Hlt Hk Hv) as (nd' & Hp & Hw & Hnote).
  exists nd'. cbn [sys_step]. unfold serve. rewrite Hc', Hnd.
  assert (handle (clock_at sys' (c_target c)) WriteOk nd
    (Replicate (ReplicationCoordinator.replicate_request k2 v2))
    = (nd', inl (Replicated (proto.ReplicateResponse.Mk true)))) as ->.
  { cbn [handle]. unfold InternalServiceImpl.replicate, ReplicationCoordinator.replicate_request.
    cbn [proto.ReplicateRequest.value proto.ReplicateRequest.is_delete proto.ReplicateRequest.key option_map].
    change (value_from_proto (to_proto_versioned v2)) with (from_proto_versioned (to_proto_versioned v2)).
    by rewrite value_roundtrip, undeleted_id, Hp. }
  cbn [written]. cbn -[noted]. rewrite lookup_insert_eq. split; [done|].
  change (proto.ReplicateRequest.key (ReplicationCoordinator.replicate_request k2 v2)) with k2.
  rewrite Hnote. split; [|done].
  unfold noted in Hnote. destruct (StorageEngine.get_raw (engine nd') k2); [|done]. by injection Hnote as ->.
Qed.
End Late.

(** ** The properties at a concrete system *)

Section Witnesses.
Import Toy.
#[local] Existing Instance prefix_targets.

(** The client asks for one acknowledgement; the calls to the other two replicas time
    out before the requests arrive. *)
Definition put_first : list event :=
  [Begin "h1:1" (ClientPut (proto.PutRequest.Mk "key" [Byte.x61] 0 1 None)); Proceed 0 WriteOk].
(** A second later it stores another value, which all three replicas acknowledge. *)
Definition put_second : list event :=
  [Expire 0 0; Expire 0 1; Finish 0;
   Tick "h1:1" (at_ms + 3000); Tick "h2:1" (at_ms + 3000); Tick "h3:1" (at_ms + 3000);
   Begin "h1:1" (ClientPut (proto.PutRequest.Mk "key" [Byte.x62] 0 2 None)); Proceed 1 WriteOk;
   Serve 1 0 WriteOk; Answer 1 0; Serve 1 1 WriteOk; Answer 1 1; Finish 1].
(** Then the first requests arrive, the first node crashes, and a quorum of two is read. *)
Definition read_late : list event :=
  [Serve 0 0 WriteOk; Serve 0 1 WriteOk; Crash "h1:1";
   Begin "h2:1" (ClientGet (proto.GetRequest.Mk "key" 2)); Proceed 2 WriteOk;
   Serve 2 0 WriteOk; Answer 2 0; Drop 2 0; Serve 2 1 WriteOk; Answer 2 1; Drop 2 1; Finish 2].

Definition sys_sent_1 : system := sys_run no_system (boot ++ put_first).
Definition es_2 : list event := (boot ++ put_first) ++ put_second.
Definition sys_2 : system := sys_run no_system es_2.

Lemma reachable_2 : reachable sys_2.
Proof.
  exists es_2. split; [|split; [vm_compute; reflexivity|unfold sys_2; reflexivity]].
  apply run_okb_ok. vm_compute. reflexivity.
Qed.

Lemma executed_2 : executed sys_2.
Proof. exists es_2. unfold sys_2. reflexivity. Qed.

(** What the client of operation [i] was told. *)
Definition told (sys : system) (i : nat) : option client_reply :=
  op ← s_ops sys !! i; match o_stage op with Finished _ r => Some r | _ => None end.

(** Two acknowledged writes of one client, one after the other; then the older one is
    read by a quorum that overlaps every write quorum of two. *)
Example acknowledged_put_is_undone :
  told sys_2 1 = Some (PutReply (inl (proto.PutResponse.Mk true (Some (proto.VectorClock.Mk {["a" := 1%N]})))))
  /\ told (sys_run sys_2 read_late) 2
     = Some (GetReply (inl (proto.GetResponse.Mk true [Byte.x61] (Some (proto.VectorClock.Mk {["a" := 1%N]}))))).
Proof. split; vm_compute; reflexivity. Qed.

Definition put_op (i : nat) : operation :=
  default (Op "" (ReplicationCoordinator.new QuorumConfig.default_strong)
    (ClientGet (proto.GetRequest.Mk "" 0)) [] None Aborted []) (s_ops sys_2 !! i).


(** A get that is about to run, with two calls that nobody will answer. *)
Definition get_late : list event := [Begin "h1:1" (ClientGet (proto.GetRequest.Mk "key" 2))].
Definition sys_3 : system := sys_run sys_2 get_late.
Definition get_op : operation :=
  default (put_op 0) (s_ops sys_3 !! 2%nat).

Example operations_return_witness :
  exists op l r, s_ops (sys_run sys_3 (Proceed 2 WriteOk
      :: [Crash "h3:1"; Expire 2 0; Expire 2 1; Reap "h1:1"; Expire 2 2] ++ [Finish 2])) !! 2%nat = Some op
    /\ o_stage op = Finished l r.
Proof.
  apply (operations_return sys_3 2 get_op WriteOk
    [Crash "h3:1"; Expire 2 0; Expire 2 1; Reap "h1:1"; Expire 2 2]).
  - exists (es_2 ++ get_late). rewrite sys_run_app. unfold sys_3, sys_2. reflexivity.
  - vm_compute. reflexivity.
  - vm_compute. reflexivity.
  - apply (bool_decide_unpack _). vm_compute. exact I.
  - apply (bool_decide_unpack _). vm_compute. exact I.
  - assert (length (o_nodes get_op) = 3%nat) as -> by (vm_compute; reflexivity).
    intros [|[|[|j]]] Hj; [set_solver|set_solver|set_solver|lia].
Defined.

Example late_requests_overwrite_witness :
  exists nd v, s_nodes (sys_step sys_2 (Serve 0 0 WriteOk)) !! "h3:1" = Some nd
    /\ StorageEngine.get_raw (engine nd) "key" = Some v /\ VersionedValue.value v = [Byte.x61].
Proof.
  assert (exists op c v, call_of sys_sent_1 0 0 = Some (op, c) /\ o_stage op <> Begun
    /\ c_served c = None /\ c_target c = "h3:1"
    /\ c_request c = Replicate (ReplicationCoordinator.replicate_request "key" v)
    /\ VersionedValue.deleted v = false /\ VersionedValue.value v = [Byte.x61])
    as (op & c & v & Hc & Hst & Hs & Ht & Hr & Hlive & Hv).
  { eexists _, _, (ReplicationCoordinator.versioned_value at_ms
      (engine (default server_1 (s_nodes (sys_run no_system boot) !! "h1:1"))) "key" [Byte.x61] 0).
    split; [vm_compute; reflexivity|]. split; [vm_compute; discriminate|].
    split; [reflexivity|]. split; [reflexivity|]. split; [vm_compute; reflexivity|].
    split; vm_compute; reflexivity. }
  assert (is_Some (s_nodes sys_2 !! "h3:1")) as [nd Hnd] by decided.
  destruct (late_requests_overwrite sys_sent_1 put_second sys_2 0 0 op c "key" v nd Hc Hst Hs Hr Hlive)
    as (nd' & Hn' & Hg & _).
  - repeat (constructor; [discriminate|]). constructor.
  - unfold sys_sent_1, sys_2, es_2. symmetry. apply sys_run_app.
  - exact reachable_2.
  - rewrite Ht. exact Hnd.
  - exists nd', v. rewrite Ht in Hn'. split; [exact Hn'|]. split; [exact Hg|exact Hv].
Defined.
End Witnesses.
