(* ===== verification/SystemSim.v ===== *)
(** The running system (System.v) and the two models that look at a part of it: its
    gossip is the network of GossipNet.v, and an operation whose calls are served one
    after the other, undisturbed, is the atomic operation of Cluster.v. *)

From S2P Require Import Prelude Bytes BTreeMap VectorClock Memtable Externals Wal Snapshot.
From S2P Require Import Engine EngineDurability EngineRace ConsistentHash Quorum Proto Coordinator.
From S2P Require Import SocketAddr Detector Service Cluster Server GossipNet System SystemOps.
Open Scope Z_scope.

(** ** Gossip *)

Section Gossip.
Context `{Crc32, Sha256, Json WalEntry.t, Bincode table, Rng}.

(** The membership events of an event. *)
Definition gossip_events (sys : system) (ev : event) : list net_event :=
  match ev with
  | Launch args => [Start args (fun _ => clock_at sys (Args.advertise args))]
  | GossipRound a => if s_nodes sys !! a is Some _ then [Round a] else []
  | GossipDeliver i =>
    match s_sent sys !! i with
    | Some (target, _) =>
      if s_nodes sys !! target is Some _ then [Deliver i (fun _ => clock_at sys target)] else []
    | None => []
    end
  | CheckPeers a => if s_nodes sys !! a is Some _ then [Check a (clock_at sys a)] else []
  | _ => []
  end.

Fixpoint gossip_history (sys : system) (es : list event) : list net_event :=
  match es with
  | [] => []
  | ev :: es => gossip_events sys ev ++ gossip_history (sys_step sys ev) es
  end.

(** The network has the same messages and the gossip service of every running node. *)
Record same_gossip (sys : system) (net : gossip_net) : Prop := SameGossip {
  sg_sent : sent net = s_sent sys;
  sg_services : forall a nd, s_nodes sys !! a = Some nd -> services net !! a = Some (gossip_service nd)
}.

Lemma engine_put_gossip io nd k v :
  gossip_service (InternalServiceImpl.engine_put io nd k v).1 = gossip_service nd.
Proof. unfold InternalServiceImpl.engine_put. by destruct (StorageEngine.put _ _ _ _ _) as [[e d] x]. Qed.

Lemma engine_delete_gossip now io nd k :
  gossip_service (InternalServiceImpl.engine_delete now io nd k).1 = gossip_service nd.
Proof. unfold InternalServiceImpl.engine_delete. by destruct (StorageEngine.delete _ _ _ _ _) as [[e d] x]. Qed.

Lemma handle_same_gossip now io nd r : gossip_service (handle now io nd r).1 = gossip_service nd.
Proof.
  destruct r as [r|r|r]; cbn [handle]; [| |done].
  - unfold InternalServiceImpl.replicate. destruct (option_map _ _) as [v|]; [|done].
    destruct (proto.ReplicateRequest.is_delete r).
    + pose proof (engine_delete_gossip now io nd (proto.ReplicateRequest.key r)) as Hd.
      by destruct (InternalServiceImpl.engine_delete _ _ _ _) as [nd' []].
    + pose proof (engine_put_gossip io nd (proto.ReplicateRequest.key r) v) as Hp.
      by destruct (InternalServiceImpl.engine_put _ _ _ _) as [nd' []].
  - unfold InternalServiceImpl.delete_internal.
    pose proof (engine_delete_gossip now io nd (proto.DeleteInternalRequest.key r)) as Hd.
    by destruct (InternalServiceImpl.engine_delete _ _ _ _) as [nd' []].
Qed.

Lemma bulk_same_gossip now io nd b : gossip_service (bulk_iteration now io nd b).1 = gossip_service nd.
Proof.
  unfold bulk_iteration. destruct b as [h|kv]; cbn.
  - destruct (proto.HintedWrite.value h) as [v|]; [|done]. destruct (proto.HintedWrite.is_delete h).
    + pose proof (engine_delete_gossip now io nd (proto.HintedWrite.key h)) as Hd.
      by destruct (InternalServiceImpl.engine_delete _ _ _ _) as [nd' x].
    + pose proof (engine_put_gossip io nd (proto.HintedWrite.key h) (value_from_proto v)) as Hp.
      by destruct (InternalServiceImpl.engine_put _ _ _ _) as [nd' x].
  - match goal with |- context [InternalServiceImpl.engine_put io nd ?k ?v] =>
      pose proof (engine_put_gossip io nd k v) as Hp;
      by destruct (InternalServiceImpl.engine_put io nd k v) as [nd' x] end.
Qed.

Lemma proceed_same_gossip now io nd op :
  gossip_service (proceed_op now io nd op).1.1 = gossip_service nd.
Proof.
  unfold proceed_op. destruct (o_request op); [destruct (o_value op); [|done]| |done].
  - by destruct (ReplicationCoordinator.put_begin _ _ _ _ _ _) as [[e d] c].
  - by destruct (ReplicationCoordinator.delete_begin _ _ _ _ _ _) as [[e d] c].
Qed.

(** Steps that keep the messages and the gossip service of the node they touch. *)
Lemma same_gossip_node sys sys' net a nd nd' :
  same_gossip sys net -> s_sent sys' = s_sent sys -> s_nodes sys' = <[a := nd']> (s_nodes sys) ->
  s_nodes sys !! a = Some nd -> gossip_service nd' = gossip_service nd -> same_gossip sys' net.
Proof.
  intros [Hs Hn] Hs' Hn' Ha Hg. split; [by rewrite Hs'|]. intros b ndb. rewrite Hn'.
  intros [[<- <-]|[_ Hb]]%lookup_insert_Some; [rewrite Hg; by apply Hn|by apply Hn].
Qed.

Lemma same_gossip_nodes sys sys' net :
  same_gossip sys net -> s_sent sys' = s_sent sys -> s_nodes sys' = s_nodes sys -> same_gossip sys' net.
Proof. intros [Hs Hn] Hs' Hn'. split; [by rewrite Hs'|by rewrite Hn']. Qed.

(** Steps of the gossip service of one node. *)
Lemma same_gossip_service sys sys' net a nd g :
  same_gossip sys net -> s_sent sys' = s_sent sys ->
  s_nodes sys' = <[a := set_gossip nd g]> (s_nodes sys) -> same_gossip sys' (set_service net a g).
Proof.
  intros [Hs Hn] Hs' Hn'. split; [by rewrite Hs'|]. intros b ndb. rewrite Hn'. cbn.
  intros [[<- <-]|[Hne Hb]]%lookup_insert_Some; [by rewrite lookup_insert_eq|].
  rewrite lookup_insert_ne by done. by apply Hn.
Qed.

Lemma launch_gossip sys args net :
  same_gossip sys net -> same_gossip (launch sys args)
    (net_step net (Start args (fun _ => clock_at sys (Args.advertise args)))).
Proof.
  intros [Hs Hn]. unfold launch, main, start.
  destruct (StorageEngine.open _ _) as [d [e|err]]; [destruct (parse_socket_addr _) as [addr|]|];
    (split; [done|]); intros a nd; cbn [s_nodes set_node stop net_step services set_service].
  - intros [[<- <-]|[Hne [_ Ha]%lookup_delete_Some]]%lookup_insert_Some;
      [by rewrite lookup_insert_eq|].
    rewrite lookup_insert_ne by done. by apply Hn.
  - intros [Hne Ha]%lookup_delete_Some. rewrite lookup_insert_ne by done. by apply Hn.
  - intros [Hne Ha]%lookup_delete_Some. rewrite lookup_insert_ne by done. by apply Hn.
Qed.

Lemma local_gossip sys net a f :
  same_gossip sys net -> (forall t nd, gossip_service (f t nd) = gossip_service nd) ->
  same_gossip (local_step sys a f) net.
Proof.
  intros Hsg Hf. unfold local_step. destruct (s_nodes sys !! a) as [nd|] eqn:Ha; [|done].
  by eapply same_gossip_node.
Qed.

Lemma step_gossip sys ev net :
  same_gossip sys net -> same_gossip (sys_step sys ev) (net_run net (gossip_events sys ev)).
Proof.
  intros Hsg. pose proof Hsg as [Hs Hn].
  destruct ev as [a t|args|a|a r|i io|i j io|i j|i j|i j|i|a b io|a woken|a|a|i|a];
    cbn [sys_step gossip_events net_run foldl].
  - by eapply same_gossip_nodes.
  - by apply launch_gossip.
  - destruct (s_nodes sys !! a) as [nd|]; [|done]. split; [done|].
    intros b ndb. cbn. intros [_ Hb]%lookup_delete_Some. by apply Hn.
  - destruct (s_nodes sys !! a) as [nd|]; [|done]. by eapply same_gossip_nodes.
  - unfold proceed. destruct (s_ops sys !! i) as [op|]; [|done]. destruct (o_stage op); try done.
    destruct (s_nodes sys !! o_address op) as [nd|] eqn:Ha; [|done].
    pose proof (proceed_same_gossip (clock_at sys (o_address op)) io nd op) as Hg.
    destruct (proceed_op _ _ _ _) as [[nd' op'] key]. by eapply same_gossip_node.
  - unfold serve. destruct (call_of sys i j) as [[op [a req [srv|] rep]]|]; [done| |done].
    destruct (s_nodes sys !! a) as [nd|] eqn:Ha; [|done].
    pose proof (handle_same_gossip (clock_at sys a) io nd req) as Hg.
    destruct (handle _ _ _ _) as [nd' x]. by eapply same_gossip_node.
  - unfold resolve. repeat case_match; try done; by eapply same_gossip_nodes.
  - unfold resolve. repeat case_match; try done; by eapply same_gossip_nodes.
  - unfold resolve. repeat case_match; try done; by eapply same_gossip_nodes.
  - unfold finish. repeat case_match; try done; by eapply same_gossip_nodes.
  - unfold bulk. destruct (s_nodes sys !! a) as [nd|] eqn:Ha; [|done].
    pose proof (bulk_same_gossip (clock_at sys a) io nd b) as Hg.
    destruct (bulk_iteration _ _ _ _) as [nd' accepted]. by eapply same_gossip_node.
  - apply local_gossip; [done|]. intros t nd. unfold flush_node. by destruct (StorageEngine.flush_task _ _ _ _).
  - by apply local_gossip.
  - unfold gossip_round_at. destruct (s_nodes sys !! a) as [nd|] eqn:Ha; [|done].
    cbn [foldl net_step]. rewrite (Hn a nd Ha).
    destruct (GossipService.gossip_round (gossip_service nd)) as [g m].
    destruct (same_gossip_service sys (set_node sys a (set_gossip nd g)) net a nd g Hsg) as [Hs' Hn']; [done..|].
    split; [cbn; by rewrite Hs|exact Hn'].
  - unfold gossip_deliver, local_step. destruct (s_sent sys !! i) as [[target msg]|] eqn:Hi; [|done].
    destruct (s_nodes sys !! target) as [nd|] eqn:Ha; [|done].
    cbn [foldl net_step]. rewrite Hs, Hi, (Hn target nd Ha). by eapply same_gossip_service.
  - unfold local_step. destruct (s_nodes sys !! a) as [nd|] eqn:Ha; [|done].
    cbn [foldl net_step]. rewrite (Hn a nd Ha). by eapply same_gossip_service.
Qed.

Lemma run_gossip sys es net :
  same_gossip sys net -> same_gossip (sys_run sys es) (net_run net (gossip_history sys es)).
Proof.
  revert sys net. induction es as [|ev es IH]; intros sys net Hsg; [done|]. cbn [gossip_history].
  unfold net_run. rewrite foldl_app. apply IH. by apply step_gossip.
Qed.

(** Well-formed events have well-formed membership events. *)
Lemma gossip_history_ok sys es :
  run_ok sys es -> Forall GossipNet.event_ok (gossip_history sys es).
Proof.
  revert sys. induction es as [|ev es IH]; intros sys; [done|]. intros [Hev Hes].
  cbn [gossip_history]. apply Forall_app. split; [|by apply IH].
  destruct ev; cbn; try done; repeat case_match; try done; try (apply Forall_singleton; cbn; done).
  apply Forall_singleton. cbn. apply Hev.
Qed.
End Gossip.

(** ** The calls of one operation, undisturbed *)

Section Atomic.
Context `{Crc32, Sha256, Json WalEntry.t, Bincode table, Rng}.
Variables (i : nat) (dl : Node.t -> delivery) (io : Node.t -> write_outcome).

(** The events of call [j], to the node [n], when the network does [dl n] with it. *)
Definition call_events (up : bool) (j : nat) (n : Node.t) : list event :=
  match dl n with
  | LostRequest => [Expire i j]
  | Delivered => [Serve i j (io n); Answer i j; Drop i j]
  | LostReply => if up then [Serve i j (io n); Expire i j] else [Drop i j]
  end.

Definition is_up (sys : system) (n : Node.t) : bool :=
  bool_decide (is_Some (s_nodes sys !! Node.address n)).

(** The calls of the operation from the [j]-th on, one after the other. *)
Fixpoint calls_events (sys : system) (j : nat) (ns : list Node.t) : list event :=
  match ns with
  | [] => []
  | n :: ns => call_events (is_up sys n) j n ++ calls_events sys (S j) ns
  end.

Definition link_of (sys : system) (n : Node.t) : link :=
  Link (dl n) (clock_at sys (Node.address n)) (io n).
Lemma insert_middle {A} (l1 l2 : list A) x y : <[length l1 := y]> (l1 ++ x :: l2) = l1 ++ y :: l2.
Proof. rewrite insert_app_r_alt, Nat.sub_diag; [done|lia]. Qed.

(** The operation is at its call [c], with [before] and [after] around it. *)
Definition at_call (sys : system) (op : operation) (before : list call) (c : call)
    (after : list call) : Prop :=
  s_ops sys !! i = Some op /\ o_calls op = before ++ c :: after.

Lemma at_call_of sys op before c after :
  at_call sys op before c after -> call_of sys i (length before) = Some (op, c).
Proof. intros [Hi Hc]. unfold call_of. rewrite Hi. cbn. by rewrite Hc, list_lookup_middle. Qed.

(** The operation with the call [c'] in the middle, in an otherwise given system. *)
Definition moved (sys sys' : system) (nodes : gmap string node) (op : operation)
    (before : list call) (c' : call) (after : list call) : Prop :=
  s_clocks sys' = s_clocks sys /\ s_nodes sys' = nodes
  /\ at_call sys' (set_stage op (o_stage op) (before ++ c' :: after)) before c' after.

Lemma set_call_moved sys sys1 op before c c' after :
  at_call sys op before c after -> s_ops sys1 = s_ops sys -> s_clocks sys1 = s_clocks sys ->
  moved sys (set_call sys1 i (length before) op c') (s_nodes sys1) op before c' after.
Proof.
  intros [Hi Hc] Ho Hck. split; [done|]. split; [done|]. split; cbn; [|done].
  rewrite Hc, insert_middle, Ho. apply list_lookup_insert_eq. by apply lookup_lt_Some in Hi.
Qed.

Lemma resolve_moved sys op before after tgt req srv f x :
  at_call sys op before (Call tgt req srv None) after -> f (Call tgt req srv None) = Some x ->
  moved sys (resolve sys i (length before) f) (s_nodes sys) op before (Call tgt req srv (Some x)) after.
Proof.
  intros Hat Hf. unfold resolve. rewrite (at_call_of _ _ _ _ _ Hat), Hf. by eapply set_call_moved.
Qed.

Lemma resolve_done sys op before after tgt req srv f x :
  at_call sys op before (Call tgt req srv (Some x)) after -> resolve sys i (length before) f = sys.
Proof. intros Hat. unfold resolve. by rewrite (at_call_of _ _ _ _ _ Hat). Qed.

Lemma serve_moved sys op before after tgt req w nd :
  at_call sys op before (Call tgt req None None) after -> s_nodes sys !! tgt = Some nd ->
  let '(nd', x) := handle (clock_at sys tgt) w nd req in
  moved sys (serve sys i (length before) w) (<[tgt := nd']> (s_nodes sys)) op before
    (Call tgt req (Some x) None) after.
Proof.
  intros Hat Hnd. unfold serve. rewrite (at_call_of _ _ _ _ _ Hat), Hnd.
  destruct (handle (clock_at sys tgt) w nd req) as [nd' x].
  by apply (set_call_moved sys (set_node sys tgt nd') op before (Call tgt req None None)).
Qed.

(** A kind of call: its request, its handler, and the form of its replies. *)
Context {B : Type} (req : request) (wrap : B -> response) (unwrapped : response -> option B).
Context (handler : Z -> write_outcome -> node -> node * (B + status)).
Hypothesis unwrapped_wrap : forall x, unwrapped (wrap x) = Some x.
Hypothesis handle_request : forall now w nd,
  handle now w nd req = (let '(nd', x) := handler now w nd in (nd', sum_map wrap id x)).

(** The call of Cluster.v, over the same link. *)
Definition atomic_call (sys : system) (n : Node.t) (cl : cluster) : cluster * rpc_result B :=
  call_node (link_of sys n) cl (Node.address n) (handler (clock_at sys (Node.address n)) (io n)).

(** The events of one call do what the atomic call does. *)
Lemma one_call sys op before after n :
  at_call sys op before (new_call req n) after ->
  let '(cl', reply) := atomic_call sys n (s_nodes sys) in
  exists c x, moved sys (sys_run sys (call_events (is_up sys n) (length before) n)) cl' op before c after
    /\ c_reply c = Some x /\ rpc_map unwrapped x = reply.
Proof.
  unfold new_call. intros Hat. unfold atomic_call, call_node, call_events, is_up.
  cbn [l_delivery l_now l_io link_of].
  destruct (dl n) eqn:Ed; [..|destruct (s_nodes sys !! Node.address n) as [nd|] eqn:Hnd].
  2: { eexists _, _. split; [by apply resolve_moved|done]. }
  - destruct (s_nodes sys !! Node.address n) as [nd|] eqn:Hnd.
    + pose proof (serve_moved sys op before after _ _ (io n) nd Hat Hnd) as Hs. rewrite handle_request in Hs.
      destruct (handler _ _ nd) as [nd' y].
      unfold sys_run. cbn [foldl sys_step]. destruct Hs as (Hck & Hn & Hat1).
      destruct (resolve_moved _ _ _ _ _ _ _ answer_of
        (rpc_reply Delivered (sum_map wrap id y)) Hat1 eq_refl) as (Hck2 & Hn2 & Hat2).
      rewrite (resolve_done _ _ _ _ _ _ _ _ _ Hat2). eexists _, _.
      split; [split; [by rewrite Hck2|split; [by rewrite Hn2|exact Hat2]]|].
      split; [reflexivity|]. destruct y; cbn; [by rewrite unwrapped_wrap|done].
    + assert (serve sys i (length before) (io n) = sys) as Hs
        by (unfold serve; by rewrite (at_call_of _ _ _ _ _ Hat), Hnd).
      unfold sys_run. cbn [foldl sys_step]. rewrite Hs.
      assert (forall f, f (Call (Node.address n) req None None) = None -> resolve sys i (length before) f = sys) as Hr
        by (intros f Hf; unfold resolve; by rewrite (at_call_of _ _ _ _ _ Hat), Hf).
      rewrite Hr by done. eexists _, _. split; [by apply resolve_moved|done].
  - pose proof (serve_moved sys op before after _ _ (io n) nd Hat Hnd) as Hs. rewrite handle_request in Hs.
    destruct (handler _ _ nd) as [nd' y].
    unfold sys_run. cbn [foldl sys_step bool_decide]. destruct Hs as (Hck & Hn & Hat1).
    rewrite bool_decide_true by by eexists. cbn [foldl sys_step].
    destruct (resolve_moved _ _ _ _ _ _ _ (fun _ => Some RpcTimedOut) RpcTimedOut Hat1 eq_refl)
      as (Hck2 & Hn2 & Hat2).
    eexists _, _. split; [split; [by rewrite Hck2|split; [by rewrite Hn2|exact Hat2]]|done].
  - rewrite bool_decide_false by (intros [? ?]; done). eexists _, _. split; [by apply resolve_moved|done].
Qed.

Lemma calls_events_ext sys sys' j ns :
  (forall n, is_up sys' n = is_up sys n) -> calls_events sys' j ns = calls_events sys j ns.
Proof. intros Hup. revert j. induction ns as [|n ns IH]; intros j; cbn; [done|]. by rewrite Hup, IH. Qed.

Lemma foldl_same {A C} (f g : A -> C -> A) (l : list C) a :
  (forall a x, f a x = g a x) -> foldl f a l = foldl g a l.
Proof. intros Hfg. revert a. induction l as [|x l IH]; intros a; cbn; [done|]. by rewrite Hfg, IH. Qed.

Lemma atomic_call_clocks sys sys' n cl :
  s_clocks sys' = s_clocks sys -> atomic_call sys' n cl = atomic_call sys n cl.
Proof. intros Hck. unfold atomic_call, link_of, clock_at. by rewrite Hck. Qed.

(** All calls of an operation, one after the other, are [call_all]. *)
Lemma all_calls ns sys op before rs :
  s_ops sys !! i = Some op -> o_calls op = before ++ (new_call req <$> ns) ->
  exists (cs : list call) (replies : list (rpc_result response)),
    let sys' := sys_run sys (calls_events sys (length before) ns) in
    foldl (call_step (atomic_call sys)) (s_nodes sys, rs) ns
      = (s_nodes sys', rs ++ (rpc_map unwrapped <$> replies))
    /\ s_clocks sys' = s_clocks sys
    /\ s_ops sys' !! i = Some (set_stage op (o_stage op) (before ++ cs))
    /\ c_reply <$> cs = Some <$> replies.
Proof.
  revert sys op before rs. induction ns as [|n ns IH]; intros sys op before rs Hi Hc.
  { exists [], []. cbn. rewrite app_nil_r. split_and!; try done. rewrite Hi. f_equal.
    cbn in Hc. rewrite <-Hc. by destruct op. }
  pose proof (one_call sys op before _ n (conj Hi Hc)) as Hone.
  pose proof (fun addr => call_node_dom (link_of sys n) (handler (clock_at sys (Node.address n)) (io n))
    (s_nodes sys) (Node.address n) addr) as Hdom.
  fold (atomic_call sys n (s_nodes sys)) in Hdom.
  cbn [foldl]. unfold call_step at 2.
  destruct (atomic_call sys n (s_nodes sys)) as [cl' reply].
  destruct Hone as (c & x & (Hck & Hn & Hi1 & Hc1) & Hx & Hreply). cbn [fst] in Hdom.
  set (sys1 := sys_run sys (call_events (is_up sys n) (length before) n)) in *.
  destruct (IH sys1 _ (before ++ [c]) (rs ++ [reply]) Hi1) as (cs & replies & Hf & Hck' & Hi' & Hrep).
  { rewrite Hc1. by rewrite <-app_assoc. }
  assert (forall m, is_up sys1 m = is_up sys m) as Hup.
  { intros m. unfold is_up. rewrite Hn. apply bool_decide_ext, Hdom. }
  rewrite length_app, Nat.add_1_r, (calls_events_ext sys sys1) in * by done.
  exists (c :: cs), (x :: replies). cbn [calls_events]. rewrite sys_run_app. fold sys1.
  split_and!.
  - rewrite <-Hn. etrans; [|etrans; [exact Hf|]].
    + apply foldl_same. intros [cl rs'] m. unfold call_step. by rewrite (atomic_call_clocks sys sys1).
    + rewrite <-app_assoc. cbn. by rewrite Hreply.
  - by rewrite Hck'.
  - rewrite Hi'. by rewrite <-app_assoc.
  - cbn. by rewrite Hx, Hrep.
Qed.

Lemma replies_all (cs : list call) (replies : list (rpc_result response)) :
  c_reply <$> cs = Some <$> replies -> mapM c_reply cs = Some replies.
Proof.
  intros Hrep. apply mapM_Some. revert replies Hrep.
  induction cs as [|c cs IH]; intros [|x replies]; try done. intros [= ? ?]. constructor; auto.
Qed.

(** A whole operation: its local half leaves [nd1], its calls those of [call_all], and
    its reply is computed from theirs. *)
Lemma whole_operation sys a nd r io0 nd1 op1 key ns l reply :
  s_nodes sys !! a = Some nd -> i = length (s_ops sys) ->
  proceed_op (clock_at sys a) io0 nd (begin_op (clock_at sys a) a nd r) = (nd1, op1, key) ->
  o_address op1 = a -> o_stage op1 = Waiting l -> o_calls op1 = new_call req <$> ns ->
  let '(cl, replies) := call_all (atomic_call sys) (<[a := nd1]> (s_nodes sys)) ns in
  (forall raw, rpc_map unwrapped <$> raw = replies -> finish_op (clock_at sys a) op1 l raw = Some reply) ->
  let sys' := sys_run sys ([Begin a r; Proceed i io0] ++ calls_events sys 0 ns ++ [Finish i]) in
  s_nodes sys' = cl /\ exists op l', s_ops sys' !! i = Some op /\ o_stage op = Finished l' reply.
Proof.
  intros Ha Hlen Hp Hadr Hst Hc. unfold call_all. rewrite !sys_run_app.
  set (sys1 := sys_run sys [Begin a r; Proceed i io0]).
  assert (s_ops sys1 !! i = Some op1 /\ s_nodes sys1 = <[a := nd1]> (s_nodes sys)
    /\ s_clocks sys1 = s_clocks sys) as (Hi & Hn & Hck).
  { unfold sys1, sys_run. cbn [foldl sys_step]. rewrite Ha. unfold proceed. cbn [s_ops].
    rewrite Hlen, list_lookup_middle by done. cbn [begin_op o_stage o_address s_nodes]. rewrite Ha.
    change (clock_at (System _ _ _ _ _ _ _) a) with (clock_at sys a).
    rewrite Hp. split; [|done].
    cbn. apply list_lookup_insert_eq. rewrite length_app. cbn. lia. }
  destruct (all_calls ns sys1 op1 [] [] Hi Hc) as (cs & replies & Hf & Hck' & Hi' & Hrep).
  assert (calls_events sys1 0 ns = calls_events sys 0 ns) as Hev.
  { apply calls_events_ext. intros n. unfold is_up. rewrite Hn. apply bool_decide_ext.
    rewrite lookup_insert_is_Some'. split; [intros [<-|?]; [by eexists|done]|by right]. }
  cbn [length app] in *. rewrite Hev in *. set (sys2 := sys_run sys1 _) in *.
  assert (foldl (call_step (atomic_call sys)) (<[a := nd1]> (s_nodes sys), []) ns
    = (s_nodes sys2, rpc_map unwrapped <$> replies)) as ->.
  { rewrite <-Hn. etrans; [|exact Hf]. apply foldl_same. intros [cl rs'] m. unfold call_step.
    by rewrite (atomic_call_clocks sys sys1). }
  intros Hreply. specialize (Hreply replies eq_refl).
  unfold sys_run. cbn [foldl sys_step]. unfold finish. rewrite Hi'. cbn [app set_stage o_stage o_calls].
  rewrite Hst, (replies_all cs replies Hrep). cbn [set_stage o_address]. rewrite Hadr.
  assert (clock_at sys2 a = clock_at sys a) as -> by (unfold clock_at; by rewrite Hck', Hck).
  change (finish_op (clock_at sys a) (set_stage op1 (Waiting l) cs) l replies)
    with (finish_op (clock_at sys a) op1 l replies). rewrite Hreply.
  split; [done|]. eexists _, _.
  split; [cbn; apply list_lookup_insert_eq; by apply lookup_lt_Some in Hi'|done].
Qed.
End Atomic.

Section Properties.
Context `{Crc32, Sha256, Json WalEntry.t, Bincode table, Rng}.

(** C40: the membership of the running system is the gossip network on its own: client
    requests, replication, flushes and crashes never touch it, so every node of a
    running system has the peers and the ring, and every message is one, that the
    network reaches by the system's membership events alone; in particular nodes
    know no address of the peers they have heard of. *)
Theorem system_refines_gossip_net es sys :
  run_ok no_system es -> sys_run no_system es = sys ->
  let net := net_run no_net (gossip_history no_system es) in
  same_gossip sys net /\ net_ok net
  /\ forall a nd k p, s_nodes sys !! a = Some nd ->
       GossipService.peers (gossip_service nd) !! k = Some p ->
       peer_version p = (0, 0) \/ PeerState.address p = "".
Proof.
  intros Hes <-. cbn zeta.
  assert (same_gossip (sys_run no_system es) (net_run no_net (gossip_history no_system es))) as Hsg.
  { apply run_gossip. split; [done|]. intros a nd. cbn. by intros ?%lookup_empty_Some. }
  assert (net_ok (net_run no_net (gossip_history no_system es))) as Hok
    by (apply net_run_ok; [by apply gossip_history_ok|apply no_net_ok]).
  split_and!; [done|done|]. intros a nd k p Ha Hp.
  destruct (net_services _ Hok a (gossip_service nd)) as [_ _ _ Hnews]; [by apply Hsg|].
  destruct (Hnews k p Hp) as [?|[? _]]; auto.
Qed.
End Properties.

(** The items of a bulk request, taken one after the other. *)
Definition items {A} (a : string) (item : A -> bulk_write) (outcomes : nat -> write_outcome) (l : list A) : list event :=
  imap (fun j x => Bulk a (item x) (outcomes j)) l.

Definition envs (sys : system) (a : string) (outcomes : nat -> write_outcome) (j : nat) : InternalServiceImpl.write_env :=
  InternalServiceImpl.Env (clock_at sys a) (outcomes j).

Section Bulk.
Context `{Crc32, Sha256, Json WalEntry.t, Bincode table, Rng} {A : Type}.
Variables (item : A -> bulk_write) (step : node * Z -> InternalServiceImpl.write_env * A -> node * Z).
Hypothesis item_step : forall now w nd x, (bulk_iteration now w nd (item x)).1
  = (step (nd, 0) (InternalServiceImpl.Env now w, x)).1.
Hypothesis step_count : forall nd n p, (step (nd, n) p).1 = (step (nd, 0) p).1.

Lemma bulk_step_nodes sys a w nd x :
  s_nodes sys !! a = Some nd ->
  let sys' := sys_step sys (Bulk a (item x) w) in
  s_nodes sys' = <[a := (step (nd, 0) (InternalServiceImpl.Env (clock_at sys a) w, x)).1]> (s_nodes sys)
  /\ s_clocks sys' = s_clocks sys.
Proof.
  intros Ha. cbn [sys_step]. unfold bulk. rewrite Ha, <-item_step.
  by destruct (bulk_iteration _ _ _ _) as [nd' accepted].
Qed.

Lemma bulk_run l sys a outcomes nd n :
  s_nodes sys !! a = Some nd ->
  s_nodes (sys_run sys (items a item outcomes l))
  = <[a := (foldl step (nd, n) (imap (fun j x => (envs sys a outcomes j, x)) l)).1]> (s_nodes sys).
Proof.
  revert sys outcomes nd n. induction l as [|x l IH]; intros sys outcomes nd n Ha.
  { symmetry. by apply insert_id. }
  destruct (bulk_step_nodes sys a (outcomes O) nd x Ha) as [Hn Hck].
  set (sys1 := sys_step sys (Bulk a (item x) (outcomes O))) in *.
  change (sys_run sys (items a item outcomes (x :: l)))
    with (sys_run sys1 (items a item (outcomes ∘ S) l)).
  rewrite imap_cons. cbn [foldl]. pose proof (step_count nd n (envs sys a outcomes 0, x)) as Hstep.
  change (InternalServiceImpl.Env (clock_at sys a) (outcomes O)) with (envs sys a outcomes 0) in Hn.
  rewrite <-Hstep in Hn. destruct (step (nd, n) (envs sys a outcomes 0, x)) as [nd' n']. cbn [fst] in Hn.
  rewrite (IH sys1 (outcomes ∘ S) nd' n'), Hn, insert_insert_eq
    by (rewrite Hn; apply lookup_insert_eq).
  do 3 f_equal. apply imap_ext. intros j y _. unfold envs, clock_at. by rewrite Hck.
Qed.
End Bulk.

(** The three operations, each with its local half, its calls and its reply. *)
Section Undisturbed.
Context `{Crc32, Sha256, Json WalEntry.t, Bincode table, Rng}.
Variables (sys : system) (a : string) (nd : node) (io : write_outcome).
Variables (dl : Node.t -> delivery) (ios : Node.t -> write_outcome) (outcomes : nat -> write_outcome).

(** The nodes a request is replicated to. *)
Definition targets (r : client_request) : list Node.t :=
  ReplicationCoordinator.peers (ring_of nd) (ReplicationCoordinator.node_id (engine nd)) (request_key r).

(** The request is made, its local half runs, its calls are made one after the other,
    and the reply is computed, with no other event in between. *)
Definition undisturbed (r : client_request) : system :=
  sys_run sys ([Begin a r; Proceed (length (s_ops sys)) io]
    ++ calls_events (length (s_ops sys)) dl ios sys 0 (targets r) ++ [Finish (length (s_ops sys))]).

Definition returned (sys' : system) (reply : client_reply) : Prop :=
  exists op l, s_ops sys' !! length (s_ops sys) = Some op /\ o_stage op = Finished l reply.

Hypothesis node_at : s_nodes sys !! a = Some nd.

Lemma undisturbed_put req :
  let '(cl, reply) := cluster_put (link_of dl ios sys) (clock_at sys a) io (s_nodes sys) a nd req in
  s_nodes (undisturbed (ClientPut req)) = cl /\ returned (undisturbed (ClientPut req)) (PutReply reply).
Proof.
  unfold cluster_put. set (v := ReplicationCoordinator.versioned_value _ _ _ _ _).
  destruct (ReplicationCoordinator.put_begin (ring_of nd) io (engine nd) (store nd) _ v)
    as [[e d] counts] eqn:Eb.
  set (r := ReplicationCoordinator.replicate_request _ v).
  pose proof (fun nd1 op1 key l reply => whole_operation _ dl ios (Replicate r) Replicated as_replicated
    (fun now w nd => InternalServiceImpl.replicate now w nd r) (fun _ => eq_refl) (fun _ _ _ => eq_refl)
    sys a nd (ClientPut req) io nd1 op1 key (targets (ClientPut req)) l reply node_at eq_refl) as Hw.
  unfold proceed_op in Hw. cbn [o_request o_value begin_op request_key] in Hw. fold v in Hw.
  rewrite Eb in Hw. specialize (Hw _ _ _ _ (PutReply (KvServiceImpl.put_reply
    (ReplicationCoordinator.put_finish (coordinator nd) (proto.PutRequest.write_quorum req) v counts
      (replicate_all (link_of dl ios sys) r (<[a := set_engine nd e d]> (s_nodes sys))
        (targets (ClientPut req))).2)))
    eq_refl eq_refl eq_refl eq_refl).
  change (call_all _ _ _) with (replicate_all (link_of dl ios sys) r
    (<[a := set_engine nd e d]> (s_nodes sys)) (targets (ClientPut req))) in Hw.
  change (ReplicationCoordinator.peers _ _ _) with (targets (ClientPut req)).
  destruct (replicate_all _ _ _ _) as [cl replies]. apply Hw. by intros raw <-.
Qed.

Lemma undisturbed_delete req :
  let '(cl, reply) := cluster_delete (link_of dl ios sys) (clock_at sys a) io (s_nodes sys) a nd req in
  s_nodes (undisturbed (ClientDelete req)) = cl
  /\ returned (undisturbed (ClientDelete req)) (DeleteReply reply).
Proof.
  unfold cluster_delete.
  destruct (ReplicationCoordinator.delete_begin (ring_of nd) (clock_at sys a) io (engine nd) (store nd)
    (proto.DeleteRequest.key req)) as [[e d] counts] eqn:Eb.
  set (r := ReplicationCoordinator.delete_request e _).
  pose proof (fun nd1 op1 key l reply => whole_operation _ dl ios (DeleteInternal r) DeletedInternal as_deleted
    (fun now w nd => InternalServiceImpl.delete_internal now w nd r) (fun _ => eq_refl) (fun _ _ _ => eq_refl)
    sys a nd (ClientDelete req) io nd1 op1 key (targets (ClientDelete req)) l reply node_at eq_refl) as Hw.
  unfold proceed_op in Hw. cbn [o_request o_value begin_op request_key] in Hw. rewrite Eb in Hw.
  specialize (Hw _ _ _ _ (DeleteReply (inl (proto.DeleteResponse.Mk (QuorumResult.is_success
    (ReplicationCoordinator.delete_finish (coordinator nd) (proto.DeleteRequest.write_quorum req) counts
      (delete_all (link_of dl ios sys) r (<[a := set_engine nd e d]> (s_nodes sys))
        (targets (ClientDelete req))).2)))))
    eq_refl eq_refl eq_refl eq_refl).
  change (call_all _ _ _) with (delete_all (link_of dl ios sys) r
    (<[a := set_engine nd e d]> (s_nodes sys)) (targets (ClientDelete req))) in Hw.
  change (ReplicationCoordinator.peers _ _ _) with (targets (ClientDelete req)).
  destruct (delete_all _ _ _ _) as [cl replies]. apply Hw. by intros raw <-.
Qed.

(** The calls of a get leave the nodes alone. *)
Lemma get_calls key (cl : cluster) (ns : list Node.t) :
  call_all (atomic_call dl ios (fun _ _ nd =>
      (nd, InternalServiceImpl.get_internal nd (ReplicationCoordinator.get_request key))) sys) cl ns
  = (cl, (fun n => call_get_internal (link_of dl ios sys n) cl (Node.address n)
            (ReplicationCoordinator.get_request key)) <$> ns).
Proof.
  unfold call_all. rewrite <-(app_nil_l (_ <$> ns)). generalize (@nil (rpc_result proto.GetInternalResponse.t)).
  induction ns as [|n ns IH]; intros rs; cbn [foldl fmap list_fmap]; [by rewrite app_nil_r|].
  unfold call_step at 2, atomic_call, call_node. unfold call_get_internal at 1.
  destruct (l_delivery _), (cl !! Node.address n) as [nd'|] eqn:Hn;
    rewrite ?(insert_id cl) by done; rewrite IH, <-app_assoc; done.
Qed.

Lemma undisturbed_get req :
  s_nodes (undisturbed (ClientGet req)) = s_nodes sys
  /\ returned (undisturbed (ClientGet req))
       (GetReply (cluster_get (link_of dl ios sys) (fun _ => clock_at sys a) (s_nodes sys) nd req)).
Proof.
  pose proof (fun nd1 op1 key l reply => whole_operation _ dl ios
    (GetInternal (ReplicationCoordinator.get_request (proto.GetRequest.key req))) GotInternal as_got
    (fun _ _ nd => (nd, InternalServiceImpl.get_internal nd
       (ReplicationCoordinator.get_request (proto.GetRequest.key req))))
    (fun _ => eq_refl) (fun _ _ _ => eq_refl)
    sys a nd (ClientGet req) io nd1 op1 key (targets (ClientGet req)) l reply node_at eq_refl) as Hw.
  specialize (Hw _ _ _ _
    (GetReply (cluster_get (link_of dl ios sys) (fun _ => clock_at sys a) (s_nodes sys) nd req))
    eq_refl eq_refl eq_refl eq_refl).
  rewrite get_calls, insert_id in Hw by done. apply Hw. intros raw Hraw. cbn. rewrite Hraw. reflexivity.
Qed.

Lemma handoff_run req :
  s_nodes (sys_run sys (items a Hint outcomes (proto.HandoffRequest.hints req)))
  = <[a := (InternalServiceImpl.hinted_handoff (envs sys a outcomes) nd req).1]> (s_nodes sys).
Proof.
  rewrite (bulk_run Hint InternalServiceImpl.handoff_step) with (nd := nd) (n := 0); [| |  |done].
  - unfold InternalServiceImpl.hinted_handoff. by destruct (foldl _ _ _).
  - intros now w nd' h. unfold bulk_iteration. by destruct (InternalServiceImpl.handoff_step _ _).
  - intros nd' n [env h]. cbn. destruct (proto.HintedWrite.value h); [|done].
    by destruct (if proto.HintedWrite.is_delete h then _ else _).
Qed.

Lemma transfer_run req :
  s_nodes (sys_run sys (items a Pair outcomes (proto.TransferRequest.pairs req)))
  = <[a := (InternalServiceImpl.transfer_keys (envs sys a outcomes) nd req).1]> (s_nodes sys).
Proof.
  rewrite (bulk_run Pair InternalServiceImpl.transfer_step) with (nd := nd) (n := 0); [| |  |done].
  - unfold InternalServiceImpl.transfer_keys. by destruct (foldl _ _ _).
  - intros now w nd' kv. unfold bulk_iteration. by destruct (InternalServiceImpl.transfer_step _ _).
  - intros nd' n [env kv]. cbn. by destruct (InternalServiceImpl.engine_put _ _ _ _).
Qed.

End Undisturbed.

(** ** The properties at a concrete system *)

Section Witnesses.
Import Toy.
#[local] Existing Instance prefix_targets.

(** The node at ["h2:1"] learned of ["a"] without its address. *)
Definition gossip_es : list event := boot ++ [GossipRound "h1:1"; GossipDeliver 0; GossipDeliver 1].
Definition gossip_sys : system := sys_run no_system gossip_es.

Lemma gossip_run_ok : run_ok no_system gossip_es.
Proof. apply run_okb_ok. vm_compute. reflexivity. Qed.

Example system_refines_gossip_net_witness :
  exists nd p, s_nodes gossip_sys !! "h2:1" = Some nd
    /\ GossipService.peers (gossip_service nd) !! "a" = Some p
    /\ (peer_version p = (0, 0) \/ PeerState.address p = "").
Proof.
  destruct (system_refines_gossip_net gossip_es gossip_sys gossip_run_ok) as (_ & _ & Hnews);
    [unfold gossip_sys; reflexivity|].
  assert (exists nd p, s_nodes gossip_sys !! "h2:1" = Some nd
    /\ GossipService.peers (gossip_service nd) !! "a" = Some p) as (nd & p & Hn & Hp).
  { eexists _, _. split; vm_compute; reflexivity. }
  exists nd, p. split; [exact Hn|]. split; [exact Hp|]. exact (Hnews _ nd _ p Hn Hp).
Defined.

Definition booted : system := sys_run no_system boot.
Definition node_a : node := default server_1 (s_nodes booted !! "h1:1").

(** The request to ["b"] is lost on its way back. *)
Definition lossy (n : Node.t) : delivery := if bool_decide (Node.id n = "b") then LostReply else Delivered.

(** A value and a deletion that were kept for the node. *)
Definition handoff_1 : proto.HandoffRequest.t :=
  proto.HandoffRequest.Mk "a"
    [proto.HintedWrite.Mk "key" (Some (value_to_proto value_a)) false;
     proto.HintedWrite.Mk "old" (Some (value_to_proto value_a)) true].

End Witnesses.
