(* ===== verification/SystemReads.v ===== *)
(** Where the values that clients read come from: in the running system (System.v)
    nothing is served that no client asked to store. The invariant follows the values
    through tables, logs, snapshots, requests, replies and resolution. *)

From S2P Require Import Prelude Bytes BTreeMap VectorClock Memtable Externals Wal Snapshot.
From S2P Require Import Engine EngineDurability EngineRace ConsistentHash Quorum Proto Coordinator.
From S2P Require Import SocketAddr Detector Service Cluster Server GossipNet System SystemOps.
Open Scope Z_scope.

(** ** One engine *)

Section EngineSources.
Import StorageEngine.
Context `{Crc32, !Crc32Laws, Json WalEntry.t, !JsonLaws WalEntry.t entry_wf}.
Context `{Bincode table, !BincodeLaws table data_wf}.
Context (P : string -> VersionedValue.t -> Prop).

(** Everything in the table, and everything that a recovery would bring back, is [P]. *)
Definition only (e : t) (d : disk) : Prop :=
  map_Forall P (MemTable.data (memtable e)) /\ forall r, recovered d = Ok r -> map_Forall P r.

Lemma put_only now e d k v e' d' :
  durable now e d -> str_wf k -> value_wf v -> log_open e -> put WriteOk e d k v = (e', d', Ok tt) ->
  only e d -> P k v -> only e' d'.
Proof.
  intros Hd Hk Hv Hn. unfold put.
  destruct (log_append_durable now e d k v) as (w' & f' & -> & _ & _ & _ & _ & Hrec); [done..|].
  intros [= <- <-] [Hm Hr] HP. destruct (dur_recovered _ _ _ Hd) as (r & Hr0 & _). split.
  - rewrite (proj1 (table_put_parts _ _ _)), put_data. by apply map_Forall_insert_2.
  - intros r'. rewrite (Hrec r Hr0). intros [= <-]. apply map_Forall_insert_2; [done|by apply Hr].
Qed.

Lemma delete_only now t0 e d k e' d' v :
  durable now e d -> str_wf k -> log_open e -> delete t0 WriteOk e d k = (e', d', Ok tt) ->
  MemTable.data (memtable e') !! k = Some v ->
  only e d -> P k v -> only e' d'.
Proof.
  intros Hd Hk Hn. unfold delete. set (tomb := VersionedValue.tombstone _ _ _).
  destruct (log_append_durable now e d k tomb) as (w' & f' & -> & _ & _ & _ & _ & Hrec); [done|done| |done|].
  { apply tombstone_wf, clock_of_wf; apply Hd. }
  intros [= <- <-]. cbn. rewrite lookup_insert_eq. intros [= <-].
  intros [Hm Hr] HP. destruct (dur_recovered _ _ _ Hd) as (r & Hr0 & _). split.
  - cbn. by apply map_Forall_insert_2.
  - intros r'. rewrite (Hrec r Hr0). intros [= <-]. apply map_Forall_insert_2; [done|by apply Hr].
Qed.

Lemma flush_only now e d e' d' : durable now e d -> flush now e d = (e', d', Ok tt) -> only e d -> only e' d'.
Proof.
  intros Hd Hf [Hm Hr]. revert Hf. unfold flush, MemTable.snapshot.
  case_bool_decide as Hempty; [by intros [= <- <-]|].
  destruct (flush_crash_points now e d Hd) as (d1 & -> & _ & _ & _ & Hpts).
  pose proof (proj1 (truncate_clean (wal e) (file_of d) (dur_clean _ _ _ Hd))) as Ht.
  unfold flush_truncate in *. destruct (WriteAheadLog.truncate (wal e)) as [w' f']. cbn in Ht. subst f'.
  destruct Hpts as (_ & _ & Hrec). intros [= <- <-]. split; [done|].
  unfold flush_cleanup in Hrec. cbn [snap_dir] in Hrec. intros r. rewrite Hrec. by intros [= <-].
Qed.

Lemma reap_only at_ e d : only e d -> only (reap_task at_ e) d.
Proof.
  intros [Hm Hr]. split; [|done]. intros k v Hk. cbn in Hk. apply lookup_retain in Hk as [Hk _].
  by apply Hm.
Qed.

Lemma open_only now cfg e d e' d' :
  durable now e d -> open cfg d = (d', Ok e') -> only e d -> only e' d'.
Proof.
  intros Hd Ho [Hm Hr]. pose proof (open_recovers cfg d) as Hrec.
  destruct (dur_recovered _ _ _ Hd) as (r & Hr0 & _). rewrite Hr0 in Hrec.
  destruct Hrec as (e2 & Ho2 & Hm2 & _). rewrite Ho in Ho2. injection Ho2 as -> ->. split.
  - rewrite Hm2. by apply Hr.
  - intros r'. destruct (dur_file _ _ _ Hd) as [f Hf].
    assert (Disk (Some (file_of d)) (snap_dir d) = d) as ->; [|by apply Hr].
    destruct d as [wf sd]; cbn in *; by subst.
Qed.

Lemma step_only o w w' :
  engine_step o w w' -> durable_world w -> only (w_engine w) (w_disk w) ->
  (forall k v, o = Some (k, v) -> P k v) -> only (w_engine w') (w_disk w').
Proof.
  intros Hst Hd Ho HP. unfold durable_world in Hd.
  destruct Hst as [t0 t1 e d k v e' d' ? ? ? ? ? Hop
    |t0 now t1 e d k bytes ttl e' d' v ? ? ? ? ? Hop Hv
    |t0 now t1 e d k e' d' v ? ? ? ? Hop Hv
    |t0 now t1 e d woken e' d' ? ? Hop
    |t0 t1 e d at_ ? ? Hat
    |t0 t1 e d cfg d' e' ? ? ? ? Hop]; cbn [w_time w_engine w_disk] in *.
  - eapply put_only; [done..|]. by apply HP.
  - unfold put_raw in Hop.
    match type of Hop with put _ _ _ _ ?v0 = _ => assert (value_wf v0) as Hv0
      by (apply versioned_wf; try apply Hd; done);
      destruct (put_durable t0 e d k v0) as (e2 & d2 & Hop2 & _ & Hm); [done..|] end.
    rewrite Hop in Hop2. injection Hop2 as <- <-. rewrite Hm, lookup_insert_eq in Hv. injection Hv as <-.
    eapply put_only; [exact Hd|done|exact Hv0|done|exact Hop|done|]. by apply HP.
  - eapply delete_only; [done..|]. by apply HP.
  - set (e0 := if woken then Engine (memtable e) (wal e) (config e) false else e) in *.
    assert (durable now e d) as Hd1
      by (eapply durable_mono; [eapply clock_ok_between; [apply Hd|eassumption|done]| |done]; lia).
    assert (durable now e0 d /\ only e0 d) as [Hd0 Ho0] by (unfold e0; by destruct woken; destruct Hd1).
    unfold flush_task in Hop. fold e0 in Hop.
    destruct (flush_durable now e0 d Hd0) as (e2 & d2 & Hop2 & _). rewrite Hop2 in Hop.
    injection Hop as <- <-. by eapply flush_only.
  - by apply reap_only.
  - by eapply open_only.
Qed.

Lemma history_only l w w' :
  history l w w' -> durable_world w -> only (w_engine w) (w_disk w) ->
  Forall (fun p => P p.1 p.2) l -> only (w_engine w') (w_disk w').
Proof.
  intros Hh Hw Ho. induction Hh as [w|l o w1 w2 w3 Hh IH Hst]; [done|].
  rewrite Forall_app. intros [Hl Ho']. destruct (history_sound _ _ _ Hh Hw) as [Hd _].
  eapply step_only; [exact Hst|done|by apply IH|]. intros k v ->. cbn in Ho'.
  exact (Forall_inv Ho').
Qed.

(** An engine that made the writes [l] since its machine was new. *)
Lemma lived_only l t e d : lived l t e d -> Forall (fun p => P p.1 p.2) l -> only e d.
Proof.
  intros (w0 & t' & Hw & [Hc Hr] & _ & Hh & _) Hl.
  apply (history_only l w0 (World t' e d)); [done|done| |done]. split.
  - unfold contents in Hc. rewrite Hc. apply map_Forall_empty.
  - intros r. rewrite Hr. intros [= <-]. apply map_Forall_empty.
Qed.
End EngineSources.

(** ** The whole system *)

(** Whoever asks for writes: a client of the key-value service, or the sender of a bulk
    request to the internal service. *)
Inductive source :=
| FromClient (r : client_request)
| FromBulk (b : bulk_write).

(** What was asked so far. *)
Definition requests (sys : system) : list source :=
  ((fun op => FromClient (o_request op)) <$> s_ops sys) ++ (FromBulk <$> s_bulk sys).

(** The source asks to store [bs] for the key, or, if there are no bytes, to delete it. *)
Definition asks_for (x : source) (key : string) (bs : list byte) : Prop :=
  match x with
  | FromClient (ClientPut req) => proto.PutRequest.key req = key /\ proto.PutRequest.value req = bs
  | FromClient (ClientDelete req) => proto.DeleteRequest.key req = key /\ bs = []
  | FromClient (ClientGet _) => False
  | FromBulk (Hint h) =>
    proto.HintedWrite.key h = key
    /\ if proto.HintedWrite.is_delete h then bs = []
       else proto.VersionedValue.value <$> proto.HintedWrite.value h = Some bs
  | FromBulk (Pair kv) => proto.KeyValue.key kv = key /\ proto.KeyValue.value kv = bs
  end.

Definition asked (rs : list source) (key : string) (bs : list byte) : Prop :=
  exists x, x ∈ rs /\ asks_for x key bs.

Section Sources.
Context `{Crc32, !Crc32Laws, Sha256, Json WalEntry.t, !JsonLaws WalEntry.t entry_wf}.
Context `{Bincode table, !BincodeLaws table data_wf, Rng}.
Implicit Types (sys : system) (nd : node) (op : operation) (rs : list source) (c : call).

(** A call carries what a client asked for, and the handler of a read found such a value. *)
Record call_sourced rs c : Prop := CallSourced {
  cs_request : match c_request c with
    | Replicate r => exists key v, r = ReplicationCoordinator.replicate_request key v
        /\ VersionedValue.deleted v = false /\ asked rs key (VersionedValue.value v)
    | DeleteInternal r => asked rs (proto.DeleteInternalRequest.key r) []
    | GetInternal _ => True
    end;
  cs_served : forall r x v, c_request c = GetInternal r -> c_served c = Some (inl (GotInternal x)) ->
    proto.GetInternalResponse.value x = Some v ->
    asked rs (proto.GetInternalRequest.key r) (proto.VersionedValue.value v)
}.

Record op_sourced rs op : Prop := OpSourced {
  os_calls : Forall (call_sourced rs) (o_calls op);
  os_value : forall v, o_value op = Some v -> VersionedValue.deleted v = false
    /\ asked rs (request_key (o_request op)) (VersionedValue.value v);
  os_get : forall req, o_request op = ClientGet req -> Forall (fun c =>
    c_request c = GetInternal (ReplicationCoordinator.get_request (proto.GetRequest.key req))) (o_calls op);
  os_local : forall responses n v, stage_local (o_stage op) = Some (Read (responses, n)) ->
    Some v ∈ responses -> asked rs (request_key (o_request op)) (VersionedValue.value v);
  os_reply : forall l resp, o_stage op = Finished l (GetReply (inl resp)) ->
    proto.GetResponse.found resp = true ->
    asked rs (request_key (o_request op)) (proto.GetResponse.value resp)
}.

(** Every stored value, too. *)
Record sourced sys : Prop := Sourced {
  so_ops : Forall (op_sourced (requests sys)) (s_ops sys);
  so_writes : Forall (fun w => asked (requests sys) w.2.1 (VersionedValue.value w.2.2)) (s_writes sys)
}.

Lemma asked_mono rs rs' key bs : rs ⊆ rs' -> asked rs key bs -> asked rs' key bs.
Proof. intros Hs (x & ? & ?). exists x. auto. Qed.

Lemma call_sourced_mono rs rs' c : rs ⊆ rs' -> call_sourced rs c -> call_sourced rs' c.
Proof.
  intros Hs [Hr Hsv]. split; [|intros; by eapply asked_mono, Hsv].
  destruct (c_request c); [|by eapply asked_mono|done].
  destruct Hr as (key & v & ? & ? & ?). exists key, v. split_and!; [done..|by eapply asked_mono].
Qed.

Lemma op_sourced_mono rs rs' op : rs ⊆ rs' -> op_sourced rs op -> op_sourced rs' op.
Proof.
  intros Hs [Hc Hv Hg Hl Hr]. split; [|intros v ?|done|intros; by eapply asked_mono, Hl
    |intros; by eapply asked_mono, Hr].
  - eapply Forall_impl; [exact Hc|]. intros c. by apply call_sourced_mono.
  - destruct (Hv v) as [? ?]; [done|]. split; [done|by eapply asked_mono].
Qed.

(** Steps that change one operation, but not its request, and store some values. *)
Lemma sourced_insert sys sys' i op op' w :
  sourced sys -> s_ops sys !! i = Some op -> o_request op' = o_request op ->
  s_ops sys' = <[i := op']> (s_ops sys) -> s_bulk sys' = s_bulk sys ->
  s_writes sys' = s_writes sys ++ w ->
  op_sourced (requests sys) op' ->
  Forall (fun w => asked (requests sys) w.2.1 (VersionedValue.value w.2.2)) w -> sourced sys'.
Proof.
  intros [Ho Hw] Hi Hreq Hops Hb Hws Hop Hnew.
  assert (requests sys' = requests sys) as Hrs.
  { unfold requests. rewrite Hops, Hb, list_fmap_insert. f_equal. apply list_insert_id.
    by rewrite list_lookup_fmap, Hi, Hreq. }
  split; rewrite Hrs; [rewrite Hops; by apply Forall_insert|rewrite Hws; by apply Forall_app].
Qed.

Lemma sourced_same sys sys' :
  sourced sys -> s_ops sys' = s_ops sys -> s_bulk sys' = s_bulk sys -> s_writes sys' = s_writes sys ->
  sourced sys'.
Proof. intros [Ho Hw] Hops Hb Hws. split; unfold requests in *; by rewrite ?Hops, ?Hb, ?Hws. Qed.

Lemma sourced_op sys i op : sourced sys -> s_ops sys !! i = Some op -> op_sourced (requests sys) op.
Proof. intros [Ho _]. rewrite Forall_lookup in Ho. eauto. Qed.

Lemma request_in sys i op : s_ops sys !! i = Some op -> FromClient (o_request op) ∈ requests sys.
Proof.
  intros Hi. apply elem_of_app. left.
  by eapply (list_elem_of_fmap_2 (fun op => FromClient (o_request op))), list_elem_of_lookup_2.
Qed.

(** A running node holds what was asked for. *)
Lemma node_sourced n sys a nd k v :
  sys_ok n sys -> sourced sys -> s_nodes sys !! a = Some nd ->
  StorageEngine.get_raw (engine nd) k = Some v -> asked (requests sys) k (VersionedValue.value v).
Proof.
  intros Hok [_ Hw] Ha. rewrite get_raw_data.
  destruct (lived_only (fun k v => asked (requests sys) k (VersionedValue.value v)) _ _ _ _
    (mo_running _ _ (sys_machines _ _ Hok a) nd Ha)) as [Hm _]; [|apply Hm].
  unfold writes_to. apply Forall_fmap, Forall_forall. intros w [_ Hin]%list_elem_of_filter.
  rewrite Forall_forall in Hw. by apply Hw.
Qed.

(** The note of a write is the value the key has afterwards. *)
Lemma noted_sourced rs a k nd :
  (forall v, StorageEngine.get_raw (engine nd) k = Some v -> asked rs k (VersionedValue.value v)) ->
  Forall (fun w => asked rs w.2.1 (VersionedValue.value w.2.2)) (noted a k nd).
Proof.
  intros Hv. unfold noted. destruct (StorageEngine.get_raw (engine nd) k) as [v|]; [|done].
  by apply Forall_singleton, Hv.
Qed.

(** *** The local half of an operation *)

Lemma new_calls_sourced rs r (ns : list Node.t) :
  match r with
  | Replicate r => exists key v, r = ReplicationCoordinator.replicate_request key v
      /\ VersionedValue.deleted v = false /\ asked rs key (VersionedValue.value v)
  | DeleteInternal r => asked rs (proto.DeleteInternalRequest.key r) []
  | GetInternal _ => True
  end -> Forall (call_sourced rs) (new_call r <$> ns).
Proof. intros Hr. apply Forall_fmap, Forall_forall. intros n _. by split. Qed.

(** What a local write leaves under the key. *)
Lemma put_begin_stores ring io e d key v :
  let '(e', _, counts) := ReplicationCoordinator.put_begin ring io e d key v in
  0 < counts.1 -> StorageEngine.get_raw e' key = Some v.
Proof.
  unfold ReplicationCoordinator.put_begin. destruct (HashRing.is_responsible ring _ key); [|done].
  pose proof (put_stored io e d key v) as Hst.
  destruct (StorageEngine.put io e d key v) as [[e' d'] [[]|err]]; cbn in *; [|done].
  intros _. rewrite get_raw_data, Hst by done. apply lookup_insert_eq.
Qed.

Lemma delete_begin_stores ring now io e d key :
  let '(e', _, counts) := ReplicationCoordinator.delete_begin ring now io e d key in
  0 < counts.1 -> StorageEngine.get_raw e' key = Some (tombstone_of now e key).
Proof.
  unfold ReplicationCoordinator.delete_begin. destruct (HashRing.is_responsible ring _ key); [|done].
  pose proof (delete_stored now io e d key) as Hst.
  destruct (StorageEngine.delete now io e d key) as [[e' d'] [[]|err]]; cbn in *; [|done].
  intros _. rewrite get_raw_data, Hst by done. apply lookup_insert_eq.
Qed.

Lemma get_begin_reads ring e key v :
  Some v ∈ (ReplicationCoordinator.get_begin ring e key).1 -> StorageEngine.get_raw e key = Some v.
Proof.
  unfold ReplicationCoordinator.get_begin. destruct (HashRing.is_responsible ring _ key); cbn.
  - intros Hv%list_elem_of_singleton. done.
  - by intros ?%elem_of_nil.
Qed.

Lemma proceed_sourced rs now io a nd op :
  op_sourced rs op -> FromClient (o_request op) ∈ rs -> o_stage op = Begun ->
  (forall k v, StorageEngine.get_raw (engine nd) k = Some v -> asked rs k (VersionedValue.value v)) ->
  let '(nd', op', key) := proceed_op now io nd op in
  o_request op' = o_request op /\ op_sourced rs op'
  /\ Forall (fun w => asked rs w.2.1 (VersionedValue.value w.2.2)) (from_option (fun k => noted a k nd') [] key).
Proof.
  intros Hop Hin Hst Hnd. unfold proceed_op. destruct (o_request op) as [req|req|req] eqn:Hreq.
  - destruct (o_value op) as [v|] eqn:Hv; [|by split_and!].
    destruct (os_value _ _ Hop v Hv) as [Hlive Hask]. rewrite Hreq in Hask. cbn [request_key] in Hask.
    pose proof (put_begin_stores (ring_of nd) io (engine nd) (store nd) (proto.PutRequest.key req) v) as Hb.
    destruct (ReplicationCoordinator.put_begin _ _ _ _ _ _) as [[e d] counts]. split_and!; [done| |].
    + split; cbn; [apply new_calls_sourced; by eexists _, _| |congruence|done|done].
      rewrite Hv, Hreq. by intros v' [= <-].
    + destruct (Z.ltb_spec 0 counts.1) as [Hpos|]; [|done]. cbn.
      apply noted_sourced. cbn. rewrite (Hb Hpos). by intros v' [= <-].
  - assert (asked rs (proto.DeleteRequest.key req) []) as Hask by (by exists (FromClient (ClientDelete req))).
    pose proof (delete_begin_stores (ring_of nd) now io (engine nd) (store nd) (proto.DeleteRequest.key req)) as Hb.
    destruct (ReplicationCoordinator.delete_begin _ _ _ _ _ _) as [[e d] counts]. split_and!; [done| |].
    + split; cbn; [by apply new_calls_sourced|apply Hop|congruence|done|done].
    + destruct (Z.ltb_spec 0 counts.1) as [Hpos|]; [|done]. cbn.
      apply noted_sourced. cbn. rewrite (Hb Hpos). by intros v' [= <-].
  - split_and!; [done| |done].
    split; cbn [set_stage o_calls o_value o_stage o_request stage_local];
      [by apply new_calls_sourced|apply Hop| | |done].
    + rewrite Hreq. intros req' [= <-]. apply Forall_fmap, Forall_forall. by intros n _.
    + rewrite Hreq. intros responses m v [= Hresp] Hv. apply Hnd.
 
      apply (get_begin_reads (ring_of nd)). cbn [request_key]. by rewrite Hresp.
Qed.

(** *** The handlers *)

Lemma handle_sourced rs now io a nd op c req rep :
  call_sourced rs c -> c_request c = req ->
  (forall k v, StorageEngine.get_raw (engine nd) k = Some v -> asked rs k (VersionedValue.value v)) ->
  let '(nd', x) := handle now io nd req in
  call_sourced rs (Call (c_target c) req (Some x) rep)
  /\ Forall (fun w => asked rs w.2.1 (VersionedValue.value w.2.2))
       (from_option (fun k => noted a k nd') [] (written req x)).
Proof.
  intros [Hr _] <- Hnd. destruct (c_request c) as [r|r|r] eqn:Hreq; cbn [handle].
  - destruct Hr as (key & v & -> & Hlive & Hask).
    pose proof (replicate_stores now io nd) as Hst.
    destruct (InternalServiceImpl.replicate now io nd _) as [nd' [resp|st]] eqn:E;
      (split; [split; cbn; [by exists key, v|congruence]|]); [|done].
    apply noted_sourced. intros v'. specialize (Hst nd' key v resp Hlive E). unfold stores in Hst.
    cbn [proto.ReplicateRequest.key ReplicationCoordinator.replicate_request]. rewrite Hst. by intros [= <-].
  - unfold InternalServiceImpl.delete_internal.
    pose proof (engine_delete_stored now io nd (proto.DeleteInternalRequest.key r)) as Hst.
    destruct (InternalServiceImpl.engine_delete now io nd _) as [nd' [[]|err]];
      (split; [split; cbn; [done|congruence]|]); [|done].
    apply noted_sourced. intros v'. rewrite get_raw_data, (Hst nd' eq_refl), lookup_insert_eq.
    by intros [= <-].
  - split; [|done]. split; cbn; [done|]. intros r' x v [= <-]. unfold InternalServiceImpl.get_internal.
    destruct (StorageEngine.get_raw (engine nd) _) as [val|] eqn:E; cbn; intros [= <-]; [|done].
    cbn. intros [= <-]. by apply Hnd.
Qed.

(** *** The reply of a read *)

Lemma foldl_responses_fst (l : list (option VersionedValue.t)) responses successes :
  (foldl (fun '(responses, successes) result => (responses ++ [result], wrap_u32 (successes + 1)))
     (responses, successes) l).1 = responses ++ l.
Proof.
  revert responses successes. induction l as [|r l IH]; intros responses successes; cbn [foldl].
  - by rewrite app_nil_r.
  - by rewrite IH, <-app_assoc.
Qed.

(** A read that is answered is told what its responses resolve to. *)
Lemma get_reply_resolves self at_ r local replies resp :
  KvServiceImpl.get_reply (ReplicationCoordinator.get_finish self at_ r local replies) = inl resp ->
  resp = match ReplicationCoordinator.resolve_conflicts at_
                 (local.1 ++ (ReplicationCoordinator.read_value <$> replies)) with
         | Some v => proto.GetResponse.Mk true (VersionedValue.value v)
                       (Some (vc_to_proto (VersionedValue.vector_clock v)))
         | None => proto.GetResponse.Mk false [] None
         end.
Proof.
  unfold KvServiceImpl.get_reply, ReplicationCoordinator.get_finish. destruct local as [responses0 successes0].
  rewrite <-(foldl_responses_fst _ _ successes0).
  destruct (foldl _ _ _) as [responses successes]. cbn [fst QuorumResult.value].
  destruct (negb _); [done|].
  destruct (ReplicationCoordinator.resolve_conflicts at_ responses); by intros [= <-].
Qed.

(** A read answers with one of the values it collected. *)
Lemma get_reply_value self at_ r local replies resp :
  KvServiceImpl.get_reply (ReplicationCoordinator.get_finish self at_ r local replies) = inl resp ->
  proto.GetResponse.found resp = true ->
  exists v, proto.GetResponse.value resp = VersionedValue.value v
    /\ (Some v ∈ local.1 \/ Some v ∈ ReplicationCoordinator.read_value <$> replies).
Proof.
  intros ->%get_reply_resolves.
  destruct (ReplicationCoordinator.resolve_conflicts at_ _) as [v|] eqn:E; [|done]. intros _.
  exists v. split; [done|]. by apply resolve_elem, elem_of_candidates in E as [?%elem_of_app _].
Qed.

(** *** Every event *)

(** A call is replaced by one with the same request; the stage stays. *)
Lemma set_call_sourced rs op j c c' :
  op_sourced rs op -> o_calls op !! j = Some c -> c_request c' = c_request c -> call_sourced rs c' ->
  op_sourced rs (set_stage op (o_stage op) (<[j := c']> (o_calls op))).
Proof.
  intros [Hc Hv Hg Hl Hr] Hj Hreq Hc'. split; cbn; [by apply Forall_insert|done| |done|done].
  intros req Hq. specialize (Hg req Hq). apply Forall_insert; [done|]. rewrite Hreq.
  rewrite Forall_lookup in Hg. by apply (Hg j).
Qed.

Lemma call_is_sourced sys i j op c :
  sourced sys -> call_of sys i j = Some (op, c) ->
  s_ops sys !! i = Some op /\ o_calls op !! j = Some c
  /\ op_sourced (requests sys) op /\ call_sourced (requests sys) c.
Proof.
  intros Hs [Hi Hj]%call_of_some. pose proof (sourced_op _ _ _ Hs Hi) as Hop. split_and!; [done..|].
  pose proof (os_calls _ _ Hop) as Hc. rewrite Forall_lookup in Hc. by apply (Hc j).
Qed.

Lemma resolve_sourced sys i j f : sourced sys -> sourced (resolve sys i j f).
Proof.
  intros Hs. unfold resolve.
  destruct (call_of sys i j) as [[op [tgt req srv [rep|]]]|] eqn:Hc; [done| |done].
  destruct (f _) as [rep|]; [|done]. destruct (call_is_sourced _ _ _ _ _ Hs Hc) as (Hi & Hj & Hop & Hcs).
  eapply (sourced_insert sys _ i op _ []); [done|done| |done|done|by rewrite app_nil_r| |done]; [done|].
  eapply set_call_sourced; [done|exact Hj|done|]. destruct Hcs as [Hr Hsv]. by split.
Qed.

Lemma serve_sourced n sys i j io : sys_ok n sys -> sourced sys -> sourced (serve sys i j io).
Proof.
  intros Hok Hs. unfold serve.
  destruct (call_of sys i j) as [[op [a req [srv|] rep]]|] eqn:Hc; [done| |done].
  destruct (s_nodes sys !! a) as [nd|] eqn:Ha; [|done].
  destruct (call_is_sourced _ _ _ _ _ Hs Hc) as (Hi & Hj & Hop & Hcs).
  pose proof (handle_sourced (requests sys) (clock_at sys a) io a nd op _ req rep Hcs eq_refl
    (fun k v => node_sourced n sys a nd k v Hok Hs Ha)) as Hh.
  destruct (handle (clock_at sys a) io nd req) as [nd' x]. destruct Hh as [Hc' Hw].
  eapply (sourced_insert sys _ i op); [done|done| |reflexivity|reflexivity|reflexivity| |exact Hw]; [done|].
  by eapply set_call_sourced.
Qed.

Lemma proceed_sys_sourced n sys i io : sys_ok n sys -> sourced sys -> sourced (proceed sys i io).
Proof.
  intros Hok Hs. unfold proceed. destruct (s_ops sys !! i) as [op|] eqn:Hi; [|done].
  destruct (o_stage op) eqn:Hst; try done.
  destruct (s_nodes sys !! o_address op) as [nd|] eqn:Ha; [|done].
  pose proof (proceed_sourced (requests sys) (clock_at sys (o_address op)) io (o_address op) nd op
    (sourced_op _ _ _ Hs Hi) (request_in _ _ _ Hi) Hst
    (fun k v => node_sourced n sys _ nd k v Hok Hs Ha)) as Hp.
  destruct (proceed_op _ _ _ _) as [[nd' op'] key]. destruct Hp as (Hreq & Hop & Hw).
  by eapply (sourced_insert sys _ i op); [done|done| |reflexivity|reflexivity|reflexivity| |exact Hw].
Qed.

(** The replies that a read collects. *)
Lemma replies_sourced sys op req (replies : list (rpc_result response)) v :
  op_true sys op -> op_sourced (requests sys) op -> o_request op = ClientGet req ->
  mapM c_reply (o_calls op) = Some replies ->
  Some v ∈ ReplicationCoordinator.read_value <$> (rpc_map as_got <$> replies) ->
  asked (requests sys) (proto.GetRequest.key req) (VersionedValue.value v).
Proof.
  intros Ht Hop Hreq Hm%mapM_replies Hv. rewrite <-list_fmap_compose in Hv.
  apply list_elem_of_fmap in Hv as (r & Hr & Hin). cbn in Hr.
  apply (elem_of_replies _ _ _ Hm) in Hin as (c & Hc & Hrep).
  pose proof (os_get _ _ Hop req Hreq) as Hg. pose proof (os_calls _ _ Hop) as Hcs.
  pose proof (ot_calls _ _ Ht) as Hct. rewrite Forall_forall in Hg, Hcs, Hct.
  destruct r as [[x|x|x]| |]; try done. cbn in Hr. destruct (proto.GetInternalResponse.found x); [|done].
  destruct (proto.GetInternalResponse.value x) as [p|] eqn:Ep; [|done]. injection Hr as ->.
  exact (cs_served _ _ (Hcs c Hc) _ x p (Hg c Hc) (ct_reply _ _ (Hct c Hc) _ Hrep) Ep).
Qed.

Lemma finish_sourced sys i : sys_true sys -> sourced sys -> sourced (finish sys i).
Proof.
  intros Ht Hs. unfold finish. destruct (s_ops sys !! i) as [op|] eqn:Hi; [|done].
  destruct (o_stage op) as [|l| |] eqn:Hst; try done.
  destruct (mapM c_reply (o_calls op)) as [replies|] eqn:Hm; [|done].
  destruct (finish_op _ op l replies) as [r|] eqn:Hf; [|done].
  pose proof (sourced_op _ _ _ Hs Hi) as Hop. pose proof (sys_true_op _ _ _ Ht Hi) as Hopt.
  eapply (sourced_insert sys _ i op _ []); [done|done| |done|done|by rewrite app_nil_r| |done]; [done|].
  pose proof Hop as [Hc Hv Hg Hl _]. rewrite Hst in Hl. split; cbn; try done.
  intros l' resp [= <- ->] Hfound. unfold finish_op in Hf.
  destruct (o_request op) as [req|req|req] eqn:Hreq; destruct l as [counts|local];
    try (destruct (o_value op); discriminate); [discriminate..|]. injection Hf as Hf.
  apply get_reply_value in Hf as (v & -> & Hin); [|done]. destruct local as [responses m].
  destruct Hin as [Hin|Hin]; [by apply (Hl responses m v)|]. by eapply replies_sourced.
Qed.

Lemma begin_sourced rs t a nd r : FromClient r ∈ rs -> op_sourced rs (begin_op t a nd r).
Proof.
  intros Hr. split; cbn; [done| |done|done|done].
  destruct r as [req|req|req]; [|done..]. intros v [= <-]. split; [done|]. by exists (FromClient (ClientPut req)).
Qed.

Lemma abort_sourced rs a op : op_sourced rs op -> op_sourced rs (abort a op).
Proof.
  intros Hop. unfold abort. case_bool_decide; [|done].
  assert (op_sourced rs (set_stage op Aborted (o_calls op))) as Ha by (destruct Hop; by split).
  by destruct (o_stage op).
Qed.

Lemma abort_request a op : o_request (abort a op) = o_request op.
Proof. unfold abort. case_bool_decide; [|done]. by destruct (o_stage op). Qed.

Lemma stop_sourced sys a d : sourced sys -> sourced (stop sys a d).
Proof.
  intros [Ho Hw].
  assert (requests (stop sys a d) = requests sys) as Hrs.
  { unfold requests. cbn. f_equal. rewrite <-list_fmap_compose. apply list_fmap_ext.
    intros i op _. cbn. by rewrite abort_request. }
  split; rewrite Hrs; [|done]. cbn. apply Forall_fmap. eapply Forall_impl; [exact Ho|].
  intros op. apply abort_sourced.
Qed.

(** Steps that add requests: what they add is asked for afterwards. *)
Lemma sourced_grows sys sys' ops w :
  sourced sys -> requests sys ⊆ requests sys' -> s_ops sys' = s_ops sys ++ ops ->
  s_writes sys' = s_writes sys ++ w -> Forall (op_sourced (requests sys')) ops ->
  Forall (fun w => asked (requests sys') w.2.1 (VersionedValue.value w.2.2)) w -> sourced sys'.
Proof.
  intros [Ho Hw] Hsub Hops Hws Hnew Hneww. split; [rewrite Hops|rewrite Hws]; apply Forall_app;
    (split; [|done]); eapply Forall_impl; [exact Ho| |exact Hw|].
  - intros op'. by apply op_sourced_mono.
  - intros w'. by apply asked_mono.
Qed.

Lemma begin_step_sourced sys a nd r : sourced sys -> s_nodes sys !! a = Some nd ->
  sourced (sys_step sys (Begin a r)).
Proof.
  intros Hs Ha. cbn [sys_step]. rewrite Ha. set (sys' := System _ _ _ _ _ _ _).
  apply (sourced_grows sys sys' [begin_op (clock_at sys a) a nd r] []); [done| |done|by rewrite app_nil_r| |done].
  - unfold requests. cbn. rewrite fmap_app. set_solver.
  - apply Forall_singleton, begin_sourced. unfold requests. cbn. rewrite fmap_app. set_solver.
Qed.

(** An accepted item of a bulk request is what the node stores. *)
Lemma bulk_sourced rs now io a nd b :
  FromBulk b ∈ rs ->
  let '(nd', accepted) := bulk_iteration now io nd b in
  Forall (fun w => asked rs w.2.1 (VersionedValue.value w.2.2))
    (if accepted then noted a (bulk_key b) nd' else []).
Proof.
  intros Hb. assert (forall bs, asks_for (FromBulk b) (bulk_key b) bs -> asked rs (bulk_key b) bs) as Hask
    by (intros bs Hbs; by exists (FromBulk b)).
  unfold bulk_iteration. destruct b as [h|kv]; cbn [bulk_key asks_for] in *; cbn.
  - destruct (proto.HintedWrite.value h) as [v|]; [|done].
    destruct (proto.HintedWrite.is_delete h).
    + pose proof (engine_delete_stored now io nd (proto.HintedWrite.key h)) as Hst.
      destruct (InternalServiceImpl.engine_delete _ _ _ _) as [nd' [[]|err]]; [|done].
      apply noted_sourced. intros w. rewrite get_raw_data, (Hst nd' eq_refl), lookup_insert_eq.
      intros [= <-]. by apply Hask.
    + pose proof (engine_put_stored io nd (proto.HintedWrite.key h) (value_from_proto v)) as Hst.
      destruct (InternalServiceImpl.engine_put _ _ _ _) as [nd' [[]|err]]; [|done].
      apply noted_sourced. intros w. rewrite get_raw_data, (Hst nd' eq_refl), lookup_insert_eq.
      intros [= <-]. by apply Hask.
  - match goal with |- context [InternalServiceImpl.engine_put io nd ?k ?v] =>
      pose proof (engine_put_stored io nd k v) as Hst end.
    destruct (InternalServiceImpl.engine_put _ _ _ _) as [nd' [[]|err]]; [|done].
    apply noted_sourced. intros w. rewrite get_raw_data, (Hst nd' eq_refl), lookup_insert_eq.
    intros [= <-]. by apply Hask.
Qed.

Lemma bulk_step_sourced sys a b io : sourced sys -> sourced (bulk sys a b io).
Proof.
  intros Hs. unfold bulk. destruct (s_nodes sys !! a) as [nd|]; [|done].
  pose proof (fun rs => bulk_sourced rs (clock_at sys a) io a nd b) as Hb.
  destruct (bulk_iteration _ _ _ _) as [nd' accepted].
  eapply (sourced_grows sys _ []); [done| |by rewrite app_nil_r|done|done|apply Hb];
    unfold requests; cbn; rewrite fmap_app; set_solver.
Qed.

Lemma sys_step_sourced n sys ev :
  sys_ok n sys -> sys_true sys -> sourced sys -> sourced (sys_step sys ev).
Proof.
  intros Hok Ht Hs.
  assert (forall a f, sourced (local_step sys a f)) as Hloc.
  { intros a f. unfold local_step. destruct (s_nodes sys !! a); [|done]. by apply (sourced_same sys). }
  destruct ev as [a t|args|a|a r|i io|i j io|i j|i j|i j|i|a b io|a woken|a|a|i|a]; cbn [sys_step].
  - by apply (sourced_same sys).
  - unfold launch. destruct (main _ _ _) as [d [[addr nd]|err]]; [|by apply stop_sourced].
    by apply (sourced_same (stop sys (Args.advertise args) d)); [apply stop_sourced|..].
  - destruct (s_nodes sys !! a) as [nd|]; [|done]. by apply stop_sourced.
  - destruct (s_nodes sys !! a) as [nd|] eqn:Ha; [|done].
    pose proof (begin_step_sourced sys a nd r Hs Ha) as Hb. cbn [sys_step] in Hb. by rewrite Ha in Hb.
  - by eapply proceed_sys_sourced.
  - by eapply serve_sourced.
  - by apply resolve_sourced.
  - by apply resolve_sourced.
  - by apply resolve_sourced.
  - by apply finish_sourced.
  - by apply bulk_step_sourced.
  - apply Hloc.
  - apply Hloc.
  - unfold gossip_round_at. destruct (s_nodes sys !! a) as [nd|]; [|done].
    destruct (GossipService.gossip_round _) as [g l]. by apply (sourced_same sys).
  - unfold gossip_deliver. destruct (s_sent sys !! i) as [[tgt msg]|]; [apply Hloc|done].
  - apply Hloc.
Qed.

Lemma sys_run_sourced n sys es :
  sys_ok n sys -> sys_true sys -> sourced sys -> run_ok sys es -> n + Z.of_nat (length es) < 2 ^ 64 ->
  sourced (sys_run sys es).
Proof.
  revert n sys. induction es as [|ev es IH]; intros n sys Hok Ht Hs; cbn [run_ok length sys_run foldl]; [done|].
  intros [Hev Hes] Hn. apply (IH (n + 1)); [|by apply sys_step_true|by eapply sys_step_sourced|done|lia].
  apply sys_step_ok; [done|done|lia].
Qed.

Lemma reachable_sourced sys : reachable sys -> sourced sys.
Proof.
  intros (es & Hes & Hn & <-). apply (sys_run_sourced 0); [apply no_system_ok|constructor| |done|lia].
  split; constructor.
Qed.

(** C8: no value out of thin air. Whatever crashes, restarts, late messages and
    concurrent requests a history has, what a client is told to be the value of a key is
    a value that a client or a bulk request asked to store under this key, or the empty
    value of a tombstone of the key, which one of them asked for; and the same holds for
    everything that a running node has in its table. *)
Theorem reads_return_client_writes sys :
  reachable sys ->
  (forall i op req l resp, s_ops sys !! i = Some op -> o_request op = ClientGet req ->
     o_stage op = Finished l (GetReply (inl resp)) -> proto.GetResponse.found resp = true ->
     asked (requests sys) (proto.GetRequest.key req) (proto.GetResponse.value resp))
  /\ (forall a nd k v, s_nodes sys !! a = Some nd -> StorageEngine.get_raw (engine nd) k = Some v ->
        asked (requests sys) k (VersionedValue.value v)).
Proof.
  intros Hr. pose proof (reachable_sourced _ Hr) as Hs. destruct (reachable_ok _ Hr) as (n & _ & Hok). split.
  - intros i op req l resp Hi Hreq Hst Hfound.
    pose proof (os_reply _ _ (sourced_op _ _ _ Hs Hi) l resp Hst Hfound) as Hask.
    by rewrite Hreq in Hask.
  - intros a nd k v. by apply (node_sourced n).
Qed.
End Sources.

(** ** The property at a concrete system *)

Section Witnesses.
Import Toy.

#[local] Instance leading_targets : Rng := fun amount l => take amount l.

(** Two clients put values under one key at the same time, of whose calls only one is
    served; the second coordinator crashes, is started again and asked by a third
    client. *)
Definition es_4 : list event :=
  boot ++
  [Begin "h1:1" (ClientPut (proto.PutRequest.Mk "key" [Byte.x61] 0 1 None)); Proceed 0 WriteOk;
   Begin "h2:1" (ClientPut (proto.PutRequest.Mk "key" [Byte.x62] 0 1 None)); Proceed 1 WriteOk;
   Serve 1 0 WriteOk; Crash "h2:1"; Launch args_b;
   Begin "h2:1" (ClientGet (proto.GetRequest.Mk "key" 1)); Proceed 2 WriteOk;
   Serve 2 0 WriteOk; Answer 2 0; Expire 2 1; Finish 2].
Definition sys_4 : system := sys_run no_system es_4.

Lemma reachable_4 : reachable sys_4.
Proof.
  exists es_4. split; [|split; [vm_compute; reflexivity|unfold sys_4; reflexivity]].
  apply run_okb_ok. vm_compute. reflexivity.
Qed.

Definition get_4 : operation :=
  default (Op "" (ReplicationCoordinator.new QuorumConfig.default_strong)
    (ClientGet (proto.GetRequest.Mk "" 0)) [] None Aborted []) (s_ops sys_4 !! 2%nat).

Example reads_return_client_writes_witness :
  exists l resp, o_stage get_4 = Finished l (GetReply (inl resp))
    /\ proto.GetResponse.value resp = [Byte.x62] /\ asked (requests sys_4) "key" [Byte.x62].
Proof.
  assert (exists l resp, o_stage get_4 = Finished l (GetReply (inl resp))
    /\ proto.GetResponse.found resp = true /\ proto.GetResponse.value resp = [Byte.x62])
    as (l & resp & Hst & Hf & Hv).
  { eexists _, _. split; [vm_compute; reflexivity|]. split; vm_compute; reflexivity. }
  exists l, resp. split; [exact Hst|]. split; [exact Hv|]. rewrite <-Hv.
  apply (proj1 (reads_return_client_writes sys_4 reachable_4) 2%nat get_4
    (proto.GetRequest.Mk "key" 1) l resp); [vm_compute; reflexivity|vm_compute; reflexivity|exact Hst|exact Hf].
Defined.
End Witnesses.
