(* ===== verification/SystemQuorum.v ===== *)
(** Quorum reads in the running system (System.v): once the replicas of an acknowledged
    put have settled on it, a get whose answers and the put's write quorum together
    outnumber the replicas sees it, whatever else the system does meanwhile; and a get
    finds a deleted key by the tombstones of an acknowledged delete. The atomic versions
    of this are in Cluster.v; here the get's calls are served one by one, at any time,
    between crashes, restarts, flushes, expiry and requests for other keys. *)

From S2P Require Import Prelude Bytes BTreeMap VectorClock Memtable Externals Wal Snapshot.
From S2P Require Import Engine EngineDurability EngineRace ConsistentHash Quorum Proto Coordinator.
From S2P Require Import SocketAddr Detector Service Cluster Server GossipNet System SystemSteps SystemOps.
From S2P Require Import SystemReads.
Open Scope Z_scope.

(** ** Specification *)

(** The writes of one key, oldest first, and the versions of its value. *)
Definition key_writes (sys : system) (key : string) : list (string * (string * VersionedValue.t)) :=
  filter (fun w => w.2.1 = key) (s_writes sys).
Definition versions (sys : system) (key : string) : list VersionedValue.t :=
  snd <$> (snd <$> key_writes sys key).

(** The addresses that a get has an answer of: its own, if the node read its own table,
    and those whose reply arrived. *)
Definition answered_by (c : call) : option string :=
  match c_reply c with Some (Replied (GotInternal _)) => Some (c_target c) | _ => None end.

Definition remote_answerers (op : operation) : list string := omap answered_by (o_calls op).

Definition answerers (op : operation) : list string :=
  match stage_local (o_stage op) with
  | Some (Read (_ :: _, _)) => [o_address op]
  | _ => []
  end ++ remote_answerers op.

(** A reply is what the handler returned. *)
Definition reply_served (c : call) : Prop := forall x, c_reply c = Some (Replied x) -> c_served c = Some (inl x).

(** The replicas that a coordinated operation involves. *)
Definition involved (op : operation) : list string := o_address op :: (c_target <$> o_calls op).

Section Spec.
Context `{Crc32, Sha256, Json WalEntry.t, Bincode table, Rng}.

(** One system leads to the other, in one history. *)
Definition continues (sys sys' : system) : Prop :=
  exists es es', run_ok no_system (es ++ es') /\ Z.of_nat (length (es ++ es')) < 2 ^ 64 - 1
    /\ sys_run no_system es = sys /\ sys_run sys es' = sys'.

(** Each of the replicas that stored the value still holds it: nothing else was stored
    there under the key since. *)
Definition settled (sys : system) (key : string) (v : VersionedValue.t) (replicas : list string) : Prop :=
  forall a, a ∈ replicas -> stored sys a key v -> expected sys a !! key = Some v.

(** Each of the replicas that stored a tombstone of the key still holds one, and none of
    these has expired by the time of [sys']. *)
Definition settled_tombs (sys sys' : system) (key : string) (replicas : list string) : Prop :=
  forall a, a ∈ replicas -> buried sys a key ->
    exists v, expected sys a !! key = Some v /\ VersionedValue.deleted v = true
      /\ forall b, VersionedValue.is_expired (clock_at sys' b) v = false.
End Spec.

(** ** Histories *)

Section Histories.
Context `{Crc32, !Crc32Laws, Sha256, Json WalEntry.t, !JsonLaws WalEntry.t entry_wf}.
Context `{Bincode table, !BincodeLaws table data_wf, Rng}.
Implicit Types (sys : system) (nd : node) (op : operation) (es : list event).

Lemma run_ok_app sys es es' : run_ok sys (es ++ es') <-> run_ok sys es /\ run_ok (sys_run sys es) es'.
Proof.
  revert sys. induction es as [|ev es IH]; intros sys; cbn [app run_ok]; [by split; [|intros [_ ?]]|].
  rewrite IH. cbn [sys_run foldl]. unfold sys_run. tauto.
Qed.

Lemma continues_reachable sys sys' : continues sys sys' -> reachable sys /\ reachable sys'.
Proof.
  intros (es & es' & Hes & Hn & <- & <-). split.
  - exists es. apply run_ok_app in Hes as [Hes _]. rewrite length_app in Hn. split_and!; [done|lia|done].
  - exists (es ++ es'). by rewrite sys_run_app.
Qed.

(** Induction over the events of a history between two systems. *)
Lemma continues_ind (P : system -> Prop) sys sys' :
  continues sys sys' -> P sys ->
  (forall s ev, continues sys s -> continues s sys' -> continues (sys_step s ev) sys' -> event_ok s ev ->
     P s -> P (sys_step s ev)) -> P sys'.
Proof.
  intros (es & es' & Hes & Hn & <- & <-) HP Hstep. set (sys := sys_run no_system es) in *.
  assert (forall pre suf, es' = pre ++ suf ->
    continues sys (sys_run sys pre) /\ continues (sys_run sys pre) (sys_run sys es')) as Hmid.
  { intros pre suf ->. split.
    - exists es, pre. rewrite app_assoc in Hes, Hn. apply run_ok_app in Hes as [Hes _].
      rewrite length_app in Hn. split_and!; [done|lia|done..].
    - exists (es ++ pre), suf. rewrite <-app_assoc. split_and!; [done|done|apply sys_run_app|].
      symmetry. apply sys_run_app. }
  assert (forall pre suf, es' = pre ++ suf -> P (sys_run sys pre)) as Hpre.
  { intros pre. induction pre as [|ev pre IH] using rev_ind; intros suf Heq; [done|].
    rewrite <-app_assoc in Heq. rewrite sys_run_app. cbn [sys_run foldl].
    pose proof (Hmid _ _ Heq) as [Hc1 Hc2]. apply Hstep; [done|done| | |by eapply IH].
    - rewrite app_assoc in Heq. apply Hmid in Heq as [_ Hc]. by rewrite sys_run_app in Hc.
    - apply run_ok_app in Hes as [_ Hes]. fold sys in Hes. rewrite Heq in Hes.
      apply run_ok_app in Hes as [_ Hes]. apply Hes. }
  apply (Hpre es' []). by rewrite app_nil_r.
Qed.

(** The history of writes only grows, and clocks that move show valid, later times. *)
Record grows sys sys' : Prop := Grows {
  gr_writes : s_writes sys `prefix_of` s_writes sys';
  gr_clocks : forall a, clock_at sys' a = clock_at sys a
    \/ (clock_at sys a <= clock_at sys' a /\ clock_ok (clock_at sys' a))
}.

#[export] Instance grows_preorder : PreOrder grows.
Proof.
  split; [split; [done|by left]|]. intros s1 s2 s3 [Hw1 Hc1] [Hw2 Hc2]. split; [by etrans|].
  intros a. destruct (Hc1 a) as [<-|[? ?]]; [apply Hc2|]. right.
  destruct (Hc2 a) as [->|[? ?]]; [done|]. split; [lia|done].
Qed.

Lemma step_grows sys ev : event_ok sys ev -> grows sys (sys_step sys ev).
Proof.
  intros Hev. split; [apply sys_step_writes|]. intros b. rewrite step_clock.
  destruct ev as [a t| | | | | | | | | | | | | | |]; try by left.
  case_decide as Hab; [subst b; right|by left]. by destruct Hev.
Qed.

Lemma continues_grows sys sys' : continues sys sys' -> grows sys sys'.
Proof.
  intros Hc. apply (continues_ind (grows sys) sys sys' Hc); [done|].
  intros s ev _ _ _ Hev Hg. etrans; [exact Hg|]. by apply step_grows.
Qed.

Lemma continues_mono sys sys' a : continues sys sys' -> now_ms (clock_at sys a) <= now_ms (clock_at sys' a).
Proof.
  intros Hc. destruct (gr_clocks _ _ (continues_grows _ _ Hc) a) as [->|[Hle Hok]]; [done|].
  assert (continues no_system sys) as Hc0.
  { destruct Hc as (es & es' & Hes & Hn & <- & _). exists [], es. apply run_ok_app in Hes as [Hes _].
    rewrite length_app in Hn. cbn. split_and!; [done|lia|done..]. }
  destruct (gr_clocks _ _ (continues_grows _ _ Hc0) a) as [E|[_ Hok0]]; [|by apply now_ms_mono].
  assert (clock_at no_system a = 0) as E0 by (unfold clock_at; cbn; by rewrite lookup_empty).
  rewrite E, E0. unfold clock_ok, now_ms in *. rewrite !wrap_i64_small by (unfold in_i64; lia). lia.
Qed.

(** *** The writes of one key *)

Lemma extend_same (l : list (string * VersionedValue.t)) m m' k :
  m !! k = m' !! k -> extend m l !! k = extend m' l !! k.
Proof.
  revert m m'. induction l as [|p l IH]; intros m m' Hm; [done|]. cbn. apply IH.
  destruct (decide (p.1 = k)) as [->|]; [by rewrite !lookup_insert_eq|by rewrite !lookup_insert_ne].
Qed.

Lemma extend_key (l : list (string * VersionedValue.t)) m k :
  extend m l !! k = extend m (filter (fun w => w.1 = k) l) !! k.
Proof.
  revert m. induction l as [|[k' v] l IH]; intros m; [done|]. rewrite filter_cons. cbn [fst].
  change (extend m ((k', v) :: l)) with (extend (<[k' := v]> m) l).
  case_decide; [apply IH|]. rewrite IH. apply extend_same. by apply lookup_insert_ne.
Qed.

Lemma expected_key sys a key :
  expected sys a !! key = extend ∅ (filter (fun w => w.1 = a) (key_writes sys key)).*2 !! key.
Proof.
  unfold expected. rewrite extend_key. do 2 f_equal. unfold writes_to, key_writes.
  induction (s_writes sys) as [|w l IH]; [done|]. rewrite !filter_cons.
  repeat case_decide; rewrite ?fmap_cons, ?filter_cons; cbn [fst snd];
    repeat case_decide; rewrite ?fmap_cons; by rewrite ?IH.
Qed.

(** Between two systems with the same writes of a key. *)
Lemma key_writes_between sys s sys' key :
  continues sys s -> continues s sys' -> key_writes sys' key = key_writes sys key ->
  key_writes s key = key_writes sys key.
Proof.
  intros [[w1 Hw1] _]%continues_grows [[w2 Hw2] _]%continues_grows. unfold key_writes.
  rewrite Hw2, Hw1, !filter_app. intros Heq.
  assert (length (filter (fun w => w.2.1 = key) w1) = 0%nat) as Hl.
  { apply (f_equal length) in Heq. rewrite !length_app in Heq. lia. }
  apply nil_length_inv in Hl. by rewrite Hl, app_nil_r.
Qed.

Lemma stored_in_versions sys a key v : stored sys a key v -> v ∈ versions sys key.
Proof.
  intros Hs. unfold versions. rewrite <-list_fmap_compose. apply list_elem_of_fmap. exists (a, (key, v)).
  split; [done|]. by apply list_elem_of_filter.
Qed.

(** What a running node has under the key is one of its versions. *)
Lemma node_version sys a nd key v :
  reachable sys -> s_nodes sys !! a = Some nd -> StorageEngine.get_raw (engine nd) key = Some v ->
  v ∈ versions sys key.
Proof.
  intros Hr Ha. rewrite get_raw_data. intros Hv.
  destruct (lived_only (fun k v => v ∈ versions sys k) _ _ _ _ (reachable_lived _ _ _ Hr Ha)) as [Hm _];
    [|by eapply Hm].
  unfold writes_to. apply Forall_fmap, Forall_forall. intros [b [k w]] [_ Hin]%list_elem_of_filter. cbn.
  by eapply stored_in_versions.
Qed.

(** While the expected value of a node has not expired, the node has it. *)
Lemma node_holds sys a nd key v :
  reachable sys -> s_nodes sys !! a = Some nd -> expected sys a !! key = Some v ->
  VersionedValue.is_expired (clock_at sys a) v = false ->
  StorageEngine.get_raw (engine nd) key = Some v.
Proof.
  intros Hr Ha Hv Hfresh. rewrite get_raw_data.
  destruct (lived_sound _ _ _ _ (reachable_lived _ _ _ Hr Ha)) as (_ & Hview & _).
  destruct (Hview key) as [->|[_ Hh]]; [exact Hv|]. specialize (Hh v Hv). congruence.
Qed.
End Histories.

(** ** A get while nothing writes its key *)

Section Reading.
Context `{Crc32, Sha256, Json WalEntry.t, Bincode table, Rng}.
Implicit Types (sys : system) (nd : node) (op : operation) (w : VersionedValue.t).

(** The key, the versions it has, what the machines keep under it, and the readings that
    the clocks may show. *)
Context (key : string) (known : list VersionedValue.t).
Context (kept : string -> VersionedValue.t -> Prop) (readings : Z -> Prop).

(** What a machine may have: a version of the key, and what it keeps. *)
Definition genuine (a : string) (x : option VersionedValue.t) : Prop :=
  (forall v, kept a v -> x = Some v) /\ forall w, x = Some w -> w ∈ known.

(** What it may answer: the flag of a tombstone does not travel. *)
Definition genuine_answer (a : string) (x : option VersionedValue.t) : Prop :=
  exists y, genuine a y /\ x = undeleted <$> y.

Record read_true (req : proto.GetRequest.t) op : Prop := ReadTrue {
  rt_calls : Forall (fun c => c_request c = GetInternal (ReplicationCoordinator.get_request key)
    /\ forall x, c_served c = Some (inl (GotInternal x)) ->
         genuine_answer (c_target c) (ReplicationCoordinator.read_value (Replied x))) (o_calls op);
  rt_local : forall l, stage_local (o_stage op) = Some l -> exists n,
    l = Read ([], n) \/ exists x, l = Read ([x], n) /\ genuine (o_address op) x;
  rt_reply : forall l r, o_stage op = Finished (Read l) r -> exists replies now,
    c_reply <$> o_calls op = Some <$> replies /\ readings now
    /\ r = GetReply (KvServiceImpl.get_reply
             (ReplicationCoordinator.get_finish (o_coordinator op) (fun _ => now)
                (proto.GetRequest.read_quorum req) l (rpc_map as_got <$> replies)))
}.

(** A node that has a genuine value answers with one. *)
Lemma get_internal_genuine nd a x :
  genuine a (StorageEngine.get_raw (engine nd) key) ->
  InternalServiceImpl.get_internal nd (ReplicationCoordinator.get_request key) = inl x ->
  genuine_answer a (ReplicationCoordinator.read_value (Replied x)).
Proof.
  intros Hg Hx. exists (StorageEngine.get_raw (engine nd) key). split; [done|].
  revert Hx. unfold InternalServiceImpl.get_internal.
  cbn [proto.GetInternalRequest.key ReplicationCoordinator.get_request].
  destruct (StorageEngine.get_raw (engine nd) key) as [w|]; intros [= <-]; cbn; [|done].
  change (value_to_proto w) with (to_proto_versioned w). by rewrite value_roundtrip.
Qed.

Lemma begin_read_true req now a nd : read_true req (begin_op now a nd (ClientGet req)).
Proof. by split. Qed.

(** The local half reads the node's own table. *)
Lemma proceed_read_true req now io nd op nd' op' k :
  proto.GetRequest.key req = key -> o_request op = ClientGet req ->
  genuine (o_address op) (StorageEngine.get_raw (engine nd) key) ->
  proceed_op now io nd op = (nd', op', k) -> read_true req op'.
Proof.
  intros Hkey Hreq Hg. unfold proceed_op. rewrite Hreq, Hkey. intros [= _ <- _]. split; cbn.
  - apply Forall_fmap, Forall_forall. intros n _. by split.
  - intros l [= <-]. unfold ReplicationCoordinator.get_begin.
    destruct (HashRing.is_responsible _ _ _); [|exists 0; by left].
    eexists. right. by eexists.
  - done.
Qed.

(** A call changes: it is answered by its handler, or it resolves while the get waits. *)
Lemma set_call_read_true req op j c c' :
  read_true req op -> o_calls op !! j = Some c ->
  c_request c' = c_request c -> c_target c' = c_target c ->
  (is_Some (c_reply c) -> c_reply c' = c_reply c) ->
  (forall x, c_request c = GetInternal (ReplicationCoordinator.get_request key) ->
     c_served c' = Some (inl (GotInternal x)) ->
     c_served c = Some (inl (GotInternal x)) \/ genuine_answer (c_target c) (ReplicationCoordinator.read_value (Replied x))) ->
  read_true req (set_stage op (o_stage op) (<[j := c']> (o_calls op))).
Proof.
  intros [Hc Hl Hr] Hj Hreq Htgt Hrep Hsrv. split; cbn; [|done|].
  - pose proof Hc as Hc'. rewrite Forall_lookup in Hc'. destruct (Hc' j c Hj) as [Hcr Hcs].
    apply Forall_insert; [done|]. rewrite Hreq, Htgt. split; [done|].
    intros x Hx. destruct (Hsrv x Hcr Hx) as [?|?]; [by apply Hcs|done].
  - intros l r Hst. destruct (Hr l r Hst) as (replies & now & Hm & ? & ?). exists replies, now.
    split; [|done]. by apply (replies_insert _ j c).
Qed.

(** Every step of a get keeps its records true. *)
Lemma op_step_read_true sys ev i req op op' :
  proto.GetRequest.key req = key -> o_request op = ClientGet req ->
  (forall a nd, s_nodes sys !! a = Some nd -> genuine a (StorageEngine.get_raw (engine nd) key)) ->
  (forall a, readings (clock_at sys a)) ->
  read_true req op -> op_step sys ev i op op' -> read_true req op'.
Proof.
  intros Hkey Hreq Hnodes Hfresh Hop Hst. pose proof Hop as [Hc Hl Hr].
  destruct Hst as [_|_|io nd nd' op' k _ Hst Ha Hp _|j c io nd nd' x _ Hj Hs Ha Hh _
    |j c r _ Hj Hrep _|l replies r _ Hst Hm Hf].
  - done.
  - by split.
  - by eapply proceed_read_true; [| |by apply Hnodes|].
  - eapply set_call_read_true; [done|exact Hj|done..|]. cbn. intros y Hcr [= ->]. right.
    rewrite Hcr in Hh. cbn [handle] in Hh. injection Hh as _ Hh. eapply get_internal_genuine; [by apply Hnodes|].
    destruct (InternalServiceImpl.get_internal nd _); cbn in Hh; [by injection Hh as ->|done].
  - eapply set_call_read_true; [done|exact Hj|done..| |]; cbn; [by rewrite Hrep; intros []|by left].
  - split; cbn; [done|by rewrite Hst in Hl|]. intros l' r' [= -> <-].
    apply mapM_replies in Hm. exists replies, (clock_at sys (o_address op)). split_and!; [done|done|].
    unfold finish_op in Hf. rewrite Hreq in Hf. by injection Hf as <-.
Qed.
End Reading.

(** ** Properties *)

Section Properties.
Context `{Crc32, !Crc32Laws, Sha256, Json WalEntry.t, !JsonLaws WalEntry.t entry_wf}.
Context `{Bincode table, !BincodeLaws table data_wf, Rng}.
Implicit Types (sys : system) (nd : node) (op : operation) (v w : VersionedValue.t).

Lemma reachable_true sys : reachable sys -> sys_true sys.
Proof. intros (es & _ & _ & Hes). apply executed_true. by exists es. Qed.

(** What the machines keep until [sys'], and the readings of its clocks until then. *)
Definition unexpired v now : Prop := VersionedValue.is_expired now v = false.
Definition keeps sys sys' key (a : string) v : Prop :=
  expected sys a !! key = Some v /\ unexpired v (clock_at sys' a).
Definition reads_until sys' (now : Z) : Prop := exists b, now_ms now <= now_ms (clock_at sys' b).

Lemma unexpired_before v now now' : now_ms now <= now_ms now' -> unexpired v now' -> unexpired v now.
Proof.
  unfold unexpired. intros Hle Hv. destruct (VersionedValue.is_expired now v) eqn:E; [|done].
  by rewrite (is_expired_mono _ _ v Hle E) in Hv.
Qed.

(** While nothing writes the key, every table has a version of it, and what it keeps. *)
Lemma nodes_genuine sys s sys' key a nd :
  continues sys s -> continues s sys' -> key_writes sys' key = key_writes sys key ->
  s_nodes s !! a = Some nd ->
  genuine (versions sys key) (keeps sys sys' key) a (StorageEngine.get_raw (engine nd) key).
Proof.
  intros Hc Hc' Hkw Ha. pose proof (key_writes_between _ _ _ _ Hc Hc' Hkw) as Hk.
  destruct (continues_reachable _ _ Hc) as [_ Hr]. split.
  - intros v [Hv Hfresh]. apply (node_holds s a nd); [done|done|by rewrite expected_key, Hk, <-expected_key|].
    eapply unexpired_before; [|exact Hfresh]. by apply continues_mono.
  - intros w Hw. pose proof (node_version _ _ _ _ _ Hr Ha Hw) as Hin. unfold versions in *. by rewrite Hk in Hin.
Qed.

(** A get that begins after [sys] keeps true records. *)
Lemma get_read_true sys sys' key i op req :
  continues sys sys' -> key_writes sys' key = key_writes sys key -> s_ops sys !! i = None ->
  s_ops sys' !! i = Some op -> o_request op = ClientGet req -> proto.GetRequest.key req = key ->
  read_true key (versions sys key) (keeps sys sys' key) (reads_until sys') req op.
Proof.
  intros Hc Hkw Hnone Hi Hreq Hkey. revert op Hi Hreq.
  apply (continues_ind (fun s => forall op, s_ops s !! i = Some op -> o_request op = ClientGet req ->
    read_true key (versions sys key) (keeps sys sys' key) (reads_until sys') req op) sys sys' Hc); [congruence|].
  intros s ev Hc1 Hc2 _ _ IH op' Hi' Hreq. destruct (s_ops s !! i) as [op|] eqn:Hi.
  - destruct (sys_step_op s ev i op Hi) as (op1 & Hi1 & Hst). simplify_eq.
    rewrite (op_step_request _ _ _ _ _ Hst) in Hreq.
    eapply op_step_read_true; [done|done|intros a nd; by eapply nodes_genuine| |by apply IH|exact Hst].
    intros a. exists a. by apply continues_mono.
  - destruct (sys_step_new s ev i op' Hi Hi') as (a & nd & r & _ & _ & ->). cbn in Hreq. subst r.
    apply begin_read_true.
Qed.

(** Everything that a finished get collected is a version of the key, and what the
    machines that answered keep is there. *)
Lemma collected key known kept readings req op responses n replies :
  read_true key known kept readings req op -> Forall reply_served (o_calls op) ->
  stage_local (o_stage op) = Some (Read (responses, n)) -> c_reply <$> o_calls op = Some <$> replies ->
  let all := responses ++ (ReplicationCoordinator.read_value <$> (rpc_map as_got <$> replies)) in
  (forall w, Some w ∈ all -> exists w0, w0 ∈ known /\ undeleted w = undeleted w0)
  /\ (forall a v, kept a v -> a ∈ remote_answerers op -> Some (undeleted v) ∈ all)
  /\ (forall a v, kept a v -> a ∈ answerers op -> VersionedValue.deleted v = false -> Some v ∈ all).
Proof.
  intros [Hc Hl _] Hs Hst Hm all. rewrite Forall_forall in Hc, Hs.
  assert (forall c x, c ∈ o_calls op -> c_reply c = Some (Replied (GotInternal x)) ->
    genuine_answer known kept (c_target c) (ReplicationCoordinator.read_value (Replied x))
    /\ ReplicationCoordinator.read_value (Replied x) ∈ all) as Hcall.
  { intros c x Hin Hrep. split; [apply Hc; [done|by apply Hs]|].
    apply elem_of_app. right. rewrite <-list_fmap_compose.
    apply (list_elem_of_fmap_2 (ReplicationCoordinator.read_value ∘ rpc_map as_got) _ (Replied (GotInternal x))).
    apply (elem_of_replies _ _ _ Hm). by exists c. }
  assert (forall a v, kept a v -> a ∈ remote_answerers op -> Some (undeleted v) ∈ all) as Hremote.
  { intros a v Hk (c & Hin & Ha)%list_elem_of_omap. unfold answered_by in Ha.
    destruct (c_reply c) as [[[x|x|x]| |]|] eqn:Hrep; try done. injection Ha as <-.
    destruct (Hcall c x Hin Hrep) as [(y & [Hy _] & Hval) Hx]. by rewrite Hval, (Hy v Hk) in Hx. }
  specialize (Hl _ Hst) as (m & Hloc). split_and!; [|done|].
  - intros w [Hw|Hw]%elem_of_app.
    + destruct Hloc as [[= -> _]|(x & [= -> _] & [_ Hx])]; [by apply not_elem_of_nil in Hw|].
      apply list_elem_of_singleton in Hw as <-. exists w. auto.
    + rewrite <-list_fmap_compose in Hw. apply list_elem_of_fmap in Hw as (r & Hr & Hin).
      apply (elem_of_replies _ _ _ Hm) in Hin as (c & Hin & Hrep).
      destruct r as [[x|x|x]| |]; try done. cbn in Hr.
      destruct (Hcall c x Hin Hrep) as [([y|] & [_ Hy] & Hval) _]; cbn in Hval; rewrite Hval in Hr; [|done].
      injection Hr as ->. exists y. auto.
  - intros a v Hk [Ha|Ha]%elem_of_app Hlive; [|rewrite <-(undeleted_id v) by done; by eapply Hremote].
    rewrite Hst in Ha. destruct Hloc as [[= -> _]|(x & [= -> _] & [Hx _])]; [by apply not_elem_of_nil in Ha|].
    apply list_elem_of_singleton in Ha as ->. apply elem_of_app. left. rewrite (Hx v Hk). by left.
Qed.

(** A get that has the answer of a machine that keeps a value returns a version, and if
    clocks agree one that the value does not supersede. *)
Lemma read_true_sees key known kept readings req op l resp a v :
  read_true key known kept readings req op -> Forall reply_served (o_calls op) ->
  o_stage op = Finished l (GetReply (inl resp)) -> kept a v ->
  a ∈ remote_answerers op \/ (a ∈ answerers op /\ VersionedValue.deleted v = false) ->
  (forall now, readings now -> unexpired v now) ->
  exists w, w ∈ known
    /\ resp = proto.GetResponse.Mk true (VersionedValue.value w)
                (Some (vc_to_proto (VersionedValue.vector_clock w)))
    /\ (clocks_agree known -> VersionedValue.timestamp_ms v <= VersionedValue.timestamp_ms w /\ ~ supersedes v w).
Proof.
  intros Hrt Hs Hst Hk Ha Hfresh.
  assert (exists local, l = Read local) as [[responses n] ->].
  { destruct (rt_local _ _ _ _ _ _ Hrt l) as (m & [->|(x & -> & _)]); [by rewrite Hst|eexists; reflexivity..]. }
  destruct (rt_reply _ _ _ _ _ _ Hrt _ _ Hst) as (replies & now & Hm & Hnow%Hfresh & Heq).
  injection Heq as Heq. symmetry in Heq. apply get_reply_resolves in Heq as ->. cbn [fst].
  destruct (collected _ _ _ _ _ _ responses n replies Hrt Hs) as (Hall & Hremote & Hlocal); [by rewrite Hst|done|].
  revert Hall Hremote Hlocal.
  generalize (responses ++ (ReplicationCoordinator.read_value <$> (rpc_map as_got <$> replies))).
  intros all Hall Hremote Hlocal.
  assert (Some (undeleted v) ∈ all) as Hin.
  { destruct Ha as [Ha|[Ha Hlive]]; [by eapply Hremote|]. rewrite undeleted_id by done. by eapply Hlocal. }
  assert (forall w, w ∈ candidates (fun _ => now) all -> exists w0, w0 ∈ known /\ w = undeleted w0) as Hcand.
  { intros w (Hw & Hd & _)%elem_of_candidates. destruct (Hall w Hw) as (w0 & ? & Heq). exists w0.
    split; [done|]. by rewrite <-Heq, undeleted_id. }
  destruct (read_sees (fun _ => now) (undeleted v) all Hin eq_refl (fun _ => Hnow)) as (r & Hr & Hbest).
  rewrite Hr. destruct (Hcand r (resolve_elem _ _ _ Hr)) as (w & Hw & ->). exists w.
  split_and!; [done|done|]. intros Hag. apply Hbest.
  intros w1 w2 (u1 & Hu1 & ->)%Hcand (u2 & Hu2 & ->)%Hcand. exact (Hag u1 u2 Hu1 Hu2).
Qed.

(** The same in a system, for a machine among those that a write reached. *)
Lemma quorum_read_sees sys sys' key i op req l resp machines replicas answers (P : string -> VersionedValue.t -> Prop) :
  continues sys sys' -> key_writes sys' key = key_writes sys key ->
  s_ops sys !! i = None -> s_ops sys' !! i = Some op -> o_request op = ClientGet req ->
  proto.GetRequest.key req = key -> o_stage op = Finished l (GetReply (inl resp)) ->
  NoDup answers -> NoDup machines -> answers ⊆ replicas -> machines ⊆ replicas ->
  Z.of_nat (length replicas) < Z.of_nat (length machines) + Z.of_nat (length answers) ->
  (forall a, a ∈ machines -> exists v, expected sys a !! key = Some v /\ P a v
     /\ (forall b, unexpired v (clock_at sys' b))
     /\ (a ∈ answers -> a ∈ remote_answerers op \/ (a ∈ answerers op /\ VersionedValue.deleted v = false))) ->
  exists a v w, P a v /\ w ∈ versions sys key
    /\ resp = proto.GetResponse.Mk true (VersionedValue.value w)
                (Some (vc_to_proto (VersionedValue.vector_clock w)))
    /\ (clocks_agree (versions sys key) ->
        VersionedValue.timestamp_ms v <= VersionedValue.timestamp_ms w /\ ~ supersedes v w).
Proof.
  intros Hc Hkw Hnone Hi Hreq Hkey Hst Hnda Hndm Hsa Hsm Hq Hm.
  destruct (continues_reachable _ _ Hc) as [_ Hr%reachable_true].
  destruct (quorum_lists_meet replicas answers machines) as (a & Ha & Hma); [done..|lia|].
  destruct (Hm a Hma) as (v & Hv & HP & Hfresh & Hans).
  destruct (read_true_sees key (versions sys key) (keeps sys sys' key) (reads_until sys') req op l resp a v)
    as (w & ? & ? & ?); [by eapply get_read_true| |done|by split|by apply Hans| |by exists a, v, w].
  - eapply Forall_impl; [exact (ot_calls _ _ (sys_true_op _ _ _ Hr Hi))|]. by intros c [].
  - intros now [b Hb]. by eapply unexpired_before.
Qed.


(** C3: deleted keys are found: once the replicas of an acknowledged delete have settled
    on its tombstones, and until these expire or the key is written again, a get that
    begins afterwards and is answered finds the key, provided that so many other nodes
    answer that they and the write quorum together outnumber the replicas: a tombstone
    travels as a live value. *)
Theorem settled_deletes_are_found sys sys' i op req l j gop greq gl gresp :
  continues sys sys' ->
  s_ops sys !! i = Some op -> o_request op = ClientDelete req ->
  o_stage op = Finished l (DeleteReply (inl (proto.DeleteResponse.Mk true))) ->
  NoDup (involved op) -> Z.of_nat (length (o_calls op)) < 2 ^ 32 - 1 ->
  settled_tombs sys sys' (proto.DeleteRequest.key req) (involved op) ->
  key_writes sys' (proto.DeleteRequest.key req) = key_writes sys (proto.DeleteRequest.key req) ->
  s_ops sys !! j = None -> s_ops sys' !! j = Some gop ->
  o_request gop = ClientGet greq -> proto.GetRequest.key greq = proto.DeleteRequest.key req ->
  o_stage gop = Finished gl (GetReply (inl gresp)) ->
  NoDup (remote_answerers gop) -> remote_answerers gop ⊆ involved op ->
  Z.of_nat (length (involved op))
    < QuorumConfig.effective_write_quorum (ReplicationCoordinator.quorum (o_coordinator op))
        (proto.DeleteRequest.write_quorum req) + Z.of_nat (length (remote_answerers gop)) ->
  exists w, w ∈ versions sys (proto.DeleteRequest.key req)
    /\ gresp = proto.GetResponse.Mk true (VersionedValue.value w)
                 (Some (vc_to_proto (VersionedValue.vector_clock w))).
Proof.
  intros Hc Hi Hr Hst Hnd Hlen Hset Hkw Hnone Hj Hgr Hkey Hgst Hnda Hsub Hq.
  destruct (continues_reachable _ _ Hc) as [Hr0 Hr1].
  pose proof (sys_true_op _ _ _ (reachable_true _ Hr0) Hi) as Hop.
  destruct (delete_machines sys op req l Hop Hr Hst Hnd Hlen) as (machines & Hndm & Hm & Hw & Hburied).
  rewrite Forall_forall in Hburied.
  destruct (quorum_read_sees sys sys' (proto.DeleteRequest.key req) j gop greq gl gresp machines (involved op)
    (remote_answerers gop) (fun _ _ => True)) as (a & v & w & _ & ? & ? & _); try done; [lia| |by exists w].
  intros a Ha. destruct (Hset a) as (v & Hv & _ & Hfresh); [by apply Hm|by apply Hburied|].
  exists v. split_and!; [done|done|done|by left].
Qed.
End Properties.

(** ** The property at a concrete system *)

Section Witnesses.
Import Toy.
#[local] Existing Instance prefix_targets.

(** A put that two of three replicas store. *)
Definition put_settled : list event :=
  [Begin "h1:1" (ClientPut (proto.PutRequest.Mk "key" [Byte.x61] 0 2 None)); Proceed 0 WriteOk;
   Serve 0 0 WriteOk; Answer 0 0; Drop 0 1; Finish 0].
(** Its coordinator flushes and crashes, a client puts another key, and a get begins at
    the third replica, of whose calls one is answered. *)
Definition read_settled : list event :=
  [Flush "h1:1" false; Crash "h1:1";
   Begin "h2:1" (ClientPut (proto.PutRequest.Mk "other" [Byte.x62] 0 1 None)); Proceed 1 WriteOk;
   Begin "h2:1" (ClientGet (proto.GetRequest.Mk "key" 2)); Proceed 2 WriteOk;
   Serve 1 0 WriteOk; Serve 2 0 WriteOk; Answer 2 0; Expire 2 1; Reap "h3:1"; Finish 2].

Definition sys_5 : system := sys_run no_system (boot ++ put_settled).
Definition sys_6 : system := sys_run sys_5 read_settled.

Lemma continues_5_6 : continues sys_5 sys_6.
Proof.
  exists (boot ++ put_settled), read_settled.
  split; [|split; [vm_compute; reflexivity|split; [unfold sys_5; reflexivity|unfold sys_6; reflexivity]]].
  apply run_okb_ok. vm_compute. reflexivity.
Qed.

Definition op_5 : operation := default (put_op 0) (s_ops sys_5 !! 0%nat).
Definition op_6 : operation := default (put_op 0) (s_ops sys_6 !! 2%nat).
Definition value_5 : VersionedValue.t := default skew_old (o_value op_5).

Lemma settled_5 : settled sys_5 "key" value_5 (involved op_5).
Proof.
  assert (Forall (fun a => expected sys_5 a !! "key" = Some value_5 \/ ~ stored sys_5 a "key" value_5)
    (involved op_5)) as Hall.
  { assert (involved op_5 = ["h1:1"; "h3:1"; "h2:1"]) as -> by (vm_compute; reflexivity).
    apply Forall_cons; split; [left; decided|]. apply Forall_cons; split; [left; decided|].
    apply Forall_singleton. right. unfold stored. decided. }
  intros a Ha Hs. rewrite Forall_forall in Hall. by destruct (Hall a Ha).
Qed.

Lemma agree_5 : clocks_agree (versions sys_5 "key").
Proof.
  apply (clocks_agree_same_time (VersionedValue.timestamp_ms value_5)).
  decided.
Qed.

Lemma answerers_6 : answerers op_6 ⊆ involved op_5.
Proof.
  assert (answerers op_6 = ["h2:1"; "h3:1"] /\ involved op_5 = ["h1:1"; "h3:1"; "h2:1"]) as [-> ->]
    by (split; vm_compute; reflexivity).
  intros a. rewrite !elem_of_cons. tauto.
Qed.


(** A delete of the key that two of three replicas take, and a get at the third one, of
    whose calls both are answered. *)
Definition delete_settled : list event :=
  put_settled ++
  [Begin "h1:1" (ClientDelete (proto.DeleteRequest.Mk "key" 2)); Proceed 1 WriteOk;
   Serve 1 0 WriteOk; Answer 1 0; Drop 1 1; Finish 1].
Definition read_deleted : list event :=
  [Flush "h3:1" false; Begin "h2:1" (ClientGet (proto.GetRequest.Mk "key" 2)); Proceed 2 WriteOk;
   Serve 2 0 WriteOk; Answer 2 0; Serve 2 1 WriteOk; Answer 2 1; Crash "h1:1"; Finish 2].

Definition sys_7 : system := sys_run no_system (boot ++ delete_settled).
Definition sys_8 : system := sys_run sys_7 read_deleted.

Lemma continues_7_8 : continues sys_7 sys_8.
Proof.
  exists (boot ++ delete_settled), read_deleted.
  split; [|split; [vm_compute; reflexivity|split; [unfold sys_7; reflexivity|unfold sys_8; reflexivity]]].
  apply run_okb_ok. vm_compute. reflexivity.
Qed.

Definition op_7 : operation := default (put_op 0) (s_ops sys_7 !! 1%nat).
Definition op_8 : operation := default (put_op 0) (s_ops sys_8 !! 2%nat).

Lemma clocks_8 b : clock_at sys_8 b = at_ms \/ clock_at sys_8 b = 0.
Proof.
  assert (map_Forall (fun _ t => t = at_ms) (s_clocks sys_8)) as Hall by decided.
  unfold clock_at. destruct (s_clocks sys_8 !! b) as [t|] eqn:E; [left; exact (Hall b t E)|by right].
Qed.

Definition tomb_7 (a : string) : VersionedValue.t := default skew_old (expected sys_7 a !! "key").

Lemma settled_tombs_7 : settled_tombs sys_7 sys_8 "key" (involved op_7).
Proof.
  assert (Forall (fun a => Forall (fun w => ~ (w.1 = a /\ w.2.1 = "key" /\ VersionedValue.deleted w.2.2 = true))
      (s_writes sys_7)
    \/ (expected sys_7 a !! "key" = Some (tomb_7 a) /\ VersionedValue.deleted (tomb_7 a) = true
        /\ VersionedValue.is_expired at_ms (tomb_7 a) = false /\ VersionedValue.is_expired 0 (tomb_7 a) = false))
    (involved op_7)) as Hall.
  { assert (involved op_7 = ["h1:1"; "h3:1"; "h2:1"]) as -> by (vm_compute; reflexivity).
    apply Forall_cons; split; [right; split_and!; vm_compute; reflexivity|].
    apply Forall_cons; split; [right; split_and!; vm_compute; reflexivity|].
    apply Forall_singleton. left. decided. }
  intros a Ha (w & Hs & Hd). rewrite Forall_forall in Hall.
  destruct (Hall a Ha) as [Hno|(Hv & Hdel & Hx & Hx0)].
  - rewrite Forall_forall in Hno. by destruct (Hno _ Hs).
  - exists (tomb_7 a). split; [exact Hv|]. split; [exact Hdel|]. intros b. by destruct (clocks_8 b) as [->| ->].
Qed.

Lemma answerers_8 : remote_answerers op_8 ⊆ involved op_7.
Proof.
  assert (remote_answerers op_8 = ["h3:1"; "h1:1"] /\ involved op_7 = ["h1:1"; "h3:1"; "h2:1"]) as [-> ->]
    by (split; vm_compute; reflexivity).
  intros a. rewrite !elem_of_cons. tauto.
Qed.

Example settled_deletes_are_found_witness :
  exists l resp, o_stage op_8 = Finished l (GetReply (inl resp)) /\ proto.GetResponse.found resp = true
    /\ proto.GetResponse.value resp = [].
Proof.
  assert (exists l, o_stage op_7 = Finished l (DeleteReply (inl (proto.DeleteResponse.Mk true)))) as (l & Hst)
    by (eexists; vm_compute; reflexivity).
  assert (exists gl gresp, o_stage op_8 = Finished gl (GetReply (inl gresp)) /\ proto.GetResponse.value gresp = [])
    as (gl & gresp & Hgst & Hv) by (eexists _, _; split; vm_compute; reflexivity).
  exists gl, gresp. split; [exact Hgst|]. split; [|exact Hv].
  destruct (settled_deletes_are_found sys_7 sys_8 1 op_7 (proto.DeleteRequest.Mk "key" 2)
    l 2 op_8 (proto.GetRequest.Mk "key" 2) gl gresp continues_7_8) as (w & _ & Hr);
    [vm_compute; reflexivity|vm_compute; reflexivity|exact Hst| |vm_compute; reflexivity
    |exact settled_tombs_7|vm_compute; reflexivity|vm_compute; reflexivity|vm_compute; reflexivity
    |vm_compute; reflexivity|reflexivity|exact Hgst| |exact answerers_8|vm_compute; reflexivity|].
  - decided.
  - decided.
  - rewrite Hr. reflexivity.
Defined.
End Witnesses.
