(* ===== verification/UnitTests.v ===== *)
(** What the programs of StorageTests.v and RingTests.v share: the unit tests of the
    repository (its [#[cfg(test)]] modules) are run over the model.

    A test is a computation that returns or panics. Its clock readings are arguments,
    one per reading in program order; writes to the temporary directory of a test
    succeed. The theorems name the readings for which a test passes and hold for every
    implementation of the third-party crates with the properties of Externals.v: this
    is where the model and the expectations of the code's authors meet. *)

From S2P Require Import Prelude Bytes.
Open Scope Z_scope.

(** [b"..."], [a == b] and the formats [{:02}] and [{:04}]. *)
Abbreviation b := bytes_of_string.
Definition same {A} `{EqDecision A} (x y : A) : bool := bool_decide (x = y).
Definition two_digits (i : N) : string := if (i <? 10)%N then "0" +:+ pretty i else pretty i.
Definition four_digits (i : N) : string :=
  if (i <? 10)%N then "000" +:+ pretty i
  else if (i <? 100)%N then "00" +:+ pretty i
  else if (i <? 1000)%N then "0" +:+ pretty i else pretty i.
(** [for i in 0..n]. *)
Definition upto (n : N) : list N := N.of_nat <$> seq 0 (N.to_nat n).

Lemma assert_true (x : bool) : assert x = Return tt <-> x = true.
Proof. by destruct x. Qed.

Lemma same_refl {A} `{EqDecision A} (x : A) : same x x = true.
Proof. by apply bool_decide_true. Qed.
