(* ===== verification/Bench.v ===== *)
(** The criterion benchmark of the table (src/benches/storage_bench.rs): the loops whose
    time it measures, and that they do the work their names say. [t] gives the clock
    reading of each value that is stored, [at_] those of a read. *)

From S2P Require Import Prelude Bytes Numerals BTreeMap VectorClock Memtable UnitTests.
Open Scope Z_scope.

Module storage_bench.
Definition capacity : Z := 256 * 1024 * 1024.

Definition zeroed (len : nat) (now : Z) : VersionedValue.t :=
  VersionedValue.new now (replicate len Byte.x00) "node1" 0.
Definition key (i : N) : string := "key-" +:+ pretty i.
Definition key_08 (i : N) : string := "key-" +:+ pad_8 i.

(** The closure of [memtable_put]: the table and the counter it captures. *)
Definition put_iteration (now : Z) (st : MemTable.t * N) : MemTable.t * N :=
  let '(mt, i) := st in ((MemTable.put mt (key i) (zeroed 256 now)).1, i + 1)%N.
Definition bench_memtable_put (readings : list Z) : MemTable.t * N :=
  foldl (fun st now => put_iteration now st) (MemTable.new capacity, 0%N) readings.

(** The tables that the other two fill before they measure. *)
Definition fill (name : N -> string) (len : nat) (t : N -> Z) (n : N) : MemTable.t :=
  foldl (fun mt i => (MemTable.put mt (name i) (zeroed len (t i))).1) (MemTable.new capacity) (upto n).

(** The closure of [memtable_get]: the result that is thrown away, and the counter. *)
Definition get_iteration (mt : MemTable.t) (now : Z) (i : N) : option VersionedValue.t * N :=
  (MemTable.get now mt (key (i `mod` 100000)), i + 1)%N.
Definition bench_memtable_get (t : N -> Z) (readings : list Z) : list (option VersionedValue.t) * N :=
  let mt := fill key 256 t 100000 in
  foldl (fun '(results, i) now => let '(r, i) := get_iteration mt now i in (results ++ [r], i)) ([], 0%N) readings.

Definition bench_memtable_scan (t : N -> Z) (at_ : string -> Z) : outcome (list (string * VersionedValue.t)) :=
  let mt := fill key_08 64 t 100000 in
  MemTable.scan at_ mt "key-00010000" "key-00090000" 100.
End storage_bench.

(** ** Facts *)

Section Facts.
Import storage_bench.

Lemma elem_of_upto i n : i ∈ upto n <-> (i < n)%N.
Proof.
  unfold upto. rewrite list_elem_of_fmap. setoid_rewrite elem_of_seq. split; [intros (j & -> & ?); lia|].
  intros Hi. exists (N.to_nat i). lia.
Qed.

Lemma NoDup_upto n : NoDup (upto n).
Proof. unfold upto. apply NoDup_fmap_2; [intros x y ?; lia|apply NoDup_seq]. Qed.

#[export] Instance key_inj : Inj (=) (=) key.
Proof. intros i j E. unfold key in E. by apply (inj _), (inj _) in E. Qed.

(** What a fill leaves under each name. *)
Lemma fill_entries (name : N -> string) len t (l : list N) mt :
  MemTable.data (foldl (fun mt i => (MemTable.put mt (name i) (zeroed len (t i))).1) mt l)
  = extend (MemTable.data mt) ((fun i => (name i, zeroed len (t i))) <$> l).
Proof. revert mt. induction l as [|i l IH]; intros mt; [done|]. cbn [foldl]. by rewrite IH. Qed.

Lemma fill_lookup name len t n k v :
  NoDup (name <$> upto n) ->
  MemTable.data (fill name len t n) !! k = Some v
  <-> (k, v) ∈ ((fun i => (name i, zeroed len (t i))) <$> upto n).
Proof.
  intros Hnd. unfold fill. rewrite fill_entries. set (l := _ <$> upto n).
  assert (NoDup l.*1) as Hl by (unfold l; by rewrite <-list_fmap_compose).
  rewrite (elem_of_list_to_map (M := gmap string) l k v Hl).
  assert (extend ∅ l = list_to_map l) as <-; [|done].
  apply extend_entries. by rewrite map_to_list_to_map.
Qed.

(** Values stored without a time to live are read at any time. *)
Lemma zeroed_fresh len t now : VersionedValue.is_expired now (zeroed len t) = false.
Proof. done. Qed.

Lemma fill_visible at_ name len t n k v :
  NoDup (name <$> upto n) -> MemTable.data (fill name len t n) !! k = Some v ->
  MemTable.visible at_ (k, v) = true.
Proof.
  intros Hnd Hk. apply (fill_lookup name len t n k v Hnd), list_elem_of_fmap in Hk as (i & [= -> ->] & _). done.
Qed.

(** The padded keys are in the order of their numbers. *)
Lemma key_08_le i j : (i < 10 ^ 8)%N -> (j < 10 ^ 8)%N -> String.le (key_08 i) (key_08 j) <-> (i <= j)%N.
Proof. intros Hi Hj. unfold key_08. by rewrite string_le_prefix, pad_8_le. Qed.

Lemma NoDup_key_08 n : (n <= 10 ^ 8)%N -> NoDup (key_08 <$> upto n).
Proof.
  intros Hn. apply NoDup_fmap_2_strong; [|apply NoDup_upto].
  intros i j Hi%elem_of_upto Hj%elem_of_upto E.
  assert (i <= j /\ j <= i)%N; [|lia].
  split; apply key_08_le; try lia; by rewrite E.
Qed.

Lemma upto_sorted n : StronglySorted N.le (upto n).
Proof.
  unfold upto. generalize 0%nat. induction (N.to_nat n) as [|m IH]; intros a; cbn; constructor; [apply IH|].
  apply Forall_fmap, Forall_forall. intros j Hj%elem_of_seq. cbn. lia.
Qed.

(** So a table of padded keys is iterated in the order in which it was filled. *)
Lemma fill_08_iter len t n :
  (n <= 10 ^ 8)%N ->
  str_iter (MemTable.data (fill key_08 len t n)) = (fun i => (key_08 i, zeroed len (t i))) <$> upto n.
Proof.
  intros Hn. symmetry. apply (iter_unique String.le).
  - pose proof (upto_sorted n) as Hs.
    assert (Forall (fun i => i < 10 ^ 8)%N (upto n)) as Hb
      by (apply Forall_forall; intros i Hi%elem_of_upto; lia).
    induction Hs as [|i l Hs IH Hi]; [constructor|]. apply Forall_cons in Hb as [Hib Hb]. cbn. constructor; [auto|].
    apply Forall_fmap, Forall_forall. intros j Hj. rewrite Forall_forall in Hi, Hb.
    unfold entry_le. cbn. apply key_08_le; auto.
  - rewrite <-list_fmap_compose. by apply NoDup_key_08.
  - intros k v. symmetry. by apply fill_lookup, NoDup_key_08.
Qed.

(** A window of consecutive numbers. *)
Lemma filter_upto lo hi n :
  (lo <= hi <= n)%N ->
  filter (fun i => lo <= i < hi)%N (upto n) = N.add lo <$> upto (hi - lo).
Proof.
  intros Hn. unfold upto.
  assert (N.to_nat n = N.to_nat lo + (N.to_nat (hi - lo) + N.to_nat (n - hi)))%nat as -> by lia.
  rewrite !seq_app, !fmap_app, !filter_app.
  assert (forall l, Forall (fun j => ~ (lo <= N.of_nat j < hi)%N) l ->
    filter (fun i => lo <= i < hi)%N (N.of_nat <$> l) = []) as Hnone.
  { intros l Hl. induction Hl as [|j l Hj _ IH]; [done|]. by rewrite fmap_cons, filter_cons, decide_False. }
  rewrite (Hnone (seq 0 _)), (Hnone (seq (0 + N.to_nat lo + _) _)), app_nil_r
    by (apply Forall_forall; intros j Hj%elem_of_seq; lia). cbn [app].
  assert (forall l, Forall (fun j => (lo <= N.of_nat j < hi)%N) l ->
    filter (fun i => lo <= i < hi)%N (N.of_nat <$> l) = N.of_nat <$> l) as Hall.
  { intros l Hl. induction Hl as [|j l Hj _ IH]; [done|]. by rewrite fmap_cons, filter_cons, decide_True, IH. }
  rewrite Hall by (apply Forall_forall; intros j Hj%elem_of_seq; lia).
  replace (0 + N.to_nat lo)%nat with (N.to_nat lo + 0)%nat by lia.
  rewrite <-fmap_add_seq, <-!list_fmap_compose. apply list_fmap_ext. intros _ j _. cbn. lia.
Qed.

(** What a scan keeps of them. *)
Lemma scan_window at_ len t lo hi (l : list N) :
  (lo < 10 ^ 8)%N -> (hi < 10 ^ 8)%N -> Forall (fun i => i < 10 ^ 8)%N l ->
  filter (fun p => MemTable.visible at_ p = true)
    (filter (in_range String.le (key_08 lo) (key_08 hi)) ((fun i => (key_08 i, zeroed len (t i))) <$> l))
  = (fun i => (key_08 i, zeroed len (t i))) <$> filter (fun i => lo <= i < hi)%N l.
Proof.
  intros Hlo Hhi Hl. induction Hl as [|i l Hi _ IH]; [done|]. rewrite fmap_cons, !filter_cons.
  assert (in_range String.le (key_08 lo) (key_08 hi) (key_08 i, zeroed len (t i)) <-> (lo <= i < hi)%N) as Hr.
  { unfold in_range. cbn [fst]. rewrite !key_08_le by done. lia. }
  destruct (decide (lo <= i < hi)%N) as [Hin|Hout].
  - rewrite decide_True by by apply Hr. by rewrite filter_cons, decide_True, IH.
  - rewrite decide_False by by rewrite Hr. exact IH.
Qed.
End Facts.

(** ** Properties *)

Section Properties.
Import storage_bench.

(** Every iteration of the put benchmark stores a new key: after [n] of them the table
    has [n] entries. *)
Theorem bench_put_inserts (readings : list Z) :
  let '(mt, i) := bench_memtable_put readings in
  i = N.of_nat (length readings) /\ MemTable.len mt = length readings.
Proof.
  unfold bench_memtable_put, MemTable.len.
  assert (forall st, (forall j, (st.2 <= j)%N -> MemTable.data st.1 !! key j = None) ->
    let '(mt, i) := foldl (fun st now => put_iteration now st) st readings in
    i = (st.2 + N.of_nat (length readings))%N
    /\ size (MemTable.data mt) = (size (MemTable.data st.1) + length readings)%nat) as Hgen.
  { induction readings as [|now l IH]; intros [mt i] Hnew; cbn [foldl length].
    - cbn. lia.
    - specialize (IH (put_iteration now (mt, i))). cbn [put_iteration fst snd] in IH, Hnew |- *.
      destruct (foldl _ _ l) as [mt' i']. rewrite put_data in IH.
      destruct IH as [-> ->].
      + intros j Hj. rewrite lookup_insert_ne by (intros E%(inj key); lia). apply Hnew. lia.
      + rewrite map_size_insert_None by (apply Hnew; lia). lia. }
  specialize (Hgen (MemTable.new capacity, 0%N)). cbn [fst snd] in Hgen.
  destruct (foldl _ _ _) as [mt i]. apply Hgen. intros j _. apply lookup_empty.
Qed.

(** Every iteration of the get benchmark finds a value of 256 bytes. *)
Theorem bench_get_hits t (readings : list Z) :
  Forall (fun r => exists v, r = Some v /\ VersionedValue.value v = replicate 256 Byte.x00)
    (bench_memtable_get t readings).1.
Proof.
  unfold bench_memtable_get.
  assert (forall now i, exists v, (get_iteration (fill key 256 t 100000) now i).1 = Some v
    /\ VersionedValue.value v = replicate 256 Byte.x00) as Hhit.
  { intros now i. set (j := (i `mod` 100000)%N). exists (zeroed 256 (t j)). split; [|done].
    cbn [get_iteration fst]. unfold MemTable.get. fold j.
    rewrite (proj2 (fill_lookup key 256 t 100000 (key j) (zeroed 256 (t j)) (NoDup_fmap_2 _ _ (NoDup_upto _)))).
    { by rewrite zeroed_fresh. }
    apply (list_elem_of_fmap_2 (fun i => (key i, zeroed 256 (t i)))), elem_of_upto, N.mod_lt. done. }
  generalize dependent (fill key 256 t 100000). intros mt Hhit.
  assert (forall st, Forall (fun r => exists v, r = Some v /\ VersionedValue.value v = replicate 256 Byte.x00) st.1 ->
    Forall (fun r => exists v, r = Some v /\ VersionedValue.value v = replicate 256 Byte.x00)
      (foldl (fun '(results, i) now => let '(r, i) := get_iteration mt now i in (results ++ [r], i)) st readings).1)
    as Hgen; [|by apply Hgen].
  induction readings as [|now l IH]; intros [results i] Hst; [done|]. cbn [foldl]. apply IH.
  specialize (Hhit now i). destruct (get_iteration mt now i) as [r i']. cbn in *.
  apply Forall_app. split; [done|]. by apply Forall_singleton.
Qed.

(** The scan benchmark reads the hundred keys from its start on. *)
Theorem bench_scan_reads_a_hundred t at_ :
  exists l, bench_memtable_scan t at_ = Return l
    /\ l.*1 = (fun i => key_08 (10000 + i)) <$> upto 100.
Proof.
  unfold bench_memtable_scan, MemTable.scan, range.
  change "key-00010000" with (key_08 10000). change "key-00090000" with (key_08 90000).
  rewrite decide_True by by apply key_08_le. eexists. split; [done|].
  rewrite fill_08_iter by done.
  rewrite scan_window; [|done|done|apply Forall_forall; intros i Hi%elem_of_upto; lia].
  rewrite filter_upto by lia. rewrite <-fmap_take, <-list_fmap_compose, <-fmap_take, <-list_fmap_compose.
  change (90000 - 10000)%N with 80000%N.
  unfold upto. rewrite <-fmap_take, take_seq. replace (N.to_nat 100 `min` N.to_nat 80000)%nat with (N.to_nat 100) by lia.
  done.
Qed.
End Properties.
