(* ===== verification/StorageTests.v ===== *)
(** The unit tests of memtable.rs, wal.rs, snapshot.rs and engine.rs (src/src/storage)
    as programs over the model, and when they pass. *)

From S2P Require Import Prelude Bytes Numerals BTreeMap VectorClock Memtable Externals Wal Snapshot.
From S2P Require Import Engine EngineDurability UnitTests.
Open Scope Z_scope.

(** ** memtable.rs *)

Module memtable_tests.
Definition capacity : Z := 1024 * 1024.

Definition test_put_and_get (t0 t1 : Z) : outcome unit :=
  let mt := MemTable.new capacity in
  let val := VersionedValue.new t0 (b "hello") "node1" 0 in
  let mt := (MemTable.put mt "key1" val).1 in
  let! result := unwrap (MemTable.get t1 mt "key1") in
  assert (same (VersionedValue.value result) (b "hello")).

Definition test_get_nonexistent (t0 : Z) : outcome unit :=
  let mt := MemTable.new capacity in
  assert (same (MemTable.get t0 mt "nope") None).

Definition test_delete (t0 t1 t2 : Z) : outcome unit :=
  let mt := MemTable.new capacity in
  let val := VersionedValue.new t0 (b "hello") "node1" 0 in
  let mt := (MemTable.put mt "key1" val).1 in
  let mt := (MemTable.delete t1 mt "key1" "node1").1 in
  assert (same (MemTable.get t2 mt "key1") None).

(** The thread sleeps 60 ms between the two reads. *)
Definition test_ttl_expiry (t0 t1 t2 : Z) : outcome unit :=
  let mt := MemTable.new capacity in
  let val := VersionedValue.new t0 (b "ephemeral") "node1" 50 in
  let mt := (MemTable.put mt "key1" val).1 in
  let! _ := assert (negb (same (MemTable.get t1 mt "key1") None)) in
  assert (same (MemTable.get t2 mt "key1") None).

(** The thread sleeps 20 ms before the eviction, which reads the clock per entry. *)
Definition test_evict_expired (t0 t1 : Z) (at_ : string -> Z) : outcome unit :=
  let mt := MemTable.new capacity in
  let mt := (MemTable.put mt "exp" (VersionedValue.new t0 (b "bye") "n1" 10)).1 in
  let mt := (MemTable.put mt "keep" (VersionedValue.new t1 (b "stay") "n1" 0)).1 in
  let '(mt, removed) := MemTable.evict_expired at_ mt in
  let! _ := assert (same removed 1%nat) in
  assert (same (MemTable.len mt) 1%nat).

Definition put_numbered (t : N -> Z) (mt : MemTable.t) (i : N) : MemTable.t :=
  let key := "key" +:+ two_digits i in
  (MemTable.put mt key (VersionedValue.new (t i) (b ("val" +:+ pretty i)) "n1" 0)).1.

Definition test_scan_range (t : N -> Z) (at_ : string -> Z) : outcome unit :=
  let mt := foldl (put_numbered t) (MemTable.new capacity) (upto 10) in
  let! results := MemTable.scan at_ mt "key03" "key07" 100 in
  assert (same (length results) 4%nat).

Definition test_vector_clock_dominates : outcome unit :=
  let vc1 := VectorClock.new in
  let vc1 := VectorClock.increment vc1 "a" in
  let vc1 := VectorClock.increment vc1 "a" in
  let vc2 := VectorClock.new in
  let vc2 := VectorClock.increment vc2 "a" in
  let! _ := assert (VectorClock.dominates vc1 vc2) in
  assert (negb (VectorClock.dominates vc2 vc1)).

Definition test_vector_clock_concurrent : outcome unit :=
  let vc1 := VectorClock.new in
  let vc1 := VectorClock.increment vc1 "a" in
  let vc2 := VectorClock.new in
  let vc2 := VectorClock.increment vc2 "b" in
  assert (VectorClock.is_concurrent_with vc1 vc2).

Definition test_drain (t0 t1 : Z) : outcome unit :=
  let mt := MemTable.new capacity in
  let mt := (MemTable.put mt "k1" (VersionedValue.new t0 (b "v1") "n1" 0)).1 in
  let mt := (MemTable.put mt "k2" (VersionedValue.new t1 (b "v2") "n1" 0)).1 in
  let '(mt, drained) := MemTable.drain mt in
  let! _ := assert (same (size drained) 2%nat) in
  assert (MemTable.is_empty mt).
End memtable_tests.

Section MemtableTests.
Import memtable_tests.

(** Without expiry the readings of the clock are not looked at: run the test with the
    conversion to milliseconds left abstract. *)
Ltac run_timeless :=
  cbv [put_numbered VersionedValue.new]; generalize now_ms; intros; vm_compute; reflexivity.

Lemma test_delete_passes (t0 t1 t2 : Z) : test_delete t0 t1 t2 = Return tt.
Proof.
  unfold test_delete, MemTable.delete. cbv zeta.
  apply assert_true, bool_decide_true. unfold MemTable.get. rewrite put_data, lookup_insert_eq.
  by destruct (VersionedValue.is_expired _ _).
Qed.

(** The tests of the table that store without expiry pass whatever the clock shows,
    the clock tests always. *)
Theorem memtable_tests_pass (t0 t1 t2 : Z) (t : N -> Z) (at_ : string -> Z) :
  test_put_and_get t0 t1 = Return tt /\ test_get_nonexistent t0 = Return tt
  /\ test_delete t0 t1 t2 = Return tt /\ test_scan_range t at_ = Return tt
  /\ test_vector_clock_dominates = Return tt /\ test_vector_clock_concurrent = Return tt
  /\ test_drain t0 t1 = Return tt.
Proof.
  split_and!; [unfold test_put_and_get|unfold test_get_nonexistent|apply test_delete_passes
    |unfold test_scan_range| | |unfold test_drain]; run_timeless.
Qed.

(** A value with an expiry read back at a time of its own. *)
Lemma get_after_put mt k bs node (t0 t1 ttl : Z) :
  clock_ok t0 -> clock_ok t1 -> 0 < ttl < 10 ^ 13 ->
  same (MemTable.get t1 (MemTable.put mt k (VersionedValue.new t0 bs node ttl)).1 k) None
  = (t0 + ttl <? t1).
Proof.
  unfold clock_ok. intros H0 H1 Ht. unfold MemTable.get. rewrite put_data, lookup_insert_eq.
  unfold VersionedValue.is_expired, now_ms. cbn [VersionedValue.new VersionedValue.ttl_ms
    VersionedValue.timestamp_ms VersionedValue.deleted]. unfold now_ms.
  rewrite (proj2 (Z.leb_gt ttl 0)), !(wrap_i64_small t0), (wrap_i64_small t1), wrap_i64_small
    by (unfold in_i64; lia).
  by destruct (t0 + ttl <? t1).
Qed.

(** The expiry test depends on the scheduler: it passes exactly when the first read is
    made within the 50 ms of the value's life and the second one after them. *)
Theorem ttl_test_passes (t0 t1 t2 : Z) :
  clock_ok t0 -> clock_ok t1 -> clock_ok t2 ->
  test_ttl_expiry t0 t1 t2 = Return tt <-> t1 <= t0 + 50 < t2.
Proof.
  intros H0 H1 H2. unfold test_ttl_expiry. cbv zeta.
  rewrite !get_after_put by (done || lia).
  destruct (Z.ltb_spec (t0 + 50) t1), (Z.ltb_spec (t0 + 50) t2); cbn; split; done || lia.
Qed.

(** The eviction test passes exactly when the 10 ms of the first value have passed. *)
Theorem evict_test_passes (t0 t1 : Z) (at_ : string -> Z) :
  clock_ok t0 -> clock_ok (at_ "exp") ->
  test_evict_expired t0 t1 at_ = Return tt <-> t0 + 10 < at_ "exp".
Proof.
  unfold clock_ok. intros H0 H1. unfold test_evict_expired, MemTable.evict_expired, MemTable.len.
  cbv zeta. cbn [MemTable.data fst snd]. rewrite !put_data. cbn [MemTable.data MemTable.new].
  set (exp := VersionedValue.new t0 (b "bye") "n1" 10).
  set (keep := VersionedValue.new t1 (b "stay") "n1" 0).
  assert (VersionedValue.is_expired (at_ "keep") keep = false) as Hk by done.
  assert (VersionedValue.is_expired (at_ "exp") exp = (t0 + 10 <? at_ "exp")) as He.
  { unfold VersionedValue.is_expired, exp. cbn. unfold now_ms.
    by rewrite !(wrap_i64_small t0), (wrap_i64_small (at_ _)), wrap_i64_small by (unfold in_i64; lia). }
  clearbody keep exp.
  assert (size (<["keep" := keep]> (∅ : table)) = 1%nat) as Hs1 by (vm_compute; reflexivity).
  assert (size (<["keep" := keep]> (<["exp" := exp]> (∅ : table))) = 2%nat) as Hs2
    by (vm_compute; reflexivity).
  unfold retain. rewrite map_filter_insert. cbn [fst snd]. rewrite Hk. cbn [negb].
  rewrite decide_True by done.
  rewrite map_filter_insert. cbn [fst snd]. rewrite He.
  destruct (Z.ltb_spec (t0 + 10) (at_ "exp")); cbn [negb].
  - destruct (decide (false = true)); [done|].
    rewrite map_filter_delete, map_filter_empty, delete_empty, Hs1, Hs2.
    split; [intros _; assumption|intros _; reflexivity].
  - destruct (decide (true = true)); [|congruence]. rewrite map_filter_empty, Hs2.
    split; [intros Hf; discriminate Hf|lia].
Qed.
End MemtableTests.

(** ** wal.rs *)

Module wal_tests.
Section Tests.
Context `{Crc32, Json WalEntry.t}.

Definition make_value (now : Z) (data : list byte) : VersionedValue.t :=
  VersionedValue.new now data "test-node" 0.

(** [wal.append(key, make_value(data)).unwrap()]. *)
Definition append_value (w : WriteAheadLog.t * list byte) (now : Z) (key : string) (data : list byte)
  : outcome (WriteAheadLog.t * list byte) :=
  let '(wal, file, r) := WriteAheadLog.append w.1 w.2 key (make_value now data) WriteOk in
  let! _ := unwrap_ok r in Return (wal, file).

Definition key_at (entries : list WalEntry.t) (i : nat) : outcome string :=
  let! e := unwrap (entries !! i) in Return (WalEntry.key e).

Definition test_append_and_replay (t1 t2 t3 : Z) : outcome unit :=
  let wal := WriteAheadLog.open "test.wal" None in
  let! wal := append_value wal t1 "key1" (b "value1") in
  let! wal := append_value wal t2 "key2" (b "value2") in
  let! wal := append_value wal t3 "key3" (b "value3") in
  let! _ := assert (same (WriteAheadLog.sequence wal.1) 3) in
  let entries := WriteAheadLog.replay (Some wal.2) in
  let! _ := assert (same (length entries) 3%nat) in
  let! k0 := key_at entries 0 in
  let! _ := assert (same k0 "key1") in
  let! k1 := key_at entries 1 in
  let! _ := assert (same k1 "key2") in
  let! k2 := key_at entries 2 in
  assert (same k2 "key3").

Definition test_checksum_verification (now : Z) : outcome unit :=
  let val := make_value now (b "test") in
  let entry := WalEntry.new 1 "k" val in
  let! _ := assert (WalEntry.verify entry) in
  let corrupted :=
    WalEntry.Entry (WalEntry.sequence entry) "tampered" (WalEntry.value entry)
      (WalEntry.checksum entry) in
  assert (negb (WalEntry.verify corrupted)).

Definition test_truncate (t1 t2 : Z) : outcome unit :=
  let wal := WriteAheadLog.open "test.wal" None in
  let! wal := append_value wal t1 "k1" (b "v1") in
  let! wal := append_value wal t2 "k2" (b "v2") in
  let wal := WriteAheadLog.truncate wal.1 in
  let entries := WriteAheadLog.replay (Some wal.2) in
  let! _ := assert (same entries []) in
  assert (same (WriteAheadLog.sequence wal.1) 0).

Definition test_reopen_continues_sequence (t1 t2 : Z) : outcome unit :=
  let wal := WriteAheadLog.open "test.wal" None in
  let! wal := append_value wal t1 "k1" (b "v1") in
  let! wal := append_value wal t2 "k2" (b "v2") in
  let wal := WriteAheadLog.open "test.wal" (Some wal.2) in
  assert (same (WriteAheadLog.sequence wal.1) 2).

Definition test_replay_nonexistent : outcome unit :=
  let entries := WriteAheadLog.replay None in
  assert (same entries []).
End Tests.
End wal_tests.

Section WalTests.
Import WriteAheadLog wal_tests.
Context `{Crc32, !Crc32Laws, Json WalEntry.t, !JsonLaws WalEntry.t entry_wf}.

(** An open log in the middle of a test: the keys it holds, and as many numbers. *)
Definition holds_keys (w : WriteAheadLog.t * list byte) (keys : list string) : Prop :=
  log_clean w.1 w.2 /\ complete w.2
  /\ WalEntry.key <$> replay (Some w.2) = keys
  /\ sequence w.1 = Z.of_nat (length keys) /\ recover_sequence w.2 = Z.of_nat (length keys).

Lemma holds_no_keys : holds_keys (open "test.wal" None) [].
Proof. split_and!; done || apply complete_nil. Qed.

Lemma append_value_holds w keys now k data :
  holds_keys w keys -> str_wf k -> Z.of_nat (length keys) < 2 ^ 64 - 1 ->
  exists w', append_value w now k data = Return w' /\ holds_keys w' (keys ++ [k]).
Proof.
  intros (Hc & Hf & Hk & Hs & Hr) Hwf Hn.
  assert (value_wf (make_value now data)) as Hv by (apply value_new_wf; decided).
  destruct (append_ok w.1 w.2 k (make_value now data)) as (s & w' & Hj & Ha & Hc' & Hq);
    [done|unfold in_u64; lia|done|done|].
  rewrite Hs, wrap_u64_small in * by (unfold in_u64; lia).
  set (e := WalEntry.new _ k _) in *.
  assert (entry_wf e) as He by (apply entry_new_wf; [unfold in_u64; lia|done|done]).
  exists (w', w.2 ++ s ++ [Byte.x0a]). unfold append_value. rewrite Ha. split; [done|].
  unfold holds_keys. cbn [fst snd]. rewrite length_app. cbn [length].
  split_and!; [done|apply complete_app_line| | |].
  - unfold replay in *. rewrite (replay_loop_line _ e s) by (done || apply verify_new).
    cbn [fst]. by rewrite fmap_app, Hk.
  - rewrite Hq. lia.
  - rewrite (recover_sequence_line _ e s), Hr by done. cbn. lia.
Qed.

Lemma key_at_holds w keys i k :
  holds_keys w keys -> keys !! i = Some k -> key_at (replay (Some w.2)) i = Return k.
Proof.
  intros (_ & _ & Hk & _) Hi. unfold key_at. rewrite <-Hk, list_lookup_fmap in Hi.
  destruct (replay (Some w.2) !! i); [|done]. by injection Hi as <-.
Qed.

(** The next append of a test. *)
Ltac append_next :=
  match goal with
  | Hw : holds_keys ?w ?keys |- context [append_value ?w ?now ?k ?data] =>
    let w' := fresh "w" in let E := fresh "E" in let Hw' := fresh "Hw" in
    destruct (append_value_holds w keys now k data Hw) as (w' & E & Hw');
    [decided|cbn; lia|rewrite E; clear E; cbn [outcome_bind]]
  end.

(** The tests of the log pass whatever the clock shows; the one on checksums exactly
    when the checksum tells the two keys apart. *)
Theorem wal_tests_pass (t1 t2 t3 : Z) :
  test_append_and_replay t1 t2 t3 = Return tt /\ test_truncate t1 t2 = Return tt
  /\ test_reopen_continues_sequence t1 t2 = Return tt /\ test_replay_nonexistent = Return tt
  /\ (test_checksum_verification t1 = Return tt <->
      WalEntry.compute_checksum (WalEntry.Entry 1 "tampered" (make_value t1 (b "test")) 0)
      <> WalEntry.compute_checksum (WalEntry.Entry 1 "k" (make_value t1 (b "test")) 0)).
Proof.
  pose proof holds_no_keys as Hnew. split_and!.
  - unfold test_append_and_replay. cbv zeta. do 3 append_next.
    destruct Hw1 as (? & ? & Hk & Hs & Hr) eqn:E. clear E.
    rewrite Hs. cbn [length app Z.of_nat]. rewrite same_refl. cbn [assert outcome_bind].
    rewrite <-(length_fmap WalEntry.key), Hk, same_refl. cbn [assert outcome_bind].
    do 3 (erewrite key_at_holds by done; cbn [outcome_bind]; rewrite same_refl; cbn [assert outcome_bind]).
    done.
  - unfold test_truncate. cbv zeta. do 2 append_next.
    destruct (truncate_clean w0.1 w0.2) as [Ht _]; [apply Hw0|]. rewrite Ht. done.
  - unfold test_reopen_continues_sequence. cbv zeta. do 2 append_next.
    cbn [open fst sequence]. destruct Hw0 as (_ & _ & _ & _ & ->). done.
  - done.
  - unfold test_checksum_verification. cbv zeta. rewrite verify_new. cbn [assert outcome_bind].
    rewrite assert_true, negb_true_iff. apply Z.eqb_neq.
Qed.
End WalTests.

(** ** snapshot.rs *)

Module snapshot_tests.
Section Tests.
Context `{Crc32, Bincode table}.

(** One entry of [make_data]. *)
Definition add_numbered (t : N -> Z) (data : table) (i : N) : table :=
  let key := "key_" +:+ four_digits i in
  let val := VersionedValue.new (t i) (b ("value_" +:+ pretty i)) "node1" 0 in
  <[key := val]> data.

Definition make_data (t : N -> Z) : table := foldl (add_numbered t) ∅ (upto 100).

(** [loaded.get(k).unwrap().value == v.value]. *)
Definition same_value (loaded : table) (e : string * VersionedValue.t) : outcome unit :=
  let! v := unwrap (loaded !! e.1) in
  assert (same (VersionedValue.value v) (VersionedValue.value e.2)).

Definition test_save_and_load (t : N -> Z) (now : Z) : outcome unit :=
  let data := make_data t in
  let! saved := unwrap_ok (SnapshotManager.save now ∅ data) in
  let '(path, dir) := saved in
  let! _ := assert (negb (same (dir !! path) None)) in
  let! loaded := unwrap_ok (SnapshotManager.load_snapshot dir path) in
  let! _ := assert (same (size loaded) (size data)) in
  foldl (fun r e => let! _ := r in same_value loaded e) (Return tt) (str_iter data).

(** [t1 ms] and [t2 ms] are the times of the two saves, with 10 ms of sleep between. *)
Definition test_load_latest (v1 t1 v2 t2 : Z) : outcome unit :=
  let dir := ∅ in
  let! latest := unwrap_ok (SnapshotManager.load_latest dir) in
  let! _ := assert (same latest None) in
  let data1 : table := <["a" := VersionedValue.new v1 (b "1") "n1" 0]> ∅ in
  let! saved := unwrap_ok (SnapshotManager.save t1 dir data1) in
  let dir := saved.2 in
  let data2 : table := <["b" := VersionedValue.new v2 (b "2") "n1" 0]> ∅ in
  let! saved := unwrap_ok (SnapshotManager.save t2 dir data2) in
  let dir := saved.2 in
  let! latest := unwrap_ok (SnapshotManager.load_latest dir) in
  let! latest := unwrap latest in
  let! _ := assert (negb (same (latest !! "b") None)) in
  assert (same (latest !! "a") None).

(** One save of the loop of [test_cleanup]. *)
Definition save_empty (dir : outcome directory) (now : Z) : outcome directory :=
  let! dir := dir in
  let! saved := unwrap_ok (SnapshotManager.save now dir ∅) in
  Return saved.2.

(** [times] are the times of the five saves, with 5 ms of sleep between. *)
Definition test_cleanup (times : list Z) : outcome unit :=
  let! dir := foldl save_empty (Return ∅) times in
  let '(dir, removed) := SnapshotManager.cleanup 2 dir in
  let! _ := assert (same removed 3%nat) in
  let count := size dir in
  assert (same count 2%nat).

(** [*b ^= 0xff]. *)
Definition flip (x : byte) : byte := byte_of_Z (Z.lxor (Z_of_byte x) 255).
Definition flip_last (bytes : list byte) : list byte :=
  match last bytes with
  | Some x => <[(length bytes - 1)%nat := flip x]> bytes
  | None => bytes
  end.

Definition test_corrupt_snapshot (t : N -> Z) (now : Z) : outcome unit :=
  let data := make_data t in
  let! saved := unwrap_ok (SnapshotManager.save now ∅ data) in
  let '(path, dir) := saved in
  let! bytes := unwrap (dir !! path) in
  let dir := <[path := flip_last bytes]> dir in
  let result := SnapshotManager.load_snapshot dir path in
  assert (negb (is_ok result)).
End Tests.
End snapshot_tests.

Section SnapshotTests.
Import SnapshotManager snapshot_tests.
Context `{Crc32, !Crc32Laws, Bincode table, !BincodeLaws table data_wf}.

Lemma numbered_data_wf t l (data : table) :
  Forall (fun i => (i < 100)%N) l -> data_wf data -> data_wf (foldl (add_numbered t) data l).
Proof.
  revert data; induction l as [|i l IH]; intros data; cbn [foldl]; [done|].
  intros [Hi Hl]%Forall_cons Hd. apply IH; [done|]. apply data_wf_insert; [done| |].
  - assert (Forall (fun i => str_wf ("key_" +:+ four_digits i)) (upto 100)) as Hs by decided.
    rewrite Forall_forall in Hs. apply Hs, list_elem_of_fmap. exists (N.to_nat i).
    rewrite N2Nat.id, elem_of_seq. split; [done|lia].
  - by apply value_new_wf; decided.
Qed.

Lemma make_data_wf t : data_wf (make_data t).
Proof. apply numbered_data_wf; [decided|apply map_Forall_empty]. Qed.

Lemma no_files_saved now : saved_before now ∅.
Proof. intros n Hn. change (n ∈ []) in Hn. by apply not_elem_of_nil in Hn. Qed.

Lemma same_values (data : table) l :
  (forall e, e ∈ l -> data !! e.1 = Some e.2) ->
  foldl (fun r e => let! _ := r in same_value data e) (Return tt) l = Return tt.
Proof.
  induction l as [|e l IH]; intros Hl; cbn [foldl]; [done|].
  assert (same_value data e = Return tt) as He.
  { unfold same_value. rewrite (Hl e) by by left. cbn [unwrap outcome_bind]. by rewrite same_refl. }
  cbn [outcome_bind]. rewrite He. apply IH. intros e' He'. apply Hl. by right.
Qed.

Lemma save_and_load_passes t now : clock_ok now -> test_save_and_load t now = Return tt.
Proof.
  intros Hnow. unfold test_save_and_load. cbv zeta.
  destruct (save_facts now ∅ (make_data t) (make_data_wf t) (clock_ok_ms now Hnow) (no_files_saved _))
    as (name & dir & Hs & Hl & _).
  rewrite Hs. cbn [unwrap_ok outcome_bind]. rewrite Hl.
  assert (same (dir !! name) None = false) as ->.
  { apply bool_decide_false. intros Hn. unfold load_snapshot in Hl. by rewrite Hn in Hl. }
  cbn [negb assert unwrap_ok outcome_bind]. rewrite same_refl. cbn [assert outcome_bind].
  apply same_values. intros [k v] Hkv. by apply (elem_of_iter String.le) in Hkv.
Qed.

Lemma flip_differs x : x <> flip x.
Proof. destruct x; vm_compute; discriminate. Qed.

Lemma corrupt_snapshot_passes t now : clock_ok now -> test_corrupt_snapshot t now = Return tt.
Proof.
  intros Hnow. unfold test_corrupt_snapshot. cbv zeta. unfold save.
  destruct (bincode_total (make_data t) (make_data_wf t)) as [bs Hs]. rewrite Hs.
  cbn [unwrap_ok outcome_bind]. rewrite lookup_insert_eq. cbn [unwrap outcome_bind].
  unfold flip_last. rewrite last_lookup.
  destruct (lookup_lt_is_Some_2 (file_bytes bs) (pred (length (file_bytes bs)))) as [x Hx].
  { unfold file_bytes. rewrite length_app, le_bytes_length. lia. }
  rewrite Hx, insert_insert_eq.
  rewrite (load_changed_byte _ _ bs (length (file_bytes bs) - 1) x (flip x)); [done| | |].
  - by rewrite Nat.sub_1_r.
  - apply flip_differs.
  - apply lookup_insert_eq.
Qed.
Lemma load_latest_passes v1 t1 v2 t2 :
  clock_ok t1 -> clock_ok t2 -> t1 <= t2 -> test_load_latest v1 t1 v2 t2 = Return tt.
Proof.
  intros Ht1 Ht2 Hle. unfold test_load_latest. cbv zeta.
  assert (forall v k, str_wf k -> data_wf (<[k := VersionedValue.new v (b "1") "n1" 0]> ∅)
    /\ data_wf (<[k := VersionedValue.new v (b "2") "n1" 0]> ∅)) as Hwf.
  { intros v k Hk. split; (apply data_wf_insert; [apply map_Forall_empty|done|]);
      by apply value_new_wf; decided. }
  replace (load_latest ∅) with (@Ok io_error (option table) None) by done.
  cbn [unwrap_ok outcome_bind]. rewrite same_refl. cbn [assert outcome_bind].
  edestruct (save_facts t1 ∅ (<["a" := VersionedValue.new v1 (b "1") "n1" 0]> ∅))
    as (n1 & d1 & -> & _ & _ & Hb & _); [apply Hwf; decided|by apply clock_ok_ms|apply no_files_saved|].
  cbn [unwrap_ok outcome_bind fst snd].
  edestruct (save_facts t2 d1 (<["b" := VersionedValue.new v2 (b "2") "n1" 0]> ∅))
    as (n2 & d2 & -> & _ & Hl & _); [apply Hwf; decided|by apply clock_ok_ms| |].
  { eapply saved_before_mono; [|exact Hb]. unfold clock_ok in *; lia. }
  cbn [unwrap_ok outcome_bind fst snd]. rewrite Hl. cbn [unwrap_ok unwrap outcome_bind].
  rewrite lookup_insert_eq, lookup_insert_ne, lookup_empty by done. done.
Qed.

Lemma snapshot_name_inj t u : snapshot_name t = snapshot_name u -> t = u.
Proof.
  unfold snapshot_name. intros E%(inj (String.append "snapshot_")).
  apply (f_equal String.list_ascii_of_string) in E. rewrite !list_ascii_app in E.
  apply app_inv_tail, list_ascii_inj in E. by apply (inj pretty).
Qed.

(** A directory that holds the snapshots of some times and nothing else. *)
Definition holds_saves (dir : directory) (ts : list Z) : Prop :=
  size dir = length ts
  /\ forall n, is_Some (dir !! n) -> exists t, t ∈ ts /\ clock_ok t /\ n = snapshot_name (Z.to_N t).

Lemma holds_saves_names dir ts n :
  holds_saves dir ts -> is_Some (dir !! n) -> is_snapshot_name n = true.
Proof.
  intros [_ Hn] (t & _ & Hok & ->)%Hn. by apply snapshot_name_ok, clock_ok_ms.
Qed.

Lemma only_snapshots dir :
  (forall n, is_Some (dir !! n) -> is_snapshot_name n = true) -> length (snapshots dir) = size dir.
Proof.
  intros Hn. unfold snapshots. rewrite merge_sort_Permutation, <-length_map_to_list.
  rewrite <-(length_fmap fst). f_equal. apply list_filter_all, Forall_forall.
  intros n ([n' v] & -> & Hv%elem_of_map_to_list)%list_elem_of_fmap. apply Hn. by eexists.
Qed.

Lemma save_empty_holds ts dir now :
  holds_saves dir ts -> clock_ok now -> Forall (fun t => t < now) ts ->
  exists dir', save_empty (Return dir) now = Return dir' /\ holds_saves dir' (ts ++ [now]).
Proof.
  intros [Hs Hn] Hnow Hlt. unfold save_empty, save. cbn [outcome_bind].
  destruct (bincode_total ∅ (map_Forall_empty _)) as [bs ->]. cbn [unwrap_ok outcome_bind snd].
  eexists. split; [done|]. split.
  - rewrite map_size_insert_None, Hs, length_app; [cbn; lia|].
    apply eq_None_not_Some. intros (t & Ht & Hok & E)%Hn.
    apply snapshot_name_inj in E. rewrite Forall_forall in Hlt. specialize (Hlt t Ht).
    unfold clock_ok in *. lia.
  - intros n [v [[<- _]|[_ Hv]]%lookup_insert_Some].
    + exists now. rewrite elem_of_app. split_and!; [right; by left|done|done].
    + destruct (Hn n) as (t & Ht & Hok & ->); [done|]. exists t. rewrite elem_of_app. auto.
Qed.

Lemma save_all_holds times dir ts :
  holds_saves dir ts -> Forall clock_ok times -> StronglySorted Z.lt (ts ++ times) ->
  exists dir', foldl save_empty (Return dir) times = Return dir' /\ holds_saves dir' (ts ++ times).
Proof.
  revert dir ts; induction times as [|now times IH]; intros dir ts Hd Hok Hs; cbn [foldl].
  { exists dir. by rewrite app_nil_r. }
  apply Forall_cons in Hok as [Hnow Hok].
  destruct (save_empty_holds ts dir now) as (d1 & -> & Hd1); [done|done| |].
  { apply Forall_forall. intros t Ht. eapply StronglySorted_app_1_elem_of; [exact Hs|done|by left]. }
  assert (ts ++ now :: times = (ts ++ [now]) ++ times) as E by by rewrite <-app_assoc.
  rewrite E in *. by apply IH.
Qed.

Lemma cleanup_passes times :
  length times = 5%nat -> Forall clock_ok times -> StronglySorted Z.lt times ->
  test_cleanup times = Return tt.
Proof.
  intros Hl Hok Hs. unfold test_cleanup.
  destruct (save_all_holds times ∅ []) as (dir & -> & Hd); [|done|done|].
  { split; [done|]. intros n [v Hv]. by apply lookup_empty_Some in Hv. }
  cbn [app] in Hd. cbn [outcome_bind].
  assert (forall n, is_Some (dir !! n) -> is_snapshot_name n = true) as Hnames
    by (intros n; by eapply holds_saves_names).
  assert (length (snapshots dir) = 5%nat) as H5
    by (rewrite only_snapshots, <-Hl by done; apply Hd).
  pose proof (snapshots_cleanup 2 dir) as Hdrop. pose proof (cleanup_facts 2 dir) as Hc.
  assert (length (snapshots (cleanup 2 dir).1) = size (cleanup 2 dir).1) as Hcount.
  { apply only_snapshots. intros n [v [Hv _]%cleanup_lookup]. apply Hnames. by eexists. }
  destruct (cleanup 2 dir) as [dir' removed]. destruct Hc as (-> & _). cbn [fst] in *.
  by rewrite H5, <-Hcount, Hdrop, length_drop, H5.
Qed.

(** The tests of the snapshots pass when the readings of the clock have 13 digits and
    the sleeps between two saves let it move on. *)
Theorem snapshot_tests_pass (t : N -> Z) (now v1 t1 v2 t2 : Z) (times : list Z) :
  clock_ok now -> clock_ok t1 -> clock_ok t2 -> t1 < t2 ->
  length times = 5%nat -> Forall clock_ok times -> StronglySorted Z.lt times ->
  test_save_and_load t now = Return tt /\ test_load_latest v1 t1 v2 t2 = Return tt
  /\ test_cleanup times = Return tt /\ test_corrupt_snapshot t now = Return tt.
Proof.
  intros. split_and!; [by apply save_and_load_passes|apply load_latest_passes; done || lia
    |by apply cleanup_passes|by apply corrupt_snapshot_passes].
Qed.
End SnapshotTests.

(** ** engine.rs *)

Module engine_tests.
Section Tests.
Context `{Crc32, Json WalEntry.t, Bincode table}.

Definition test_config : StorageConfig.t :=
  StorageConfig.Config "tmp" (1024 * 1024) (3600 * 1000) (3600 * 1000) 3 "test-node".

(** An engine with the directory it works in. *)
Definition store : Type := StorageEngine.t * disk.

Definition make_engine (d : disk) : outcome store :=
  let '(d, r) := StorageEngine.open test_config d in
  let! engine := unwrap_ok r in Return (engine, d).

(** A fresh temporary directory. *)
Definition tmp : disk := Disk None ∅.

Definition put_raw (s : store) (now : Z) (key : string) (value : list byte) : outcome store :=
  let '(engine, d, r) := StorageEngine.put_raw now WriteOk s.1 s.2 key value 0 in
  let! _ := unwrap_ok r in Return (engine, d).

Definition value_of (s : store) (now : Z) (key : string) : outcome (list byte) :=
  let! v := unwrap (StorageEngine.get now s.1 key) in Return (VersionedValue.value v).

Definition test_put_and_get (t0 t1 : Z) : outcome unit :=
  let! s := make_engine tmp in
  let! s := put_raw s t0 "hello" (b "world") in
  let! val := value_of s t1 "hello" in
  assert (same val (b "world")).

Definition test_delete (t0 t1 t2 : Z) : outcome unit :=
  let! s := make_engine tmp in
  let! s := put_raw s t0 "key" (b "val") in
  let '(engine, d, r) := StorageEngine.delete t1 WriteOk s.1 s.2 "key" in
  let! _ := unwrap_ok r in
  assert (same (StorageEngine.get t2 engine "key") None).

(** The last block of the two recovery tests: the directory is opened again. *)
Definition recover_and_read (t3 t4 : Z) (d : disk) : outcome unit :=
  let! s := make_engine d in
  let! v1 := value_of s t3 "k1" in
  let! _ := assert (same v1 (b "v1")) in
  let! v2 := value_of s t4 "k2" in
  assert (same v2 (b "v2")).

Definition test_flush_and_recovery (t0 t1 t2 t3 t4 : Z) : outcome unit :=
  let! s := make_engine tmp in
  let! s := put_raw s t0 "k1" (b "v1") in
  let! s := put_raw s t1 "k2" (b "v2") in
  let '(_, d, r) := StorageEngine.flush t2 s.1 s.2 in
  let! _ := unwrap_ok r in
  recover_and_read t3 t4 d.

Definition test_wal_recovery_without_snapshot (t0 t1 t3 t4 : Z) : outcome unit :=
  let! s := make_engine tmp in
  let! s := put_raw s t0 "k1" (b "v1") in
  let! s := put_raw s t1 "k2" (b "v2") in
  recover_and_read t3 t4 s.2.

Definition put_numbered (t : N -> Z) (s : outcome store) (i : N) : outcome store :=
  let! s := s in
  put_raw s (t i) ("key" +:+ two_digits i) (b ("val" +:+ pretty i)).

Definition test_scan (t : N -> Z) (at_ : string -> Z) : outcome unit :=
  let! s := make_engine tmp in
  let! s := foldl (put_numbered t) (Return s) (upto 10) in
  let! results := StorageEngine.scan at_ s.1 "key03" "key07" 100 in
  assert (same (length results) 4%nat).
End Tests.
End engine_tests.

Section EngineTests.
Import StorageEngine engine_tests.
Context `{Crc32, !Crc32Laws, Json WalEntry.t, !JsonLaws WalEntry.t entry_wf}.
Context `{Bincode table, !BincodeLaws table data_wf}.

(** A store in the middle of a test: durable at some time, with the values put so far,
    none of which expires. *)
Definition lasting (bs : list byte) (v : VersionedValue.t) : Prop :=
  VersionedValue.value v = bs /\ VersionedValue.ttl_ms v = 0 /\ VersionedValue.deleted v = false.

(** The entries that stand for some puts. *)
Definition puts : list (string * VersionedValue.t) -> list (string * list byte) -> Prop :=
  Forall2 (fun p e => p.1 = e.1 /\ lasting e.2 p.2).

Definition holds_values (now : Z) (s : store) (values : list (string * list byte)) : Prop :=
  durable now s.1 s.2 /\ WriteAheadLog.sequence (wal s.1) = Z.of_nat (length values)
  /\ exists l, MemTable.data (memtable s.1) = extend ∅ l /\ puts l values.

Lemma make_engine_holds now :
  clock_ok now -> exists s, make_engine tmp = Return s /\ holds_values now s [].
Proof.
  intros Hnow. destruct (open_fresh now test_config Hnow) as (e & d & Ho & Hd & Hm & Hs & _);
    [decided|decided|].
  unfold make_engine, tmp. rewrite Ho. exists (e, d). split; [done|].
  split_and!; [done|done|]. exists []. cbn [fst]. rewrite Hm. by split; [|constructor].
Qed.

Lemma put_raw_holds t0 t1 now s values k bs :
  holds_values t0 s values -> t0 <= t1 -> clock_ok t1 -> str_wf k ->
  Z.of_nat (length values) < 2 ^ 64 - 1 ->
  exists s', put_raw s now k bs = Return s' /\ holds_values t1 s' (values ++ [(k, bs)]).
Proof.
  intros (Hd & Hq & l & Hm & Hl) Hle Hok Hk Hn.
  assert (durable t1 s.1 s.2) as Hd1 by by eapply durable_mono.
  assert (log_open s.1) as Hlog by (unfold log_open; rewrite Hq; lia).
  unfold put_raw, StorageEngine.put_raw.
  set (v := VersionedValue.with_clock _ _).
  assert (value_wf v) as Hv by (apply versioned_wf; try apply Hd; split; lia).
  destruct (put_durable t1 s.1 s.2 k v) as (e & d & Hp & Hd' & Hm'); [done..|].
  pose proof (put_sequence t1 _ _ _ _ _ _ Hd1 Hk Hv Hlog Hp) as Hq'.
  rewrite Hp. cbn [unwrap_ok outcome_bind]. exists (e, d). split; [done|].
  split_and!; [done|cbn [fst]; rewrite Hq', Hq, length_app; cbn; lia|].
  exists (l ++ [(k, v)]). split; [cbn [fst]; by rewrite Hm', Hm, extend_app|].
  apply Forall2_app; [done|]. by repeat constructor.
Qed.

(** A key that was put once reads back as what was put. *)
Lemma extend_last (l1 l2 : list (string * VersionedValue.t)) k v :
  k ∉ l2.*1 -> extend ∅ (l1 ++ (k, v) :: l2) !! k = Some v.
Proof.
  intros Hk. rewrite extend_app. cbn. fold (extend (<[k := v]> (extend ∅ l1)) l2).
  by rewrite lookup_extend_notin, lookup_insert_eq.
Qed.

Lemma puts_keys (l : list (string * VersionedValue.t)) (values : list (string * list byte)) :
  puts l values -> l.*1 = values.*1.
Proof. induction 1 as [|p e l values [Hp _] _ IH]; [done|]. cbn. by rewrite Hp, IH. Qed.

Lemma puts_visible at_ l values : puts l values -> Forall (fun p => MemTable.visible at_ p = true) l.
Proof.
  induction 1 as [|p e l values (_ & _ & Ht & Hd) _ IH]; constructor; [|done].
  unfold MemTable.visible, VersionedValue.is_expired. by rewrite Ht, Hd.
Qed.

Lemma elem_of_extend (l : list (string * VersionedValue.t)) k v :
  extend ∅ l !! k = Some v -> (k, v) ∈ l.
Proof.
  induction l as [|[k' v'] l IH] using rev_ind; [cbn; by intros ?%lookup_empty_Some|].
  rewrite extend_app, elem_of_app. cbn. intros [[-> ->]|[_ Hv]]%lookup_insert_Some.
  - right. by left.
  - left. by apply IH.
Qed.

Lemma holds_lookup now s values1 k bs values2 :
  holds_values now s (values1 ++ (k, bs) :: values2) -> k ∉ values2.*1 ->
  exists v, MemTable.data (memtable s.1) !! k = Some v /\ lasting bs v.
Proof.
  intros (_ & _ & l & Hm & Hl) Hk.
  apply Forall2_app_inv_r in Hl as (l1 & l2 & _ & Hl2 & ->).
  apply Forall2_cons_inv_r in Hl2 as ([k' v] & l3 & [Hkk Hv] & Hl3 & ->). cbn in Hkk, Hv. subst k'.
  exists v. split; [|done]. by rewrite Hm, extend_last; rewrite ?(puts_keys _ _ Hl3).
Qed.

Lemma lasting_get now e k v bs :
  MemTable.data (memtable e) !! k = Some v -> lasting bs v -> StorageEngine.get now e k = Some v.
Proof.
  intros Hk (_ & Ht & Hd). unfold StorageEngine.get, MemTable.get. rewrite Hk.
  unfold VersionedValue.is_expired. by rewrite Ht, Hd.
Qed.

Lemma value_of_lasting now s k v bs :
  MemTable.data (memtable s.1) !! k = Some v -> lasting bs v -> value_of s now k = Return bs.
Proof.
  intros Hk Hv. unfold value_of. rewrite (lasting_get now _ k v bs) by done. cbn. by rewrite (proj1 Hv).
Qed.

Lemma recover_and_read_passes t0 e d v1 v2 t3 t4 :
  durable t0 e d ->
  MemTable.data (memtable e) !! "k1" = Some v1 -> lasting (b "v1") v1 ->
  MemTable.data (memtable e) !! "k2" = Some v2 -> lasting (b "v2") v2 ->
  recover_and_read t3 t4 d = Return tt.
Proof.
  intros Hd Hk1 Hv1 Hk2 Hv2.
  destruct (open_durable t0 t0 test_config e d) as (e' & Ho & _ & Ha);
    [done|apply Hd|done|decided|decided|].
  assert (forall k v, MemTable.data (memtable e) !! k = Some v ->
    MemTable.data (memtable e') !! k = Some v) as Hsame.
  { intros k v Hk. destruct (Ha k) as [E|[E _]]; congruence. }
  unfold recover_and_read, make_engine. rewrite Ho. cbn [unwrap_ok outcome_bind].
  erewrite value_of_lasting by (done || by apply Hsame). cbn [outcome_bind].
  rewrite same_refl. cbn [assert outcome_bind].
  erewrite value_of_lasting by (done || by apply Hsame). cbn [outcome_bind].
  by rewrite same_refl.
Qed.

(** The next put of a test. *)
Ltac put_next t1 :=
  match goal with
  | Hs : holds_values ?t0 ?s ?values |- context [put_raw ?s ?now ?k ?bs] =>
    let s' := fresh "s" in let E := fresh "E" in let Hs' := fresh "Hs" in
    destruct (put_raw_holds t0 t1 now s values k bs Hs) as (s' & E & Hs');
    [done|done|decided|cbn; lia|rewrite E; clear E; cbn [outcome_bind app] in *]
  end.

Ltac make_next now :=
  let s := fresh "s" in let E := fresh "E" in let Hs := fresh "Hs" in
  destruct (make_engine_holds now) as (s & E & Hs); [done|rewrite E; clear E; cbn [outcome_bind]].

Lemma put_and_get_passes now t0 t1 : clock_ok now -> test_put_and_get t0 t1 = Return tt.
Proof.
  intros Hnow. unfold test_put_and_get. make_next now. put_next now.
  destruct (holds_lookup now s0 [] "hello" (b "world") []) as (v & Hk & Hv); [done|set_solver|].
  rewrite (value_of_lasting t1 s0 "hello" v (b "world")) by done. cbn [outcome_bind].
  by rewrite same_refl.
Qed.

Lemma delete_passes now t0 t1 t2 : clock_ok now -> test_delete t0 t1 t2 = Return tt.
Proof.
  intros Hnow. unfold test_delete. make_next now. put_next now.
  destruct (delete_durable now t1 s0.1 s0.2 "key") as (e & d & E & _ & Hm);
    [apply Hs0|decided|destruct Hs0 as (_ & -> & _); cbn; lia|].
  rewrite E. cbn [unwrap_ok outcome_bind]. unfold StorageEngine.get, MemTable.get.
  rewrite Hm, lookup_insert_eq. by destruct (VersionedValue.is_expired _ _).
Qed.

Lemma flush_and_recovery_passes t0 t1 t2 t3 t4 :
  clock_ok t2 -> test_flush_and_recovery t0 t1 t2 t3 t4 = Return tt.
Proof.
  intros Ht2. unfold test_flush_and_recovery. make_next t2. do 2 put_next t2.
  destruct (holds_lookup t2 s1 [] "k1" (b "v1") [("k2", b "v2")]) as (v1 & Hk1 & Hv1); [done|set_solver|].
  destruct (holds_lookup t2 s1 [("k1", b "v1")] "k2" (b "v2") []) as (v2 & Hk2 & Hv2); [done|set_solver|].
  destruct (flush_durable t2 s1.1 s1.2) as (e & d & E & Hd & Hm & _); [apply Hs1|].
  rewrite E. cbn [unwrap_ok outcome_bind]. rewrite <-Hm in *.
  by eapply (recover_and_read_passes t2 e d v1 v2).
Qed.

Lemma wal_recovery_passes now t0 t1 t3 t4 :
  clock_ok now -> test_wal_recovery_without_snapshot t0 t1 t3 t4 = Return tt.
Proof.
  intros Hnow. unfold test_wal_recovery_without_snapshot. make_next now. do 2 put_next now.
  destruct (holds_lookup now s1 [] "k1" (b "v1") [("k2", b "v2")]) as (v1 & Hk1 & Hv1); [done|set_solver|].
  destruct (holds_lookup now s1 [("k1", b "v1")] "k2" (b "v2") []) as (v2 & Hk2 & Hv2); [done|set_solver|].
  eapply (recover_and_read_passes now s1.1 s1.2 v1 v2); try done. apply Hs1.
Qed.

(** The loop of the scan test. *)
Lemma put_numbered_holds now t l s values :
  clock_ok now -> holds_values now s values -> Forall (fun i => (i < 100)%N) l ->
  Z.of_nat (length values + length l) < 2 ^ 64 - 1 ->
  exists s', foldl (put_numbered t) (Return s) l = Return s'
    /\ holds_values now s' (values
         ++ ((fun i => ("key" +:+ two_digits i, b ("val" +:+ pretty i))) <$> l)).
Proof.
  intros Hnow. revert s values; induction l as [|i l IH]; intros s values Hs Hl Hn; cbn [foldl length] in *.
  { exists s. by rewrite app_nil_r. }
  apply Forall_cons in Hl as [Hi Hl]. unfold put_numbered at 2. cbn [outcome_bind].
  assert (str_wf ("key" +:+ two_digits i)) as Hk.
  { assert (Forall (fun i => str_wf ("key" +:+ two_digits i)) (upto 100)) as Hall by decided.
    rewrite Forall_forall in Hall. apply Hall, list_elem_of_fmap. exists (N.to_nat i).
    rewrite N2Nat.id, elem_of_seq. split; [done|lia]. }
  destruct (put_raw_holds now now (t i) s values ("key" +:+ two_digits i) (b ("val" +:+ pretty i)) Hs) as (s' & -> & Hs');
    [done|done|exact Hk|lia|].
  rewrite fmap_cons. change (?x :: ?l) with ([x] ++ l). rewrite (assoc_L (++)).
  apply IH; [done|done|]. rewrite length_app. cbn. lia.
Qed.

Lemma scan_passes now t at_ : clock_ok now -> test_scan t at_ = Return tt.
Proof.
  intros Hnow. unfold test_scan. make_next now.
  destruct (put_numbered_holds now t (upto 10) s []) as (s' & E & _ & _ & l & Hm & Hl);
    [done|done|decided|vm_compute; done|].
  rewrite E. cbn [outcome_bind]. unfold scan, MemTable.scan. rewrite Hm.
  assert (exists entries, range String.le "key03" "key07" (extend ∅ l) = Return entries
    /\ Forall (fun p => MemTable.visible at_ p = true) entries /\ length entries = 4%nat)
    as (entries & -> & Hv & Hlen).
  - pose proof (puts_keys _ _ Hl) as Hk. pose proof (puts_visible at_ _ _ Hl) as Hv.
    unfold range. rewrite decide_True by decided. eexists. split; [done|]. split.
    + apply Forall_forall. intros [k v] [_ Hkv]%list_elem_of_filter.
      apply (elem_of_iter String.le), elem_of_extend in Hkv.
      rewrite Forall_forall in Hv. by apply Hv.
    + rewrite <-(zip_fst_snd l), Hk. assert (length l.*2 = 10%nat) as Hn
        by (rewrite length_fmap, <-(length_fmap fst), Hk; done).
      generalize dependent (l.*2). intros vs Hn.
      do 10 (destruct vs as [|? vs]; [done|]). destruct vs; [|done]. vm_compute. reflexivity.
  - rewrite list_filter_all by done. cbn [outcome_bind]. rewrite length_take, Hlen. done.
Qed.

(** The tests of the engine pass whatever the clock shows, flushes excepted, which need
    a reading with 13 digits. *)
Theorem engine_tests_pass (t0 t1 t2 t3 t4 : Z) (t : N -> Z) (at_ : string -> Z) :
  clock_ok t2 ->
  test_put_and_get t0 t1 = Return tt /\ test_delete t0 t1 t2 = Return tt
  /\ test_flush_and_recovery t0 t1 t2 t3 t4 = Return tt
  /\ test_wal_recovery_without_snapshot t0 t1 t3 t4 = Return tt
  /\ test_scan t at_ = Return tt.
Proof.
  intros Hck. split_and!; [by eapply put_and_get_passes|by eapply delete_passes
    |by apply flush_and_recovery_passes|by eapply wal_recovery_passes|by eapply scan_passes].
Qed.
End EngineTests.
