(* ===== verification/RingTests.v ===== *)
(** The unit tests of src/src/ring/consistent_hash.rs as programs over the model, and
    when they pass. SHA-256 stays a parameter: what depends on the spread of its digests
    is characterised instead of decided. *)

From S2P Require Import Prelude Bytes BTreeMap Externals ConsistentHash UnitTests.
Open Scope Z_scope.

(** ** consistent_hash.rs *)

Module ring_tests.
Section Tests.
Context `{Sha256}.
Import HashRing.

Definition make_node (id : string) : Node.t :=
  Node.Mk id ("127.0.0.1:" +:+ pretty (50000 + N.of_nat (String.length id))%N).

(** The rings of the tests: two and three nodes with 150 virtual nodes each. *)
Definition ring_2 : t :=
  let ring := new 150 3 in
  let ring := add_node ring (make_node "node1") in
  add_node ring (make_node "node2").
Definition ring_3 : t := add_node ring_2 (make_node "node3").

Definition contains (ids : list string) (id : string) : bool :=
  existsb (fun x => same x id) ids.

Definition test_add_and_get_node : outcome unit :=
  let! node := unwrap (get_node ring_3 "my-key") in
  assert (contains ["node1"; "node2"; "node3"] (Node.id node)).

Definition test_replication_returns_unique_nodes : outcome unit :=
  let nodes := get_nodes ring_3 "some-key" in
  let! _ := assert (same (length nodes) 3%nat) in
  let ids : gset string := list_to_set (Node.id <$> nodes) in
  assert (same (size ids) 3%nat).

Definition test_replication_with_fewer_nodes : outcome unit :=
  let nodes := get_nodes ring_2 "key" in
  assert (same (length nodes) 2%nat).

Definition test_remove_node : outcome unit :=
  let ring := remove_node ring_3 "node2" in
  let! _ := assert (same (node_count ring) 2%nat) in
  let nodes := get_all_nodes ring in
  assert (forallb (fun n => negb (same (Node.id n) "node2")) nodes).

Definition test_consistency : outcome unit :=
  let! node1 := unwrap (get_node ring_3 "consistent-key") in
  let! node2 := unwrap (get_node ring_3 "consistent-key") in
  assert (same (Node.id node1) (Node.id node2)).

(** [format!("key-{}", i)]. *)
Definition numbered_key (i : N) : string := "key-" +:+ pretty i.

(** One round of the counting loop. *)
Definition count_key (counts : outcome (gmap string N)) (i : N) : outcome (gmap string N) :=
  let! counts := counts in
  let! node := unwrap (get_node ring_3 (numbered_key i)) in
  Return (<[Node.id node := (default 0 (counts !! Node.id node) + 1)%N]> counts).

(** [ratio > 0.2 && ratio < 0.47] for the quotient of [count] and 10000: quotients of
    different counts are different doubles in the same order, those of 2000 and 4700 are
    the two literals. *)
Definition balanced (count : N) : bool := (2000 <? count)%N && (count <? 4700)%N.

Definition test_distribution : outcome unit :=
  let! counts := foldl count_key (Return ∅) (upto 10000) in
  foldl (fun r e => let! _ := r in assert (balanced e.2)) (Return tt) (map_to_list counts).

Definition test_empty_ring : outcome unit :=
  let ring := new 150 3 in
  let! _ := assert (same (get_node ring "key") None) in
  assert (same (get_nodes ring "key") []).

(** [ring.get_node(&key).unwrap().id], for the keys of a loop. *)
Definition owner (ring : t) (i : N) : outcome string :=
  let! node := unwrap (get_node ring (numbered_key i)) in Return (Node.id node).

Fixpoint owners (ring : t) (l : list N) : outcome (list string) :=
  match l with
  | [] => Return []
  | i :: l => let! id := owner ring i in let! ids := owners ring l in Return (id :: ids)
  end.

Definition test_minimal_disruption_on_add : outcome unit :=
  let! before := owners ring_2 (upto 1000) in
  let! after := owners ring_3 (upto 1000) in
  let moved := length (filter (fun p => p.1 <> p.2) (zip before after)) in
  assert (moved <? 500)%nat.
End Tests.
End ring_tests.

Section RingTests.
Import HashRing ring_tests.
Context `{Sha256}.

Definition ops_2 : list ring_op := [AddNode (make_node "node1"); AddNode (make_node "node2")].
Definition ops_3 : list ring_op := ops_2 ++ [AddNode (make_node "node3")].

Lemma ring_2_eq : ring_2 = apply_ops (new 150 3) ops_2.
Proof. reflexivity. Qed.
Lemma ring_3_eq : ring_3 = apply_ops (new 150 3) ops_3.
Proof. reflexivity. Qed.

(** Every node on a ring was added by one of the operations. *)
Lemma get_node_added k f ops key n :
  get_node (apply_ops (new k f) ops) key = Some n -> AddNode n ∈ ops.
Proof.
  intros (h & Hh%apply_ops_last & _)%get_node_first. apply last_Some in Hh as [l Hl].
  assert (AddNode n ∈ filter (fun o => op_id o = Node.id n) ops) as Hin
    by (rewrite Hl; apply elem_of_app; right; by left).
  by apply list_elem_of_filter in Hin as [_ ?].
Qed.

(** A ring that a node was just added to has an owner for every key. *)
Lemma owner_found self n key :
  (0 < vnodes_per_node self)%N -> is_Some (get_node (add_node self n) key).
Proof.
  intros Hk. apply not_eq_None_Some. intros Hn%get_node_None.
  pose proof (add_node_lookup self n (hash (vnode_key (Node.id n) 0))) as Hl.
  rewrite Hn, lookup_empty, decide_True in Hl; [done|]. apply elem_of_positions. by exists 0%N.
Qed.

Lemma owner_3 key : exists n, get_node ring_3 key = Some n
  /\ n ∈ [make_node "node1"; make_node "node2"; make_node "node3"].
Proof.
  destruct (owner_found ring_2 (make_node "node3") key) as [n Hn]; [done|].
  exists n. split; [exact Hn|]. fold ring_3 in Hn. rewrite ring_3_eq in Hn.
  apply get_node_added in Hn. unfold ops_3, ops_2 in Hn. cbn [app] in Hn.
  rewrite !elem_of_cons in *. destruct Hn as [[= ->]|[[= ->]|[[= ->]|Hn%elem_of_nil]]]; tauto.
Qed.

Lemma owner_2 key : exists n, get_node ring_2 key = Some n
  /\ n ∈ [make_node "node1"; make_node "node2"].
Proof.
  destruct (owner_found (add_node (new 150 3) (make_node "node1")) (make_node "node2") key)
    as [n Hn]; [done|].
  exists n. split; [exact Hn|]. fold ring_2 in Hn. rewrite ring_2_eq in Hn.
  apply get_node_added in Hn. unfold ops_2 in Hn. rewrite !elem_of_cons in *.
  destruct Hn as [[= ->]|[[= ->]|Hn%elem_of_nil]]; tauto.
Qed.

(** The tests that ask for some owner pass for every hash function. *)
Theorem ring_tests_pass :
  test_add_and_get_node = Return tt /\ test_consistency = Return tt
  /\ test_empty_ring = Return tt.
Proof.
  split_and!.
  - unfold test_add_and_get_node. destruct (owner_3 "my-key") as (n & -> & Hn).
    cbn [unwrap outcome_bind]. rewrite !elem_of_cons in Hn.
    destruct Hn as [->|[->|[->|Hn%elem_of_nil]]]; done.
  - unfold test_consistency. destruct (owner_3 "consistent-key") as (n & -> & _).
    cbn [unwrap outcome_bind]. by rewrite same_refl.
  - done.
Qed.

(** *** Tests that need every node on the ring *)

Lemma no_collision_mono k ids ids' :
  (forall x, x ∈ ids -> x ∈ ids') -> no_collision k ids' -> no_collision k ids.
Proof. intros Hsub Hnc x y i j Hx Hy. apply Hnc; auto. Qed.

Lemma elem_of_members k f ops x :
  no_collision k (op_id <$> ops) -> (0 < k)%N ->
  x ∈ member_ids (ring (apply_ops (new k f) ops))
  <-> exists n, Node.id n = x /\ last_op ops x = Some (AddNode n).
Proof.
  intros Hnc Hk. unfold member_ids. rewrite elem_of_list_to_set, list_elem_of_fmap. split.
  - intros (n & -> & Hn). apply list_elem_of_fmap in Hn as ([p m] & -> & Hm%elem_of_map_to_list).
    exists m. split; [done|]. by eapply apply_ops_last.
  - intros (n & <- & Hl). exists n. split; [done|]. apply list_elem_of_fmap.
    exists (hash (vnode_key (Node.id n) 0), n). split; [done|].
    apply elem_of_map_to_list. by apply apply_ops_present.
Qed.

(** The identifiers on a ring, from the last operation on each of them. *)
Lemma members_eq k f ops (ids : list string) :
  no_collision k (op_id <$> ops) -> (0 < k)%N ->
  Forall (fun x => exists n, Node.id n = x /\ last_op ops x = Some (AddNode n)) ids ->
  (forall x n, last_op ops x = Some (AddNode n) -> Node.id n = x -> x ∈ ids) ->
  member_ids (ring (apply_ops (new k f) ops)) = list_to_set ids.
Proof.
  intros Hnc Hk Hall Honly. apply set_eq. intros x.
  rewrite elem_of_members, elem_of_list_to_set by done. split.
  - intros (n & Hn & Hl). by eapply Honly.
  - intros Hx. rewrite Forall_forall in Hall. by apply Hall.
Qed.

Definition node_ids : list string := ["node1"; "node2"; "node3"].

(** Each of the listed identifiers was added last. *)
Ltac all_added := repeat (apply Forall_cons; split; [eexists; split; [|reflexivity]; reflexivity|]);
  apply Forall_nil; exact I.

Lemma last_op_in ops x o : last_op ops x = Some o -> o ∈ ops.
Proof.
  intros [l Hl]%last_Some.
  assert (o ∈ filter (fun o => op_id o = x) ops) as Hin by (rewrite Hl; apply elem_of_app; right; by left).
  by apply list_elem_of_filter in Hin as [_ ?].
Qed.

Lemma members_3 : no_collision 150 node_ids -> member_ids (ring ring_3) = list_to_set node_ids.
Proof.
  intros Hnc. rewrite ring_3_eq. apply members_eq; [done|done| |].
  - all_added.
  - intros x n Hl%last_op_in <-. unfold ops_3, ops_2, node_ids in *. cbn [app] in Hl.
    rewrite !elem_of_cons in *. destruct Hl as [[= ->]|[[= ->]|[[= ->]|Hl%elem_of_nil]]]; tauto.
Qed.

Lemma members_2 :
  no_collision 150 node_ids -> member_ids (ring ring_2) = list_to_set ["node1"; "node2"].
Proof.
  intros Hnc. rewrite ring_2_eq. apply members_eq; [|done| |].
  - eapply no_collision_mono; [|exact Hnc]. intros x Hx. unfold node_ids.
    cbn in Hx. rewrite !elem_of_cons in *. tauto.
  - all_added.
  - intros x n Hl%last_op_in <-. unfold ops_2 in *.
    rewrite !elem_of_cons in *. destruct Hl as [[= ->]|[[= ->]|Hl%elem_of_nil]]; tauto.
Qed.

Definition ops_13 : list ring_op := ops_3 ++ [RemoveNode "node2"].

Lemma members_13 :
  no_collision 150 node_ids ->
  member_ids (ring (remove_node ring_3 "node2")) = list_to_set ["node1"; "node3"].
Proof.
  intros Hnc. change (remove_node ring_3 "node2") with (apply_ops (new 150 3) ops_13).
  apply members_eq; [|done| |].
  - eapply no_collision_mono; [|exact Hnc]. intros x Hx. unfold node_ids.
    cbn in Hx. rewrite !elem_of_cons in *. tauto.
  - all_added.
  - intros x n Hl Hid. pose proof (last_op_in _ _ _ Hl) as Hin. unfold ops_13, ops_3, ops_2 in Hin.
    cbn [app] in Hin. rewrite !elem_of_cons in *.
    destruct Hin as [[= ->]|[[= ->]|[[= ->]|[?|Hin%elem_of_nil]]]]; subst x; try tauto; done.
Qed.

Lemma unique_nodes_passes :
  no_collision 150 node_ids -> test_replication_returns_unique_nodes = Return tt.
Proof.
  intros Hnc. unfold test_replication_returns_unique_nodes. cbv zeta.
  destruct (get_nodes_ids ring_3 "some-key") as [Hnd Hl]. rewrite members_3 in Hl by done.
  change (length (get_nodes ring_3 "some-key") = 3%nat) in Hl.
  rewrite Hl, same_refl. cbn [assert outcome_bind].
  by rewrite size_list_to_set, length_fmap, Hl by done.
Qed.

Lemma fewer_nodes_passes :
  no_collision 150 node_ids -> test_replication_with_fewer_nodes = Return tt.
Proof.
  intros Hnc. unfold test_replication_with_fewer_nodes. cbv zeta.
  destruct (get_nodes_ids ring_2 "key") as [_ Hl]. rewrite members_2 in Hl by done.
  change (length (get_nodes ring_2 "key") = 2%nat) in Hl. by rewrite Hl, same_refl.
Qed.

Lemma remove_node_passes : no_collision 150 node_ids -> test_remove_node = Return tt.
Proof.
  intros Hnc. unfold test_remove_node. cbv zeta.
  assert (get_all_nodes (remove_node ring_3 "node2")
    = distinct ∅ (iter Z.le (ring (remove_node ring_3 "node2"))).*2) as Hall
    by (unfold get_all_nodes; by rewrite collect_distinct).
  assert (node_count (remove_node ring_3 "node2") = 2%nat) as ->.
  { unfold node_count. rewrite Hall, (distinct_ids_length _ (ring (remove_node ring_3 "node2")))
      by by rewrite (iter_permutation Z.le). by rewrite members_13. }
  rewrite same_refl. cbn [assert outcome_bind]. apply assert_true, forallb_forall.
  intros n Hn%list_elem_of_In. rewrite Hall in Hn. apply distinct_subseteq in Hn.
  rewrite (iter_permutation Z.le) in Hn. apply list_elem_of_fmap in Hn as ([p m] & -> & Hp%elem_of_map_to_list).
  apply remove_node_lookup in Hp as [_ Hp]. by apply negb_true_iff, bool_decide_false.
Qed.

(** When no two virtual nodes of the three nodes collide, the tests that count nodes
    pass. *)
Theorem ring_tests_pass_without_collisions :
  no_collision 150 node_ids ->
  test_replication_returns_unique_nodes = Return tt
  /\ test_replication_with_fewer_nodes = Return tt /\ test_remove_node = Return tt.
Proof.
  intros Hnc. split_and!; [by apply unique_nodes_passes|by apply fewer_nodes_passes
    |by apply remove_node_passes].
Qed.

(** *** The two statistical tests *)

(** The owner of a key, when there is one. *)
Definition owner_id (ring : HashRing.t) (i : N) : string :=
  from_option Node.id "" (get_node ring (numbered_key i)).

Lemma owners_eq ring l :
  (forall i, is_Some (get_node ring (numbered_key i))) ->
  owners ring l = Return (owner_id ring <$> l).
Proof.
  intros Hall. induction l as [|i l IH]; [done|]. cbn [owners]. unfold owner at 1, owner_id.
  destruct (Hall i) as [n Hn]. rewrite Hn. cbn [unwrap outcome_bind]. rewrite IH.
  cbn [outcome_bind]. rewrite fmap_cons. unfold owner_id at 1. by rewrite Hn.
Qed.

Lemma zip_filter_length {A B} `{EqDecision B} (f g : A -> B) l :
  length (filter (fun p => p.1 <> p.2) (zip (f <$> l) (g <$> l)))
  = length (filter (fun i => f i <> g i) l).
Proof.
  induction l as [|i l IH]; [done|]. rewrite !fmap_cons. cbn [zip zip_with].
  rewrite !filter_cons. cbn [fst snd]. case_decide; cbn [length]; by rewrite IH.
Qed.

(** A key moves exactly when the new node owns it. *)
Lemma moved_key i : owner_id ring_2 i <> owner_id ring_3 i <-> owner_id ring_3 i = "node3".
Proof.
  unfold owner_id. destruct (owner_2 (numbered_key i)) as (n & Hn & Hin).
  destruct (get_node_add_node ring_2 (make_node "node3") (numbered_key i)) as [E|E];
    fold ring_3 in E; rewrite E, Hn; cbn [from_option];
    rewrite !elem_of_cons in Hin; destruct Hin as [->|[->|Hin%elem_of_nil]]; done.
Qed.

(** How many keys of a loop a node owns. *)
Definition owned (ring : HashRing.t) (id : string) (l : list N) : nat :=
  length (filter (fun i => owner_id ring i = id) l).

(** The disruption test passes exactly when the new node takes fewer than half of the
    keys: no key moves between the old ones. *)
Theorem disruption_test_passes :
  test_minimal_disruption_on_add = Return tt
  <-> (owned ring_3 "node3" (upto 1000) < 500)%nat.
Proof.
  unfold test_minimal_disruption_on_add.
  rewrite (owners_eq ring_2), (owners_eq ring_3).
  - cbn [outcome_bind]. rewrite assert_true, Nat.ltb_lt, zip_filter_length. unfold owned.
    by rewrite (list_filter_iff _ _ _ moved_key).
  - intros i. destruct (owner_3 (numbered_key i)) as (n & -> & _). by eexists.
  - intros i. destruct (owner_2 (numbered_key i)) as (n & -> & _). by eexists.
Qed.

Lemma owner_id_3 i : owner_id ring_3 i ∈ node_ids.
Proof.
  unfold owner_id, node_ids. destruct (owner_3 (numbered_key i)) as (n & -> & Hn). cbn [from_option].
  rewrite !elem_of_cons in *. destruct Hn as [->|[->|[->|Hn%elem_of_nil]]]; tauto.
Qed.

Lemma count_key_eq m i :
  count_key (Return m) i
  = Return (<[owner_id ring_3 i := (default 0 (m !! owner_id ring_3 i) + 1)%N]> m).
Proof.
  unfold count_key, owner_id. cbn [outcome_bind].
  by destruct (owner_3 (numbered_key i)) as (n & -> & _).
Qed.

(** What the counting loop leaves: the positive numbers of keys owned. *)
Lemma counts_eq l m :
  exists m', foldl count_key (Return m) l = Return m'
    /\ (forall id, default 0%N (m' !! id) = (default 0 (m !! id) + N.of_nat (owned ring_3 id l))%N)
    /\ (map_Forall (fun _ c => 0 < c)%N m -> map_Forall (fun _ c => 0 < c)%N m').
Proof.
  revert m; induction l as [|i l IH]; intros m; cbn [foldl].
  { exists m. split_and!; [done|intros id; unfold owned; cbn; lia|done]. }
  rewrite count_key_eq. destruct (IH (<[owner_id ring_3 i :=
    (default 0 (m !! owner_id ring_3 i) + 1)%N]> m)) as (m' & Hm' & Hc & Hpos).
  exists m'. split_and!; [done| |].
  - intros x. rewrite Hc. unfold owned. rewrite filter_cons. case_decide as Hid.
    + subst x. rewrite lookup_insert_eq. cbn [length from_option id]. lia.
    + by rewrite lookup_insert_ne.
  - intros Hm. apply Hpos, map_Forall_insert_2; [lia|done].
Qed.

Lemma owned_total l :
  (forall i, i ∈ l -> owner_id ring_3 i ∈ node_ids) ->
  (owned ring_3 "node1" l + owned ring_3 "node2" l + owned ring_3 "node3" l = length l)%nat.
Proof.
  unfold owned. induction l as [|i l IH]; intros Hl; [done|]. rewrite !filter_cons.
  specialize (IH (fun j Hj => Hl j (list_elem_of_further _ _ _ Hj))).
  pose proof (Hl i (list_elem_of_here _ _)) as Hi. unfold node_ids in Hi. rewrite !elem_of_cons in Hi.
  destruct Hi as [Hi|[Hi|[Hi|Hi%elem_of_nil]]]; [..|done];
    repeat case_decide; try congruence; cbn [length]; lia.
Qed.

Lemma asserts_balanced (l : list (string * N)) :
  foldl (fun r e => let! _ := r in assert (balanced e.2)) (Return tt) l = Return tt
  <-> Forall (fun e => (2000 < e.2 < 4700)%N) l.
Proof.
  assert (forall l, foldl (fun r (e : string * N) => let! _ := r in assert (balanced e.2)) Panic l = Panic)
    as Hpanic by (clear; intros l; induction l; done).
  induction l as [|e l IH]; cbn [foldl]; [done|]. rewrite Forall_cons. cbn [outcome_bind].
  destruct (balanced e.2) eqn:E; cbn [assert].
  - rewrite IH. apply andb_true_iff in E as [?%N.ltb_lt ?%N.ltb_lt]. tauto.
  - rewrite Hpanic. split; [done|]. intros [[Hlo%N.ltb_lt Hhi%N.ltb_lt] _].
    unfold balanced in E. by rewrite Hlo, Hhi in E.
Qed.

(** The distribution test passes exactly when each of the three nodes owns between 20%
    and 47% of the keys, although it only looks at the nodes that own any. *)
Theorem distribution_test_passes :
  test_distribution = Return tt
  <-> Forall (fun id => (2000 < N.of_nat (owned ring_3 id (upto 10000)) < 4700)%N) node_ids.
Proof.
  unfold test_distribution. set (l := upto 10000).
  assert (length l = N.to_nat 10000) as Hl by (unfold l, upto; by rewrite length_fmap, length_seq).
  pose proof (owned_total l (fun i _ => owner_id_3 i)) as Htot. rewrite Hl in Htot. clearbody l.
  destruct (counts_eq l ∅) as (m & -> & Hc & Hpos). cbn [outcome_bind]. rewrite asserts_balanced.
  specialize (Hpos (map_Forall_empty _)).
  assert (forall x c, m !! x = Some c -> c = N.of_nat (owned ring_3 x l)) as Hlook.
  { intros x c Hx. specialize (Hc x). rewrite Hx, lookup_empty in Hc. cbn in Hc. lia. }
  unfold node_ids. rewrite !Forall_cons. split.
  - intros Hall. assert (forall x, (owned ring_3 x l = 0)%nat
      \/ (2000 < N.of_nat (owned ring_3 x l) < 4700)%N) as Hx.
    { intros x. destruct (m !! x) as [c|] eqn:E.
      - right. rewrite <-(Hlook x c E). rewrite Forall_forall in Hall.
        apply (Hall (x, c)). by apply elem_of_map_to_list.
      - left. specialize (Hc x). rewrite E, lookup_empty in Hc. cbn in Hc. lia. }
    destruct (Hx "node1"), (Hx "node2"), (Hx "node3"); (split_and!; [lia..|apply Forall_nil; exact I]).
  - intros (H1 & H2 & H3 & _). apply Forall_forall. intros [x c] Hx%elem_of_map_to_list. cbn [snd].
    pose proof (Hlook x c Hx) as ->. specialize (Hpos x _ Hx). cbn in Hpos.
    assert (x ∈ node_ids) as Hin.
    { destruct (filter (fun i => owner_id ring_3 i = x) l) as [|i l'] eqn:E.
      - unfold owned in Hpos. rewrite E in Hpos. cbn in Hpos. lia.
      - assert (i ∈ filter (fun i => owner_id ring_3 i = x) l) as [<- _]%list_elem_of_filter
          by (rewrite E; by left). apply owner_id_3. }
    unfold node_ids in Hin. rewrite !elem_of_cons in Hin.
    destruct Hin as [->|[->|[->|Hin%elem_of_nil]]]; done.
Qed.
End RingTests.
